(* ===== verification/_CoqProject ===== *)
-Q . S2P
Prelude.v
SortedLists.v
Sha256.v
Utf8.v
Json.v
JsonText.v
JsonPrint.v
Types.v
Ids.v
Codec.v
Capability.v
CapabilityProps.v
State.v
StateNumbers.v
StateData.v
StateWire.v
StateProps.v
Validate.v
CodecProps.v
Outbound.v
Store.v
StoreProps.v
Client.v
SortStrings.v
Program.v
StoreInterface.v
EventStore.v
SessionStore.v
StateStore.v
Server.v
ServerStream.v
MemoryServer.v
Runs.v
ServerRules.v
SendMonitor.v
StreamProps.v
ServerWire.v
Admission.v
AdmissionProps.v
SendSystem.v
Lanes.v
LanesProps.v
LanesOrder.v
SendProps.v
ClientInv.v
ClientSteps.v
ClientProps.v
WellFormed.v
Journal.v
EndToEnd.v
Delivery.v
Handshake.v
StateResume.v
Agreement.v
Replicas.v
Basic.v
