(* ===== verification/Prelude.v ===== *)
(** * Verification of kmtproto

    kmtproto is a transport-independent protocol library: a client state
    machine and a server frame processor exchange JSON frames over a
    connection that the caller owns.  A client opens a Session with HELLO,
    sends messages that the server acknowledges after its application accepted
    them, receives a gap-free stream of EVENTs, survives lost connections by
    RESUME, and mirrors State objects.  This library models the Go sources
    under src/ as executable definitions and proves what makes them correct.

    ** Files, and the sources they model

    - Prelude: results, machine-width integers, strings as byte sequences,
      tactics.  SortedLists: sorted lists.  Sha256, Utf8, Json: what the
      program uses of crypto/sha256, unicode/utf8, unicode, strings and
      encoding/json.  JsonText, JsonPrint: the grammar the scanner accepts, and
      that what the printer writes is read back.
    - Types: types.go, payload.go, action.go, error.go, limits.go, and the
      records of capability.go and state.go.  Errors are values of [goerror]
      with [errors.As] and [errors.Is]; the texts of encoding/json errors and
      of the %q verb are the parameters of the class [StdText].
    - Ids: id.go and clock.go.  A clock reading and the outcome of reading
      random bytes are arguments.
    - Codec, Validate: json_codec.go and validate.go.  A payload structure is
      described by its fields ([Marshal], [decodePayload]); [ValidateFrame]
      has one definition per frame type; [JSONCodec] validates both ways.
      CodecProps: the class [WireLaws] of structures that survive the wire,
      an instance for each payload, and the round trips.
    - Capability, CapabilityProps: capability.go.
    - State, StateNumbers, StateData, StateProps: state.go.  StateWire: what
      json.Marshal makes of State data, and that it keeps its meaning.
    - Outbound: outbound.go, operations and interleavings.
    - Store, StoreProps: the memory stores of store.go.  StoreInterface,
      SessionStore, EventStore, StateStore: the store interfaces as classes,
      each with its contract as laws against an abstract specification (the
      owner of a claim, the registry of Sessions, the journal of EVENTs, the
      archive of State objects), and the memory stores as instances.
    - Client: client.go, a function per method.  SortStrings: its sort.
      ClientInv, ClientSteps, ClientProps: invariant, steps, theorems.
    - Program: handlers of the server as trees of effects ([go]); the critical
      sections on SEND flights; [traces], [exec], and the [monitor] logic with
      its [holds] rules.
    - Server, ServerStream: server.go: construction, dispatch, HELLO, PING,
      SEND; RESUME, STATE_QUERY and publishing.  MemoryServer runs them over
      the memory stores; Runs has the rules for such runs.  ServerRules,
      SendMonitor, StreamProps: proof rules, what a SEND handler may do, what
      stream operations put on the wire.  ServerWire: the class [WirePolicy]
      of conditions on outgoing frames, and that every call of the server
      respects a policy; WellFormed, Agreement and Replicas have instances.
    - SendSystem, SendProps: any number of server threads over shared flights
      and one deduplication store, known only by its interface.
    - Lanes, LanesProps, LanesOrder: runStream and streamLane under
      interleaving.
    - Admission, AdmissionProps: ServerAdmission, sequentially and under
      interleaving.
    - EndToEnd, Delivery, Handshake, StateResume: client, gate, server and
      stores facing each other, over a resume, a SEND, a HELLO and a resume
      with State.
    - WellFormed, Journal, Agreement, Replicas: whole systems, in which calls
      of the server, of clients and of other users of a store follow each
      other in any order and the network loses, repeats and reorders frames:
      what goes on the wire, EVENTs, capabilities, State.
    - Basic: examples/basic/main.go, run on the models.

    ** How state and concurrency are modelled

    A client method holds the client's mutex for its whole body, so it is one
    function from state and clock reading to state and result.  The server
    calls collaborators without holding locks.  A server handler is therefore
    a program whose effects are the collaborator calls and the critical
    sections; theorems about [traces] hold for all answers, errors and panics
    included.  Three step relations interleave: server threads at the
    granularity of effects ([SendSystem]), goroutines in lanes at the
    granularity of critical sections ([Lanes]), and gate calls
    ([Admission]).  The outbound queue has its own, with the wake-up channel.
    The systems of Journal, Agreement and Replicas interleave whole calls with
    steps of other users of the store, which may also fall between any two
    effects of a server call.

    ** What the theorems show

    - SEND (SendProps, StoreProps): over any store that keeps its contract, no
      message is handed to the application twice, and an ACK means that the
      application accepted that content; one owner per claim.
    - The wire (CodecProps): every payload structure and every frame that
      [Encode] accepts is decoded to itself, strictly or not, when its raw
      JSON members are compact and within the nesting bound (and a WELCOME
      holds only fields of its mode).
    - Client and server (Handshake, EndToEnd, Delivery): after a handshake both
      ends have the same Session with the same capabilities; a client that
      resumes receives exactly the EVENTs the replay store returned and ends
      at the server's mark; over the memory stores a resume within the limits
      succeeds, and a SEND is handed to the application once, is acknowledged,
      and gets the same ACK when it is repeated.
    - Systems (Journal, Agreement, Replicas): over any stores that keep their
      contracts, a client reads the journal of appended EVENTs exactly once and
      in order; the capabilities it holds are those the server finds for its
      Session; every State object it caches was committed for that identity,
      up to the compact form in which the encoder prints its data, and a resume
      with State leaves it with exactly what was current at a moment of the
      server's call, without conflicts, unless its cache has no room.
    - Frames (WellFormed): what server and client hand to the network is valid
      and can be encoded.
    - Streams (ClientProps, StreamProps, StoreProps): the client delivers
      1, 2, 3, ... without gap or repetition, a replay is delivered as a whole
      or not at all; the server answers RESUME with exactly the missing range
      in one batch or with an error; Replay returns exactly the range.
    - Lanes (LanesOrder): per-session exclusion, order, completion.
    - Admission (AdmissionProps): READY is earned by a handshake on the same
      connection, stale calls are harmless, CLOSED is final.
    - Client (ClientProps): the invariant of every reachable state, the
      outbox, State monotonicity, resume outcomes, heartbeat, generations.
    - State data (StateData, StateNumbers, StateWire): the merge compares data
      by the value it denotes, numbers as rationals; compaction keeps it.
    - Negotiation, merging, snapshots, queue, identifiers (CapabilityProps,
      StateProps, Outbound, Ids).

    ** Bounds and fuel

    Unsigned 64-bit sequences wrap where the code lets them ([u64]); the
    theorems show that they do not in reachable states.  Signed lengths and
    times are unbounded integers, times in nanoseconds; a difference of times
    saturates as in package time ([Time_Sub]).  Loops whose
    recursion is not structural take fuel that is computed from the input
    and shown sufficient: the JSON scanner's from the text length
    ([json_value_reads] of JsonText characterises it without fuel), the
    capability walk's from the two list lengths, SHA-256 blocks from the word
    count.

    ** Not modelled

    doc.go holds a comment.  RealClock calls time.Now and crypto/rand is read
    for identifiers; both are arguments.  A [context.Context] appears as the
    answer "done" of a wait.  Panics are modelled where the program recovers
    from them, that is in collaborator calls; a Clock is taken to return (the
    protocol document calls clocks prompt value providers).  [mustPayload]
    gives the empty text where the source panics; [mustPayload_total] of
    CodecProps says when it does not.  The strict check for duplicate members
    ([walkStrictJSONValue]) runs on the parsed value instead of the token
    stream, so on a text that is both malformed and has duplicates the error
    text may be another.  The contract of a SessionRepository is read so that
    an id once created is never created again, expired or not; the memory
    repository keeps it. *)

From stdpp Require Export base gmap strings list sorting.
From Stdlib Require Export ZArith Lia.
From Stdlib Require Import Ascii String.
From Stdlib Require DecimalString DecimalZ.

#[global] Open Scope Z_scope.
#[global] Arguments String.append !_ _ /.

(** ** Results: Go's [(value, error)] pairs *)

Inductive result (E A : Type) : Type :=
| Ok (a : A)
| Err (e : E).
Arguments Ok {E A} a.
Arguments Err {E A} e.

#[export] Instance result_mret E : MRet (result E) := fun A a => Ok a.
#[export] Instance result_mbind E : MBind (result E) := fun A B f r =>
  match r with Ok a => f a | Err e => Err e end.

Definition is_Ok {E A} (r : result E A) : bool :=
  match r with Ok _ => true | Err _ => false end.

Definition map_err {E F A} (f : E → F) (r : result E A) : result F A :=
  match r with Ok a => Ok a | Err e => Err (f e) end.

(** A guard clause [if cond { return err }]. *)
Definition guard_err {E} (cond : bool) (e : E) : result E unit :=
  if cond then Err e else Ok tt.

Lemma result_bind_Ok {E A B} (r : result E A) (f : A → result E B) b :
  (r ≫= f) = Ok b ↔ ∃ a, r = Ok a ∧ f a = Ok b.
Proof.
  destruct r as [a|e]; cbn; split.
  - eauto.
  - intros (a' & [= ->] & Hf). done.
  - done.
  - intros (a' & Ha & _). done.
Qed.

Lemma guard_err_Ok {E} (c : bool) (e : E) u : guard_err c e = Ok u ↔ c = false.
Proof. destruct u, c; cbn; done. Qed.

Lemma map_err_Ok {E F A} (f : E → F) (r : result E A) a :
  map_err f r = Ok a ↔ r = Ok a.
Proof. destruct r; cbn; (split; [intros [=]|intros [=]]); by subst. Qed.

(** ** Go's comparison operators on values with decidable equality *)

Declare Scope go_scope.
Delimit Scope go_scope with go.
Notation "x == y" := (bool_decide (x = y)) (at level 70, no associativity) : go_scope.
Notation "x != y" := (negb (bool_decide (x = y))) (at level 70, no associativity) : go_scope.
Notation "s +++ t" := (String.append s t) (at level 60, right associativity) : go_scope.
#[global] Open Scope go_scope.

(** ** Record update [r <| field := v |>], Go's [r.field = v] *)

Class Eta (R : Type) := eta : R → R.
Class Setter {R T : Type} (proj : R → T) := set_field : (T → T) → R → R.

Ltac solve_setter :=
  match goal with
  | |- @Setter ?R ?T ?proj =>
      let f := fresh "f" in let r := fresh "r" in
      intros f r;
      let body := eval cbv [eta] in (@eta R _ r) in
      let body := eval hnf in body in
      let abs := eval pattern (proj r) in body in
      match abs with
      | ?g _ => exact (g (f (proj r)))
      end
  end.

#[export] Hint Extern 1 (Setter _) => solve_setter : typeclass_instances.

Notation "r <| proj := v |>" := (set_field (proj := proj) (fun _ => v) r)
  (at level 1, left associativity, proj constr at level 200, v at level 99,
   format "r  <| proj  :=  v |>") : go_scope.

(** ** Machine integers

    Go's unsigned integers wrap around; [int] is 64 bits wide. *)

Definition MaxUint64 : Z := 2 ^ 64 - 1.
Definition u64 (x : Z) : Z := x mod 2 ^ 64.
Definition is_u64 (x : Z) : Prop := 0 ≤ x ≤ MaxUint64.
Definition MaxInt64 : Z := 2 ^ 63 - 1.
Definition MinInt64 : Z := - 2 ^ 63.

Lemma u64_small x : is_u64 x → u64 x = x.
Proof. unfold is_u64, MaxUint64, u64. intros. apply Z.mod_small. lia. Qed.

Lemma u64_range x : is_u64 (u64 x).
Proof.
  unfold is_u64, MaxUint64, u64.
  pose proof (Z.mod_pos_bound x (2 ^ 64) ltac:(lia)). lia.
Qed.

(** Integer ranges. *)
Lemma seqZ_snoc m n : 0 ≤ n → seqZ m (n + 1) = (seqZ m n ++ [m + n])%list.
Proof. intros. rewrite seqZ_app by lia. done. Qed.

(** Decimal rendering, as [strconv] prints integers. *)
Definition Z_dec (z : Z) : string := DecimalString.NilZero.string_of_int (Z.to_int z).

(** ** Go strings: byte sequences *)

Definition byte_of (a : ascii) : Z := Z.of_N (N_of_ascii a).
Definition chr (z : Z) : ascii := ascii_of_N (Z.to_N z).
Definition slen (s : string) : Z := Z.of_nat (String.length s).
Definition char (z : Z) : string := String (chr z) EmptyString.

Lemma byte_of_range a : 0 ≤ byte_of a < 256.
Proof. unfold byte_of. pose proof (N_ascii_bounded a). lia. Qed.

Lemma byte_of_inj a b : byte_of a = byte_of b → a = b.
Proof.
  unfold byte_of. intros H%N2Z.inj.
  by rewrite <- (ascii_N_embedding a), H, ascii_N_embedding.
Qed.

Lemma byte_of_chr z : 0 ≤ z < 256 → byte_of (chr z) = z.
Proof. unfold byte_of, chr. intros. rewrite N_ascii_embedding; lia. Qed.

Lemma slen_nonneg s : 0 ≤ slen s.
Proof. unfold slen. lia. Qed.

Lemma str_app_assoc (s t u : string) : (s +++ t) +++ u = s +++ (t +++ u).
Proof. induction s; cbn; congruence. Qed.

Lemma str_app_nil_r (s : string) : s +++ EmptyString = s.
Proof. induction s; cbn; congruence. Qed.

Lemma str_length_app (s t : string) :
  String.length (s +++ t) = (String.length s + String.length t)%nat.
Proof. induction s; cbn; congruence. Qed.

Lemma slen_app s t : slen (s +++ t) = slen s + slen t.
Proof. unfold slen. rewrite str_length_app. lia. Qed.

Lemma slen_zero s : slen s = 0 ↔ s = EmptyString.
Proof. unfold slen. destruct s; cbn; [done|]. split; [lia|done]. Qed.

Lemma str_app_inj_r (s t u : string) : s +++ u = t +++ u → s = t.
Proof.
  revert t. induction s as [|a s IH]; intros [|b t] H; cbn in *; [done| | |].
  - apply (f_equal String.length) in H. cbn in H. rewrite str_length_app in H. lia.
  - apply (f_equal String.length) in H. cbn in H. rewrite str_length_app in H. lia.
  - injection H as ->. f_equal. auto.
Qed.

(** The first [n] bytes and the bytes after them. *)
Fixpoint str_take (n : nat) (s : string) : string :=
  match n, s with
  | S n, String a s => String a (str_take n s)
  | _, _ => EmptyString
  end.

Fixpoint str_drop (n : nat) (s : string) : string :=
  match n, s with
  | S n, String _ s => str_drop n s
  | _, _ => s
  end.

Lemma str_take_app s t : str_take (String.length s) (s +++ t) = s.
Proof. induction s; cbn; [by destruct t|congruence]. Qed.

(** [strings.HasPrefix] with the remainder. *)
Fixpoint str_strip (p s : string) : option string :=
  match p, s with
  | EmptyString, _ => Some s
  | String a p, String b s => if (byte_of a =? byte_of b)%Z then str_strip p s else None
  | _, _ => None
  end.

Lemma str_strip_app p s : str_strip p (p +++ s) = Some s.
Proof. induction p; cbn; [done|]. by rewrite Z.eqb_refl. Qed.

Lemma str_strip_Some p s r : str_strip p s = Some r → s = p +++ r.
Proof.
  revert s. induction p as [|a p IH]; cbn; [congruence|].
  intros [|b s]; [done|]. destruct (Z.eqb_spec (byte_of a) (byte_of b)) as [H|]; [|done].
  apply byte_of_inj in H as ->. intros ->%IH. done.
Qed.

Fixpoint str_rev_app (s acc : string) : string :=
  match s with
  | EmptyString => acc
  | String a s => str_rev_app s (String a acc)
  end.
Definition str_rev (s : string) : string := str_rev_app s EmptyString.

Fixpoint str_concat (l : list string) : string :=
  match l with
  | [] => EmptyString
  | s :: l => s +++ str_concat l
  end.

(** [strings.Join]. *)
Fixpoint str_join (sep : string) (l : list string) : string :=
  match l with
  | [] => EmptyString
  | [s] => s
  | s :: l => s +++ sep +++ str_join sep l
  end.

(** The total length of some texts. *)
Definition texts_len (texts : list string) : Z := foldr (fun t n => slen t + n) 0 texts.

Lemma texts_len_cons t texts : texts_len (t :: texts) = slen t + texts_len texts.
Proof. done. Qed.

Lemma texts_len_nonneg texts : 0 ≤ texts_len texts.
Proof. unfold texts_len. induction texts as [|t l IH]; cbn; [done|]. pose proof (slen_nonneg t). cbn in IH. lia. Qed.

Lemma texts_len_snoc texts t : texts_len (texts ++ [t])%list = texts_len texts + slen t.
Proof. unfold texts_len. induction texts as [|u l IH]; cbn; [lia|]. cbn in IH. lia. Qed.

(** Does a byte satisfying [p] occur, and do all bytes satisfy [p]? *)
Fixpoint str_forall (p : ascii → bool) (s : string) : bool :=
  match s with
  | EmptyString => true
  | String a s => p a && str_forall p s
  end.

Lemma str_forall_app p s t : str_forall p (s +++ t) = str_forall p s && str_forall p t.
Proof. induction s; cbn; [done|]. by rewrite IHs, andb_assoc. Qed.

(** Go's string order is the byte-wise lexicographic one. *)
Fixpoint str_ltb (s t : string) : bool :=
  match s, t with
  | _, EmptyString => false
  | EmptyString, String _ _ => true
  | String a s, String b t =>
      if (byte_of a <? byte_of b)%Z then true
      else if (byte_of a =? byte_of b)%Z then str_ltb s t else false
  end.

Definition str_lt (s t : string) : Prop := str_ltb s t = true.
Definition str_le (s t : string) : Prop := str_ltb t s = false.
Notation "s <s t" := (str_ltb s t) (at level 70, no associativity) : go_scope.
Notation "s <=s t" := (negb (str_ltb t s)) (at level 70, no associativity) : go_scope.

#[export] Instance str_lt_dec s t : Decision (str_lt s t) :=
  decide (str_ltb s t = true).
#[export] Instance str_le_dec s t : Decision (str_le s t) :=
  decide (str_ltb t s = false).

Lemma str_ltb_irrefl s : str_ltb s s = false.
Proof. induction s; cbn; [done|]. by rewrite Z.ltb_irrefl, Z.eqb_refl. Qed.

Lemma str_lt_trans s t u : str_lt s t → str_lt t u → str_lt s u.
Proof.
  unfold str_lt. revert t u.
  induction s as [|a s IH]; intros [|b t] [|c u]; cbn; try done.
  repeat case_match; rewrite ?Z.ltb_lt, ?Z.ltb_ge, ?Z.eqb_eq, ?Z.eqb_neq in *;
    try done; try lia; eauto.
Qed.

Lemma str_trichotomy s t : str_lt s t ∨ s = t ∨ str_lt t s.
Proof.
  unfold str_lt. revert t. induction s as [|a s IH]; intros [|b t]; cbn; auto.
  destruct (Z.ltb_spec (byte_of a) (byte_of b)) as [|H1]; [auto|].
  destruct (Z.ltb_spec (byte_of b) (byte_of a)) as [|H2].
  { destruct (Z.eqb_spec (byte_of a) (byte_of b)); auto. }
  assert (byte_of a = byte_of b) as E by lia.
  rewrite E, Z.eqb_refl. apply byte_of_inj in E as ->.
  destruct (IH t) as [?|[->|?]]; auto.
Qed.

Lemma str_lt_irrefl s : ¬ str_lt s s.
Proof. unfold str_lt. by rewrite str_ltb_irrefl. Qed.

Lemma str_lt_ne s t : str_lt s t → s ≠ t.
Proof. intros H ->. by apply str_lt_irrefl in H. Qed.

Lemma str_le_lt_or_eq s t : str_le s t ↔ str_lt s t ∨ s = t.
Proof.
  unfold str_le. split.
  - intros H. destruct (str_trichotomy s t) as [?|[->|Hl]]; auto.
    unfold str_lt in Hl. congruence.
  - intros [H| ->]; [|apply str_ltb_irrefl].
    destruct (str_ltb t s) eqn:E; [|done].
    exfalso. eapply str_lt_irrefl, str_lt_trans; eauto.
Qed.

#[export] Instance str_le_trans : Transitive str_le.
Proof.
  intros s t u. rewrite !str_le_lt_or_eq.
  intros [?| ->] [?| ->]; eauto using str_lt_trans.
Qed.
#[export] Instance str_le_total : Total str_le.
Proof. intros s t. rewrite !str_le_lt_or_eq. destruct (str_trichotomy s t); naive_solver. Qed.
#[export] Instance str_le_antisym : AntiSymm (=) str_le.
Proof.
  intros s t. rewrite !str_le_lt_or_eq. intros [H1| ->] [H2|H2]; try done.
  exfalso. eapply str_lt_irrefl, str_lt_trans; eauto.
Qed.

(** ** Time

    [time.Time] is an instant in nanoseconds relative to the Unix epoch;
    the zero [time.Time] is the start of year 1.  A [time.Duration] is a
    64-bit number of nanoseconds, and [Sub] saturates at its bounds. *)

Definition time := Z.
Definition Duration := Z.
Definition zeroTime : time := -62135596800 * 10 ^ 9.
Definition UnixMilli (t : time) : Z := t / 10 ^ 6.
Definition Time_Sub (t u : time) : Duration := Z.max MinInt64 (Z.min MaxInt64 (t - u)).
Definition Time_Add (t : time) (d : Duration) : time := t + d.
Definition Second : Duration := 10 ^ 9.
Definition Hour : Duration := 3600 * Second.

(** ** Automation *)

(** Split a successful computation in the error monad into its steps. *)
Ltac inv_ok :=
  repeat match goal with
  | H : (_ ≫= _) = Ok _ |- _ => apply result_bind_Ok in H as (? & ? & H); cbn in H
  | H : guard_err _ _ = Ok ?u |- _ => apply guard_err_Ok in H
  | H : map_err _ _ = Ok _ |- _ => apply map_err_Ok in H
  | H : Ok _ = Ok _ |- _ => injection H as H; try subst
  | H : mret _ = Ok _ |- _ => injection H as H; try subst
  | H : Err _ = Ok _ |- _ => discriminate H
  | H : Ok _ = Err _ |- _ => discriminate H
  | u : unit |- _ => destruct u
  end.

(** Turn boolean tests of the code into propositions. *)
Ltac bools :=
  repeat match goal with
  | H : _ && _ = true |- _ => apply andb_true_iff in H as [? H]
  | H : _ || _ = false |- _ => apply orb_false_iff in H as [? H]
  | H : negb _ = true |- _ => apply negb_true_iff in H
  | H : negb _ = false |- _ => apply negb_false_iff in H
  | H : bool_decide _ = true |- _ => apply bool_decide_eq_true in H
  | H : bool_decide _ = false |- _ => apply bool_decide_eq_false in H
  | H : (_ <? _) = true |- _ => apply Z.ltb_lt in H
  | H : (_ <? _) = false |- _ => apply Z.ltb_ge in H
  | H : (_ <=? _) = true |- _ => apply Z.leb_le in H
  | H : (_ <=? _) = false |- _ => apply Z.leb_gt in H
  | H : (_ =? _) = true |- _ => apply Z.eqb_eq in H
  | H : (_ =? _) = false |- _ => apply Z.eqb_neq in H
  end.

Create HintDb kmt.
Create Rewrite HintDb kmt.
#[export] Hint Resolve slen_nonneg byte_of_range u64_range str_lt_trans : kmt.
#[export] Hint Rewrite str_app_assoc str_app_nil_r slen_app : kmt.
