(* ===== verification/SortedLists.v ===== *)
(** * Sorted lists

    Facts about strongly sorted lists that capability negotiation, the State
    snapshots and the outbox share. *)

From Stdlib Require Import Ascii String.
From S2P Require Import Prelude.
Open Scope list_scope.
Open Scope Z_scope.

Lemma sorted_lookup_le (l : list Z) a b v w :
  StronglySorted Z.le l → l !! a = Some v → l !! b = Some w → (a ≤ b)%nat → v ≤ w.
Proof.
  intros Hs. revert a b. induction Hs as [|x l Hs IH Hx]; intros a b Ha Hb Hab; [done|].
  destruct a as [|a], b as [|b]; cbn in *; simplify_eq; try lia.
  - rewrite Forall_forall in Hx. apply Hx. by eapply list_elem_of_lookup_2.
  - eapply IH; [exact Ha|exact Hb|lia].
Qed.

(** Without repetitions a sorted list of strings is strictly sorted. *)
Lemma sorted_strict l : StronglySorted str_le l → NoDup l → StronglySorted str_lt l.
Proof.
  intros Hs Hn. induction Hs as [|x l Hs IH Hx]; constructor.
  - apply IH. by inversion Hn.
  - apply Forall_forall. intros y Hy. rewrite Forall_forall in Hx.
    destruct (str_le_lt_or_eq x y) as [Hle _]. destruct (Hle (Hx y Hy)) as [| ->]; [done|].
    by inversion Hn.
Qed.
