(* ===== verification/Sha256.v ===== *)
(** * SHA-256

    [sha256.Sum256], with which the server fingerprints the content of a
    SEND.  Words are 32-bit integers. *)

From Stdlib Require Import Ascii String.
From S2P Require Import Prelude.
Open Scope list_scope.
Open Scope Z_scope.

Definition w32 (x : Z) : Z := x mod 2 ^ 32.
Definition rotr (n x : Z) : Z := Z.lor (Z.shiftr x n) (w32 (Z.shiftl x (32 - n))).
Definition not32 (x : Z) : Z := 2 ^ 32 - 1 - x.

Definition bsig0 (x : Z) : Z := Z.lxor (rotr 2 x) (Z.lxor (rotr 13 x) (rotr 22 x)).
Definition bsig1 (x : Z) : Z := Z.lxor (rotr 6 x) (Z.lxor (rotr 11 x) (rotr 25 x)).
Definition ssig0 (x : Z) : Z := Z.lxor (rotr 7 x) (Z.lxor (rotr 18 x) (Z.shiftr x 3)).
Definition ssig1 (x : Z) : Z := Z.lxor (rotr 17 x) (Z.lxor (rotr 19 x) (Z.shiftr x 10)).
Definition choose (x y z : Z) : Z := Z.lxor (Z.land x y) (Z.land (not32 x) z).
Definition majority (x y z : Z) : Z := Z.lxor (Z.land x y) (Z.lxor (Z.land x z) (Z.land y z)).

(** The constants are the first 32 fractional bits of roots of the first
    primes: of the cube roots of 64 primes for the rounds, of the square
    roots of 8 primes for the initial hash. *)
Definition is_prime (n : Z) : bool :=
  forallb (fun d => negb (n mod Z.of_nat d =? 0)) (seq 2 (Z.to_nat n - 2)).
Definition first_primes (count : nat) : list Z :=
  take count (List.filter is_prime (map Z.of_nat (seq 2 310))).

(** The largest cube root of at most [bits] bits that does not exceed [n],
    found bit by bit. *)
Fixpoint cube_root (bits : nat) (acc n : Z) : Z :=
  match bits with
  | O => acc
  | S bits =>
      let next := acc + 2 ^ Z.of_nat bits in
      cube_root bits (if next * next * next <=? n then next else acc) n
  end.

Definition round_constants : list Z :=
  Eval vm_compute in map (fun p => w32 (cube_root 36 0 (Z.shiftl p 96))) (first_primes 64).
Definition initial_hash : list Z :=
  Eval vm_compute in map (fun p => w32 (Z.sqrt (Z.shiftl p 64))) (first_primes 8).

Fixpoint bytes_of (s : string) : list Z :=
  match s with EmptyString => [] | String a s => byte_of a :: bytes_of s end.
Fixpoint string_of (bs : list Z) : string :=
  match bs with [] => EmptyString | b :: bs => String (chr b) (string_of bs) end.

(** The [n] bytes of [x], most significant first. *)
Fixpoint be_bytes (n : nat) (x : Z) : list Z :=
  match n with O => [] | S n => (x / 256 ^ Z.of_nat n) mod 256 :: be_bytes n x end.

(** A one bit, zeros, and the length in bits: a whole number of blocks. *)
Definition padding (len : Z) : list Z :=
  0x80 :: repeat 0 (Z.to_nat ((55 - len) mod 64)) ++ be_bytes 8 (8 * len).

Fixpoint words (bs : list Z) : list Z :=
  match bs with
  | a :: b :: c :: d :: bs => Z.lor (Z.shiftl a 24) (Z.lor (Z.shiftl b 16) (Z.lor (Z.shiftl c 8) d)) :: words bs
  | _ => []
  end.

(** The message schedule; [w] holds the last sixteen words, oldest first. *)
Fixpoint schedule (n : nat) (w : list Z) : list Z :=
  match n with
  | O => []
  | S n =>
      match w with
      | w0 :: rest =>
          let get i := default 0 (w !! i) in
          let next := w32 (ssig1 (get 14%nat) + get 9%nat + ssig0 (get 1%nat) + w0) in
          w0 :: schedule n (rest ++ [next])
      | [] => []
      end
  end.

Definition round (st : list Z) (kw : Z * Z) : list Z :=
  match st with
  | [a; b; c; d; e; f; g; h] =>
      let t1 := h + bsig1 e + choose e f g + kw.1 + kw.2 in
      let t2 := bsig0 a + majority a b c in
      [w32 (t1 + t2); a; b; c; w32 (d + t1); e; f; g]
  | _ => st
  end.

Definition compress (hash block : list Z) : list Z :=
  zip_with (fun x y => w32 (x + y)) hash
    (foldl round hash (zip round_constants (schedule 64 block))).

Fixpoint blocks (fuel : nat) (hash ws : list Z) : list Z :=
  match fuel, ws with
  | S fuel, _ :: _ => blocks fuel (compress hash (take 16 ws)) (drop 16 ws)
  | _, _ => hash
  end.

(** The digest as a 32-byte string. *)
Definition Sum256 (data : string) : string :=
  let ws := words (bytes_of data ++ padding (slen data)) in
  string_of (concat (map (be_bytes 4) (blocks (length ws) initial_hash ws))).

Example sha256_abc :
  bytes_of (Sum256 "abc")
  = [0xba; 0x78; 0x16; 0xbf; 0x8f; 0x01; 0xcf; 0xea; 0x41; 0x41; 0x40; 0xde; 0x5d; 0xae; 0x22; 0x23;
     0xb0; 0x03; 0x61; 0xa3; 0x96; 0x17; 0x7a; 0x9c; 0xb4; 0x10; 0xff; 0x61; 0xf2; 0x00; 0x15; 0xad].
Proof. vm_compute. reflexivity. Qed.

(** Two blocks. *)
Example sha256_two_blocks :
  take 4 (bytes_of (Sum256 "abcdbcdecdefdefgefghfghighijhijkijkljklmklmnlmnomnopnopq"))
  = [0x24; 0x8d; 0x6a; 0x61].
Proof. vm_compute. reflexivity. Qed.
