(* ===== verification/Utf8.v ===== *)
(** * UTF-8, unicode classes and white space

    What the program uses of the packages [unicode/utf8], [unicode],
    [unicode/utf16] and [bytes]: decoding a string into runes, validity,
    [IsControl], rune encoding and [TrimSpace].  A Go string is an arbitrary
    byte sequence; [utf8_segs] cuts it the way [utf8.DecodeRuneInString] does,
    one well-formed encoding or one invalid byte at a time. *)

From Stdlib Require Import Ascii String.
From S2P Require Import Prelude.

Inductive seg :=
| Good (r : Z) (bytes : string)
| Bad (b : ascii).

Definition RuneError : Z := 0xFFFD.

Definition in_range (lo hi x : Z) : bool := (lo <=? x) && (x <=? hi).
Definition is_cont (x : Z) : bool := in_range 0x80 0xBF x.

(** Well-formed encodings of two, three and four bytes (the [first] and
    [acceptRanges] tables of [unicode/utf8]). *)
Definition ok2 (a b : Z) : bool := in_range 0xC2 0xDF a && is_cont b.
Definition ok3 (a b c : Z) : bool :=
  ((a =? 0xE0) && in_range 0xA0 0xBF b
   || (in_range 0xE1 0xEC a || in_range 0xEE 0xEF a) && is_cont b
   || (a =? 0xED) && in_range 0x80 0x9F b)
  && is_cont c.
Definition ok4 (a b c d : Z) : bool :=
  ((a =? 0xF0) && in_range 0x90 0xBF b
   || in_range 0xF1 0xF3 a && is_cont b
   || (a =? 0xF4) && in_range 0x80 0x8F b)
  && is_cont c && is_cont d.

Definition rune2 (a b : Z) : Z := (a mod 32) * 64 + b mod 64.
Definition rune3 (a b c : Z) : Z := (a mod 16) * 4096 + (b mod 64) * 64 + c mod 64.
Definition rune4 (a b c d : Z) : Z :=
  (a mod 8) * 262144 + (b mod 64) * 4096 + (c mod 64) * 64 + d mod 64.

Fixpoint utf8_segs (s : string) : list seg :=
  match s with
  | EmptyString => []
  | String a r =>
      let x := byte_of a in
      if x <? 0x80 then Good x (String a EmptyString) :: utf8_segs r else
      match r with
      | EmptyString => Bad a :: utf8_segs r
      | String b r1 =>
          let y := byte_of b in
          if ok2 x y then Good (rune2 x y) (String a (String b EmptyString)) :: utf8_segs r1 else
          match r1 with
          | EmptyString => Bad a :: utf8_segs r
          | String c r2 =>
              let z := byte_of c in
              if ok3 x y z
              then Good (rune3 x y z) (String a (String b (String c EmptyString))) :: utf8_segs r2 else
              match r2 with
              | EmptyString => Bad a :: utf8_segs r
              | String d r3 =>
                  let w := byte_of d in
                  if ok4 x y z w
                  then Good (rune4 x y z w)
                         (String a (String b (String c (String d EmptyString)))) :: utf8_segs r3
                  else Bad a :: utf8_segs r
              end
          end
      end
  end.

Definition seg_bytes (g : seg) : string :=
  match g with Good _ bs => bs | Bad b => String b EmptyString end.
Definition seg_rune (g : seg) : Z :=
  match g with Good r _ => r | Bad _ => RuneError end.
Definition seg_good (g : seg) : bool :=
  match g with Good _ _ => true | Bad _ => false end.

(** [utf8.ValidString] and the runes of [for _, r := range s]. *)
Definition utf8_ValidString (s : string) : bool := forallb seg_good (utf8_segs s).
Definition range_runes (s : string) : list Z := map seg_rune (utf8_segs s).

(** [utf8.RuneStart]. *)
Definition RuneStart (b : ascii) : bool := negb (is_cont (byte_of b)).

(** [unicode.IsControl]: the category Cc, which lies in Latin-1. *)
Definition IsControl (r : Z) : bool := in_range 0 0x1F r || in_range 0x7F 0x9F r.

(** [utf8.AppendRune]. *)
Definition is_surrogate (r : Z) : bool := in_range 0xD800 0xDFFF r.
Definition encode_rune (r0 : Z) : string :=
  let r := if (r0 <? 0) || (0x10FFFF <? r0) || is_surrogate r0 then RuneError else r0 in
  if r <? 0x80 then char r
  else if r <? 0x800 then char (0xC0 + r / 64) +++ char (0x80 + r mod 64)
  else if r <? 0x10000
  then char (0xE0 + r / 4096) +++ char (0x80 + (r / 64) mod 64) +++ char (0x80 + r mod 64)
  else char (0xF0 + r / 262144) +++ char (0x80 + (r / 4096) mod 64)
       +++ char (0x80 + (r / 64) mod 64) +++ char (0x80 + r mod 64).

(** [utf16.DecodeRune]. *)
Definition utf16_DecodeRune (r1 r2 : Z) : Z :=
  if in_range 0xD800 0xDBFF r1 && in_range 0xDC00 0xDFFF r2
  then (r1 - 0xD800) * 1024 + (r2 - 0xDC00) + 0x10000
  else RuneError.

(** The runes of Unicode's White_Space property. *)
Definition space_runes : list Z :=
  [0x09; 0x0A; 0x0B; 0x0C; 0x0D; 0x20; 0x85; 0xA0; 0x1680;
   0x2000; 0x2001; 0x2002; 0x2003; 0x2004; 0x2005; 0x2006; 0x2007; 0x2008;
   0x2009; 0x200A; 0x2028; 0x2029; 0x202F; 0x205F; 0x3000].

Definition strip_any (ps : list string) (s : string) : option string :=
  foldr (fun p acc => match str_strip p s with Some r => Some r | None => acc end) None ps.

(** Remove leading occurrences of any of [ps]; every removal shortens the
    string, so its length is enough fuel. *)
Fixpoint trim_left (ps : list string) (fuel : nat) (s : string) : string :=
  match fuel with
  | O => s
  | S fuel =>
      match strip_any ps s with
      | Some r => trim_left ps fuel r
      | None => s
      end
  end.

(** [bytes.TrimSpace]. *)
Definition TrimSpace (s : string) : string :=
  let ps := map encode_rune space_runes in
  let l := trim_left ps (String.length s) s in
  str_rev (trim_left (map str_rev ps) (String.length l) (str_rev l)).

(** ** Facts *)

Lemma utf8_segs_concat s : str_concat (map seg_bytes (utf8_segs s)) = s.
Proof.
  remember (String.length s) as n eqn:Hn. assert (String.length s ≤ n)%nat as Hle by lia.
  clear Hn. revert s Hle. induction n as [n IH] using lt_wf_ind. intros s Hle.
  destruct s as [|a r]; [done|]. cbn [utf8_segs].
  assert (∀ t, (String.length t < n)%nat → str_concat (map seg_bytes (utf8_segs t)) = t) as IH'
    by (intros t Ht; eapply (IH _ Ht); lia).
  cbn in Hle.
  repeat (case_match; cbn in Hle); subst; cbn [map str_concat seg_bytes String.append];
    rewrite ?IH' by (cbn; lia); done.
Qed.

