(* ===== verification/Json.v ===== *)
(** * The JSON wire syntax, as [encoding/json] reads and writes it

    The program treats payloads as byte strings and hands them to the
    standard library.  This file models what it uses of that library (Go
    1.22): the grammar accepted by the scanner with its nesting bound,
    unquoting of strings, the text of a member kept as a [json.RawMessage],
    the encoder's string escaping, and the compaction a [json.RawMessage]
    undergoes when it is marshalled. *)

From Stdlib Require Import Ascii String.
From S2P Require Import Prelude Utf8.

(** Failures of the standard library.  The program forwards their text but
    never branches on it. *)
Inductive json_error :=
| JSyntax                        (* malformed or truncated input *)
| JEOF                           (* io.EOF: only white space is left *)
| JType                          (* a value of another type than the field *)
| JUnknownField (name : string)  (* DisallowUnknownFields *)
| JMarshal.                      (* a json.RawMessage that is not JSON *)

#[local] Set Warnings "-register-all".

(** ** Values

    [JNumber] keeps the literal ([json.Number]); a member keeps the text of
    its value next to the value, for [json.RawMessage] fields. *)
Inductive jvalue :=
| JNull
| JBool (b : bool)
| JNumber (text : string)
| JString (s : string)
| JArray (vs : list jvalue)
| JObject (ms : list (string * string * jvalue)).

(** ** Lexical level *)

Definition q_quote : Z := 34.
Definition q_backslash : Z := 92.

Definition is_ws (a : ascii) : bool :=
  let c := byte_of a in (c =? 32) || (c =? 9) || (c =? 13) || (c =? 10).

Fixpoint skip_ws (s : string) : string :=
  match s with
  | String a r => if is_ws a then skip_ws r else s
  | EmptyString => EmptyString
  end.

Definition is_digit (a : ascii) : bool := in_range 48 57 (byte_of a).
Definition is_hex (a : ascii) : bool :=
  let c := byte_of a in in_range 48 57 c || in_range 97 102 c || in_range 65 70 c.
Definition hex_val (c : Z) : Z :=
  if in_range 48 57 c then c - 48 else if in_range 97 102 c then c - 87 else c - 55.

(** The longest prefix of digits and what follows it. *)
Fixpoint span_digits (s : string) : string * string :=
  match s with
  | String a r =>
      if is_digit a then let '(ds, t) := span_digits r in (String a ds, t)
      else (EmptyString, s)
  | EmptyString => (EmptyString, EmptyString)
  end.

Definition lex_int (s : string) : option (string * string) :=
  match s with
  | String a r =>
      if byte_of a =? 48 then Some (String a EmptyString, r)
      else if is_digit a then Some (span_digits s)
      else None
  | EmptyString => None
  end.

(** An optional fraction or exponent: absent, well formed or broken. *)
Definition lex_frac (s : string) : option (string * string) :=
  match s with
  | String a r =>
      if byte_of a =? 46 then
        let '(ds, t) := span_digits r in
        if ds == EmptyString then None else Some (String a ds, t)
      else Some (EmptyString, s)
  | EmptyString => Some (EmptyString, s)
  end.

Definition lex_exp (s : string) : option (string * string) :=
  match s with
  | String a r =>
      if (byte_of a =? 101) || (byte_of a =? 69) then
        let '(sg, r1) :=
          match r with
          | String b r1 =>
              if (byte_of b =? 43) || (byte_of b =? 45) then (String b EmptyString, r1)
              else (EmptyString, r)
          | EmptyString => (EmptyString, r)
          end in
        let '(ds, t) := span_digits r1 in
        if ds == EmptyString then None else Some (String a (sg +++ ds), t)
      else Some (EmptyString, s)
  | EmptyString => Some (EmptyString, s)
  end.

Definition lex_number (s : string) : option (string * string) :=
  let '(sg, s1) :=
    match s with
    | String a r => if byte_of a =? 45 then (String a EmptyString, r) else (EmptyString, s)
    | EmptyString => (EmptyString, s)
    end in
  '(ip, s2) ← lex_int s1;
  '(fp, s3) ← lex_frac s2;
  '(ep, s4) ← lex_exp s3;
  Some (sg +++ ip +++ fp +++ ep, s4).

(** The body of a string literal and the text after its closing quote. *)
Fixpoint scan_string (s : string) : option (string * string) :=
  match s with
  | EmptyString => None
  | String a r =>
      let c := byte_of a in
      if c =? q_quote then Some (EmptyString, r)
      else if c =? q_backslash then
        match r with
        | EmptyString => None
        | String b r1 =>
            let e := byte_of b in
            if (e =? 98) || (e =? 102) || (e =? 110) || (e =? 114) || (e =? 116)
               || (e =? 92) || (e =? 47) || (e =? 34) then
              '(body, t) ← scan_string r1; Some (String a (String b body), t)
            else if e =? 117 then
              match r1 with
              | String h1 (String h2 (String h3 (String h4 r2))) =>
                  if is_hex h1 && is_hex h2 && is_hex h3 && is_hex h4 then
                    '(body, t) ← scan_string r2;
                    Some (String a (String b (String h1 (String h2 (String h3 (String h4 body))))), t)
                  else None
              | _ => None
              end
            else None
        end
      else if c <? 32 then None
      else '(body, t) ← scan_string r; Some (String a body, t)
  end.

(** Unquoting: literal pieces and UTF-16 code units, then surrogate pairs. *)
Inductive str_item :=
| ILit (bytes : string)
| IUnit (u : Z).

Definition escape_char (e : Z) : Z :=
  if e =? 98 then 8 else if e =? 102 then 12 else if e =? 110 then 10
  else if e =? 114 then 13 else if e =? 116 then 9 else e.

Definition replacement : string := encode_rune RuneError.

Fixpoint string_items (l : list seg) : list str_item :=
  match l with
  | [] => []
  | g :: t =>
      if seg_rune g =? q_backslash then
        match t with
        | [] => []
        | e :: t1 =>
            if seg_rune e =? 117 then
              match t1 with
              | h1 :: h2 :: h3 :: h4 :: t2 =>
                  IUnit (((hex_val (seg_rune h1) * 16 + hex_val (seg_rune h2)) * 16
                          + hex_val (seg_rune h3)) * 16 + hex_val (seg_rune h4))
                    :: string_items t2
              | _ => []
              end
            else ILit (char (escape_char (seg_rune e))) :: string_items t1
        end
      else
        ILit (match g with Good _ bs => bs | Bad _ => replacement end) :: string_items t
  end.

Fixpoint items_text (l : list str_item) : string :=
  match l with
  | [] => EmptyString
  | ILit bs :: t => bs +++ items_text t
  | IUnit u :: t =>
      if is_surrogate u then
        match t with
        | IUnit u2 :: t2 =>
            let d := utf16_DecodeRune u u2 in
            if d =? RuneError then replacement +++ items_text t
            else encode_rune d +++ items_text t2
        | _ => replacement +++ items_text t
        end
      else encode_rune u +++ items_text t
  end.

Definition unquote (body : string) : string := items_text (string_items (utf8_segs body)).

(** ** Values

    [maxNestingDepth] is the scanner's bound; the fuel of [json_parse] is
    the input length, since every call consumes a byte ([json_value_reads] of
    JsonText). *)
Definition maxNestingDepth : Z := 10000.

Definition text_between (s rest : string) : string :=
  str_take (String.length s - String.length rest) s.

Definition lex_literal (s : string) : option (jvalue * string) :=
  match str_strip "true" s with
  | Some r => Some (JBool true, r)
  | None =>
      match str_strip "false" s with
      | Some r => Some (JBool false, r)
      | None =>
          match str_strip "null" s with
          | Some r => Some (JNull, r)
          | None => '(n, r) ← lex_number s; Some (JNumber n, r)
          end
      end
  end.

Fixpoint parse_value (fuel : nat) (depth : Z) (s : string) : option (jvalue * string) :=
  match fuel with
  | O => None
  | S fuel =>
      match skip_ws s with
      | EmptyString => None
      | String a r =>
          let c := byte_of a in
          if c =? 123 then
            if depth <=? 0 then None else
            match skip_ws r with
            | EmptyString => None
            | String b r1 =>
                if byte_of b =? 125 then Some (JObject [], r1)
                else '(ms, t) ← parse_members fuel (depth - 1) (String b r1); Some (JObject ms, t)
            end
          else if c =? 91 then
            if depth <=? 0 then None else
            match skip_ws r with
            | EmptyString => None
            | String b r1 =>
                if byte_of b =? 93 then Some (JArray [], r1)
                else '(vs, t) ← parse_elements fuel (depth - 1) (String b r1); Some (JArray vs, t)
            end
          else if c =? q_quote then
            '(body, t) ← scan_string r; Some (JString (unquote body), t)
          else lex_literal (String a r)
      end
  end
with parse_members (fuel : nat) (depth : Z) (s : string)
  : option (list (string * string * jvalue) * string) :=
  match fuel with
  | O => None
  | S fuel =>
      match skip_ws s with
      | EmptyString => None
      | String q r =>
          if byte_of q =? q_quote then
            '(body, r1) ← scan_string r;
            match skip_ws r1 with
            | EmptyString => None
            | String c r2 =>
                if byte_of c =? 58 then
                  let r3 := skip_ws r2 in
                  '(v, r4) ← parse_value fuel depth r3;
                  let m := (unquote body, text_between r3 r4, v) in
                  match skip_ws r4 with
                  | EmptyString => None
                  | String d r5 =>
                      if byte_of d =? 44 then
                        '(ms, t) ← parse_members fuel depth r5; Some (m :: ms, t)
                      else if byte_of d =? 125 then Some ([m], r5)
                      else None
                  end
                else None
            end
          else None
      end
  end
with parse_elements (fuel : nat) (depth : Z) (s : string)
  : option (list jvalue * string) :=
  match fuel with
  | O => None
  | S fuel =>
      '(v, r) ← parse_value fuel depth s;
      match skip_ws r with
      | EmptyString => None
      | String d r1 =>
          if byte_of d =? 44 then
            '(vs, t) ← parse_elements fuel depth r1; Some (v :: vs, t)
          else if byte_of d =? 93 then Some ([v], r1)
          else None
      end
  end.

(** One value at the front of the input. *)
Definition json_parse (s : string) : option (jvalue * string) :=
  parse_value (S (String.length s)) maxNestingDepth s.

(** A stream decoder's [Decode]: the next value and the unread input. *)
Definition dec_Decode (s : string) : result json_error (jvalue * string) :=
  match skip_ws s with
  | EmptyString => Err JEOF
  | _ => match json_parse s with Some p => Ok p | None => Err JSyntax end
  end.

(** [json.Unmarshal] and [json.Valid]: one value and nothing but white space. *)
Definition json_value (s : string) : option jvalue :=
  '(v, r) ← json_parse s;
  match skip_ws r with EmptyString => Some v | _ => None end.

Definition json_Valid (s : string) : bool :=
  match json_value s with Some _ => true | None => false end.

(** ** Encoding *)

Definition hex_digit (d : Z) : string :=
  if d <? 10 then char (48 + d) else char (87 + d).

(** An ASCII byte inside a string, with the encoder's HTML-safe set. *)
Definition esc_ascii (c : Z) : string :=
  if (c =? 34) || (c =? 92) then char 92 +++ char c
  else if c =? 8 then char 92 +++ char 98
  else if c =? 12 then char 92 +++ char 102
  else if c =? 10 then char 92 +++ char 110
  else if c =? 13 then char 92 +++ char 114
  else if c =? 9 then char 92 +++ char 116
  else if (c <? 32) || (c =? 60) || (c =? 62) || (c =? 38)
  then char 92 +++ "u00" +++ hex_digit (c / 16) +++ hex_digit (c mod 16)
  else char c.

Definition esc_seg (g : seg) : string :=
  match g with
  | Bad _ => char 92 +++ "ufffd"
  | Good r bs =>
      if r <? 128 then esc_ascii r
      else if (r =? 0x2028) || (r =? 0x2029) then char 92 +++ "u202" +++ hex_digit (r mod 16)
      else bs
  end.

Definition quote_char : string := char 34.
Definition enc_body (s : string) : string := str_concat (map esc_seg (utf8_segs s)).
Definition enc_string (s : string) : string := quote_char +++ enc_body s +++ quote_char.

(** Compaction of a valid text: white space outside strings is dropped and
    [<], [>], [&], U+2028 and U+2029 are escaped. *)
Fixpoint compact (instr esc : bool) (s : string) : string :=
  match s with
  | EmptyString => EmptyString
  | String a r =>
      let c := byte_of a in
      if instr then
        let plain :=
          String a (compact (negb (c =? q_quote) || esc) (negb esc && (c =? q_backslash)) r) in
        if (c =? 60) || (c =? 62) || (c =? 38) then
          char 92 +++ "u00" +++ hex_digit (c / 16) +++ hex_digit (c mod 16) +++ compact true false r
        else if c =? 0xE2 then
          match r with
          | String b (String d r2) =>
              if (byte_of b =? 0x80) && in_range 0xA8 0xA9 (byte_of d)
              then char 92 +++ "u202" +++ hex_digit (byte_of d mod 16) +++ compact true false r2
              else plain
          | _ => plain
          end
        else plain
      else if is_ws a then compact false false r
      else String a (compact (c =? q_quote) false r)
  end.

(** What the encoder is given: a Go value laid out as JSON.  Struct fields
    appear in declaration order; fields dropped by [omitempty] are absent. *)
Inductive jout :=
| ONull
| OBool (b : bool)
| OInt (z : Z)
| OStr (s : string)
| ORaw (raw : string)
| OArr (l : list jout)
| OObj (l : list (string * jout)).

Definition braces (body : string) : string := char 123 +++ body +++ char 125.
Definition brackets (body : string) : string := char 91 +++ body +++ char 93.

(** [json.Marshal]; the only failure is a [json.RawMessage] that is not JSON.
    An empty [json.RawMessage] is nil here and prints as null. *)
Fixpoint json_Marshal (o : jout) : option string :=
  match o with
  | ONull => Some "null"
  | OBool b => Some (if b then "true" else "false")
  | OInt z => Some (Z_dec z)
  | OStr s => Some (enc_string s)
  | ORaw EmptyString => Some "null"
  | ORaw raw => if json_Valid raw then Some (compact false false raw) else None
  | OArr l => brackets ∘ str_join "," <$> mapM json_Marshal l
  | OObj l =>
      braces ∘ str_join "," <$>
        mapM (fun '(k, v) => t ← json_Marshal v; Some (enc_string k +++ char 58 +++ t)) l
  end.

Lemma json_Marshal_arr l : json_Marshal (OArr l) = brackets ∘ str_join "," <$> mapM json_Marshal l.
Proof. reflexivity. Qed.

Lemma json_Marshal_obj l :
  json_Marshal (OObj l) =
  braces ∘ str_join "," <$>
    mapM (fun '(k, v) => t ← json_Marshal v; Some (enc_string k +++ char 58 +++ t)) l.
Proof. reflexivity. Qed.

(** ** Field names

    A member name selects the struct field with the same name up to case
    ([foldName]); the only non-ASCII runes that fold to ASCII letters are
    U+017F and U+212A. *)
Definition fold_seg (g : seg) : string :=
  match g with
  | Bad b => String b EmptyString
  | Good r bs =>
      if in_range 97 122 r then char (r - 32)
      else if r =? 0x17F then "S" else if r =? 0x212A then "K"
      else bs
  end.
Definition fold_name (s : string) : string := str_concat (map fold_seg (utf8_segs s)).
Definition field_is (key name : string) : bool := fold_name key == fold_name name.


(** JSON texts written with apostrophes for quotation marks. *)
Fixpoint js (s : string) : string :=
  match s with
  | EmptyString => EmptyString
  | String a r => String (if byte_of a =? 39 then chr 34 else a) (js r)
  end.
