(* ===== verification/JsonText.v ===== *)
(** * Reading JSON texts

    What the scanner of Json.v makes of a text depends only on the text
    itself: [vreads d p v] says that [p] is one value, whatever follows it,
    whatever the fuel (the length of [p] is enough) and with any nesting
    allowance of at least [d].  Every successful parse has this form, so the
    fuel never decides, and the printer's output has it too. *)

From Stdlib Require Import Ascii String.
From S2P Require Import Prelude Utf8 Json.
Open Scope string_scope.
Open Scope go_scope.
Open Scope Z_scope.

(** ** White space and the ends of numbers *)

Definition all_ws (w : string) : bool := str_forall is_ws w.
Definition head_is (p : ascii → bool) (s : string) : bool :=
  match s with String a _ => p a | EmptyString => false end.
Definition not_ws (a : ascii) : bool := negb (is_ws a).

(** A number ends where none of these bytes follows. *)
Definition number_byte (a : ascii) : bool :=
  let c := byte_of a in
  is_digit a || (c =? 46) || (c =? 101) || (c =? 69) || (c =? 43) || (c =? 45).
Definition stop (x : string) : bool := negb (head_is number_byte x).

Lemma skip_ws_app w s : all_ws w = true → skip_ws (w +++ s) = skip_ws s.
Proof. unfold all_ws. induction w as [|a w IH]; cbn; [done|]. intros [-> H]%andb_true_iff. auto. Qed.

Lemma skip_ws_head s : head_is not_ws s = true → skip_ws s = s.
Proof. unfold not_ws. destruct s as [|a s]; cbn; [done|]. by destruct (is_ws a). Qed.

Lemma skip_ws_split s :
  ∃ w, s = w +++ skip_ws s ∧ all_ws w = true ∧ (skip_ws s = "" ∨ head_is not_ws (skip_ws s) = true).
Proof.
  unfold not_ws. induction s as [|a s (w & E & Hw & Hh)]; cbn; [by exists ""; auto|].
  destruct (is_ws a) eqn:Ha.
  - exists (String a w). split_and!; [cbn; by rewrite <- E|cbn; by rewrite Ha|done].
  - exists "". split_and!; [done..|]. right. cbn. by rewrite Ha.
Qed.

Lemma head_is_app p s t : head_is p s = true → head_is p (s +++ t) = true.
Proof. by destruct s. Qed.

Lemma ws_stop w x : all_ws w = true → stop x = true → stop (w +++ x) = true.
Proof.
  unfold all_ws, stop. destruct w as [|a w]; cbn; [done|]. intros [H _]%andb_true_iff _.
  unfold is_ws, number_byte, is_digit, in_range in *. lia.
Qed.

(** ** Numbers *)

Definition nondigit (x : string) : bool := negb (head_is is_digit x).
Lemma stop_nondigit x : stop x = true → nondigit x = true.
Proof. unfold stop, nondigit. destruct x as [|a x]; cbn; [done|]. unfold number_byte. by destruct (is_digit a). Qed.

Definition digit_bytes (s : string) : bool := str_forall is_digit s.

Lemma span_digits_app ds x :
  digit_bytes ds = true → nondigit x = true → span_digits (ds +++ x) = (ds, x).
Proof.
  unfold digit_bytes, nondigit. induction ds as [|a ds IH]; cbn.
  - destruct x as [|a x]; cbn; [done|]. by destruct (is_digit a).
  - intros [-> H]%andb_true_iff Hx. by rewrite IH.
Qed.

Lemma span_digits_split s : s = (span_digits s).1 +++ (span_digits s).2 ∧ digit_bytes (span_digits s).1 = true.
Proof.
  induction s as [|a s [E H]]; cbn; [done|]. destruct (is_digit a) eqn:Ha; [|done].
  destruct (span_digits s) as [ds t]. cbn in *. rewrite Ha. by subst.
Qed.

Lemma lex_int_inv s ip r : lex_int s = Some (ip, r) →
  s = ip +++ r ∧ head_is is_digit ip = true ∧ digit_bytes ip = true ∧ ip ≠ ""
  ∧ ∀ x, nondigit x = true → lex_int (ip +++ x) = Some (ip, x).
Proof.
  destruct s as [|a s]; cbn; [done|]. destruct (Z.eqb_spec (byte_of a) 48) as [Ha|Ha].
  - intros [= <- <-]. assert (is_digit a = true) as Hd by (unfold is_digit, in_range; lia).
    cbn. unfold digit_bytes. cbn. rewrite Hd. split_and!; [done..|]. intros x _. by rewrite Ha.
  - destruct (is_digit a) eqn:Hd; [|done]. pose proof (span_digits_split s) as [E H].
    destruct (span_digits s) as [ds t]. cbn in E, H. intros [= <- <-]. subst s.
    unfold digit_bytes in *. cbn. rewrite Hd, H. split_and!; [done..|]. intros x Hx.
    destruct (Z.eqb_spec (byte_of a) 48); [lia|]. by rewrite span_digits_app.
Qed.

Lemma lex_frac_inv s fp r : lex_frac s = Some (fp, r) →
  s = fp +++ r ∧ (fp = "" ∨ head_is (fun a => byte_of a =? 46) fp = true)
  ∧ (∀ x, (fp = "" → stop x = true) → nondigit x = true → lex_frac (fp +++ x) = Some (fp, x)).
Proof.
  assert (∀ x, stop x = true → lex_frac x = Some ("", x)) as Hstop.
  { intros [|b x]; [done|]. unfold stop, lex_frac. cbn. unfold number_byte.
    destruct (byte_of b =? 46); [|done]. destruct (is_digit b); done. }
  destruct s as [|a s]; cbn.
  { intros [= <- <-]. split_and!; [done|by left|]. intros x Hx _. apply Hstop. auto. }
  destruct (Z.eqb_spec (byte_of a) 46) as [Ha|Ha].
  - pose proof (span_digits_split s) as [E H]. destruct (span_digits s) as [ds t]. cbn in E, H.
    case_bool_decide as Hds; [done|]. intros [= <- <-]. subst s.
    split_and!; [done|right; cbn; by rewrite Ha|]. intros x _ Hx. cbn. rewrite Ha. cbn.
    rewrite span_digits_app by done. by rewrite bool_decide_false.
  - intros [= <- <-]. split_and!; [done|by left|]. intros x Hx _. apply Hstop. auto.
Qed.

Definition exp_byte (a : ascii) : bool := (byte_of a =? 101) || (byte_of a =? 69).

(** The optional sign of an exponent. *)
Definition exp_sign (r : string) : string * string :=
  match r with
  | String b r1 => if (byte_of b =? 43) || (byte_of b =? 45) then (String b EmptyString, r1) else (EmptyString, r)
  | EmptyString => (EmptyString, r)
  end.

Lemma exp_sign_inv r : r = (exp_sign r).1 +++ (exp_sign r).2
  ∧ ∀ y, head_is is_digit y = true → exp_sign ((exp_sign r).1 +++ y) = ((exp_sign r).1, y).
Proof.
  assert (∀ y, head_is is_digit y = true → exp_sign y = ("", y)) as Hy.
  { intros [|d y]; [done|]. cbn. unfold is_digit, in_range.
    destruct (Z.eqb_spec (byte_of d) 43), (Z.eqb_spec (byte_of d) 45); cbn; lia || done. }
  destruct r as [|b r]; cbn; [auto|].
  destruct ((byte_of b =? 43) || (byte_of b =? 45)) eqn:Hb; cbn; [|auto]. split; [done|].
  intros y _. by rewrite Hb.
Qed.

Lemma lex_exp_inv s ep r : lex_exp s = Some (ep, r) →
  s = ep +++ r ∧ (ep = "" ∨ head_is exp_byte ep = true)
  ∧ (∀ x, stop x = true → lex_exp (ep +++ x) = Some (ep, x)).
Proof.
  assert (∀ x, stop x = true → lex_exp x = Some ("", x)) as Hstop.
  { intros [|b x]; [done|]. unfold stop, lex_exp. cbn. unfold number_byte.
    destruct (byte_of b =? 101), (byte_of b =? 69); cbn; try done;
      destruct (is_digit b), (byte_of b =? 46); done. }
  destruct s as [|a s]; [intros [= <- <-]; split_and!; [done|by left|done]|].
  change (lex_exp (String a s)) with
    (if exp_byte a then
       let '(sg, r1) := exp_sign s in let '(ds, t) := span_digits r1 in
       if ds == "" then None else Some (String a (sg +++ ds), t)
     else Some ("", String a s)).
  destruct (exp_byte a) eqn:Ha; [|intros [= <- <-]; split_and!; [done|by left|done]].
  pose proof (exp_sign_inv s) as [E Hsg]. destruct (exp_sign s) as [sg r1]. cbn in E, Hsg.
  pose proof (span_digits_split r1) as [E1 H]. destruct (span_digits r1) as [ds t]. cbn in E1, H.
  case_bool_decide as Hds; [done|]. intros [= <- <-]. subst s r1.
  split_and!; [cbn; by rewrite str_app_assoc|right; cbn; exact Ha|]. intros x Hx.
  change (lex_exp (String a (sg +++ ds) +++ x)) with
    (if exp_byte a then
       let '(sg, r1) := exp_sign ((sg +++ ds) +++ x) in let '(ds, t) := span_digits r1 in
       if ds == "" then None else Some (String a (sg +++ ds), t)
     else Some ("", String a ((sg +++ ds) +++ x))).
  rewrite Ha, str_app_assoc, Hsg.
  - rewrite span_digits_app by (done || by apply stop_nondigit). by rewrite bool_decide_false.
  - destruct ds as [|d ds]; [done|]. unfold digit_bytes in H. cbn in *. by destruct (is_digit d).
Qed.

Definition number_start (a : ascii) : bool := is_digit a || (byte_of a =? 45).

Lemma lex_number_inv s n r : lex_number s = Some (n, r) →
  s = n +++ r ∧ head_is number_start n = true
  ∧ ∀ x, stop x = true → lex_number (n +++ x) = Some (n, x).
Proof.
  unfold lex_number.
  set (sign := fun s => match s with
    | String a r => if byte_of a =? 45 then (String a "", r) else ("", s) | "" => ("", s) end).
  change (match s with String a r => if byte_of a =? 45 then (String a "", r) else ("", s) | "" => ("", s) end)
    with (sign s).
  assert (∀ y, head_is is_digit y = true → sign ((sign s).1 +++ y) = ((sign s).1, y)) as Hsg.
  { assert (∀ y, head_is is_digit y = true → sign y = ("", y)) as Hy.
    { intros [|d y]; [done|]. cbn. unfold is_digit, in_range. destruct (Z.eqb_spec (byte_of d) 45); lia || done. }
    destruct s as [|a s]; cbn; [auto|]. destruct (byte_of a =? 45) eqn:Ha; cbn; [|auto]. by rewrite Ha. }
  assert (s = (sign s).1 +++ (sign s).2 ∧ ((sign s).1 = "" ∨ head_is number_start (sign s).1 = true)) as [E0 H0].
  { destruct s as [|a s]; cbn; [by auto|]. destruct (byte_of a =? 45) eqn:Ha; cbn; [|by auto].
    split; [done|]. right. unfold number_start. by rewrite Ha, orb_true_r. }
  destruct (sign s) as [sg s1]. cbn in E0, H0, Hsg.
  intros ([ip s2] & (E1 & Hh & Hds & Hne & H1)%lex_int_inv & H)%bind_Some.
  apply bind_Some in H as ([fp s3] & (E2 & Hf & H2)%lex_frac_inv & H).
  apply bind_Some in H as ([ep s4] & (E3 & He & H3)%lex_exp_inv & H). injection H as <- <-.
  subst. rewrite !str_app_assoc. split_and!; [done| |].
  - destruct H0 as [-> | H0]; [|by apply head_is_app]. cbn. apply head_is_app. destruct ip; [done|].
    cbn in *. unfold number_start. by rewrite Hh.
  - intros x Hx.
    change (('(sg0, s1) ← Some (sign ((sg +++ ip +++ fp +++ ep) +++ x));
      '(ip, s2) ← lex_int s1; '(fp, s3) ← lex_frac s2; '(ep, s4) ← lex_exp s3;
      Some (sg0 +++ ip +++ fp +++ ep, s4)) = Some (sg +++ ip +++ fp +++ ep, x)).
    rewrite !str_app_assoc, Hsg by (by apply head_is_app). cbn [mbind option_bind].
    assert (nondigit (ep +++ x) = true) as Hep.
    { destruct He as [-> |He]; [by apply stop_nondigit|]. destruct ep as [|a ep]; [done|].
      unfold nondigit. cbn in He |- *. unfold exp_byte in He. unfold is_digit, in_range. lia. }
    assert (nondigit (fp +++ ep +++ x) = true) as Hfp.
    { destruct Hf as [-> |Hf]; [exact Hep|]. destruct fp as [|a fp]; [done|].
      unfold nondigit. cbn in Hf |- *. unfold is_digit, in_range. lia. }
    rewrite H1 by done. cbn [mbind option_bind].
    destruct He as [-> |He].
    + rewrite H2 by done. cbn [mbind option_bind]. by rewrite H3.
    + (* a fraction followed by an exponent *)
      assert (lex_frac (fp +++ ep +++ x) = Some (fp, ep +++ x)) as ->.
      { destruct Hf as [-> |Hf]; [|apply H2; [intros ->; done|done]].
        destruct ep as [|a ep]; [done|]. cbn in He |- *. unfold exp_byte in He.
        destruct (Z.eqb_spec (byte_of a) 46); [lia|done]. }
      cbn [mbind option_bind]. by rewrite H3.
Qed.

(** ** String literals *)

Definition quote_then (x : string) : string := String (chr 34) x.
Definition sreads (body : string) : Prop := ∀ x, scan_string (body +++ quote_then x) = Some (body, x).

Lemma scan_string_inv s body t :
  scan_string s = Some (body, t) → s = body +++ quote_then t ∧ sreads body.
Proof.
  remember (String.length s) as n eqn:Hn. revert s body t Hn.
  induction n as [n IH] using lt_wf_ind. intros s body t ->. destruct s as [|a s]; cbn [scan_string]; [done|].
  destruct (Z.eqb_spec (byte_of a) q_quote) as [Ha|Ha].
  { intros [= <- <-]. assert (a = chr 34) as -> by (apply byte_of_inj; exact Ha). done. }
  destruct (Z.eqb_spec (byte_of a) q_backslash) as [Hb|Hb].
  - destruct s as [|b s]; [done|].
    destruct (_ || _) eqn:Hesc.
    + intros ([body' t'] & Hs & [= <- <-])%bind_Some.
      apply (IH (String.length s)) in Hs as [-> Hr]; [|cbn; lia|done]. split; [done|]. intros x. cbn [String.append scan_string].
      rewrite Hb, Hesc. cbn. by rewrite Hr.
    + destruct (byte_of b =? 117) eqn:Hu; [|done].
      destruct s as [|h1 [|h2 [|h3 [|h4 s]]]]; try done. destruct (_ && _) eqn:Hh; [|done].
      intros ([body' t'] & Hs & [= <- <-])%bind_Some.
      apply (IH (String.length s)) in Hs as [-> Hr]; [|cbn; lia|done]. split; [done|]. intros x. cbn [String.append scan_string].
      rewrite Hb, Hesc, Hu, Hh. cbn. by rewrite Hr.
  - destruct (byte_of a <? 32) eqn:Hc; [done|]. intros ([body' t'] & Hs & [= <- <-])%bind_Some.
    apply (IH (String.length s)) in Hs as [-> Hr]; [|cbn; lia|done]. split; [done|]. intros x. cbn [String.append scan_string].
    rewrite (proj2 (Z.eqb_neq _ _) Ha), (proj2 (Z.eqb_neq _ _) Hb), Hc, Hr. done.
Qed.

(** ** The compactor's position: inside a string literal, after a backslash *)

Definition cnext (st : bool * bool) (a : ascii) : bool * bool :=
  let c := byte_of a in
  if st.1 then (negb (c =? q_quote) || st.2, negb st.2 && (c =? q_backslash)) else (c =? q_quote, false).
Fixpoint cstate (st : bool * bool) (s : string) : bool * bool :=
  match s with EmptyString => st | String a s => cstate (cnext st a) s end.
Definition closed (p : string) : Prop := cstate (false, false) p = (false, false).

Lemma cstate_app st s t : cstate st (s +++ t) = cstate (cstate st s) t.
Proof. revert st. induction s; cbn; auto. Qed.

Lemma closed_app p q : closed p → closed q → closed (p +++ q).
Proof. unfold closed. rewrite cstate_app. by intros ->. Qed.

Definition no_quote (a : ascii) : bool := negb (byte_of a =? q_quote).
Lemma closed_plain s : str_forall no_quote s = true → closed s.
Proof.
  unfold closed. induction s as [|a s IH]; [done|]. cbn [str_forall cstate]. unfold no_quote at 1.
  intros [Ha Hs]%andb_true_iff. unfold cnext. cbn [fst]. destruct (byte_of a =? q_quote); [done|]. auto.
Qed.

Lemma closed_ws w : all_ws w = true → closed w.
Proof.
  intros H. apply closed_plain. revert H. unfold all_ws. induction w as [|a w IH]; cbn; [done|].
  intros [Ha ->%IH]%andb_true_iff. rewrite andb_true_r. unfold is_ws in Ha. unfold no_quote, q_quote. lia.
Qed.

(** A byte that is neither a quotation mark nor a backslash leaves the
    position inside a literal. *)
Definition body_plain (a : ascii) : bool := negb (byte_of a =? q_quote) && negb (byte_of a =? q_backslash).
Lemma cstate_plain a s : body_plain a = true → cstate (true, false) (String a s) = cstate (true, false) s.
Proof.
  unfold body_plain. cbn [cstate]. unfold cnext. cbn [fst snd]. intros [Ha Hb]%andb_true_iff. bools.
  rewrite (proj2 (Z.eqb_neq _ _) Ha), (proj2 (Z.eqb_neq _ _) Hb). done.
Qed.
Lemma cstate_escape a b s :
  byte_of a = q_backslash → cstate (true, false) (String a (String b s)) = cstate (true, false) s.
Proof.
  intros Ha. cbn [cstate]. unfold cnext at 2. cbn [fst snd]. rewrite Ha. cbn -[cnext cstate].
  unfold cnext. cbn [fst snd]. by rewrite orb_true_r.
Qed.

Lemma sreads_state body : sreads body → cstate (true, false) body = (true, false).
Proof.
  intros H. specialize (H ""). revert H. remember (String.length body) as n eqn:Hn. revert body Hn.
  induction n as [n IH] using lt_wf_ind. intros body ->. destruct body as [|a body]; [done|].
  cbn [String.append scan_string].
  destruct (Z.eqb_spec (byte_of a) q_quote) as [Ha|Ha]; [done|].
  destruct (Z.eqb_spec (byte_of a) q_backslash) as [Hb|Hb].
  - destruct body as [|b body].
    { cbn. done. }
    cbn [String.append]. rewrite cstate_escape by done.
    destruct (_ || _) eqn:Hesc.
    + intros ([body' t'] & Hs & [= -> ->])%bind_Some. eapply (IH (String.length body)); [cbn; lia|done|done].
    + destruct (byte_of b =? 117) eqn:Hu; [|done].
      destruct body as [|h1 body]; [done|]. destruct body as [|h2 body]; [done|].
      destruct body as [|h3 body]; [done|]. destruct body as [|h4 body]; [cbn [String.append quote_then]|].
      { by destruct (_ && _). }
      cbn [String.append]. destruct (is_hex h1 && is_hex h2 && is_hex h3 && is_hex h4) eqn:Hh; [|done].
      intros ([body' t'] & Hs & [= -> ->])%bind_Some.
      assert (∀ h, is_hex h = true → body_plain h = true) as Hhex.
      { intros h. unfold is_hex, in_range, body_plain, q_quote, q_backslash. intros. lia. }
      rewrite !andb_true_iff in Hh. destruct Hh as [[[? ?] ?] ?].
      rewrite !cstate_plain by auto. eapply (IH (String.length body)); [cbn; lia|done|done].
  - destruct (byte_of a <? 32) eqn:Hc; [done|]. intros ([body' t'] & Hs & [= -> ->])%bind_Some.
    rewrite cstate_plain by (unfold body_plain; lia). eapply (IH (String.length body)); [cbn; lia|done|done].
Qed.

Lemma closed_literal body : cstate (true, false) body = (true, false) → closed (quote_then (body +++ quote_then "")).
Proof.
  intros H. unfold closed, quote_then. cbn [cstate]. rewrite cstate_app.
  change (cnext (false, false) (chr 34)) with (true, false). by rewrite H.
Qed.

(** ** Values *)

Definition vreads (d : Z) (p : string) (v : jvalue) : Prop :=
  head_is not_ws p = true ∧ closed p
  ∧ ∀ f d' x, (String.length p ≤ f)%nat → d ≤ d' → stop x = true → parse_value f d' (p +++ x) = Some (v, x).
Definition mreads (d : Z) (p : string) (ms : list (string * string * jvalue)) : Prop :=
  closed p
  ∧ ∀ f d' x, (String.length p ≤ f)%nat → d ≤ d' → parse_members f d' (p +++ x) = Some (ms, x).
Definition ereads (d : Z) (p : string) (vs : list jvalue) : Prop :=
  closed p
  ∧ ∀ f d' x, (String.length p ≤ f)%nat → d ≤ d' → parse_elements f d' (p +++ x) = Some (vs, x).

(** The bytes of the grammar. *)
Definition opening (z : Z) (p : string) : string := String (chr z) p.
Lemma chr_byte a z : byte_of a = z → a = chr z.
Proof. intros <-. unfold byte_of, chr. by rewrite N2Z.id, ascii_N_embedding. Qed.

(** The first byte of the contents is neither white space nor the closing
    bracket. *)
Definition starts (close : Z) (p : string) : bool :=
  head_is (fun a => not_ws a && negb (byte_of a =? close)) p.

Lemma starts_app close p x : starts close p = true → starts close (p +++ x) = true.
Proof. apply head_is_app. Qed.

Lemma starts_skip close w p : all_ws w = true → starts close p = true → skip_ws (w +++ p) = p.
Proof.
  intros Hw Hp. rewrite skip_ws_app by done. apply skip_ws_head. destruct p as [|a p]; [done|].
  unfold starts in Hp. cbn in *. by apply andb_true_iff in Hp as [? _].
Qed.

Lemma vreads_object d w p ms :
  0 ≤ d → all_ws w = true → starts 125 p = true → mreads d p ms →
  vreads (d + 1) (opening 123 (w +++ p)) (JObject ms).
Proof.
  intros Hd Hw Hs [Hc Hp]. split_and!; [done|by apply (closed_app (opening 123 "")), closed_app; [|apply closed_ws|]|].
  intros f d' x Hf Hd' _. cbn [String.length opening] in Hf. rewrite str_length_app in Hf.
  destruct f as [|f]; [lia|]. cbn [opening String.append parse_value skip_ws].
  change (is_ws (chr 123)) with false. cbn [negb]. change (byte_of (chr 123) =? 123) with true. cbn [negb].
  destruct (Z.leb_spec d' 0); [lia|]. rewrite str_app_assoc, (starts_skip 125) by (done || by apply starts_app).
  specialize (Hp f (d' - 1) x ltac:(lia) ltac:(lia)). destruct (p +++ x) as [|b r] eqn:E.
  { destruct p; [done|]. discriminate. }
  apply (starts_app _ _ x) in Hs. rewrite E in Hs. unfold starts in Hs. cbn in Hs.
  apply andb_true_iff in Hs as [_ Hb]. destruct (byte_of b =? 125); [done|]. by rewrite Hp.
Qed.

(** Evaluate tests on the grammar's own bytes. *)
Ltac byte_tests :=
  repeat match goal with
  | |- context [is_ws (chr ?z)] => let b := eval vm_compute in (is_ws (chr z)) in change (is_ws (chr z)) with b
  | |- context [byte_of (chr ?z) =? ?y] =>
      let b := eval vm_compute in (byte_of (chr z) =? y) in change (byte_of (chr z) =? y) with b
  end; lazy iota.

Lemma vreads_array d w p vs :
  0 ≤ d → all_ws w = true → starts 93 p = true → ereads d p vs →
  vreads (d + 1) (opening 91 (w +++ p)) (JArray vs).
Proof.
  intros Hd Hw Hs [Hc Hp]. split_and!; [done|by apply (closed_app (opening 91 "")), closed_app; [|apply closed_ws|]|].
  intros f d' x Hf Hd' _. cbn [String.length opening] in Hf. rewrite str_length_app in Hf.
  destruct f as [|f]; [lia|]. cbn [opening String.append parse_value skip_ws].
  change (is_ws (chr 91)) with false. cbn [negb]. change (byte_of (chr 91) =? 123) with false.
  change (byte_of (chr 91) =? 91) with true. cbn [negb].
  destruct (Z.leb_spec d' 0); [lia|]. rewrite str_app_assoc, (starts_skip 93) by (done || by apply starts_app).
  specialize (Hp f (d' - 1) x ltac:(lia) ltac:(lia)). destruct (p +++ x) as [|b r] eqn:E.
  { destruct p; [done|]. discriminate. }
  apply (starts_app _ _ x) in Hs. rewrite E in Hs. unfold starts in Hs. cbn in Hs.
  apply andb_true_iff in Hs as [_ Hb]. destruct (byte_of b =? 93); [done|]. by rewrite Hp.
Qed.

Lemma vreads_empty d w open close v :
  (open, close, v) ∈ [(123, 125, JObject []); (91, 93, JArray [])]%list →
  0 < d → all_ws w = true → vreads d (opening open (w +++ opening close "")) v.
Proof.
  intros Hin Hd Hw.
  assert (closed (opening open (w +++ opening close "")) ∧ head_is not_ws (opening open (w +++ opening close "")) = true)
    as [Hc Hh].
  { split; [|by set_unfold in Hin; naive_solver].
    change (closed (opening open "" +++ (w +++ opening close ""))). repeat apply closed_app; try by apply closed_ws.
    all: set_unfold in Hin; naive_solver. }
  split_and!; [done..|]. intros f d' x Hf Hd' _. cbn [String.length opening] in Hf.
  destruct f as [|f]; [lia|]. cbn [opening String.append parse_value skip_ws].
  rewrite str_app_assoc. set_unfold in Hin. destruct Hin as [[= -> -> ->]|[[= -> -> ->]|[]]].
  all: byte_tests; rewrite skip_ws_app by done; destruct (Z.leb_spec d' 0); [lia|].
  all: cbn [opening String.append skip_ws]; byte_tests; reflexivity.
Qed.

Lemma vreads_string d body :
  sreads body → vreads d (quote_then (body +++ quote_then "")) (JString (unquote body)).
Proof.
  intros Hb. split_and!; [done|by apply closed_literal, sreads_state|].
  intros f d' x Hf _ _. destruct f as [|f]; [cbn in Hf; lia|]. cbn [quote_then String.append parse_value skip_ws].
  rewrite str_app_assoc. change (is_ws (chr 34)) with false.
  change (byte_of (chr 34) =? 123) with false. change (byte_of (chr 34) =? 91) with false.
  change (byte_of (chr 34) =? q_quote) with true. lazy iota. cbn [String.append].
  change (String (chr 34) x) with (quote_then x). by rewrite Hb.
Qed.

(** Literals and numbers. *)
Definition lreads (p : string) (v : jvalue) : Prop :=
  ∀ x, stop x = true → lex_literal (p +++ x) = Some (v, x).

Definition literal_start (a : ascii) : bool :=
  number_start a || (byte_of a =? 116) || (byte_of a =? 102) || (byte_of a =? 110).

Lemma vreads_literal d p v :
  head_is literal_start p = true → str_forall no_quote p = true → lreads p v → vreads d p v.
Proof.
  intros Hs Hq Hp. destruct p as [|a p]; [done|].
  assert (is_ws a = false ∧ (byte_of a =? 123) = false ∧ (byte_of a =? 91) = false
          ∧ (byte_of a =? q_quote) = false) as (Hw & H1 & H2 & H3).
  { cbn in Hs. unfold literal_start, number_start, is_digit, in_range in Hs. unfold is_ws, q_quote.
    split_and!; lia. }
  split_and!; [cbn; unfold not_ws; by rewrite Hw|by apply closed_plain|].
  intros f d' x Hf _ Hx. destruct f as [|f]; [cbn in Hf; lia|]. cbn [String.append parse_value skip_ws].
  rewrite Hw. lazy iota. rewrite H1, H2, H3. specialize (Hp x Hx). exact Hp.
Qed.

Lemma lex_literal_inv s v r : lex_literal s = Some (v, r) →
  ∃ p, s = p +++ r ∧ head_is literal_start p = true ∧ lreads p v.
Proof.
  unfold lex_literal. intros H.
  destruct (str_strip "true" s) as [r'|] eqn:E1.
  { injection H as <- <-. apply str_strip_Some in E1 as ->. exists "true". split_and!; [done..|].
    intros x _. unfold lex_literal. by rewrite str_strip_app. }
  destruct (str_strip "false" s) as [r'|] eqn:E2.
  { injection H as <- <-. apply str_strip_Some in E2 as ->. by exists "false". }
  destruct (str_strip "null" s) as [r'|] eqn:E3.
  { injection H as <- <-. apply str_strip_Some in E3 as ->. by exists "null". }
  apply bind_Some in H as ([n r'] & (-> & Hh & Hn)%lex_number_inv & [= <- <-]).
  exists n. split; [done|]. destruct n as [|a n]; [done|]. cbn in Hh. split.
  { cbn. unfold literal_start. by rewrite Hh. }
  intros x Hx. unfold lex_literal.
  assert (∀ b l, number_start b = false → str_strip (String b l) (String a n +++ x) = None) as Hno.
  { intros b l Hb. cbn. destruct (Z.eqb_spec (byte_of b) (byte_of a)) as [E|]; [|done].
    apply byte_of_inj in E as ->. congruence. }
  rewrite !Hno by done. by rewrite Hn.
Qed.

(** The bytes of literals and numbers. *)
Definition word_byte (a : ascii) : bool := number_byte a || in_range 97 122 (byte_of a).
Lemma word_no_quote a : word_byte a = true → no_quote a = true.
Proof. unfold word_byte, number_byte, is_digit, in_range, no_quote, q_quote. lia. Qed.

Lemma str_forall_impl (p q : ascii → bool) s :
  (∀ a, p a = true → q a = true) → str_forall p s = true → str_forall q s = true.
Proof. intros H. induction s as [|a s IH]; [done|]. cbn. intros [Ha%H ->%IH]%andb_true_iff. by rewrite Ha. Qed.

Lemma digits_plain ds : digit_bytes ds = true → str_forall word_byte ds = true.
Proof.
  unfold digit_bytes. induction ds as [|a ds IH]; cbn; [done|]. intros [Ha ->%IH]%andb_true_iff.
  rewrite andb_true_r. unfold word_byte, number_byte. by rewrite Ha.
Qed.

Lemma lex_number_plain s n r : lex_number s = Some (n, r) → str_forall word_byte n = true.
Proof.
  assert (∀ s, str_forall word_byte (span_digits s).1 = true) as Hd.
  { intros s'. by apply digits_plain, span_digits_split. }
  unfold lex_number.
  assert (str_forall word_byte (match s with
    | String a r => if byte_of a =? 45 then (String a "", r) else ("", s) | "" => ("", s) end).1 = true) as Hsg.
  { destruct s as [|a s0]; [done|]. destruct (Z.eqb_spec (byte_of a) 45) as [Ha|]; [|done]. cbn.
    unfold word_byte, number_byte. rewrite Ha. by destruct (is_digit a). }
  destruct (match s with "" => _ | String _ _ => _ end) as [sg s1]. cbn in Hsg.
  intros ([ip s2] & (_ & _ & Hi%digits_plain & _)%lex_int_inv & H)%bind_Some.
  apply bind_Some in H as ([fp s3] & Hf & H). apply bind_Some in H as ([ep s4] & He & H). injection H as <- <-.
  rewrite !str_forall_app, Hsg, Hi. cbn. apply andb_true_iff. split.
  - destruct s2 as [|a s2]; cbn in Hf; [by injection Hf as <- <-|].
    destruct (Z.eqb_spec (byte_of a) 46) as [Ha|]; [|by injection Hf as <- <-].
    specialize (Hd s2). destruct (span_digits s2) as [ds t]. case_bool_decide; [done|]. injection Hf as <- <-.
    cbn. cbn in Hd. rewrite Hd. unfold word_byte, number_byte. rewrite Ha. by destruct (is_digit a).
  - destruct s3 as [|a s3]; cbn in He; [by injection He as <- <-|].
    destruct (_ || _) eqn:Ha; [|by injection He as <- <-].
    fold (exp_sign s3) in He.
    assert (str_forall word_byte (exp_sign s3).1 = true) as Hs.
    { destruct s3 as [|b s3]; [done|]. cbn. destruct ((byte_of b =? 43) || (byte_of b =? 45)) eqn:Hb; [|done]. cbn. unfold word_byte, number_byte. apply orb_true_iff in Hb as [->| ->]; by rewrite !orb_true_r. }
    destruct (exp_sign s3) as [es r1]. specialize (Hd r1). destruct (span_digits r1) as [ds t].
    case_bool_decide; [done|]. injection He as <- <-. cbn in *. rewrite str_forall_app, Hs, Hd, andb_true_r.
    unfold word_byte, number_byte. apply orb_true_iff in Ha as [->| ->]; by rewrite !orb_true_r.
Qed.

Lemma lex_literal_plain s v r p : lex_literal s = Some (v, r) → s = p +++ r → str_forall word_byte p = true.
Proof.
  unfold lex_literal. intros H E.
  assert (∀ q, s = q +++ r → str_forall word_byte q = true → str_forall word_byte p = true) as Heq.
  { intros q Hq Hn. enough (p = q) as -> by done. eapply str_app_inj_r. by rewrite <- E. }
  destruct (str_strip "true" s) as [r'|] eqn:E1.
  { injection H as <- <-. eapply Heq; [by apply str_strip_Some, E1|done]. }
  destruct (str_strip "false" s) as [r'|] eqn:E2.
  { injection H as <- <-. eapply Heq; [by apply str_strip_Some, E2|done]. }
  destruct (str_strip "null" s) as [r'|] eqn:E3.
  { injection H as <- <-. eapply Heq; [by apply str_strip_Some, E3|done]. }
  apply bind_Some in H as ([n r'] & Hn & [= <- <-]). pose proof (lex_number_plain _ _ _ Hn) as Hp.
  apply lex_number_inv in Hn as [Hn _]. exact (Heq _ Hn Hp).
Qed.

(** ** Members and elements *)

(** A member: name, colon and value, with the white space the grammar
    allows. *)
Definition member (body w2 w3 pv w4 : string) : string :=
  quote_then (body +++ quote_then (w2 +++ opening 58 (w3 +++ pv +++ w4))).

Lemma closed_member body w2 w3 pv w4 :
  sreads body → closed pv → all_ws w2 = true → all_ws w3 = true → all_ws w4 = true →
  closed (member body w2 w3 pv w4).
Proof.
  intros Hb Hv H2 H3 H4. unfold member.
  replace (quote_then (body +++ quote_then (w2 +++ opening 58 (w3 +++ pv +++ w4))))
    with (quote_then (body +++ quote_then "") +++ (w2 +++ (opening 58 "" +++ (w3 +++ (pv +++ w4))))).
  2:{ unfold quote_then, opening. cbn [String.append]. by rewrite str_app_assoc. }
  repeat apply closed_app; try by apply closed_ws; try done. all: try done.
  by apply closed_literal, sreads_state.
Qed.

(** What the scanner does on a member and the byte after it. *)
Lemma parse_member d body w2 w3 pv w4 v f d' b y :
  sreads body → vreads d pv v → all_ws w2 = true → all_ws w3 = true → all_ws w4 = true →
  is_ws b = false → number_byte b = false →
  (String.length (member body w2 w3 pv w4) ≤ f)%nat → d ≤ d' →
  parse_members (S f) d' (member body w2 w3 pv w4 +++ String b y)
  = (let m := (unquote body, pv, v) in
     if byte_of b =? 44 then '(ms, t) ← parse_members f d' y; Some (m :: ms, t)%list
     else if byte_of b =? 125 then Some ([m]%list, y) else None).
Proof.
  intros Hb (Hh & _ & Hv) H2 H3 H4 Hbw Hbn Hf Hd. unfold member in *.
  cbn [quote_then String.append parse_members skip_ws opening]. byte_tests.
  rewrite !str_app_assoc. cbn [String.append quote_then]. change (String (chr 34) ?x) with (quote_then x).
  rewrite Hb. byte_tests. cbn [mbind option_bind]. rewrite str_app_assoc, skip_ws_app by done. cbn [opening String.append skip_ws]. byte_tests.
  rewrite !str_app_assoc, skip_ws_app by done. rewrite skip_ws_head by (by apply head_is_app).
  rewrite Hv.
  - cbn [mbind option_bind]. rewrite skip_ws_app by done. cbn [skip_ws]. rewrite Hbw.
    unfold text_between. rewrite !str_length_app, Nat.add_sub, str_take_app. done.
  - unfold quote_then, opening in Hf. do 4 (cbn [String.length] in Hf; rewrite ?str_length_app in Hf). lia.
  - done.
  - apply ws_stop; [done|]. unfold stop. cbn. by rewrite Hbn.
Qed.

Lemma mreads_last d body w2 w3 pv w4 v :
  sreads body → vreads d pv v → all_ws w2 = true → all_ws w3 = true → all_ws w4 = true →
  mreads d (member body w2 w3 pv w4 +++ opening 125 "") [(unquote body, pv, v)]%list.
Proof.
  intros Hb Hv H2 H3 H4. split.
  { apply closed_app; [|done]. destruct Hv as (? & ? & _). by apply closed_member. }
  intros f d' x Hf Hd. rewrite str_length_app in Hf. cbn [opening String.length] in Hf.
  destruct f as [|f]; [lia|]. rewrite str_app_assoc. cbn [opening String.append].
  rewrite (parse_member d _ _ _ _ _ v) by (done || lia). byte_tests. reflexivity.
Qed.

Lemma mreads_more d body w2 w3 pv w4 v p ms :
  sreads body → vreads d pv v → all_ws w2 = true → all_ws w3 = true → all_ws w4 = true → mreads d p ms →
  mreads d (member body w2 w3 pv w4 +++ opening 44 p) ((unquote body, pv, v) :: ms)%list.
Proof.
  intros Hb Hv H2 H3 H4 [Hc Hp]. split.
  { apply closed_app; [|by apply (closed_app (opening 44 ""))]. destruct Hv as (? & ? & _). by apply closed_member. }
  intros f d' x Hf Hd. rewrite str_length_app in Hf. cbn [opening String.length] in Hf.
  destruct f as [|f]; [lia|]. rewrite str_app_assoc. cbn [opening String.append].
  rewrite (parse_member d _ _ _ _ _ v) by (done || lia). byte_tests. by rewrite Hp by lia.
Qed.

Lemma mreads_ws d w p ms : all_ws w = true → mreads d p ms → mreads d (w +++ p) ms.
Proof.
  intros Hw [Hc Hp]. split; [apply closed_app; [by apply closed_ws|done]|].
  intros f d' x Hf Hd. rewrite str_length_app in Hf. rewrite str_app_assoc. destruct f as [|f].
  { destruct p as [|a p]; [|cbn in Hf; lia]. by specialize (Hp 0%nat d' x ltac:(cbn; lia) Hd). }
  specialize (Hp (S f) d' x ltac:(lia) Hd). cbn [parse_members] in *. by rewrite skip_ws_app.
Qed.

Lemma parse_element d w pv v w4 f d' b y :
  vreads d pv v → all_ws w = true → all_ws w4 = true → is_ws b = false → number_byte b = false →
  (String.length pv ≤ f)%nat → d ≤ d' →
  parse_elements (S f) d' (w +++ pv +++ w4 +++ String b y)
  = (if byte_of b =? 44 then '(vs, t) ← parse_elements f d' y; Some (v :: vs, t)%list
     else if byte_of b =? 93 then Some ([v]%list, y) else None).
Proof.
  intros (Hh & _ & Hv) Hw H4 Hbw Hbn Hf Hd. cbn [parse_elements].
  assert (parse_value f d' (w +++ pv +++ w4 +++ String b y) = parse_value f d' (pv +++ w4 +++ String b y)) as ->.
  { destruct f; [done|]. cbn [parse_value]. by rewrite skip_ws_app. }
  rewrite Hv by first [done|lia|apply ws_stop; [done|unfold stop; cbn; by rewrite Hbn]].
  cbn [mbind option_bind]. rewrite skip_ws_app by done. cbn [skip_ws]. by rewrite Hbw.
Qed.

Lemma closed_element w pv w4 q :
  closed pv → all_ws w = true → all_ws w4 = true → closed q → closed (w +++ pv +++ w4 +++ q).
Proof. intros. apply closed_app; [by apply closed_ws|]. apply closed_app; [done|]. apply closed_app; [by apply closed_ws|done]. Qed.

Lemma ereads_last d w pv v w4 :
  vreads d pv v → all_ws w = true → all_ws w4 = true →
  ereads d (w +++ pv +++ w4 +++ opening 93 "") [v]%list.
Proof.
  intros Hv Hw H4. split; [destruct Hv as (_ & ? & _); by apply closed_element|].
  intros f d' x Hf Hd. rewrite !str_length_app in Hf. cbn [opening String.length] in Hf.
  destruct f as [|f]; [lia|]. rewrite !str_app_assoc. cbn [opening String.append].
  rewrite (parse_element d _ _ v) by (done || lia). byte_tests. reflexivity.
Qed.

Lemma ereads_more d w pv v w4 p vs :
  vreads d pv v → all_ws w = true → all_ws w4 = true → ereads d p vs →
  ereads d (w +++ pv +++ w4 +++ opening 44 p) (v :: vs)%list.
Proof.
  intros Hv Hw H4 [Hc Hp]. split.
  { destruct Hv as (_ & ? & _). apply closed_element; [done..|]. by apply (closed_app (opening 44 "")). }
  intros f d' x Hf Hd. rewrite !str_length_app in Hf. cbn [opening String.length] in Hf.
  destruct f as [|f]; [lia|]. rewrite !str_app_assoc. cbn [opening String.append].
  rewrite (parse_element d _ _ v) by (done || lia). byte_tests. by rewrite Hp by lia.
Qed.

(** ** Every successful parse reads a value *)

Lemma skip_ws_inv s a r : skip_ws s = String a r →
  ∃ w, s = w +++ String a r ∧ all_ws w = true ∧ is_ws a = false.
Proof.
  intros E. destruct (skip_ws_split s) as (w & Es & Hw & [Hn|Hh]); rewrite E in *; [done|].
  exists w. split_and!; [done..|]. cbn in Hh. unfold not_ws in Hh. by destruct (is_ws a).
Qed.

Definition value_inv (f : nat) : Prop := ∀ d s v r, parse_value f d s = Some (v, r) →
  ∃ w p, s = w +++ p +++ r ∧ all_ws w = true ∧ vreads d p v.
Definition members_inv (f : nat) : Prop := ∀ d s ms r, parse_members f d s = Some (ms, r) →
  ∃ p, s = p +++ r ∧ mreads d p ms.
Definition elements_inv (f : nat) : Prop := ∀ d s vs r, parse_elements f d s = Some (vs, r) →
  ∃ p, s = p +++ r ∧ ereads d p vs.

Lemma elements_inv_S f : value_inv f → elements_inv f → elements_inv (S f).
Proof.
  intros IHv IHe d s vs r. cbn [parse_elements].
  intros ([v r1] & Hv & H)%bind_Some. apply IHv in Hv as (w & p & -> & Hw & Hp).
  destruct (skip_ws r1) as [|b r2] eqn:E; [done|]. apply skip_ws_inv in E as (w4 & -> & H4 & Hb).
  destruct (Z.eqb_spec (byte_of b) 44) as [Eb|_].
  - apply bind_Some in H as ([vs' t] & He & [= <- <-]). apply IHe in He as (q & -> & Hq).
    apply chr_byte in Eb as ->. exists (w +++ p +++ w4 +++ opening 44 q). split; [by rewrite !str_app_assoc|].
    by apply ereads_more.
  - destruct (Z.eqb_spec (byte_of b) 93) as [Eb|_]; [|done]. injection H as <- <-.
    apply chr_byte in Eb as ->. exists (w +++ p +++ w4 +++ opening 93 ""). split; [by rewrite !str_app_assoc|].
    by apply ereads_last.
Qed.

Lemma members_inv_S f : value_inv f → members_inv f → members_inv (S f).
Proof.
  intros IHv IHm d s ms r. cbn [parse_members].
  destruct (skip_ws s) as [|q r0] eqn:E; [done|]. apply skip_ws_inv in E as (w1 & -> & H1 & _).
  destruct (Z.eqb_spec (byte_of q) q_quote) as [Eq|_]; [|done]. apply chr_byte in Eq as ->.
  intros ([body r1] & (-> & Hb)%scan_string_inv & H)%bind_Some.
  destruct (skip_ws r1) as [|c r2] eqn:E; [done|]. apply skip_ws_inv in E as (w2 & -> & H2 & _).
  destruct (Z.eqb_spec (byte_of c) 58) as [Ec|_]; [|done]. apply chr_byte in Ec as ->.
  apply bind_Some in H as ([v r4] & Hv & H). pose proof (skip_ws_split r2) as (w3 & E3 & H3 & Hh).
  apply IHv in Hv as (w & p & E4 & Hw & Hp). rewrite E4 in *.
  assert (w = "") as ->.
  { destruct w as [|a w]; [done|]. destruct Hh as [Hh|Hh]; [done|]. cbn in Hh, Hw.
    unfold not_ws in Hh. by destruct (is_ws a). }
  cbn [String.append] in E3, H. rewrite E3. clear E3 E4 Hh Hw r2.
  assert (text_between (p +++ r4) r4 = p) as Et.
  { unfold text_between. by rewrite str_length_app, Nat.add_sub, str_take_app. }
  rewrite Et in H. destruct (skip_ws r4) as [|b r5] eqn:E; [done|]. apply skip_ws_inv in E as (w4 & -> & H4 & Hbw).
  assert (∀ y t, w1 +++ quote_then (body +++ quote_then (w2 +++ String (chr 58) (w3 +++ p +++ w4 +++ String b (y +++ t))))
            = (w1 +++ member body w2 w3 p w4 +++ String b y) +++ t) as Hassoc.
  { intros y t. unfold member, quote_then, opening. cbn [String.append].
    by repeat (rewrite !str_app_assoc; cbn [String.append]). }
  destruct (Z.eqb_spec (byte_of b) 44) as [Eb|_].
  - apply bind_Some in H as ([ms' t] & He & [= <- <-]). apply IHm in He as (q & -> & Hq).
    apply chr_byte in Eb as ->. eexists. split; [apply Hassoc|]. apply mreads_ws; [done|].
    by apply mreads_more.
  - destruct (Z.eqb_spec (byte_of b) 125) as [Eb|_]; [|done]. injection H as <- <-.
    apply chr_byte in Eb as ->. eexists. split; [apply (Hassoc "")|]. apply mreads_ws; [done|].
    by apply mreads_last.
Qed.

Lemma value_inv_S f : members_inv f → elements_inv f → value_inv (S f).
Proof.
  intros IHm IHe d s v r. cbn [parse_value].
  destruct (skip_ws s) as [|a r0] eqn:E; [done|]. apply skip_ws_inv in E as (w & -> & Hw & Haw).
  assert (∀ p, String a r0 = p +++ r → vreads d p v → ∃ w0 p0,
            w +++ String a r0 = w0 +++ p0 +++ r ∧ all_ws w0 = true ∧ vreads d p0 v) as Hgo.
  { intros p Ep Hp. exists w, p. by rewrite Ep. }
  destruct (Z.eqb_spec (byte_of a) 123) as [Ea|_]; [apply chr_byte in Ea as ->|
    destruct (Z.eqb_spec (byte_of a) 91) as [Ea|_]; [apply chr_byte in Ea as ->|
      destruct (Z.eqb_spec (byte_of a) q_quote) as [Ea|_]; [apply chr_byte in Ea as ->|]]].
  - destruct (Z.leb_spec d 0) as [|Hd]; [done|]. destruct (skip_ws r0) as [|b r1] eqn:E; [done|].
    apply skip_ws_inv in E as (w1 & -> & H1 & Hb). destruct (Z.eqb_spec (byte_of b) 125) as [Eb|Eb].
    + intros [= <- <-]. apply chr_byte in Eb as ->.
      apply (Hgo (opening 123 (w1 +++ opening 125 ""))); [unfold opening; cbn; by rewrite str_app_assoc|].
      apply vreads_empty; [set_solver|done..].
    + intros ([ms t] & (p & Ep & Hp)%IHm & [= <- <-])%bind_Some.
      apply (Hgo (opening 123 (w1 +++ p))); [unfold opening; cbn; by rewrite str_app_assoc, Ep|].
      replace d with (d - 1 + 1) by lia. apply vreads_object; [lia|done| |done].
      destruct p as [|b' p]; [|].
      { destruct Hp as [_ Hp]. by specialize (Hp 0%nat (d - 1) "" ltac:(cbn; lia) ltac:(lia)). }
      injection Ep as -> _. unfold starts, not_ws. cbn. rewrite Hb. cbn. by apply negb_true_iff, Z.eqb_neq.
  - destruct (Z.leb_spec d 0) as [|Hd]; [done|]. destruct (skip_ws r0) as [|b r1] eqn:E; [done|].
    apply skip_ws_inv in E as (w1 & -> & H1 & Hb). destruct (Z.eqb_spec (byte_of b) 93) as [Eb|Eb].
    + intros [= <- <-]. apply chr_byte in Eb as ->.
      apply (Hgo (opening 91 (w1 +++ opening 93 ""))); [unfold opening; cbn; by rewrite str_app_assoc|].
      apply vreads_empty; [set_solver|done..].
    + intros ([ms t] & (p & Ep & Hp)%IHe & [= <- <-])%bind_Some.
      apply (Hgo (opening 91 (w1 +++ p))); [unfold opening; cbn; by rewrite str_app_assoc, Ep|].
      replace d with (d - 1 + 1) by lia. apply vreads_array; [lia|done| |done].
      destruct p as [|b' p]; [|].
      { destruct Hp as [_ Hp]. by specialize (Hp 0%nat (d - 1) "" ltac:(cbn; lia) ltac:(lia)). }
      injection Ep as -> _. unfold starts, not_ws. cbn. rewrite Hb. cbn. by apply negb_true_iff, Z.eqb_neq.
  - intros ([body t] & (-> & Hb)%scan_string_inv & [= <- <-])%bind_Some.
    apply (Hgo (quote_then (body +++ quote_then ""))); [unfold quote_then; cbn; by rewrite str_app_assoc|].
    by apply vreads_string.
  - intros H. pose proof H as (p & Ep & Hh & Hp)%lex_literal_inv. apply (Hgo p Ep).
    apply vreads_literal; [done| |done]. eapply str_forall_impl; [apply word_no_quote|by eapply lex_literal_plain].
Qed.

Lemma parse_inv f : value_inv f ∧ members_inv f ∧ elements_inv f.
Proof.
  induction f as [|f (IHv & IHm & IHe)]; [done|].
  split_and!; [by apply value_inv_S|by apply members_inv_S|by apply elements_inv_S].
Qed.


(** A text is one JSON value exactly if some part of it, surrounded by white
    space, is read as that value; the fuel of [json_parse] is enough. *)
Lemma json_value_reads s v :
  json_value s = Some v ↔
  ∃ w p w', s = w +++ p +++ w' ∧ all_ws w = true ∧ all_ws w' = true ∧ vreads maxNestingDepth p v.
Proof.
  unfold json_value, json_parse. split.
  - intros ([v' r] & Hp & H)%bind_Some. apply parse_inv in Hp as (w & p & -> & Hw & Hp).
    destruct (skip_ws_split r) as (w' & Er & Hw' & _). destruct (skip_ws r) eqn:E; [|done]. injection H as ->.
    rewrite str_app_nil_r in Er. subst w'. eauto 8.
  - intros (w & p & w' & -> & Hw & Hw' & _ & _ & Hp). cbn [parse_value]. rewrite skip_ws_app by done.
    assert (parse_value (S (String.length (w +++ p +++ w'))) maxNestingDepth (p +++ w') = Some (v, w')) as E.
    { apply Hp; [rewrite !str_length_app; lia|lia|]. rewrite <- (str_app_nil_r w'). by apply ws_stop. }
    cbn [parse_value] in E. rewrite E. cbn [mbind option_bind].
    rewrite <- (str_app_nil_r w'), skip_ws_app by done. done.
Qed.

Lemma vreads_depth d d' p v : vreads d p v → d ≤ d' → vreads d' p v.
Proof. intros (Hh & Hc & Hp) Hd. split_and!; [done..|]. intros f d'' x Hf Hd' Hx. apply Hp; [done|lia|done]. Qed.

Lemma vreads_whole d p v : vreads d p v → d ≤ maxNestingDepth → json_value p = Some v.
Proof.
  intros Hv Hd. apply json_value_reads. exists "", p, "". rewrite str_app_nil_r. split_and!; [done..|].
  by eapply vreads_depth.
Qed.

(** The stream decoder on a text that is one value. *)
Lemma vreads_decode d p v : vreads d p v → d ≤ maxNestingDepth → dec_Decode p = Ok (v, "").
Proof.
  intros (Hh & _ & Hp) Hd. unfold dec_Decode, json_parse. rewrite skip_ws_head by done.
  destruct p as [|a p]; [done|]. rewrite <- (str_app_nil_r (String a p)) at 2. rewrite Hp; [done|lia|done|done].
Qed.
