(* ===== verification/JsonPrint.v ===== *)
(** * Printed JSON texts

    The encoder's output is read back as what was printed ([out_value]), and
    compaction leaves it as it is. *)

From Stdlib Require Import Ascii String DecimalString DecimalPos DecimalFacts.
From S2P Require Import Prelude Utf8 Json JsonText.
Open Scope string_scope.
Open Scope go_scope.
Open Scope Z_scope.

(** ** Compaction *)

(** A text that does not continue a multi-byte encoding. *)
Definition fresh (t : string) : bool := negb (head_is (fun a => is_cont (byte_of a)) t).

Lemma str_len_ind (P : string → Prop) :
  (∀ s, (∀ t, (String.length t < String.length s)%nat → P t) → P s) → ∀ s, P s.
Proof.
  intros H s. remember (String.length s) as n eqn:E. revert s E.
  induction n as [n IH] using lt_wf_ind. intros s ->. apply H. intros t Ht. by eapply IH.
Qed.

(** The escapes of compaction. *)
Definition html_byte (c : Z) : bool := (c =? 60) || (c =? 62) || (c =? 38).
Definition sep_next (r : string) : option (Z * string) :=
  match r with
  | String b (String d r2) =>
      if (byte_of b =? 0x80) && in_range 0xA8 0xA9 (byte_of d) then Some (byte_of d, r2) else None
  | _ => None
  end.

Lemma compact_in esc a r :
  compact true esc (String a r) =
  (let c := byte_of a in
   if html_byte c then char 92 +++ "u00" +++ hex_digit (c / 16) +++ hex_digit (c mod 16) +++ compact true false r
   else match (if c =? 0xE2 then sep_next r else None) with
        | Some (d, r2) => char 92 +++ "u202" +++ hex_digit (d mod 16) +++ compact true false r2
        | None => String a (compact (cnext (true, esc) a).1 (cnext (true, esc) a).2 r)
        end).
Proof.
  cbn [compact]. unfold html_byte, sep_next, cnext. cbn [fst snd].
  destruct (_ || (byte_of a =? 38)); [done|]. destruct (byte_of a =? 0xE2); [|done].
  destruct r as [|b [|d r2]]; [done..|]. by destruct (_ && in_range _ _ _).
Qed.

Lemma compact_out esc a r :
  compact false esc (String a r) =
  (if is_ws a then compact false false r else String a (compact (cnext (false, esc) a).1 false r)).
Proof. reflexivity. Qed.

Lemma html_next st a : html_byte (byte_of a) = true → cnext (true, st) a = (true, false).
Proof.
  unfold html_byte, cnext, q_quote, q_backslash. cbn [fst snd]. intros H.
  destruct (Z.eqb_spec (byte_of a) 34), (Z.eqb_spec (byte_of a) 92); try lia. by rewrite andb_false_r.
Qed.
Lemma high_next st a : 0x80 ≤ byte_of a → cnext (true, st) a = (true, false).
Proof.
  unfold cnext, q_quote, q_backslash. cbn [fst snd]. intros H.
  destruct (Z.eqb_spec (byte_of a) 34), (Z.eqb_spec (byte_of a) 92); try lia. by rewrite andb_false_r.
Qed.

Lemma sep_next_Some r d r2 : sep_next r = Some (d, r2) →
  ∃ a b, r = String a (String b r2) ∧ byte_of a = 0x80 ∧ byte_of b = d ∧ (d = 0xA8 ∨ d = 0xA9).
Proof.
  unfold sep_next. destruct r as [|a [|b r0]]; [done..|]. destruct (_ && _) eqn:E; [|done].
  intros [= <- <-]. exists a, b. unfold in_range in E. split_and!; [done| |done|]; lia.
Qed.

Lemma sep_next_app r t : fresh t = true → sep_next (r +++ t) = (fun '(d, r2) => (d, r2 +++ t)) <$> sep_next r.
Proof.
  unfold fresh, sep_next, is_cont, in_range. intros Ht. destruct r as [|b [|d r2]]; cbn -[in_range].
  - destruct t as [|b [|d t]]; [done..|]. cbn in Ht |- *. destruct (Z.eqb_spec (byte_of b) 128); [lia|reflexivity].
  - destruct t as [|d t]; [done|]. cbn in Ht |- *.
    destruct (Z.leb_spec 168 (byte_of d)), (Z.leb_spec (byte_of d) 169); rewrite ?andb_false_r; try reflexivity; lia.
  - by destruct (_ && _).
Qed.

Lemma compact_app s t i e : fresh t = true →
  compact i e (s +++ t) = compact i e s +++ compact (cstate (i, e) s).1 (cstate (i, e) s).2 t.
Proof.
  intros Ht. revert i e. induction s as [s IH] using str_len_ind. intros i e.
  destruct s as [|a r]; [done|]. cbn [String.append cstate]. destruct i.
  - rewrite !compact_in. cbv zeta. destruct (html_byte (byte_of a)) eqn:Hh.
    + rewrite html_next by done. rewrite (IH r) by (cbn; lia). by rewrite !str_app_assoc.
    + destruct (Z.eqb_spec (byte_of a) 0xE2) as [Ha|Ha].
      * rewrite sep_next_app by done. destruct (sep_next r) as [[d r2]|] eqn:Hs; cbn [fmap option_fmap option_map].
        -- apply sep_next_Some in Hs as (b1 & b2 & -> & H1 & H2 & H3).
           cbn [cstate]. rewrite !high_next by lia. rewrite (IH r2) by (cbn; lia). by rewrite !str_app_assoc.
        -- destruct (cnext (true, e) a) as [i' e']. cbn [fst snd]. cbn. by rewrite (IH r) by (cbn; lia).
      * destruct (cnext (true, e) a) as [i' e']. cbn [fst snd]. cbn. by rewrite (IH r) by (cbn; lia).
  - rewrite !compact_out. assert (cnext (false, e) a = ((cnext (false, e) a).1, false)) as E by done.
    destruct (is_ws a) eqn:Hw.
    + assert (cnext (false, e) a = (false, false)) as ->.
      { unfold cnext. cbn. unfold is_ws in Hw. destruct (Z.eqb_spec (byte_of a) q_quote) as [H|]; [|done].
        rewrite H in Hw. done. }
      by rewrite (IH r) by (cbn; lia).
    + rewrite E. cbn [fst snd]. cbn. by rewrite (IH r) by (cbn; lia).
Qed.

(** Escapes: a backslash followed by letters and digits. *)
Definition alnum (a : ascii) : bool := is_digit a || in_range 97 122 (byte_of a).

Lemma alnum_next a e : alnum a = true → cnext (true, e) a = (true, false).
Proof.
  unfold alnum, is_digit, in_range, cnext, q_quote, q_backslash. cbn [fst snd]. intros H.
  destruct (Z.eqb_spec (byte_of a) 34), (Z.eqb_spec (byte_of a) 92); try lia. by rewrite andb_false_r.
Qed.
Lemma alnum_compact a e s : alnum a = true → compact true e (String a s) = String a (compact true false s).
Proof.
  intros Ha. rewrite compact_in. cbv zeta. rewrite alnum_next by done.
  unfold alnum, is_digit, in_range in Ha. unfold html_byte.
  destruct (_ || (byte_of a =? 38)) eqn:E; [lia|]. destruct (Z.eqb_spec (byte_of a) 226); [lia|done].
Qed.

Lemma escape_state e u s : u ≠ "" → str_forall alnum u = true →
  cstate (true, e) (char 92 +++ u +++ s) = cstate (true, false) s.
Proof.
  intros Hne Hu. cbn [char String.append cstate].
  assert (∀ x u', str_forall alnum u' = true → u' ≠ "" ∨ x = false → cstate (true, x) (u' +++ s) = cstate (true, false) s) as Hgo.
  { intros x u'. revert x. induction u' as [|a u' IH]; intros x; cbn [str_forall String.append cstate].
    - intros _ [|E]; [done|by rewrite E].
    - intros [Ha Hu']%andb_true_iff _. rewrite alnum_next by done. auto. }
  assert (∃ x, cnext (true, e) (chr 92) = (true, x)) as [x ->]; [by destruct e; eexists|]. auto.
Qed.
Lemma escape_compact e u s : u ≠ "" → str_forall alnum u = true →
  compact true e (char 92 +++ u +++ s) = char 92 +++ u +++ compact true false s.
Proof.
  intros Hne Hu. cbn [char String.append]. rewrite compact_in. cbv zeta.
  change (html_byte (byte_of (chr 92))) with false. change (byte_of (chr 92) =? 226) with false. lazy iota.
  f_equal. assert (∃ x, cnext (true, e) (chr 92) = (true, x)) as [x ->]; [by destruct e; eexists|]. cbn [fst snd].
  assert (∀ x u', str_forall alnum u' = true → u' ≠ "" ∨ x = false → compact true x (u' +++ s) = u' +++ compact true false s) as Hgo.
  { intros y u'. revert y. induction u' as [|a u' IH]; intros y; cbn [str_forall String.append].
    - intros _ [|E]; [done|by rewrite E].
    - intros [Ha Hu']%andb_true_iff _. rewrite alnum_compact by done. f_equal. auto. }
  auto.
Qed.

Lemma hex_digit_alnum d : 0 ≤ d < 16 → str_forall alnum (hex_digit d) = true.
Proof.
  intros H. unfold hex_digit. destruct (Z.ltb_spec d 10); unfold char; cbn [str_forall];
    unfold alnum, is_digit, in_range; rewrite byte_of_chr by lia; lia.
Qed.

Lemma html_escape c : 0 ≤ c < 256 → str_forall alnum ("u00" +++ hex_digit (c / 16) +++ hex_digit (c mod 16)) = true.
Proof.
  intros H. rewrite !str_forall_app, !hex_digit_alnum; [done| |].
  - apply Z.mod_pos_bound. lia.
  - split; [apply Z.div_pos|apply Z.div_lt_upper_bound]; lia.
Qed.
Lemma sep_escape c : str_forall alnum ("u202" +++ hex_digit (c mod 16)) = true.
Proof. rewrite str_forall_app, hex_digit_alnum; [done|]. apply Z.mod_pos_bound. lia. Qed.

Lemma ws_next a e : is_ws a = true → cnext (false, e) a = (false, false).
Proof.
  unfold cnext, is_ws. cbn. destruct (Z.eqb_spec (byte_of a) q_quote) as [H|]; [|done]. by rewrite H.
Qed.

(** Compaction ends where its input ends. *)
Lemma cstate_compact i e s : (i = true ∨ e = false) → cstate (i, e) (compact i e s) = cstate (i, e) s.
Proof.
  revert i e. induction s as [s IH] using str_len_ind. intros i e Hie. destruct s as [|a r]; [done|]. destruct i.
  - rewrite compact_in. cbv zeta. cbn [cstate]. destruct (html_byte (byte_of a)) eqn:Hh.
    + rewrite html_next by done. rewrite <- (IH r) by (cbn; auto with lia).
      rewrite <- (str_app_assoc (hex_digit _)), <- (str_app_assoc "u00").
      apply escape_state; [done|]. apply html_escape, byte_of_range.
    + destruct (if byte_of a =? 226 then sep_next r else None) as [[d r2]|] eqn:Hs.
      * destruct (Z.eqb_spec (byte_of a) 226); [|done]. apply sep_next_Some in Hs as (b1 & b2 & -> & H1 & H2 & H3).
        cbn [cstate]. rewrite !high_next by lia. rewrite <- (IH r2) by (cbn; auto with lia).
        rewrite <- (str_app_assoc "u202"). apply escape_state; [done|]. apply sep_escape.
      * cbn [cstate]. assert ((cnext (true, e) a).1 = true ∨ (cnext (true, e) a).2 = false) as Hn.
        { unfold cnext. cbn. destruct (Z.eqb_spec (byte_of a) q_quote) as [E|]; [|by left].
          right. rewrite E. by rewrite andb_false_r. }
        destruct (cnext (true, e) a). cbn [fst snd] in *. apply IH; [cbn; lia|done].
  - destruct Hie as [|Hie]; [done|]. subst e. rewrite compact_out. destruct (is_ws a) eqn:Hw; cbn [cstate].
    + rewrite ws_next by done. apply IH; [cbn; lia|by right].
    + change (cnext (false, false) a) with ((cnext (false, false) a).1, false). cbn [fst]. apply IH; [cbn; lia|by right].
Qed.

(** The first byte of a compacted literal. *)
Lemma compact_head e a r : ∃ b t, compact true e (String a r) = String b t ∧ (b = a ∨ byte_of b = 92).
Proof.
  rewrite compact_in. cbv zeta. destruct (html_byte _); [eauto|].
  destruct (if byte_of a =? 226 then sep_next r else None) as [[d r2]|]; eauto.
Qed.

Lemma sep_next_compact r : sep_next r = None → sep_next (compact true false r) = None.
Proof.
  intros H. destruct r as [|b r]; [done|].
  destruct (Z.eqb_spec (byte_of b) 0x80) as [Hb|Hb].
  - rewrite compact_in. cbv zeta. rewrite high_next by lia.
    unfold html_byte. rewrite Hb. change ((128 =? 60) || (128 =? 62) || (128 =? 38)) with false. lazy iota.
    change (128 =? 226) with false. lazy iota. cbn [fst snd]. destruct r as [|d r]; [done|].
    destruct (compact_head false d r) as (d' & t & -> & Hd'). unfold sep_next in *. rewrite Hb in *.
    unfold in_range in *. destruct Hd' as [-> |Hd']; [by destruct (_ && _)|by rewrite Hd'].
  - destruct (compact_head false b r) as (b' & t & -> & Hb'). unfold sep_next. destruct t as [|d t]; [done|].
    destruct (Z.eqb_spec (byte_of b') 128) as [E|]; [|done]. destruct Hb'; [congruence|lia].
Qed.

Lemma compact_idem i e s : (i = true ∨ e = false) → compact i e (compact i e s) = compact i e s.
Proof.
  revert i e. induction s as [s IH] using str_len_ind. intros i e Hie. destruct s as [|a r]; [by destruct i|]. destruct i.
  - rewrite compact_in. cbv zeta. destruct (html_byte (byte_of a)) eqn:Hh.
    + rewrite <- (str_app_assoc (hex_digit _)), <- (str_app_assoc "u00").
      rewrite escape_compact; [|done|apply html_escape, byte_of_range]. rewrite (IH r) by (cbn; auto with lia). done.
    + destruct (if byte_of a =? 226 then sep_next r else None) as [[d r2]|] eqn:Hs.
      * destruct (Z.eqb_spec (byte_of a) 226); [|done]. apply sep_next_Some in Hs as (b1 & b2 & -> & H1 & H2 & H3).
        rewrite <- (str_app_assoc "u202"). rewrite escape_compact; [|done|apply sep_escape].
        rewrite (IH r2) by (cbn; auto with lia). done.
      * rewrite compact_in. cbv zeta. rewrite Hh.
        assert ((if byte_of a =? 226 then sep_next (compact (cnext (true, e) a).1 (cnext (true, e) a).2 r) else None) = None) as ->.
        { destruct (Z.eqb_spec (byte_of a) 226); [|done]. rewrite high_next by lia. by apply sep_next_compact. }
        f_equal. apply IH; [cbn; lia|]. unfold cnext. cbn. destruct (Z.eqb_spec (byte_of a) q_quote) as [E|]; [|by left].
        right. rewrite E. by rewrite andb_false_r.
  - destruct Hie as [|Hie]; [done|]. subst e. rewrite compact_out. destruct (is_ws a) eqn:Hw.
    + apply IH; [cbn; lia|by right].
    + rewrite compact_out, Hw. f_equal. apply IH; [cbn; lia|by right].
Qed.

(** ** String literals *)

(** The well-formed encodings [utf8_segs] cuts a string into. *)
Inductive encoding : Z → string → Prop :=
| enc1 a : byte_of a < 0x80 → encoding (byte_of a) (String a "")
| enc2 a b : ok2 (byte_of a) (byte_of b) = true →
    encoding (rune2 (byte_of a) (byte_of b)) (String a (String b ""))
| enc3 a b c : ok3 (byte_of a) (byte_of b) (byte_of c) = true →
    encoding (rune3 (byte_of a) (byte_of b) (byte_of c)) (String a (String b (String c "")))
| enc4 a b c d : ok4 (byte_of a) (byte_of b) (byte_of c) (byte_of d) = true →
    encoding (rune4 (byte_of a) (byte_of b) (byte_of c) (byte_of d)) (String a (String b (String c (String d "")))).

Definition seg_wf (g : seg) : Prop := match g with Good r bs => encoding r bs | Bad _ => True end.

Lemma utf8_segs_wf s : Forall seg_wf (utf8_segs s).
Proof.
  induction s as [s IH] using str_len_ind. destruct s as [|a r]; [constructor|]. cbn [utf8_segs].
  repeat case_match; subst; constructor; try (apply IH; cbn; lia); cbn; try done; constructor; bools; done.
Qed.

Ltac byte_cases := unfold ok2, ok3, ok4, is_cont, in_range in *.

(** A well-formed encoding is cut off as a whole. *)
Lemma segs_encoding r bs t : encoding r bs → utf8_segs (bs +++ t) = Good r bs :: utf8_segs t.
Proof.
  destruct 1 as [a H|a b H|a b c H|a b c d H]; cbn [String.append utf8_segs].
  - by destruct (Z.ltb_spec (byte_of a) 128); [|lia].
  - destruct (Z.ltb_spec (byte_of a) 128); [byte_cases; lia|]. by rewrite H.
  - destruct (Z.ltb_spec (byte_of a) 128); [byte_cases; lia|].
    destruct (ok2 (byte_of a) (byte_of b)) eqn:E; [byte_cases; lia|]. by rewrite H.
  - destruct (Z.ltb_spec (byte_of a) 128); [byte_cases; lia|].
    destruct (ok2 (byte_of a) (byte_of b)) eqn:E; [byte_cases; lia|].
    destruct (ok3 (byte_of a) (byte_of b) (byte_of c)) eqn:E3; [byte_cases; lia|]. by rewrite H.
Qed.

(** Longer encodings are those of the runes from 0x80 on, and have no ASCII
    byte. *)
Lemma encoding_ascii r bs : encoding r bs → r < 0x80 → bs = String (chr r) "" ∧ 0 ≤ r.
Proof.
  destruct 1 as [a H|a b H|a b c H|a b c d H]; intros Hr.
  - split; [by rewrite <- (chr_byte a _ eq_refl)|apply byte_of_range].
  - exfalso. unfold rune2 in Hr. byte_cases. Z.to_euclidean_division_equations. lia.
  - exfalso. unfold rune3 in Hr. byte_cases. Z.to_euclidean_division_equations. lia.
  - exfalso. unfold rune4 in Hr. byte_cases. Z.to_euclidean_division_equations. lia.
Qed.

Definition high (a : ascii) : bool := 0x80 <=? byte_of a.
Lemma encoding_high r bs : encoding r bs → 0x80 ≤ r → str_forall high bs = true.
Proof.
  destruct 1 as [a H|a b H|a b c H|a b c d H]; intros Hr; unfold high; cbn; [lia|..].
  all: byte_cases; rewrite andb_true_r; lia.
Qed.

Lemma encoding_sep r bs : encoding r bs → r = 0x2028 ∨ r = 0x2029 → bs = encode_rune r.
Proof.
  destruct 1 as [a H|a b H|a b c H|a b c d H]; intros Hr.
  - lia.
  - exfalso. unfold rune2 in Hr. byte_cases. Z.to_euclidean_division_equations. lia.
  - destruct Hr as [Hr|Hr]; rewrite Hr.
    + assert (byte_of a = 0xE2 ∧ byte_of b = 0x80 ∧ byte_of c = 0xA8) as (Ha & Hb & Hc).
      { unfold rune3 in Hr. byte_cases. Z.to_euclidean_division_equations. lia. }
      apply chr_byte in Ha as ->, Hb as ->, Hc as ->. reflexivity.
    + assert (byte_of a = 0xE2 ∧ byte_of b = 0x80 ∧ byte_of c = 0xA9) as (Ha & Hb & Hc).
      { unfold rune3 in Hr. byte_cases. Z.to_euclidean_division_equations. lia. }
      apply chr_byte in Ha as ->, Hb as ->, Hc as ->. reflexivity.
  - exfalso. unfold rune4 in Hr. byte_cases. Z.to_euclidean_division_equations. lia.
Qed.

(** No other encoding contains the bytes compaction escapes. *)
Lemma encoding_compact r bs t : encoding r bs → 0x80 ≤ r → r ≠ 0x2028 → r ≠ 0x2029 →
  compact true false (bs +++ t) = bs +++ compact true false t.
Proof.
  assert (∀ a s, 0x80 ≤ byte_of a → (byte_of a ≠ 0xE2 ∨ sep_next s = None) →
          compact true false (String a s) = String a (compact true false s)) as Hgo.
  { intros a s Ha Hs. rewrite compact_in. cbv zeta. rewrite high_next by lia.
    unfold html_byte. destruct (_ || (byte_of a =? 38)) eqn:E; [lia|].
    destruct (Z.eqb_spec (byte_of a) 226); [|done]. by destruct Hs as [| ->]. }
  destruct 1 as [a H|a b H|a b c H|a b c d H]; intros Hr H8 H9; [lia|..]; cbn [String.append].
  - rewrite !Hgo; [done|..]; byte_cases; lia.
  - rewrite Hgo; [rewrite !Hgo; [done|..]; byte_cases; lia|byte_cases; lia|].
    destruct (Z.eq_dec (byte_of a) 0xE2) as [Ha|]; [right|by left].
    unfold sep_next. destruct (_ && _) eqn:E; [|done]. exfalso.
    assert (byte_of b = 128 ∧ (byte_of c = 168 ∨ byte_of c = 169)) as [Hb Hc] by (unfold in_range in E; lia).
    unfold rune3 in H8, H9. rewrite Ha, Hb in H8, H9. destruct Hc as [Hc|Hc]; rewrite Hc in H8, H9; [apply H8|apply H9]; reflexivity.
  - rewrite !Hgo; [done|..]; byte_cases; lia.
Qed.

(** An ASCII byte is escaped so that the literal reads back as that byte;
    there are 128 of them. *)
Lemma ascii_cases (P : Z → Prop) : Forall P (seqZ 0 128) → ∀ r, 0 ≤ r < 128 → P r.
Proof. intros H r Hr. eapply Forall_forall in H; [exact H|]. apply elem_of_seqZ. lia. Qed.

Ltac all_ascii tac :=
  match goal with |- ∀ r, _ → @?P r => apply (ascii_cases P) end;
  let l := eval vm_compute in (seqZ 0 128) in change (seqZ 0 128) with l;
  repeat (constructor; [cbv beta; tac|]); constructor.

Lemma esc_ascii_scan : ∀ r, 0 ≤ r < 128 → ∀ t,
  scan_string (esc_ascii r +++ t) = ('(body, u) ← scan_string t; Some (esc_ascii r +++ body, u)).
Proof. all_ascii ltac:(reflexivity). Qed.
Lemma esc_ascii_items : ∀ r, 0 ≤ r < 128 → ∀ t,
  items_text (string_items (utf8_segs (esc_ascii r +++ t)))
  = String (chr r) (items_text (string_items (utf8_segs t))).
Proof. all_ascii ltac:(reflexivity). Qed.
Lemma esc_ascii_compact : ∀ r, 0 ≤ r < 128 → ∀ t,
  compact true false (esc_ascii r +++ t) = esc_ascii r +++ compact true false t.
Proof. all_ascii ltac:(reflexivity). Qed.

(** One segment of a string, and then all of them. *)
Lemma high_scan bs t : str_forall high bs = true →
  scan_string (bs +++ t) = ('(body, u) ← scan_string t; Some (bs +++ body, u)).
Proof.
  induction bs as [|a bs IH]; cbn [str_forall String.append].
  { intros _. by destruct (scan_string t) as [[]|]. }
  unfold high at 1. intros [Ha Hbs]%andb_true_iff. cbn [scan_string]. rewrite IH by done. unfold q_quote, q_backslash.
  destruct (Z.eqb_spec (byte_of a) 34), (Z.eqb_spec (byte_of a) 92), (Z.ltb_spec (byte_of a) 32); try lia.
  by destruct (scan_string t) as [[]|].
Qed.

Definition sep_text (r : Z) : string := char 92 +++ "u202" +++ hex_digit (r mod 16).

Lemma esc_seg_cases g : seg_wf g →
  (∃ r, 0 ≤ r < 128 ∧ esc_seg g = esc_ascii r ∧ seg_bytes g = String (chr r) "" ∧ seg_good g = true)
  ∨ (∃ r, (r = 0x2028 ∨ r = 0x2029) ∧ esc_seg g = sep_text r ∧ seg_bytes g = encode_rune r ∧ seg_good g = true)
  ∨ (∃ r bs, 0x80 ≤ r ∧ r ≠ 0x2028 ∧ r ≠ 0x2029 ∧ g = Good r bs ∧ encoding r bs ∧ esc_seg g = bs)
  ∨ (seg_good g = false ∧ esc_seg g = char 92 +++ "ufffd").
Proof.
  destruct g as [r bs|b]; cbn [seg_wf esc_seg seg_bytes seg_good]; intros Hg; [|by auto].
  destruct (Z.ltb_spec r 128).
  { left. exists r. destruct (encoding_ascii r bs) as [-> ?]; [done..|]. split_and!; done. }
  destruct ((r =? 8232) || (r =? 8233)) eqn:E.
  { right; left. exists r. split_and!; [lia|done|apply encoding_sep; [done|lia]|done]. }
  right; right; left. exists r, bs. split_and!; try done; lia.
Qed.

Lemma esc_seg_scan g t : seg_wf g →
  scan_string (esc_seg g +++ t) = ('(body, u) ← scan_string t; Some (esc_seg g +++ body, u)).
Proof.
  intros [(r & Hr & -> & _)|[(r & Hr & -> & _)|[(r & bs & Hr & _ & _ & -> & Hbs & E)|[_ ->]]]]%esc_seg_cases.
  - by apply esc_ascii_scan.
  - destruct Hr as [-> | ->]; reflexivity.
  - rewrite E. apply high_scan. by eapply encoding_high.
  - reflexivity.
Qed.

Lemma esc_seg_compact g t : seg_wf g → compact true false (esc_seg g +++ t) = esc_seg g +++ compact true false t.
Proof.
  intros [(r & Hr & -> & _)|[(r & Hr & -> & _)|[(r & bs & Hr & H8 & H9 & -> & Hbs & E)|[_ ->]]]]%esc_seg_cases.
  - by apply esc_ascii_compact.
  - destruct Hr as [-> | ->]; reflexivity.
  - rewrite E. by eapply encoding_compact.
  - reflexivity.
Qed.

Lemma esc_seg_items g t : seg_wf g → seg_good g = true →
  items_text (string_items (utf8_segs (esc_seg g +++ t)))
  = seg_bytes g +++ items_text (string_items (utf8_segs t)).
Proof.
  intros [(r & Hr & -> & -> & _)|[(r & Hr & -> & -> & _)|[(r & bs & Hr & H8 & H9 & -> & Hbs & E)|[Hb _]]]]%esc_seg_cases Hg;
    [| | |congruence].
  - by rewrite esc_ascii_items.
  - destruct Hr as [-> | ->]; reflexivity.
  - rewrite E, (segs_encoding r bs) by done. cbn [string_items seg_rune seg_bytes]. unfold q_backslash.
    destruct (Z.eqb_spec r 92); [lia|]. reflexivity.
Qed.

Lemma enc_body_scan s : sreads (enc_body s).
Proof.
  intros x. unfold enc_body. pose proof (utf8_segs_wf s) as Hwf. induction Hwf as [|g l Hg _ IH]; [done|].
  cbn [map str_concat]. rewrite str_app_assoc, esc_seg_scan, IH by done. done.
Qed.

Lemma enc_body_compact s x : compact true false (enc_body s +++ x) = enc_body s +++ compact true false x.
Proof.
  unfold enc_body. pose proof (utf8_segs_wf s) as Hwf. induction Hwf as [|g l Hg _ IH]; [done|].
  cbn [map str_concat]. by rewrite str_app_assoc, esc_seg_compact, IH, str_app_assoc by done.
Qed.

(** A valid string reads back as itself. *)
Lemma unquote_enc_body s : utf8_ValidString s = true → unquote (enc_body s) = s.
Proof.
  unfold unquote, enc_body, utf8_ValidString. intros Hv. rewrite <- (utf8_segs_concat s) at 2.
  pose proof (utf8_segs_wf s) as Hwf. induction Hwf as [|g l Hg _ IH]; [done|].
  cbn [map str_concat forallb] in *. apply andb_true_iff in Hv as [Hgood Hl]. by rewrite esc_seg_items, IH.
Qed.

(** ** Integers *)

Lemma uint_digits u : digit_bytes (NilEmpty.string_of_uint u) = true.
Proof. unfold digit_bytes. induction u; cbn; auto. Qed.

Lemma to_uint_head p l : Pos.to_uint p ≠ Decimal.D0 l.
Proof.
  intros E. pose proof (DecimalPos.Unsigned.to_of (Pos.to_uint p)) as H.
  rewrite DecimalPos.Unsigned.of_to in H. cbn in H. unfold Decimal.unorm in H.
  destruct (Decimal.nzhead (Pos.to_uint p)) as [|l'|l'|l'|l'|l'|l'|l'|l'|l'|l'] eqn:En; rewrite E in H; try discriminate.
  - rewrite <- E in H. by apply DecimalPos.Unsigned.to_uint_nonzero in H.
  - by apply DecimalFacts.nzhead_nonzero in En.
Qed.

(** The text of a positive number is read whole by the scanner. *)
Lemma uint_lex u x : (∀ l, u ≠ Decimal.D0 l) → u ≠ Decimal.Nil → nondigit x = true →
  lex_int (NilEmpty.string_of_uint u +++ x) = Some (NilEmpty.string_of_uint u, x).
Proof.
  intros H0 Hn Hx. pose proof (uint_digits u) as Hd.
  destruct u; try done; [by destruct (H0 u)|..]; cbn [NilEmpty.string_of_uint String.append lex_int] in *.
  all: change (byte_of _ =? 48) with false; lazy iota; change (is_digit _) with true; lazy iota.
  all: f_equal; exact (span_digits_app (String _ _) x Hd Hx).
Qed.

Lemma lex_number_dec z x : stop x = true → lex_number (Z_dec z +++ x) = Some (Z_dec z, x).
Proof.
  intros Hx. pose proof (stop_nondigit x Hx) as Hd.
  assert (∀ x, stop x = true → lex_frac x = Some ("", x) ∧ lex_exp x = Some ("", x)) as Hs.
  { intros [|b y]; [done|]. unfold stop, lex_frac, lex_exp. cbn. unfold number_byte.
    destruct (byte_of b =? 46), (byte_of b =? 101), (byte_of b =? 69), (is_digit b); done. }
  destruct (Hs x Hx) as [Hf He].
  assert (∀ u, (∀ l, u ≠ Decimal.D0 l) → u ≠ Decimal.Nil →
    ('(ip, s2) ← lex_int (NilEmpty.string_of_uint u +++ x); '(fp, s3) ← lex_frac s2; '(ep, s4) ← lex_exp s3;
     Some (ip +++ fp +++ ep, s4)) = Some (NilEmpty.string_of_uint u, x)) as Hu.
  { intros u H0 Hn. rewrite uint_lex by done. cbn. rewrite Hf. cbn. rewrite He. cbn. by rewrite str_app_nil_r. }
  destruct z as [|p|p]; unfold Z_dec; cbn [Z.to_int].
  - cbn. unfold lex_number. cbn [String.append]. change (byte_of _ =? 45) with false. lazy iota.
    unfold lex_int. change (byte_of _ =? 48) with true. lazy iota. cbn. rewrite Hf. cbn. rewrite He. done.
  - pose proof (to_uint_head p) as H0. pose proof (DecimalPos.Unsigned.to_uint_nonnil p) as Hn.
    specialize (Hu _ H0 Hn). destruct (Pos.to_uint p) as [|l|l|l|l|l|l|l|l|l|l] eqn:E; [done|by destruct (H0 l)|..]; exact Hu.
  - pose proof (to_uint_head p) as H0. pose proof (DecimalPos.Unsigned.to_uint_nonnil p) as Hn.
    specialize (Hu _ H0 Hn). destruct (Pos.to_uint p) as [|l|l|l|l|l|l|l|l|l|l] eqn:E; [done|by destruct (H0 l)|..].
    all: cbn [NilZero.string_of_int NilZero.string_of_uint String.append] in *; unfold lex_number;
      change (byte_of _ =? 45) with true; lazy iota.
    all: destruct (lex_int _) as [[ip s2]|]; [|done]; cbn [mbind option_bind] in *.
    all: destruct (lex_frac s2) as [[fp s3]|]; [|done]; cbn [mbind option_bind] in *.
    all: destruct (lex_exp s3) as [[ep s4]|]; [|done]; cbn [mbind option_bind] in *.
    all: injection Hu as Hu ->; by rewrite Hu.
Qed.

Lemma vreads_number d z : vreads d (Z_dec z) (JNumber (Z_dec z)).
Proof.
  pose proof (lex_number_dec z "" eq_refl) as H. rewrite str_app_nil_r in H.
  pose proof (str_forall_impl _ _ _ word_no_quote (lex_number_plain _ _ _ H)) as Hq. apply lex_number_inv in H as (_ & Hh & _).
  destruct (Z_dec z) as [|a t] eqn:E; [done|]. cbn in Hh. apply vreads_literal; [|done|].
  { cbn. unfold literal_start. by rewrite Hh. }
  intros x Hx. unfold lex_literal.
  assert (∀ b l, number_start b = false → str_strip (String b l) (String a t +++ x) = None) as Hno.
  { intros b l Hb. cbn. destruct (Z.eqb_spec (byte_of b) (byte_of a)) as [Eb|]; [|done].
    apply byte_of_inj in Eb as ->. congruence. }
  rewrite !Hno by done. rewrite <- E, lex_number_dec by done. done.
Qed.

Lemma vreads_word d v t : (v, t) ∈ [(JNull, "null"); (JBool true, "true"); (JBool false, "false")]%list → vreads d t v.
Proof. intros H. set_unfold in H. destruct H as [[= -> ->]|[[= -> ->]|[[= -> ->]|[]]]]; by apply vreads_literal. Qed.

Lemma vreads_enc_string d s : utf8_ValidString s = true → vreads d (enc_string s) (JString s).
Proof.
  intros Hs. rewrite <- (unquote_enc_body s Hs) at 2. apply vreads_string, enc_body_scan.
Qed.

(** ** Raw messages *)

Lemma compact_head_ws e s b t : compact false e s = String b t → is_ws b = false.
Proof.
  revert e. induction s as [|a s IH]; intros e; [done|]. rewrite compact_out. destruct (is_ws a) eqn:Ha; [apply IH|].
  by intros [= <- _].
Qed.

(** A raw message that printing leaves as it is and that can be read with
    the given nesting allowance. *)
Definition raw_ok (depth : Z) (raw : string) : bool :=
  (compact false false raw == raw)
  && match parse_value (S (String.length raw)) depth raw with Some (_, "") => true | _ => false end.

Lemma raw_ok_reads d raw : raw_ok d raw = true → ∃ v, vreads d raw v.
Proof.
  unfold raw_ok. intros [Hc H]%andb_true_iff. bools.
  destruct (parse_value _ d raw) as [[v [|]]|] eqn:E; [|done..]. exists v.
  apply parse_inv in E as (w & p & Er & Hw & Hp). rewrite str_app_nil_r in Er.
  destruct w as [|a w]; [by rewrite Er|]. cbn in Hw. apply andb_true_iff in Hw as [Ha _].
  rewrite Er in Hc at 2. apply compact_head_ws in Hc. congruence.
Qed.

(** More nesting allowance does no harm. *)
Lemma raw_ok_mono d d' raw : raw_ok d raw = true → d ≤ d' → raw_ok d' raw = true.
Proof.
  intros Hok Hd. pose proof (raw_ok_reads _ _ Hok) as (v & _ & _ & Hp). unfold raw_ok in *.
  apply andb_true_iff in Hok as [Hc _]. rewrite Hc. cbn [andb].
  specialize (Hp (S (String.length raw)) d' "" ltac:(lia) Hd eq_refl). rewrite str_app_nil_r in Hp. by rewrite Hp.
Qed.

(** ** Printed values *)

(** Can be read back within the given nesting depth. *)
Fixpoint out_ok (depth : Z) (o : jout) : bool :=
  match o with
  | ONull | OBool _ | OInt _ => true
  | OStr s => utf8_ValidString s
  | ORaw raw => (raw == "") || raw_ok depth raw
  | OArr l => (0 <? depth) && forallb (out_ok (depth - 1)) l
  | OObj l => (0 <? depth) && forallb (fun '(k, v) => utf8_ValidString k && out_ok (depth - 1) v) l
  end.

(** What the scanner makes of the printed text. *)
Fixpoint out_value (o : jout) : jvalue :=
  match o with
  | ONull => JNull
  | OBool b => JBool b
  | OInt z => JNumber (Z_dec z)
  | OStr s => JString s
  | ORaw raw => default JNull (json_value raw)
  | OArr l => JArray (map out_value l)
  | OObj l => JObject (map (fun '(k, v) => (k, default "" (json_Marshal v), out_value v)) l)
  end.

Section jout_ind.
Variable P : jout → Prop.
Hypothesis HNull : P ONull.
Hypothesis HBool : ∀ b, P (OBool b).
Hypothesis HInt : ∀ z, P (OInt z).
Hypothesis HStr : ∀ s, P (OStr s).
Hypothesis HRaw : ∀ raw, P (ORaw raw).
Hypothesis HArr : ∀ l, Forall P l → P (OArr l).
Hypothesis HObj : ∀ l, Forall (fun kv => P kv.2) l → P (OObj l).

Fixpoint jout_nested_ind (o : jout) : P o :=
  match o with
  | ONull => HNull
  | OBool b => HBool b
  | OInt z => HInt z
  | OStr s => HStr s
  | ORaw raw => HRaw raw
  | OArr l => HArr l ((fix go l : Forall P l :=
      match l with [] => Forall_nil_2 _ | x :: l => Forall_cons_2 _ _ _ (jout_nested_ind x) (go l) end%list) l)
  | OObj l => HObj l ((fix go l : Forall (fun kv => P kv.2) l :=
      match l with
      | [] => Forall_nil_2 _
      | (k, x) :: l => Forall_cons_2 (fun kv => P kv.2) (k, x) l (jout_nested_ind x) (go l)
      end%list) l)
  end.
End jout_ind.

Lemma out_ok_mono o d d' : out_ok d o = true → d ≤ d' → out_ok d' o = true.
Proof.
  revert d d'. induction o as [| | | |raw|l IH|l IH] using jout_nested_ind; intros d d' H Hd; try done; cbn [out_ok] in *.
  - apply orb_true_iff in H as [H|H]; [by rewrite H|]. by rewrite (raw_ok_mono d d'), orb_true_r.
  - apply andb_true_iff in H as [H0 H]. bools. apply andb_true_iff. split; [by apply Z.ltb_lt; lia|].
    rewrite forallb_forall in *. rewrite List.Forall_forall in IH. intros x Hx. eapply IH; [done|by apply H|lia].
  - apply andb_true_iff in H as [H0 H]. bools. apply andb_true_iff. split; [by apply Z.ltb_lt; lia|].
    rewrite forallb_forall in *. rewrite List.Forall_forall in IH. intros [k x] Hx. specialize (H _ Hx). cbn in H.
    apply andb_true_iff in H as [Hk H]. rewrite Hk. cbn. eapply (IH _ Hx); [done|lia].
Qed.

Lemma vreads_not_close d p v : vreads d p v → starts 93 p = true.
Proof.
  intros (Hh & _ & Hp). destruct p as [|a p]; [done|]. unfold starts. cbn in Hh |- *. rewrite Hh. cbn.
  apply negb_true_iff, Z.eqb_neq. intros Ha%chr_byte. subst a.
  by specialize (Hp (S (String.length p)) d "" ltac:(cbn; lia) ltac:(lia) eq_refl).
Qed.

Lemma ereads_join d ts vs : Forall2 (vreads d) ts vs → ts ≠ []%list →
  ereads d (str_join "," ts +++ opening 93 "") vs.
Proof.
  induction 1 as [|t v ts vs Hv Hall IH]; [done|]. intros _. destruct Hall as [|t' v' ts vs Hv' Hall].
  - cbn [str_join]. exact (ereads_last d "" t v "" Hv eq_refl eq_refl).
  - change (str_join "," (t :: t' :: ts)) with (t +++ "," +++ str_join "," (t' :: ts)).
    rewrite !str_app_assoc. exact (ereads_more d "" t v "" _ _ Hv eq_refl eq_refl (IH ltac:(done))).
Qed.

Lemma ereads_join_starts d ts vs : Forall2 (vreads d) ts vs → ts ≠ []%list → starts 93 (str_join "," ts) = true.
Proof.
  intros [|t v ts' vs' Hv _]; [done|]. intros _. apply vreads_not_close in Hv.
  destruct ts'; [exact Hv|]. cbn [str_join]. by apply starts_app.
Qed.

(** A printed member. *)
Definition member_text (k t : string) : string := enc_string k +++ char 58 +++ t.

Lemma member_text_eq k t : member_text k t = member (enc_body k) "" "" t "".
Proof.
  unfold member_text, member, enc_string, quote_char, quote_then, opening, char. cbn [String.append].
  by rewrite !str_app_assoc, str_app_nil_r.
Qed.

Lemma mreads_join d (ms : list (string * string * jvalue)) :
  Forall (fun m => utf8_ValidString m.1.1 = true ∧ vreads d m.1.2 m.2) ms → ms ≠ []%list →
  mreads d (str_join "," (map (fun m => member_text m.1.1 m.1.2) ms) +++ opening 125 "") ms.
Proof.
  induction 1 as [|[[k t] v] ms [Hk Hv] Hall IH]; [done|]. intros _. cbn [fst snd] in Hk, Hv.
  rewrite <- (unquote_enc_body k Hk). destruct Hall as [|m' ms Hm' Hall]; cbn [map str_join fst snd].
  - rewrite (unquote_enc_body k Hk), member_text_eq. rewrite <- (unquote_enc_body k Hk) at 2.
    apply mreads_last; [apply enc_body_scan|done..].
  - specialize (IH ltac:(done)). cbn [map fst snd] in IH. rewrite !str_app_assoc.
    rewrite (unquote_enc_body k Hk), member_text_eq. rewrite <- (unquote_enc_body k Hk) at 2.
    apply mreads_more; [apply enc_body_scan|done..].
Qed.

Lemma mreads_join_starts (ms : list (string * string * jvalue)) :
  ms ≠ []%list → starts 125 (str_join "," (map (fun m => member_text m.1.1 m.1.2) ms)) = true.
Proof. destruct ms as [|[[k t] v] [|m ms]]; [done|reflexivity..]. Qed.

(** The encoder succeeds on readable values, and the scanner reads its output
    as the value printed. *)
Lemma marshal_reads o : ∀ d, out_ok d o = true → d ≤ maxNestingDepth →
  ∃ t, json_Marshal o = Some t ∧ vreads d t (out_value o).
Proof.
  induction o as [|b|z|s|raw|l IH|l IH] using jout_nested_ind; intros d Hok Hd.
  - exists "null". split; [done|]. by apply vreads_word; set_solver.
  - exists (if b then "true" else "false"). split; [done|]. apply vreads_word. destruct b; set_solver.
  - exists (Z_dec z). split; [done|]. apply vreads_number.
  - exists (enc_string s). split; [done|]. by apply vreads_enc_string.
  - cbn in Hok. case_bool_decide as He; [subst raw; exists "null"; split; [done|]; apply vreads_word; set_solver|].
    cbn in Hok. pose proof Hok as Hc. apply raw_ok_reads in Hok as [v Hv]. exists raw.
    pose proof (vreads_whole _ _ _ Hv Hd) as Ej. cbn [out_value]. rewrite Ej. split; [|done].
    unfold raw_ok in Hc. apply andb_true_iff in Hc as [Hc _]. bools.
    destruct raw as [|a raw]; [done|]. cbn [json_Marshal]. unfold json_Valid. rewrite Ej. by rewrite Hc.
  - cbn [out_ok] in Hok. apply andb_true_iff in Hok as [Hd0 Hok]. bools. rewrite forallb_forall in Hok.
    assert (∃ ts, mapM json_Marshal l = Some ts ∧ Forall2 (vreads (d - 1)) ts (map out_value l)) as (ts & Hts & Hall).
    { induction IH as [|o l Ho _ IHl]; [by exists []%list|]. cbn [mapM map] in *.
      destruct (Ho (d - 1)) as (t & -> & Ht); [by apply Hok; left|lia|].
      destruct IHl as (ts & -> & Hts); [intros; apply Hok; by right|]. exists (t :: ts)%list. cbn. auto. }
    rewrite json_Marshal_arr, Hts. eexists. split; [reflexivity|]. cbn [out_value]. unfold compose, brackets.
    replace d with (d - 1 + 1) by lia. destruct ts as [|t ts].
    + apply Forall2_nil_inv_l in Hall. rewrite Hall. apply (vreads_empty _ "" 91 93); [set_solver|lia|done].
    + apply (vreads_array (d - 1) ""); [lia|done| |by apply ereads_join].
      by apply starts_app, (ereads_join_starts (d - 1) _ (map out_value l)).
  - cbn [out_ok] in Hok. apply andb_true_iff in Hok as [Hd0 Hok]. bools. rewrite forallb_forall in Hok.
    set (ms := map (fun '(k, v) => (k, default "" (json_Marshal v), out_value v)) l).
    assert (mapM (fun '(k, v) => t ← json_Marshal v; Some (enc_string k +++ char 58 +++ t)) l
              = Some (map (fun m => member_text m.1.1 m.1.2) ms)
            ∧ Forall (fun m => utf8_ValidString m.1.1 = true ∧ vreads (d - 1) m.1.2 m.2) ms) as [Hts Hall].
    { unfold ms. induction IH as [|[k o] l Ho _ IHl]; [done|]. cbn [mapM map fst snd] in *.
      pose proof (Hok (k, o) ltac:(by left)) as Hko. cbn in Hko. apply andb_true_iff in Hko as [Hk Hoo].
      destruct (Ho (d - 1)) as (t & -> & Ht); [done|lia|]. destruct IHl as (-> & Hts); [intros; apply Hok; by right|].
      split; [done|]. by constructor. }
    rewrite json_Marshal_obj, Hts. eexists. split; [reflexivity|]. cbn [out_value]. fold ms. unfold compose, braces.
    replace d with (d - 1 + 1) by lia. destruct ms as [|m ms].
    + apply (vreads_empty _ "" 123 125); [set_solver|lia|done].
    + apply (vreads_object (d - 1) ""); [lia|done| |by apply mreads_join].
      by apply starts_app, mreads_join_starts.
Qed.

(** ** Printed texts are compact *)

Definition tidy (t : string) : Prop := compact false false t = t ∧ closed t ∧ fresh t = true.

Lemma tidy_app s t : tidy s → tidy t → tidy (s +++ t).
Proof.
  intros (Hs & Cs & Fs) (Ht & Ct & Ft). split_and!.
  - rewrite compact_app, Cs by done. cbn [fst snd]. by rewrite Hs, Ht.
  - by apply closed_app.
  - by destruct s.
Qed.

Lemma tidy_plain t : str_forall (fun a => no_quote a && negb (is_ws a) && negb (is_cont (byte_of a))) t = true → tidy t.
Proof.
  intros H. split_and!.
  - induction t as [|a t IH]; [done|]. cbn [str_forall] in H. rewrite !andb_true_iff in H.
    destruct H as [[[Hq Hw] _] Ht]. rewrite compact_out. destruct (is_ws a); [done|].
    unfold cnext. cbn [fst]. unfold no_quote in Hq. destruct (byte_of a =? q_quote); [done|]. f_equal. auto.
  - apply closed_plain. induction t as [|a t IH]; [done|]. cbn [str_forall] in *. rewrite !andb_true_iff in *.
    destruct H as [[[? ?] ?] ?]. auto.
  - destruct t as [|a t]; [done|]. unfold fresh. cbn in *. rewrite !andb_true_iff in H. by destruct H as [[_ ?] _].
Qed.

Lemma tidy_enc_string s : tidy (enc_string s).
Proof.
  split_and!; [|apply (closed_literal (enc_body s)), sreads_state, enc_body_scan|done].
  unfold enc_string, quote_char, char. cbn [String.append]. rewrite compact_out.
  change (is_ws (chr 34)) with false. lazy iota. change (cnext (false, false) (chr 34)).1 with true.
  by rewrite enc_body_compact.
Qed.

Lemma tidy_dec z : tidy (Z_dec z).
Proof.
  assert (∀ u, str_forall (fun a => no_quote a && negb (is_ws a) && negb (is_cont (byte_of a))) (NilEmpty.string_of_uint u) = true) as Hu.
  { induction u; cbn; auto. }
  apply tidy_plain. unfold Z_dec. destruct z as [|p|p]; cbn [Z.to_int].
  - done.
  - specialize (Hu (Pos.to_uint p)). cbn. by destruct (Pos.to_uint p).
  - specialize (Hu (Pos.to_uint p)). cbn. by destruct (Pos.to_uint p).
Qed.

Lemma tidy_join ts : Forall tidy ts → tidy (str_join "," ts).
Proof.
  induction 1 as [|t ts Ht Hall IH]; [done|]. destruct ts; [done|]. cbn [str_join].
  apply tidy_app; [done|]. by apply (tidy_app ",").
Qed.

Lemma compact_first e s b t : compact false e s = String b t → ∃ r, skip_ws s = String b r.
Proof.
  revert e. induction s as [|a s IH]; intros e; [done|]. rewrite compact_out. cbn [skip_ws].
  destruct (is_ws a); [apply IH|]. intros [= <- _]. eauto.
Qed.

Lemma vreads_fresh d p v : vreads d p v → fresh p = true.
Proof.
  intros (Hh & _ & Hp). unfold fresh. destruct p as [|a p]; [done|]. cbn in Hh |- *.
  destruct (is_cont (byte_of a)) eqn:Ha; [|done]. unfold is_cont, in_range in Ha. exfalso.
  specialize (Hp (S (String.length p)) d "" ltac:(cbn; lia) ltac:(lia) eq_refl).
  cbn [String.append parse_value skip_ws] in Hp. unfold not_ws in Hh. destruct (is_ws a); [done|].
  unfold q_quote in Hp.
  rewrite !(proj2 (Z.eqb_neq _ _)) in Hp by lia. revert Hp. generalize (p +++ ""). intros q.
  unfold lex_literal. cbn [str_strip].
  change (byte_of "t") with 116. change (byte_of "f") with 102. change (byte_of "n") with 110.
  rewrite !(proj2 (Z.eqb_neq _ _)) by lia. unfold lex_number.
  rewrite (proj2 (Z.eqb_neq (byte_of a) 45)) by lia. unfold lex_int. rewrite (proj2 (Z.eqb_neq (byte_of a) 48)) by lia.
  unfold is_digit, in_range. rewrite (proj2 (Z.leb_gt (byte_of a) 57)) by lia. by rewrite andb_false_r.
Qed.

Lemma tidy_raw raw : json_Valid raw = true → tidy (compact false false raw).
Proof.
  unfold json_Valid. intros H. destruct (json_value raw) as [v|] eqn:E; [|done]. clear H.
  apply json_value_reads in E as (w & p & w' & -> & Hw & Hw' & Hp). split_and!.
  - apply compact_idem. by right.
  - unfold closed. rewrite cstate_compact by (by right). destruct Hp as (_ & Hc & _).
    repeat apply closed_app; [by apply closed_ws|done|by apply closed_ws].
  - destruct (compact false false (w +++ p +++ w')) as [|b t] eqn:E; [done|].
    apply compact_first in E as [r E]. rewrite skip_ws_app in E by done.
    pose proof (vreads_fresh _ _ _ Hp) as Hf. destruct Hp as (Hh & _ & _).
    rewrite skip_ws_head in E by (by apply head_is_app). destruct p as [|a p]; [done|]. injection E as -> _. exact Hf.
Qed.

Lemma marshal_tidy o : ∀ t, json_Marshal o = Some t → tidy t.
Proof.
  induction o as [|b|z|s|raw|l IH|l IH] using jout_nested_ind; intros t Ht.
  - by injection Ht as <-.
  - injection Ht as <-. by destruct b.
  - injection Ht as <-. apply tidy_dec.
  - injection Ht as <-. apply tidy_enc_string.
  - destruct raw as [|a raw]; [by injection Ht as <-|]. cbn [json_Marshal] in Ht.
    destruct (json_Valid (String a raw)) eqn:E; [|done].
    assert (t = compact false false (String a raw)) as -> by congruence. by apply tidy_raw.
  - rewrite json_Marshal_arr in Ht. apply fmap_Some in Ht as (ts & Hts & ->).
    apply (tidy_app "["); [done|]. apply tidy_app; [|done]. apply tidy_join.
    apply mapM_Some in Hts. induction Hts as [|o t l ts Ho _ IHts]; [constructor|].
    apply Forall_cons in IH as [Hi IH]. constructor; auto.
  - rewrite json_Marshal_obj in Ht. apply fmap_Some in Ht as (ts & Hts & ->).
    apply (tidy_app "{"); [done|]. apply tidy_app; [|done]. apply tidy_join.
    apply mapM_Some in Hts. induction Hts as [|[k o] t l ts Ho _ IHts]; [constructor|].
    apply Forall_cons in IH as [Hi IH]. constructor; [|auto].
    apply bind_Some in Ho as (u & Hu & E).
    assert (t = enc_string k +++ char 58 +++ u) as -> by congruence. apply tidy_app; [apply tidy_enc_string|].
    apply (tidy_app ":"); [done|]. by apply Hi.
Qed.
