(* ===== verification/Types.v ===== *)
(** * Data model: frames, payloads, errors, limits and actions

    The types of types.go, payload.go, capability.go, state.go, error.go,
    limits.go and action.go, with the pure functions on them that every
    component shares.  Go strings and byte slices are byte strings; nil and
    empty slices are the empty list; pointers that may be nil are options. *)

From Stdlib Require Import Ascii String.
From S2P Require Import Prelude Utf8 Json.
Open Scope string_scope.
Open Scope list_scope.
Open Scope go_scope.
Open Scope Z_scope.

(** ** types.go *)

Definition WireVersionV2 : Z := 2.

Definition FrameType := string.
Definition FrameHello : FrameType := "HELLO".
Definition FrameWelcome : FrameType := "WELCOME".
Definition FramePing : FrameType := "PING".
Definition FramePong : FrameType := "PONG".
Definition FrameSend : FrameType := "SEND".
Definition FrameAck : FrameType := "ACK".
Definition FrameEvent : FrameType := "EVENT".
Definition FrameResume : FrameType := "RESUME".
Definition FrameError : FrameType := "ERROR".
Definition FrameStateQuery : FrameType := "STATE_QUERY".
Definition FrameStateSnapshot : FrameType := "STATE_SNAPSHOT".
Definition FrameStateUpdate : FrameType := "STATE_UPDATE".

Record Envelope := mkEnvelope {
  e_V : Z;
  e_Type : string;
  e_ID : string;
  e_SessionID : string;
  e_Seq : Z;
  e_Timestamp : Z;
  e_Payload : string
}.
#[export] Instance Envelope_eta : Eta Envelope := fun e =>
  mkEnvelope (e_V e) (e_Type e) (e_ID e) (e_SessionID e) (e_Seq e) (e_Timestamp e) (e_Payload e).
#[export] Instance Envelope_eq_dec : EqDecision Envelope.
Proof. solve_decision. Defined.

(** The zero [Envelope]. *)
Definition zeroEnvelope : Envelope := mkEnvelope 0 "" "" "" 0 0 "".

Inductive ConnectionState :=
| StateDisconnected
| StateConnecting
| StateConnected
| StateHandshaking
| StateResuming
| StateReady
| StateSuspect.
#[export] Instance ConnectionState_eq_dec : EqDecision ConnectionState.
Proof. solve_decision. Defined.

Definition ConnectionState_String (s : ConnectionState) : string :=
  match s with
  | StateDisconnected => "DISCONNECTED"
  | StateConnecting => "CONNECTING"
  | StateConnected => "CONNECTED"
  | StateHandshaking => "HANDSHAKING"
  | StateResuming => "RESUMING"
  | StateReady => "READY"
  | StateSuspect => "SUSPECT"
  end.

Definition ConnectionGeneration := Z.

Inductive DedupState := DedupProcessing | DedupCompleted.
#[export] Instance DedupState_eq_dec : EqDecision DedupState.
Proof. solve_decision. Defined.

(** A SHA-256 digest: 32 bytes. *)
Definition SendFingerprint := string.

Record DedupRecord := mkDedupRecord {
  dr_State : DedupState;
  dr_Fingerprint : SendFingerprint;
  dr_Ack : option Envelope
}.
#[export] Instance DedupRecord_eq_dec : EqDecision DedupRecord.
Proof. solve_decision. Defined.

(** ** capability.go and state.go: the wire structures *)

Record CapabilityOffer := mkOffer {
  co_Name : string;
  co_Versions : list Z;
  co_Required : bool
}.
Record NegotiatedCapability := mkNegotiated {
  nc_Name : string;
  nc_Version : Z
}.
#[export] Instance NegotiatedCapability_eq_dec : EqDecision NegotiatedCapability.
Proof. solve_decision. Defined.

Record StateObject := mkStateObject {
  so_Namespace : string;
  so_ObjectID : string;
  so_Version : Z;
  so_Data : string
}.
#[export] Instance StateObject_eq_dec : EqDecision StateObject.
Proof. solve_decision. Defined.

(** A [StateIdentity] is the pair of its fields. *)
Definition StateIdentity : Type := string * string.
Definition Identity (o : StateObject) : string * string := (so_Namespace o, so_ObjectID o).

(** ** payload.go *)

Definition WelcomeModeNew : string := "NEW".
Definition WelcomeModeResumed : string := "RESUMED".

Record HelloPayload := mkHello {
  hp_ClientName : string;
  hp_Capabilities : list CapabilityOffer
}.
Record ResumeStateSync := mkResumeStateSync { rss_Namespaces : list string }.
Record WelcomePayload := mkWelcome {
  wp_Mode : string;
  wp_ServerTime : Z;
  wp_ResumeFrom : Z;
  wp_ReplayTo : Z;
  wp_StateSync : option ResumeStateSync;
  wp_AcceptedCapabilities : list NegotiatedCapability
}.
Record PingPayload := mkPing { pi_PingID : string; pi_ClientTime : Z }.
Record PongPayload := mkPong { po_PingID : string; po_ClientTime : Z; po_ServerTime : Z }.
Record SendPayload := mkSend { sp_Content : string }.
Record AckPayload := mkAck { ap_RefID : string }.
Record EventPayload := mkEvent { ep_EventType : string; ep_Content : string }.
Record ResumePayload := mkResume { rp_LastSeq : Z; rp_StateSync : option ResumeStateSync }.
Record StateQueryPayload := mkStateQuery { sq_Namespace : string; sq_ObjectIDs : list string }.
Record StateSnapshotPayload := mkStateSnapshot { ss_States : list StateObject }.
Record StateUpdatePayload := mkStateUpdate { su_State : StateObject }.
Record ErrorPayload := mkError {
  er_Code : string;
  er_Message : string;
  er_RefID : string;
  er_Retryable : bool
}.
#[export] Instance ErrorPayload_eq_dec : EqDecision ErrorPayload.
Proof. solve_decision. Defined.

(** ** error.go *)

Definition ErrorBadRequest : string := "BAD_REQUEST".
Definition ErrorUnsupportedVersion : string := "UNSUPPORTED_VERSION".
Definition ErrorUnsupportedFeature : string := "UNSUPPORTED_FEATURE".
Definition ErrorInvalidCapability : string := "INVALID_CAPABILITY".
Definition ErrorInvalidStateVersion : string := "INVALID_STATE_VERSION".
Definition ErrorUnauthorized : string := "UNAUTHORIZED".
Definition ErrorInvalidSession : string := "INVALID_SESSION".
Definition ErrorNotFound : string := "NOT_FOUND".
Definition ErrorRateLimited : string := "RATE_LIMITED".
Definition ErrorSyncRequired : string := "SYNC_REQUIRED".
Definition ErrorStateSyncRequired : string := "STATE_SYNC_REQUIRED".
Definition ErrorStateUnavailable : string := "STATE_UNAVAILABLE".
Definition ErrorInternal : string := "INTERNAL".
Definition ErrorProtocolViolation : string := "PROTOCOL_VIOLATION".

Record ErrorBehavior := mkBehavior {
  eb_Retryable : bool;
  eb_RetryabilityFixed : bool;
  eb_CloseConnection : bool;
  eb_AbandonSession : bool;
  eb_FullSyncRequired : bool
}.

(** The zero behaviour, and the ones the table builds from it. *)
Definition zeroBehavior : ErrorBehavior := mkBehavior false false false false false.

Definition BehaviorForErrorCode (code : string) : ErrorBehavior * bool :=
  if code == ErrorBadRequest then (mkBehavior false true false false false, true)
  else if code == ErrorUnsupportedVersion then (mkBehavior false true true false false, true)
  else if code == ErrorUnsupportedFeature then (mkBehavior false true true false false, true)
  else if code == ErrorInvalidCapability then (mkBehavior false true false false false, true)
  else if code == ErrorInvalidStateVersion then (mkBehavior false true false false false, true)
  else if code == ErrorUnauthorized then (mkBehavior false true true false false, true)
  else if code == ErrorInvalidSession then (mkBehavior false true false true false, true)
  else if code == ErrorNotFound then (mkBehavior false true false false false, true)
  else if code == ErrorRateLimited then (mkBehavior true true false false false, true)
  else if code == ErrorSyncRequired then (mkBehavior false true false false true, true)
  else if code == ErrorStateSyncRequired then (mkBehavior false true true false false, true)
  else if code == ErrorStateUnavailable then (mkBehavior true true true false false, true)
  else if code == ErrorInternal then (zeroBehavior, true)
  else if code == ErrorProtocolViolation then (mkBehavior false true true false false, true)
  else (zeroBehavior, false).


(** Go's [error] values: protocol errors, [errors.New], [fmt.Errorf] with a
    wrapped cause, and failures of the standard library. *)
Inductive goerror :=
| EProtocol (pe : ProtocolError)
| ENew (text : string)
| EWrap (prefix : string) (cause : goerror)
| EJson (e : json_error)
with ProtocolError :=
| mkProtocolError (code message refID : string) (retryable close : bool) (cause : option goerror).

Definition pe_Code (e : ProtocolError) : string :=
  let '(mkProtocolError c _ _ _ _ _) := e in c.
Definition pe_Message (e : ProtocolError) : string :=
  let '(mkProtocolError _ m _ _ _ _) := e in m.
Definition pe_RefID (e : ProtocolError) : string :=
  let '(mkProtocolError _ _ r _ _ _) := e in r.
Definition pe_Retryable (e : ProtocolError) : bool :=
  let '(mkProtocolError _ _ _ r _ _) := e in r.
Definition pe_Close (e : ProtocolError) : bool :=
  let '(mkProtocolError _ _ _ _ c _) := e in c.
(** [Unwrap]. *)
Definition pe_Cause (e : ProtocolError) : option goerror :=
  let '(mkProtocolError _ _ _ _ _ c) := e in c.

(** The wording of the standard library's own errors, and the quoting of a
    string by the [%q] verb, are left open. *)
Class StdText := {
  json_error_text : json_error → string;
  go_quote : string → string
}.

(** An instance for concrete runs. *)
Definition demo_text : StdText := Build_StdText (fun _ => "json error") (fun s => s).

Definition NewProtocolError (code message : string) : goerror :=
  let '(behavior, _) := BehaviorForErrorCode code in
  EProtocol (mkProtocolError code message "" (eb_Retryable behavior) (eb_CloseConnection behavior) None).

Definition newProtocolErrorWithCause (code message : string) (cause : goerror) : goerror :=
  let '(behavior, _) := BehaviorForErrorCode code in
  EProtocol (mkProtocolError code message "" (eb_Retryable behavior) (eb_CloseConnection behavior)
               (Some cause)).

Definition ErrStaleConnection : goerror :=
  EProtocol (mkProtocolError ErrorProtocolViolation "stale connection generation" "" false false None).
Definition ErrInvalidState : goerror :=
  EProtocol (mkProtocolError ErrorProtocolViolation "invalid state transition" "" false false None).
Definition ErrProtocolConflict : goerror :=
  EProtocol (mkProtocolError ErrorProtocolViolation "sequence identity conflict" "" false false None).
Definition ErrIdentityExpired : goerror :=
  EProtocol (mkProtocolError ErrorProtocolViolation
    "event identity is outside the retained verification window" "" false false None).

(** [err.Error()]. *)
Definition ProtocolError_Error (code message refID : string) : string :=
  if refID == "" then "kmtproto: " +++ code +++ ": " +++ message
  else "kmtproto: " +++ code +++ " (" +++ refID +++ "): " +++ message.

Fixpoint err_Error `{StdText} (e : goerror) : string :=
  match e with
  | EProtocol pe => ProtocolError_Error (pe_Code pe) (pe_Message pe) (pe_RefID pe)
  | ENew t => t
  | EWrap p c => p +++ err_Error c
  | EJson j => json_error_text j
  end.

(** [errors.As] with a target of type [*ProtocolError]. *)
Fixpoint errors_As (e : goerror) : option ProtocolError :=
  match e with
  | EProtocol pe => Some pe
  | EWrap _ c => errors_As c
  | _ => None
  end.

(** [errors.Is] for a sentinel made with [errors.New] and this text; the
    program's sentinels all have different texts. *)
Fixpoint errors_Is (e : goerror) (sentinel : string) : bool :=
  match e with
  | ENew t => t == sentinel
  | EWrap _ c => errors_Is c sentinel
  | EProtocol (mkProtocolError _ _ _ _ _ (Some c)) => errors_Is c sentinel
  | _ => false
  end.

Abbreviation res := (result goerror).

(** The code carried by an error, when it is a protocol error. *)
Definition err_code (e : goerror) : option string := pe_Code <$> errors_As e.

(** ** limits.go *)

Definition DefaultMaxReplayEvents : Z := 4096.
Definition DefaultMaxReplayBytes : Z := Z.shiftl 16 20.
Definition DefaultEventIdentityWindow : Z := 4096.
Definition DefaultMaxCapabilities : Z := 32.
Definition DefaultMaxCapabilityNameLength : Z := 64.
Definition DefaultMaxCapabilityVersions : Z := 16.
Definition DefaultMaxClientNameLength : Z := 128.
Definition DefaultMaxEventTypeLength : Z := 128.
Definition DefaultMaxStateNamespaceLength : Z := 64.
Definition DefaultMaxStateObjectIDLength : Z := 256.
Definition DefaultMaxStateDataSize : Z := Z.shiftl 512 10.
Definition DefaultMaxStateObjectSize : Z := Z.shiftl 640 10.
Definition DefaultMaxStateQueryObjects : Z := 128.
Definition DefaultMaxStateSnapshotObjects : Z := 128.
Definition DefaultMaxStateSnapshotBytes : Z := Z.shiftl 768 10.
Definition DefaultMaxStateSyncNamespaces : Z := 32.
Definition DefaultMaxStateCacheObjects : Z := 4096.
Definition DefaultMaxStateCacheBytes : Z := Z.shiftl 16 20.

Record Limits := mkLimits {
  MaxFrameSize : Z;
  MaxPayloadSize : Z;
  MaxIDLength : Z;
  MaxSessionIDLength : Z;
  MaxErrorMessageLength : Z;
  MaxCapabilities : Z;
  MaxCapabilityNameLength : Z;
  MaxCapabilityVersions : Z;
  MaxClientNameLength : Z;
  MaxEventTypeLength : Z;
  MaxStateNamespaceLength : Z;
  MaxStateObjectIDLength : Z;
  MaxStateDataSize : Z;
  MaxStateObjectSize : Z;
  MaxStateQueryObjects : Z;
  MaxStateSnapshotObjects : Z;
  MaxStateSnapshotBytes : Z;
  MaxStateSyncNamespaces : Z
}.
#[export] Instance Limits_eta : Eta Limits := fun l =>
  mkLimits (MaxFrameSize l) (MaxPayloadSize l) (MaxIDLength l) (MaxSessionIDLength l)
    (MaxErrorMessageLength l) (MaxCapabilities l) (MaxCapabilityNameLength l)
    (MaxCapabilityVersions l) (MaxClientNameLength l) (MaxEventTypeLength l)
    (MaxStateNamespaceLength l) (MaxStateObjectIDLength l) (MaxStateDataSize l)
    (MaxStateObjectSize l) (MaxStateQueryObjects l) (MaxStateSnapshotObjects l)
    (MaxStateSnapshotBytes l) (MaxStateSyncNamespaces l).

Definition DefaultLimits : Limits :=
  mkLimits (Z.shiftl 1 20) (Z.shiftl 768 10) 128 128 1024 DefaultMaxCapabilities
    DefaultMaxCapabilityNameLength DefaultMaxCapabilityVersions DefaultMaxClientNameLength
    DefaultMaxEventTypeLength DefaultMaxStateNamespaceLength DefaultMaxStateObjectIDLength
    DefaultMaxStateDataSize DefaultMaxStateObjectSize DefaultMaxStateQueryObjects
    DefaultMaxStateSnapshotObjects DefaultMaxStateSnapshotBytes DefaultMaxStateSyncNamespaces.

(** One field of [normalizeLimits]: zero selects the default. *)
Definition or_default (v d : Z) : Z := if v =? 0 then d else v.

Definition normalizeLimits (l : Limits) : Limits :=
  let d := DefaultLimits in
  mkLimits
    (or_default (MaxFrameSize l) (MaxFrameSize d))
    (or_default (MaxPayloadSize l) (MaxPayloadSize d))
    (or_default (MaxIDLength l) (MaxIDLength d))
    (or_default (MaxSessionIDLength l) (MaxSessionIDLength d))
    (or_default (MaxErrorMessageLength l) (MaxErrorMessageLength d))
    (or_default (MaxCapabilities l) DefaultMaxCapabilities)
    (or_default (MaxCapabilityNameLength l) DefaultMaxCapabilityNameLength)
    (or_default (MaxCapabilityVersions l) DefaultMaxCapabilityVersions)
    (or_default (MaxClientNameLength l) DefaultMaxClientNameLength)
    (or_default (MaxEventTypeLength l) DefaultMaxEventTypeLength)
    (or_default (MaxStateNamespaceLength l) DefaultMaxStateNamespaceLength)
    (or_default (MaxStateObjectIDLength l) DefaultMaxStateObjectIDLength)
    (or_default (MaxStateDataSize l) DefaultMaxStateDataSize)
    (or_default (MaxStateObjectSize l) DefaultMaxStateObjectSize)
    (or_default (MaxStateQueryObjects l) DefaultMaxStateQueryObjects)
    (or_default (MaxStateSnapshotObjects l) DefaultMaxStateSnapshotObjects)
    (or_default (MaxStateSnapshotBytes l) DefaultMaxStateSnapshotBytes)
    (or_default (MaxStateSyncNamespaces l) DefaultMaxStateSyncNamespaces).

Definition validateLimits (l : Limits) : res unit :=
  guard_err
    ((MaxFrameSize l <=? 0) || (MaxPayloadSize l <=? 0) || (MaxIDLength l <=? 0)
     || (MaxSessionIDLength l <=? 0) || (MaxErrorMessageLength l <=? 0)
     || (MaxCapabilities l <=? 0) || (MaxCapabilityNameLength l <=? 0)
     || (MaxCapabilityVersions l <=? 0) || (MaxClientNameLength l <=? 0)
     || (MaxEventTypeLength l <=? 0) || (MaxStateNamespaceLength l <=? 0)
     || (MaxStateObjectIDLength l <=? 0) || (MaxStateDataSize l <=? 0)
     || (MaxStateObjectSize l <=? 0) || (MaxStateQueryObjects l <=? 0)
     || (MaxStateSnapshotObjects l <=? 0) || (MaxStateSnapshotBytes l <=? 0)
     || (MaxStateSyncNamespaces l <=? 0))
    (ENew "kmtproto: protocol limits must be positive").

(** ** action.go *)

Inductive StateApplyResult :=
| StateApplyApplied
| StateApplyDuplicate
| StateApplyStale
| StateApplyConflict.
#[export] Instance StateApplyResult_eq_dec : EqDecision StateApplyResult.
Proof. solve_decision. Defined.

Definition StateApplyResult_String (r : StateApplyResult) : string :=
  match r with
  | StateApplyApplied => "APPLIED"
  | StateApplyDuplicate => "DUPLICATE"
  | StateApplyStale => "STALE"
  | StateApplyConflict => "CONFLICT"
  end.

Inductive Action :=
| SendFrameAction (frame : Envelope)
| DeliverEventAction (event : Envelope)
| AckedAction (messageID : string)
| SessionReadyAction (sessionID : string)
| StateChangedAction (state : StateObject) (r : StateApplyResult)
| ProtocolErrorAction (error : ErrorPayload)
| FullSyncRequiredAction (sessionID : string)
| CloseConnectionAction (reason : string).
#[export] Instance Action_eq_dec : EqDecision Action.
Proof. solve_decision. Defined.

(** The defensive copies of the source; strings are immutable here. *)
Definition copyEnvelope (e : Envelope) : Envelope := e <| e_Payload := e_Payload e |>.
Definition cloneStateObject (o : StateObject) : StateObject :=
  mkStateObject (so_Namespace o) (so_ObjectID o) (so_Version o) (so_Data o).

Lemma copyEnvelope_id e : copyEnvelope e = e.
Proof. by destruct e. Qed.
Lemma cloneStateObject_id o : cloneStateObject o = o.
Proof. by destruct o. Qed.
#[export] Hint Rewrite copyEnvelope_id cloneStateObject_id : kmt.

(** ** Facts on limits and errors *)

Ltac solve_or_default :=
  unfold or_default; repeat match goal with |- context [if ?c then _ else _] => destruct c eqn:? end.

Lemma or_default_idem v d : d ≠ 0 → or_default (or_default v d) d = or_default v d.
Proof.
  intros Hd. unfold or_default. destruct (v =? 0) eqn:E; [|by rewrite E].
  apply Z.eqb_neq in Hd. by rewrite Hd.
Qed.

Lemma normalizeLimits_idem l : normalizeLimits (normalizeLimits l) = normalizeLimits l.
Proof. unfold normalizeLimits; cbn. f_equal; by apply or_default_idem. Qed.

