(* ===== verification/Ids.v ===== *)
(** * Identifiers and clocks (id.go, clock.go)

    ULIDs: 48 bits of milliseconds and 80 bits of randomness in Crockford's
    base 32.  The clock reading and the outcome of reading ten random bytes
    are arguments.  The text determines both parts, and texts sort by time. *)

From Stdlib Require Import Ascii String.
From S2P Require Import Prelude Utf8 Json Types Sha256.
Open Scope string_scope.
Open Scope list_scope.
Open Scope go_scope.
Open Scope Z_scope.

(** ** clock.go *)

Definition FakeClock := time.
Definition NewFakeClock (now : time) : FakeClock := now.
Definition FakeClock_Now (c : FakeClock) : time := c.
Definition FakeClock_Advance (c : FakeClock) (d : Duration) : FakeClock := Time_Add c d.

(** ** id.go *)

Definition crockfordBase32 : string := "0123456789ABCDEFGHJKMNPQRSTVWXYZ".
Definition crockford (d : Z) : ascii := default (chr 48) (String.get (Z.to_nat d) crockfordBase32).

(** [big.Int.SetBytes]. *)
Definition SetBytes (bs : list Z) : Z := foldl (fun acc b => acc * 256 + b) 0 bs.

(** The loop from the last character to the first. *)
Fixpoint ulid_loop (i : nat) (n : Z) (out : string) : string :=
  match i with
  | O => out
  | S i => ulid_loop i (n / 32) (String (crockford (n mod 32)) out)
  end.

Definition NewULID (now : time) (random : res (list Z)) : res string :=
  let millis := u64 (UnixMilli now) in
  _ ← guard_err (Z.shiftl 1 48 - 1 <? millis) (ENew "kmtproto: ULID timestamp out of range");
  bytes ← map_err (EWrap "kmtproto: generate ULID randomness: ") random;
  Ok (ulid_loop 26 (SetBytes (be_bytes 6 millis ++ bytes)) "").

Definition DefaultSessionIDGenerator (now : time) (random : res (list Z)) : res string :=
  id ← NewULID now random; Ok ("s_" +++ id).
Definition DefaultFrameIDGenerator (now : time) (random : res (list Z)) : res string :=
  id ← NewULID now random; Ok ("f_" +++ id).

(** ** The number in a ULID *)

Definition is_byte (b : Z) : Prop := 0 ≤ b < 256.

Lemma SetBytes_app xs ys : SetBytes (xs ++ ys) = SetBytes xs * 256 ^ Z.of_nat (length ys) + SetBytes ys.
Proof.
  unfold SetBytes. rewrite foldl_app. generalize (foldl (fun acc b => acc * 256 + b) 0 xs).
  induction ys as [|y ys IH] using rev_ind; intros a; [cbn; lia|].
  rewrite !foldl_app, IH, length_app. cbn [foldl length].
  rewrite Nat2Z.inj_add, Z.pow_add_r by lia. lia.
Qed.

Lemma SetBytes_bound bs : Forall is_byte bs → 0 ≤ SetBytes bs < 256 ^ Z.of_nat (length bs).
Proof.
  induction bs as [|b bs IH] using rev_ind; [done|]. intros [Hbs Hb]%Forall_app.
  specialize (IH Hbs). apply Forall_singleton in Hb as [Hb0 Hb1].
  rewrite SetBytes_app, length_app, Nat2Z.inj_add, Z.pow_add_r by lia. cbn. lia.
Qed.

Lemma length_be_bytes n x : length (be_bytes n x) = n.
Proof. induction n; cbn; auto. Qed.

Lemma SetBytes_be n x : SetBytes (be_bytes n x) = x mod 256 ^ Z.of_nat n.
Proof.
  induction n as [|n IH]; [by rewrite Z.mod_1_r|]. cbn [be_bytes].
  change (?b :: ?l) with ([b] ++ l). rewrite SetBytes_app, IH, length_be_bytes. cbn [SetBytes foldl].
  rewrite Nat2Z.inj_succ, Z.pow_succ_r by lia.
  rewrite (Z.mul_comm 256), Z.rem_mul_r by lia. lia.
Qed.

(** ** The text *)

(** The same characters, first to last. *)
Fixpoint ulid_text (k : nat) (n : Z) : string :=
  match k with
  | O => ""
  | S k => String (crockford (n / 32 ^ Z.of_nat k mod 32)) (ulid_text k n)
  end.

Lemma ulid_text_snoc k n :
  ulid_text (S k) n = ulid_text k (n / 32) +++ String (crockford (n mod 32)) "".
Proof.
  induction k as [|k IH]; [cbn; by rewrite Z.div_1_r|].
  change (ulid_text (S (S k)) n)
    with (String (crockford (n / 32 ^ Z.of_nat (S k) mod 32)) (ulid_text (S k) n)).
  rewrite IH. cbn [ulid_text String.append].
  rewrite Nat2Z.inj_succ, Z.pow_succ_r, Z.div_div by lia. done.
Qed.

Lemma ulid_loop_text k n out : ulid_loop k n out = ulid_text k n +++ out.
Proof.
  revert n out. induction k as [|k IH]; intros n out; [done|].
  cbn [ulid_loop]. rewrite IH, ulid_text_snoc, str_app_assoc. done.
Qed.

Lemma ulid_text_length k n : String.length (ulid_text k n) = k.
Proof. induction k; cbn; auto. Qed.

Lemma crockford_lt a b : 0 ≤ a < b → b < 32 → byte_of (crockford a) < byte_of (crockford b).
Proof.
  intros Hab Hb.
  assert (∀ i j, (i < j < 32)%nat →
    byte_of (crockford (Z.of_nat i)) < byte_of (crockford (Z.of_nat j))) as H.
  { intros i j [Hij Hj].
    do 32 (destruct j as [|j]; [do 32 (destruct i as [|i]; [first [lia|vm_compute; reflexivity]|]); lia|]).
    lia. }
  specialize (H (Z.to_nat a) (Z.to_nat b) ltac:(lia)). by rewrite !Z2Nat.id in H by lia.
Qed.

Lemma ulid_text_lt k n m :
  n mod 32 ^ Z.of_nat k < m mod 32 ^ Z.of_nat k → str_lt (ulid_text k n) (ulid_text k m).
Proof.
  induction k as [|k IH]; [rewrite !Z.mod_1_r; lia|]. intros H. unfold str_lt in *. cbn [ulid_text str_ltb].
  rewrite Nat2Z.inj_succ, Z.pow_succ_r, (Z.mul_comm 32), !Z.rem_mul_r in H by lia.
  set (p := 32 ^ Z.of_nat k) in *.
  assert (0 < p) by (apply Z.pow_pos_nonneg; lia).
  pose proof (Z.mod_pos_bound n p ltac:(lia)). pose proof (Z.mod_pos_bound m p ltac:(lia)).
  pose proof (Z.mod_pos_bound (n / p) 32 ltac:(lia)). pose proof (Z.mod_pos_bound (m / p) 32 ltac:(lia)).
  destruct (Z.lt_trichotomy (n / p mod 32) (m / p mod 32)) as [Hlt|[Heq|Hgt]].
  - rewrite (proj2 (Z.ltb_lt _ _)) by (apply crockford_lt; lia). done.
  - rewrite Heq, Z.ltb_irrefl, Z.eqb_refl. apply IH. nia.
  - nia.
Qed.

(** The 128 bits of a ULID. *)
Definition ulid_number (millis : Z) (bytes : list Z) : Z := millis * 2 ^ 80 + SetBytes bytes.

Lemma NewULID_Ok now bytes id :
  Forall is_byte bytes → length bytes = 10%nat → NewULID now (Ok bytes) = Ok id →
  0 ≤ u64 (UnixMilli now) < 2 ^ 48
  ∧ id = ulid_text 26 (ulid_number (u64 (UnixMilli now)) bytes)
  ∧ 0 ≤ ulid_number (u64 (UnixMilli now)) bytes < 2 ^ 128.
Proof.
  intros Hb Hlen H. unfold NewULID in H.
  change (Z.shiftl 1 48 - 1) with (2 ^ 48 - 1) in H.
  destruct (Z.ltb_spec (2 ^ 48 - 1) (u64 (UnixMilli now))) as [|Hmax]; [done|].
  change (Ok (ulid_loop 26 (SetBytes (be_bytes 6 (u64 (UnixMilli now)) ++ bytes)) "") = Ok (E:=goerror) id) in H.
  assert (id = ulid_loop 26 (SetBytes (be_bytes 6 (u64 (UnixMilli now)) ++ bytes)) "") as -> by congruence.
  clear H.
  pose proof (u64_range (UnixMilli now)) as [Hu _]. set (millis := u64 _) in *.
  assert (SetBytes (be_bytes 6 millis ++ bytes) = ulid_number millis bytes) as Hn.
  { rewrite SetBytes_app, SetBytes_be, Hlen. change (256 ^ Z.of_nat 6) with (2 ^ 48).
    rewrite Z.mod_small by lia. done. }
  pose proof (SetBytes_bound bytes Hb) as Hr. rewrite Hlen in Hr.
  change (256 ^ Z.of_nat 10) with (2 ^ 80) in Hr.
  rewrite Hn, ulid_loop_text, str_app_nil_r. unfold ulid_number in *. split_and!; [lia..|done|lia|lia].
Qed.

(** ** Order of the random parts *)

(** The lexicographic order of byte sequences, first byte first. *)
Fixpoint bytes_lt (xs ys : list Z) : Prop :=
  match xs, ys with
  | _, [] => False
  | [], _ :: _ => True
  | x :: xs, y :: ys => x < y ∨ (x = y ∧ bytes_lt xs ys)
  end.

Lemma SetBytes_cons b bs : SetBytes (b :: bs) = b * 256 ^ Z.of_nat (length bs) + SetBytes bs.
Proof. change (b :: bs) with ([b] ++ bs). rewrite SetBytes_app. done. Qed.

Lemma SetBytes_lt xs ys :
  Forall is_byte xs → Forall is_byte ys → length xs = length ys →
  SetBytes xs < SetBytes ys ↔ bytes_lt xs ys.
Proof.
  revert ys. induction xs as [|x xs IH]; intros [|y ys] Hx Hy Hlen; try done.
  apply Forall_cons in Hx as [Hx Hxs]. apply Forall_cons in Hy as [Hy Hys]. injection Hlen as Hlen.
  pose proof (SetBytes_bound xs Hxs) as Rx. pose proof (SetBytes_bound ys Hys) as Ry.
  rewrite !SetBytes_cons. cbn [bytes_lt]. rewrite <- (IH ys Hxs Hys Hlen). rewrite Hlen in *.
  set (p := 256 ^ Z.of_nat (length ys)) in *. split; [|intros [?|[-> ?]]; nia].
  intros H. destruct (Z.lt_trichotomy x y) as [?|[->|?]]; [by left|right; lia|exfalso; nia].
Qed.

Lemma SetBytes_inj xs ys :
  Forall is_byte xs → Forall is_byte ys → length xs = length ys → SetBytes xs = SetBytes ys → xs = ys.
Proof.
  revert ys. induction xs as [|x xs IH]; intros [|y ys] Hx Hy Hlen H; try done.
  apply Forall_cons in Hx as [Hx Hxs]. apply Forall_cons in Hy as [Hy Hys]. injection Hlen as Hlen.
  pose proof (SetBytes_bound xs Hxs) as Rx. pose proof (SetBytes_bound ys Hys) as Ry.
  rewrite !SetBytes_cons, Hlen in H. rewrite Hlen in Rx. set (p := 256 ^ Z.of_nat (length ys)) in *.
  assert (x = y) as -> by nia. f_equal. apply IH; [done..|lia].
Qed.

(** The order of ULID numbers is the order of their texts. *)
Lemma ulid_text_order n m :
  0 ≤ n < 2 ^ 128 → 0 ≤ m < 2 ^ 128 →
  (str_lt (ulid_text 26 n) (ulid_text 26 m) ↔ n < m) ∧ (ulid_text 26 n = ulid_text 26 m ↔ n = m).
Proof.
  intros Hn Hm.
  assert (∀ a b, 0 ≤ a < 2 ^ 128 → 0 ≤ b < 2 ^ 128 → a < b → str_lt (ulid_text 26 a) (ulid_text 26 b)) as Hlt.
  { intros a b Ha Hb Hab. apply ulid_text_lt. change (32 ^ Z.of_nat 26) with (2 ^ 130).
    rewrite !Z.mod_small by lia. done. }
  destruct (Z.lt_trichotomy n m) as [H|[->|H]].
  - pose proof (Hlt n m Hn Hm H) as Ht. split; [done|]. split; [|lia].
    intros Heq. rewrite Heq in Ht. by apply str_lt_irrefl in Ht.
  - split; [|done]. split; [|lia]. by intros ?%str_lt_irrefl.
  - pose proof (Hlt m n Hm Hn H) as Ht. split.
    + split; [|lia]. intros Ht'. exfalso. apply (str_lt_irrefl (ulid_text 26 n)).
      by eapply str_lt_trans.
    + split; [|lia]. intros Heq. rewrite Heq in Ht. by apply str_lt_irrefl in Ht.
Qed.

(** C40. ULIDs are 26 characters long and sort by creation time, then by
    randomness: of two identifiers made from ten random bytes each, one is
    smaller in string order exactly when it was made in an earlier
    millisecond, or in the same millisecond from a random part that is
    smaller in byte order; and they are equal exactly when both the
    millisecond and the random bytes are. *)
Theorem ulid_sortable now1 now2 bytes1 bytes2 id1 id2 :
  Forall is_byte bytes1 → length bytes1 = 10%nat → Forall is_byte bytes2 → length bytes2 = 10%nat →
  NewULID now1 (Ok bytes1) = Ok id1 → NewULID now2 (Ok bytes2) = Ok id2 →
  let millis1 := u64 (UnixMilli now1) in
  let millis2 := u64 (UnixMilli now2) in
  String.length id1 = 26%nat
  ∧ (str_lt id1 id2 ↔ millis1 < millis2 ∨ (millis1 = millis2 ∧ bytes_lt bytes1 bytes2))
  ∧ (id1 = id2 ↔ millis1 = millis2 ∧ bytes1 = bytes2).
Proof.
  intros B1 L1 B2 L2 H1 H2 millis1 millis2.
  destruct (NewULID_Ok _ _ _ B1 L1 H1) as (M1 & -> & N1).
  destruct (NewULID_Ok _ _ _ B2 L2 H2) as (M2 & -> & N2).
  pose proof (SetBytes_bound bytes1 B1) as R1. pose proof (SetBytes_bound bytes2 B2) as R2.
  rewrite L1 in R1. rewrite L2 in R2. change (256 ^ Z.of_nat 10) with (2 ^ 80) in *.
  fold millis1 in M1, N1 |- *. fold millis2 in M2, N2 |- *.
  destruct (ulid_text_order _ _ N1 N2) as [Hlt Heq]. rewrite Hlt, Heq.
  split_and!; [apply ulid_text_length| |].
  - rewrite <- SetBytes_lt by congruence. unfold ulid_number. lia.
  - split; [|by intros [-> ->]]. unfold ulid_number. intros H.
    assert (millis1 = millis2) as Hm by lia. split; [done|]. apply SetBytes_inj; [done..|congruence|lia].
Qed.

Definition demo_random : list Z := [1; 2; 3; 4; 5; 6; 7; 8; 9; 10].
Definition demo_random' : list Z := [1; 2; 3; 4; 5; 7; 0; 0; 0; 0].

(** Two identifiers of one millisecond, and one of the next. *)
Lemma ulid_sortable_witness :
  ∃ id1 id2 id3,
    NewULID (5 * 10 ^ 6) (Ok demo_random) = Ok id1 ∧ NewULID (5 * 10 ^ 6) (Ok demo_random') = Ok id2
    ∧ NewULID (6 * 10 ^ 6) (Ok demo_random) = Ok id3 ∧ str_lt id1 id2 ∧ str_lt id2 id3.
Proof.
  destruct (NewULID (5 * 10 ^ 6) (Ok demo_random)) as [id1|] eqn:E1; [|vm_compute in E1; discriminate].
  destruct (NewULID (5 * 10 ^ 6) (Ok demo_random')) as [id2|] eqn:E2; [|vm_compute in E2; discriminate].
  destruct (NewULID (6 * 10 ^ 6) (Ok demo_random)) as [id3|] eqn:E3; [|vm_compute in E3; discriminate].
  exists id1, id2, id3. do 3 (split; [reflexivity|]). split.
  - destruct (ulid_sortable (5 * 10 ^ 6) (5 * 10 ^ 6) demo_random demo_random' id1 id2) as (_ & H & _).
    + repeat constructor; vm_compute; congruence.
    + reflexivity.
    + repeat constructor; vm_compute; congruence.
    + reflexivity.
    + exact E1.
    + exact E2.
    + apply H. right. split; [vm_compute; reflexivity|]. cbn. intuition lia.
  - destruct (ulid_sortable (5 * 10 ^ 6) (6 * 10 ^ 6) demo_random' demo_random id2 id3) as (_ & H & _).
    + repeat constructor; vm_compute; congruence.
    + reflexivity.
    + repeat constructor; vm_compute; congruence.
    + reflexivity.
    + exact E2.
    + exact E3.
    + apply H. left. vm_compute. reflexivity.
Defined.
