(* ===== verification/Codec.v ===== *)
(** * Payload encoding and decoding (json_codec.go)

    How each wire structure is laid out by [json.Marshal] and filled by a
    [json.Decoder], and the functions of json_codec.go that do not depend on
    frame validation: [decodePayload], [rejectDuplicateJSONFields],
    [walkStrictJSONValue], [ensureJSONEOF] and [mustPayload].  The codec
    itself is in Validate.v, because it validates what it reads and writes. *)

From Stdlib Require Import Ascii String.
From S2P Require Import Prelude Utf8 Json Types.
Open Scope string_scope.
Open Scope list_scope.
Open Scope go_scope.
Open Scope Z_scope.

Abbreviation jres := (result json_error).

(** ** Decoding a value into a Go variable

    A JSON null leaves scalars and structs unchanged and empties pointers
    and slices; a member selects a field by its case-folded name. *)

Definition dec_string (old : string) (v : jvalue) : jres string :=
  match v with JString s => Ok s | JNull => Ok old | _ => Err JType end.

Definition dec_bool (old : bool) (v : jvalue) : jres bool :=
  match v with JBool b => Ok b | JNull => Ok old | _ => Err JType end.

Fixpoint digits_val (acc : Z) (s : string) : option Z :=
  match s with
  | EmptyString => Some acc
  | String a s => if is_digit a then digits_val (acc * 10 + (byte_of a - 48)) s else None
  end.

(** [strconv.ParseUint] and [strconv.ParseInt] in base 10 on a JSON number. *)
Definition parse_uint (t : string) : option Z :=
  match t with EmptyString => None | _ => digits_val 0 t end.
Definition parse_int (t : string) : option Z :=
  match t with
  | String a r => if byte_of a =? 45 then Z.opp <$> parse_uint r else parse_uint t
  | EmptyString => None
  end.

Definition dec_uint (max : Z) (old : Z) (v : jvalue) : jres Z :=
  match v with
  | JNumber t =>
      match parse_uint t with
      | Some n => if n <=? max then Ok n else Err JType
      | None => Err JType
      end
  | JNull => Ok old
  | _ => Err JType
  end.

Definition dec_int64 (old : Z) (v : jvalue) : jres Z :=
  match v with
  | JNumber t =>
      match parse_int t with
      | Some n => if (MinInt64 <=? n) && (n <=? MaxInt64) then Ok n else Err JType
      | None => Err JType
      end
  | JNull => Ok old
  | _ => Err JType
  end.

Section containers.
Context {A : Type} (zero : A).

(** Element [i] is decoded over the previous element [i], if any. *)
Fixpoint dec_elems (dec : A → jvalue → jres A) (old : list A) (vs : list jvalue)
  : jres (list A) :=
  match vs with
  | [] => Ok []
  | v :: vs =>
      a ← dec (default zero (head old)) v;
      l ← dec_elems dec (tail old) vs;
      Ok (a :: l)
  end.

Definition dec_slice (dec : A → jvalue → jres A) (old : list A) (v : jvalue) : jres (list A) :=
  match v with
  | JArray vs => dec_elems dec old vs
  | JNull => Ok []
  | _ => Err JType
  end.

Definition dec_pointer (dec : A → jvalue → jres A) (old : option A) (v : jvalue)
  : jres (option A) :=
  match v with
  | JNull => Ok None
  | _ => a ← dec (default zero old) v; Ok (Some a)
  end.
End containers.

Definition u16max : Z := 2 ^ 16 - 1.

(** A wire structure: its zero value, the assignment a member performs
    ([None] for a member that names no field), and its encoding. *)
Class Wire (A : Type) := {
  zero : A;
  set_member : bool → A → string → string → jvalue → option (jres A);
  layout : A → jout
}.

Fixpoint dec_members `{Wire A} (strict : bool) (a : A) (ms : list (string * string * jvalue))
  : jres A :=
  match ms with
  | [] => Ok a
  | (key, raw, v) :: ms =>
      match set_member strict a key raw v with
      | Some r => a' ← r; dec_members strict a' ms
      | None => if strict then Err (JUnknownField key) else dec_members strict a ms
      end
  end.

Definition dec_struct `{Wire A} (strict : bool) (old : A) (v : jvalue) : jres A :=
  match v with
  | JObject ms => dec_members strict old ms
  | JNull => Ok old
  | _ => Err JType
  end.

Definition omit (empty : bool) (name : string) (o : jout) : list (string * jout) :=
  if empty then [] else [(name, o)].

(** A slice that is nil when empty. *)
Definition slice_out {A} (f : A → jout) (l : list A) : jout :=
  match l with [] => ONull | _ => OArr (map f l) end.

Definition is_nil {A} (l : list A) : bool := match l with [] => true | _ => false end.

(** ** The wire structures *)

#[export] Instance CapabilityOffer_wire : Wire CapabilityOffer := {|
  zero := mkOffer "" [] false;
  set_member strict a key raw v :=
    if field_is key "name" then
      Some (x ← dec_string (co_Name a) v; Ok (mkOffer x (co_Versions a) (co_Required a)))
    else if field_is key "versions" then
      Some (x ← dec_slice 0 (dec_uint u16max) (co_Versions a) v;
            Ok (mkOffer (co_Name a) x (co_Required a)))
    else if field_is key "required" then
      Some (x ← dec_bool (co_Required a) v; Ok (mkOffer (co_Name a) (co_Versions a) x))
    else None;
  layout a :=
    OObj ([("name", OStr (co_Name a)); ("versions", slice_out OInt (co_Versions a))]
          ++ omit (negb (co_Required a)) "required" (OBool (co_Required a)))
|}.

#[export] Instance NegotiatedCapability_wire : Wire NegotiatedCapability := {|
  zero := mkNegotiated "" 0;
  set_member strict a key raw v :=
    if field_is key "name" then
      Some (x ← dec_string (nc_Name a) v; Ok (mkNegotiated x (nc_Version a)))
    else if field_is key "version" then
      Some (x ← dec_uint u16max (nc_Version a) v; Ok (mkNegotiated (nc_Name a) x))
    else None;
  layout a := OObj [("name", OStr (nc_Name a)); ("version", OInt (nc_Version a))]
|}.

#[export] Instance HelloPayload_wire : Wire HelloPayload := {|
  zero := mkHello "" [];
  set_member strict a key raw v :=
    if field_is key "client_name" then
      Some (x ← dec_string (hp_ClientName a) v; Ok (mkHello x (hp_Capabilities a)))
    else if field_is key "capabilities" then
      Some (x ← dec_slice zero (dec_struct strict) (hp_Capabilities a) v;
            Ok (mkHello (hp_ClientName a) x))
    else None;
  layout a :=
    OObj (omit (hp_ClientName a == "") "client_name" (OStr (hp_ClientName a))
          ++ omit (is_nil (hp_Capabilities a)) "capabilities" (OArr (map layout (hp_Capabilities a))))
|}.

#[export] Instance ResumeStateSync_wire : Wire ResumeStateSync := {|
  zero := mkResumeStateSync [];
  set_member strict a key raw v :=
    if field_is key "namespaces" then
      Some (x ← dec_slice "" dec_string (rss_Namespaces a) v; Ok (mkResumeStateSync x))
    else None;
  layout a := OObj [("namespaces", slice_out OStr (rss_Namespaces a))]
|}.

Definition cloneResumeStateSync (sync : option ResumeStateSync) : option ResumeStateSync :=
  match sync with
  | None => None
  | Some s => Some (mkResumeStateSync (rss_Namespaces s))
  end.

Definition pointer_out `{Wire A} (name : string) (p : option A) : list (string * jout) :=
  match p with None => [] | Some a => [(name, layout a)] end.

(** [WelcomePayload.MarshalJSON]: the two shapes of a WELCOME. *)
Definition WelcomePayload_MarshalJSON (p : WelcomePayload) : jout :=
  if wp_Mode p == WelcomeModeResumed then
    OObj ([("mode", OStr (wp_Mode p)); ("server_time", OInt (wp_ServerTime p));
           ("resume_from", OInt (wp_ResumeFrom p)); ("replay_to", OInt (wp_ReplayTo p))]
          ++ pointer_out "state_sync" (cloneResumeStateSync (wp_StateSync p)))
  else
    OObj ([("mode", OStr (wp_Mode p)); ("server_time", OInt (wp_ServerTime p))]
          ++ omit (is_nil (wp_AcceptedCapabilities p)) "accepted_capabilities"
               (OArr (map layout (wp_AcceptedCapabilities p)))).

#[export] Instance WelcomePayload_eta : Eta WelcomePayload := fun p =>
  mkWelcome (wp_Mode p) (wp_ServerTime p) (wp_ResumeFrom p) (wp_ReplayTo p)
    (wp_StateSync p) (wp_AcceptedCapabilities p).

#[export] Instance WelcomePayload_wire : Wire WelcomePayload := {|
  zero := mkWelcome "" 0 0 0 None [];
  set_member strict a key raw v :=
    if field_is key "mode" then
      Some (x ← dec_string (wp_Mode a) v; Ok (a <| wp_Mode := x |>))
    else if field_is key "server_time" then
      Some (x ← dec_int64 (wp_ServerTime a) v; Ok (a <| wp_ServerTime := x |>))
    else if field_is key "resume_from" then
      Some (x ← dec_uint MaxUint64 (wp_ResumeFrom a) v; Ok (a <| wp_ResumeFrom := x |>))
    else if field_is key "replay_to" then
      Some (x ← dec_uint MaxUint64 (wp_ReplayTo a) v; Ok (a <| wp_ReplayTo := x |>))
    else if field_is key "state_sync" then
      Some (x ← dec_pointer zero (dec_struct strict) (wp_StateSync a) v;
            Ok (a <| wp_StateSync := x |>))
    else if field_is key "accepted_capabilities" then
      Some (x ← dec_slice zero (dec_struct strict) (wp_AcceptedCapabilities a) v;
            Ok (a <| wp_AcceptedCapabilities := x |>))
    else None;
  layout := WelcomePayload_MarshalJSON
|}.

#[export] Instance PingPayload_wire : Wire PingPayload := {|
  zero := mkPing "" 0;
  set_member strict a key raw v :=
    if field_is key "ping_id" then
      Some (x ← dec_string (pi_PingID a) v; Ok (mkPing x (pi_ClientTime a)))
    else if field_is key "client_time" then
      Some (x ← dec_int64 (pi_ClientTime a) v; Ok (mkPing (pi_PingID a) x))
    else None;
  layout a := OObj [("ping_id", OStr (pi_PingID a)); ("client_time", OInt (pi_ClientTime a))]
|}.

#[export] Instance PongPayload_wire : Wire PongPayload := {|
  zero := mkPong "" 0 0;
  set_member strict a key raw v :=
    if field_is key "ping_id" then
      Some (x ← dec_string (po_PingID a) v; Ok (mkPong x (po_ClientTime a) (po_ServerTime a)))
    else if field_is key "client_time" then
      Some (x ← dec_int64 (po_ClientTime a) v; Ok (mkPong (po_PingID a) x (po_ServerTime a)))
    else if field_is key "server_time" then
      Some (x ← dec_int64 (po_ServerTime a) v; Ok (mkPong (po_PingID a) (po_ClientTime a) x))
    else None;
  layout a := OObj [("ping_id", OStr (po_PingID a)); ("client_time", OInt (po_ClientTime a));
                    ("server_time", OInt (po_ServerTime a))]
|}.

#[export] Instance SendPayload_wire : Wire SendPayload := {|
  zero := mkSend "";
  set_member strict a key raw v :=
    if field_is key "content" then Some (Ok (mkSend raw)) else None;
  layout a := OObj [("content", ORaw (sp_Content a))]
|}.

#[export] Instance AckPayload_wire : Wire AckPayload := {|
  zero := mkAck "";
  set_member strict a key raw v :=
    if field_is key "ref_id" then Some (x ← dec_string (ap_RefID a) v; Ok (mkAck x)) else None;
  layout a := OObj [("ref_id", OStr (ap_RefID a))]
|}.

#[export] Instance EventPayload_wire : Wire EventPayload := {|
  zero := mkEvent "" "";
  set_member strict a key raw v :=
    if field_is key "event_type" then
      Some (x ← dec_string (ep_EventType a) v; Ok (mkEvent x (ep_Content a)))
    else if field_is key "content" then Some (Ok (mkEvent (ep_EventType a) raw))
    else None;
  layout a :=
    OObj (omit (ep_EventType a == "") "event_type" (OStr (ep_EventType a))
          ++ [("content", ORaw (ep_Content a))])
|}.

#[export] Instance ResumePayload_wire : Wire ResumePayload := {|
  zero := mkResume 0 None;
  set_member strict a key raw v :=
    if field_is key "last_seq" then
      Some (x ← dec_uint MaxUint64 (rp_LastSeq a) v; Ok (mkResume x (rp_StateSync a)))
    else if field_is key "state_sync" then
      Some (x ← dec_pointer zero (dec_struct strict) (rp_StateSync a) v;
            Ok (mkResume (rp_LastSeq a) x))
    else None;
  layout a := OObj (("last_seq", OInt (rp_LastSeq a)) :: pointer_out "state_sync" (rp_StateSync a))
|}.

#[export] Instance StateQueryPayload_wire : Wire StateQueryPayload := {|
  zero := mkStateQuery "" [];
  set_member strict a key raw v :=
    if field_is key "namespace" then
      Some (x ← dec_string (sq_Namespace a) v; Ok (mkStateQuery x (sq_ObjectIDs a)))
    else if field_is key "object_ids" then
      Some (x ← dec_slice "" dec_string (sq_ObjectIDs a) v; Ok (mkStateQuery (sq_Namespace a) x))
    else None;
  layout a := OObj [("namespace", OStr (sq_Namespace a));
                    ("object_ids", slice_out OStr (sq_ObjectIDs a))]
|}.

#[export] Instance StateObject_wire : Wire StateObject := {|
  zero := mkStateObject "" "" 0 "";
  set_member strict a key raw v :=
    if field_is key "namespace" then
      Some (x ← dec_string (so_Namespace a) v;
            Ok (mkStateObject x (so_ObjectID a) (so_Version a) (so_Data a)))
    else if field_is key "object_id" then
      Some (x ← dec_string (so_ObjectID a) v;
            Ok (mkStateObject (so_Namespace a) x (so_Version a) (so_Data a)))
    else if field_is key "version" then
      Some (x ← dec_uint MaxUint64 (so_Version a) v;
            Ok (mkStateObject (so_Namespace a) (so_ObjectID a) x (so_Data a)))
    else if field_is key "data" then
      Some (Ok (mkStateObject (so_Namespace a) (so_ObjectID a) (so_Version a) raw))
    else None;
  layout a := OObj [("namespace", OStr (so_Namespace a)); ("object_id", OStr (so_ObjectID a));
                    ("version", OInt (so_Version a)); ("data", ORaw (so_Data a))]
|}.

(** The accumulator's slice is never nil, so no states print as []. *)
#[export] Instance StateSnapshotPayload_wire : Wire StateSnapshotPayload := {|
  zero := mkStateSnapshot [];
  set_member strict a key raw v :=
    if field_is key "states" then
      Some (x ← dec_slice zero (dec_struct strict) (ss_States a) v; Ok (mkStateSnapshot x))
    else None;
  layout a := OObj [("states", OArr (map layout (ss_States a)))]
|}.

#[export] Instance StateUpdatePayload_wire : Wire StateUpdatePayload := {|
  zero := mkStateUpdate zero;
  set_member strict a key raw v :=
    if field_is key "state" then
      Some (x ← dec_struct strict (su_State a) v; Ok (mkStateUpdate x))
    else None;
  layout a := OObj [("state", layout (su_State a))]
|}.

#[export] Instance ErrorPayload_wire : Wire ErrorPayload := {|
  zero := mkError "" "" "" false;
  set_member strict a key raw v :=
    if field_is key "code" then
      Some (x ← dec_string (er_Code a) v;
            Ok (mkError x (er_Message a) (er_RefID a) (er_Retryable a)))
    else if field_is key "message" then
      Some (x ← dec_string (er_Message a) v;
            Ok (mkError (er_Code a) x (er_RefID a) (er_Retryable a)))
    else if field_is key "ref_id" then
      Some (x ← dec_string (er_RefID a) v;
            Ok (mkError (er_Code a) (er_Message a) x (er_Retryable a)))
    else if field_is key "retryable" then
      Some (x ← dec_bool (er_Retryable a) v;
            Ok (mkError (er_Code a) (er_Message a) (er_RefID a) x))
    else None;
  layout a :=
    OObj ([("code", OStr (er_Code a))]
          ++ omit (er_Message a == "") "message" (OStr (er_Message a))
          ++ omit (er_RefID a == "") "ref_id" (OStr (er_RefID a))
          ++ [("retryable", OBool (er_Retryable a))])
|}.

#[export] Instance Envelope_wire : Wire Envelope := {|
  zero := zeroEnvelope;
  set_member strict a key raw v :=
    if field_is key "v" then
      Some (x ← dec_uint u16max (e_V a) v; Ok (a <| e_V := x |>))
    else if field_is key "type" then
      Some (x ← dec_string (e_Type a) v; Ok (a <| e_Type := x |>))
    else if field_is key "id" then
      Some (x ← dec_string (e_ID a) v; Ok (a <| e_ID := x |>))
    else if field_is key "session_id" then
      Some (x ← dec_string (e_SessionID a) v; Ok (a <| e_SessionID := x |>))
    else if field_is key "seq" then
      Some (x ← dec_uint MaxUint64 (e_Seq a) v; Ok (a <| e_Seq := x |>))
    else if field_is key "timestamp" then
      Some (x ← dec_int64 (e_Timestamp a) v; Ok (a <| e_Timestamp := x |>))
    else if field_is key "payload" then Some (Ok (a <| e_Payload := raw |>))
    else None;
  layout a :=
    OObj ([("v", OInt (e_V a)); ("type", OStr (e_Type a))]
          ++ omit (e_ID a == "") "id" (OStr (e_ID a))
          ++ omit (e_SessionID a == "") "session_id" (OStr (e_SessionID a))
          ++ omit (e_Seq a =? 0) "seq" (OInt (e_Seq a))
          ++ omit (e_Timestamp a =? 0) "timestamp" (OInt (e_Timestamp a))
          ++ omit (e_Payload a == "") "payload" (ORaw (e_Payload a)))
|}.

(** [json.Marshal] of a wire structure. *)
Definition Marshal `{Wire A} (a : A) : option string := json_Marshal (layout a).
#[global] Arguments Marshal {A _} a : simpl never.

(** [mustPayload] panics when marshalling fails.  Its callers only pass
    payloads whose raw members are valid JSON, for which it does not
    ([mustPayload_total] of CodecProps). *)
Definition mustPayload `{Wire A} (a : A) : string := default "" (Marshal a).

(** ** json_codec.go *)

Definition str_in (x : string) (l : list string) : bool := existsb (fun y => x == y) l.

Lemma str_in_elem x l : str_in x l = true ↔ x ∈ l.
Proof.
  unfold str_in. rewrite existsb_exists, list_elem_of_In. split.
  - by intros (y & Hy & ->%bool_decide_eq_true).
  - intros Hx. exists x. split; [done|by apply bool_decide_eq_true].
Qed.

(** [walkStrictJSONValue]: the first repeated member name outside the
    opaque members, or none. *)
Fixpoint walkStrictJSONValue (opaque : list string) (v : jvalue) : option string :=
  match v with
  | JObject ms =>
      (fix members (seen : list string) (ms : list (string * string * jvalue)) :=
         match ms with
         | [] => None
         | (key, _, v) :: ms =>
             if str_in key seen then Some key
             else if str_in key opaque then members (key :: seen) ms
             else match walkStrictJSONValue opaque v with
                  | Some k => Some k
                  | None => members (key :: seen) ms
                  end
         end) [] ms
  | JArray vs =>
      (fix elements (vs : list jvalue) :=
         match vs with
         | [] => None
         | v :: vs =>
             match walkStrictJSONValue opaque v with
             | Some k => Some k
             | None => elements vs
             end
         end) vs
  | _ => None
  end.

Section codec.
Context {ST : StdText}.

Definition bad_request (message : string) : goerror := NewProtocolError ErrorBadRequest message.

Definition ensureJSONEOF (rest : string) : res unit :=
  match dec_Decode rest with
  | Err JEOF => Ok tt
  | Ok _ => Err (ENew "multiple JSON values")
  | Err e => Err (EWrap "invalid trailing JSON: " (EJson e))
  end.

Definition rejectDuplicateJSONFields (raw : string) (opaque : list string) : res unit :=
  match dec_Decode raw with
  | Err e => Err (bad_request ("invalid JSON object: " +++ err_Error (EJson e)))
  | Ok (v, rest) =>
      match walkStrictJSONValue opaque v with
      | Some key =>
          Err (bad_request ("invalid JSON object: " +++ "duplicate object member " +++ go_quote key))
      | None => map_err (fun e => bad_request (err_Error e)) (ensureJSONEOF rest)
      end
  end.

Definition decodePayload `{Wire A} (raw : string) (strict : bool) : res A :=
  _ ← guard_err ((slen raw =? 0) || (TrimSpace raw == "null")) (bad_request "missing payload");
  _ ← (if strict then rejectDuplicateJSONFields raw ["content"; "data"] else Ok tt);
  match dec_Decode raw with
  | Err e => Err (bad_request ("invalid payload: " +++ err_Error (EJson e)))
  | Ok (v, rest) =>
      match dec_struct strict zero v with
      | Err e => Err (bad_request ("invalid payload: " +++ err_Error (EJson e)))
      | Ok a =>
          _ ← map_err (fun e => bad_request (err_Error e)) (ensureJSONEOF rest);
          Ok a
      end
  end.
End codec.

(** ** What decoding guarantees *)

Section decoded.
Context {ST : StdText} `{Wire A} (P : A → Prop).
Hypothesis P_zero : P zero.
Hypothesis P_member : ∀ strict a key raw v a',
  set_member strict a key raw v = Some (Ok a') → P a → P a'.

Lemma dec_members_inv strict a ms a' :
  dec_members strict a ms = Ok a' → P a → P a'.
Proof.
  revert a. induction ms as [|[[key raw] v] ms IH]; cbn; intros a Hd Ha; [by injection Hd as ->|].
  destruct (set_member strict a key raw v) as [[a1|e]|] eqn:E; cbn in Hd; [|done|].
  - eapply IH; eauto.
  - destruct strict; [done|]. eapply IH; eauto.
Qed.

Lemma dec_struct_inv strict old v a : dec_struct strict old v = Ok a → P old → P a.
Proof. unfold dec_struct. destruct v; try done; [by intros [= <-]|]. apply dec_members_inv. Qed.

(** A property of the zero value that every assignment keeps holds of
    whatever [decodePayload] returns. *)
Lemma decodePayload_inv raw strict a : decodePayload raw strict = Ok a → P a.
Proof.
  unfold decodePayload. intros Hd. inv_ok.
  destruct (dec_Decode raw) as [[v rest]|]; [|done].
  destruct (dec_struct strict zero v) as [a'|] eqn:E; [|done]. inv_ok. by eapply dec_struct_inv.
Qed.
End decoded.

(** The elements of a decoded slice. *)
Lemma dec_slice_inv {A} (z : A) (P : A → Prop) dec old v l :
  (∀ a w a', dec a w = Ok a' → P a → P a') → P z → Forall P old → dec_slice z dec old v = Ok l → Forall P l.
Proof.
  intros Hdec Hz Hold. unfold dec_slice. destruct v; try done; [by intros [= <-]|]. revert old Hold l.
  match goal with |- context [dec_elems _ _ _ ?vs] => induction vs as [|v vs IH] end; intros old Hold l; cbn;
    [by intros [= <-]|].
  intros H. inv_ok. constructor.
  - eapply Hdec; [eassumption|]. destruct old; [done|]. by inversion Hold.
  - eapply IH; [|eassumption]. destruct old; [done|]. by inversion Hold.
Qed.

Lemma digits_val_nonneg acc s n : 0 ≤ acc → digits_val acc s = Some n → 0 ≤ n.
Proof.
  revert acc. induction s as [|a s IH]; cbn; intros acc Hacc; [by intros [= <-]|].
  destruct (is_digit a) eqn:E; [|done]. apply IH.
  unfold is_digit, in_range in E. bools. lia.
Qed.

Lemma dec_uint_range max old v n : dec_uint max old v = Ok n → 0 ≤ old ≤ max → 0 ≤ n ≤ max.
Proof.
  destruct v; cbn; try done; [by intros [= <-]|].
  destruct (parse_uint text) as [m|] eqn:E; [|done].
  destruct (Z.leb_spec m max); [|done]. intros [= <-] _. split; [|done].
  unfold parse_uint in E. destruct text; [done|]. eapply digits_val_nonneg; [|done]. lia.
Qed.

Lemma decodePayload_Welcome_u64 {ST : StdText} raw strict p :
  decodePayload (A:=WelcomePayload) raw strict = Ok p →
  is_u64 (wp_ResumeFrom p) ∧ is_u64 (wp_ReplayTo p).
Proof.
  apply (decodePayload_inv (fun p => is_u64 (wp_ResumeFrom p) ∧ is_u64 (wp_ReplayTo p))).
  { done. }
  intros strict' a key raw' v a' Hm [H1 H2]. cbn in Hm.
  repeat match type of Hm with
  | (if ?c then _ else _) = _ => destruct c
  end; try done; injection Hm as Hm; inv_ok; cbn; split; try done;
    eapply dec_uint_range; done.
Qed.
