(* ===== verification/Capability.v ===== *)
(** * Capability negotiation (capability.go)

    The server's immutable registry, the negotiation it performs on the
    offers of a HELLO, the immutable capability set of a Session, and the
    client's check of what the server accepted. *)

From Stdlib Require Import Ascii String.
From S2P Require Import Prelude Utf8 Json Types Codec.
Open Scope string_scope.
Open Scope list_scope.
Open Scope go_scope.
Open Scope Z_scope.

(** ** Library routines *)

(** [sort.Slice] on numbers in increasing order. *)
Definition sort_versions (l : list Z) : list Z := merge_sort Z.le l.

(** [sort.Search]: binary search for the first index in [0, n) where [f]
    holds.  The interval shrinks in every round, so [n + 1] rounds suffice. *)
Fixpoint search_loop (fuel : nat) (f : nat → bool) (i j : nat) : nat :=
  match fuel with
  | O => i
  | S fuel =>
      if (i <? j)%nat then
        let h := ((i + j) / 2)%nat in
        if f h then search_loop fuel f i h else search_loop fuel f (S h) j
      else i
  end.
Definition sort_Search (n : nat) (f : nat → bool) : nat := search_loop (S n) f 0%nat n.

(** [strings.FieldsFunc] for a predicate on ASCII bytes. *)
Fixpoint fields_loop (p : ascii → bool) (cur : string) (s : string) : list string :=
  match s with
  | EmptyString => if cur == "" then [] else [cur]
  | String a r =>
      if p a then (if cur == "" then fields_loop p "" r else cur :: fields_loop p "" r)
      else fields_loop p (cur +++ String a "") r
  end.
Definition FieldsFunc (s : string) (p : ascii → bool) : list string := fields_loop p "" s.

(** ** Names and versions *)

Definition allASCIIDigits (value : string) : bool :=
  if value == "" then false else str_forall is_digit value.

Definition is_lower (a : ascii) : bool := in_range 97 122 (byte_of a).
Definition is_separator (a : ascii) : bool := (byte_of a =? 46) || (byte_of a =? 45).

(** The loop over [name[1:]]: the final [separator] flag, or [None] at a bad
    byte or a repeated separator. *)
Fixpoint name_loop (separator : bool) (s : string) : option bool :=
  match s with
  | EmptyString => Some separator
  | String ch r =>
      if is_lower ch then name_loop false r
      else if is_digit ch then name_loop false r
      else if is_separator ch then (if separator then None else name_loop true r)
      else None
  end.

Definition invalid_capability (message : string) : goerror :=
  NewProtocolError ErrorInvalidCapability message.

Definition validateCapabilityName (name : string) (limits : Limits) : res unit :=
  _ ← guard_err ((name == "") || (MaxCapabilityNameLength limits <? slen name)
                 || negb (utf8_ValidString name))
        (invalid_capability "invalid or oversized capability name");
  match name with
  | EmptyString => Ok tt
  | String first tl =>
      _ ← guard_err (negb (is_lower first)) (invalid_capability ("invalid capability name: " +++ name));
      match name_loop false tl with
      | None | Some true => Err (invalid_capability ("invalid capability name: " +++ name))
      | Some false =>
          let parts := FieldsFunc name is_separator in
          match default "" (last parts) with
          | String v digits =>
              guard_err ((1 <? slen (String v digits)) && (byte_of v =? 118) && allASCIIDigits digits)
                (invalid_capability "capability version must use the numeric version field")
          | EmptyString => Ok tt
          end
      end
  end.

(** The scan of the sorted versions for zero and for repetitions. *)
Fixpoint check_versions (prev : option Z) (l : list Z) : res unit :=
  match l with
  | [] => Ok tt
  | v :: l =>
      if v =? 0 then Err (invalid_capability "capability version must be positive")
      else if bool_decide (prev = Some v) then Err (invalid_capability "duplicate capability version")
      else check_versions (Some v) l
  end.

Definition validateAndSortCapabilityVersions (versions : list Z) (limits : Limits) : res (list Z) :=
  _ ← guard_err ((Z.of_nat (length versions) =? 0)
                 || (MaxCapabilityVersions limits <? Z.of_nat (length versions)))
        (invalid_capability "capability requires a bounded non-empty version list");
  let result := sort_versions versions in
  _ ← check_versions None result;
  Ok result.

(** The descending two-pointer walk; [i] and [j] only decrease, so the sum
    of the lengths bounds the number of rounds. *)
Fixpoint common_loop (fuel : nat) (client server : list Z) (i j : Z) : option Z :=
  match fuel with
  | O => None
  | S fuel =>
      if (0 <=? i) && (0 <=? j) then
        match client !! Z.to_nat i, server !! Z.to_nat j with
        | Some c, Some s =>
            if c =? s then Some c
            else if s <? c then common_loop fuel client server (i - 1) j
            else common_loop fuel client server i (j - 1)
        | _, _ => None
        end
      else None
  end.
Definition highestCommonCapabilityVersion (client server : list Z) : option Z :=
  common_loop (S (length client + length server)) client server
    (Z.of_nat (length client) - 1) (Z.of_nat (length server) - 1).

Definition containsCapabilityVersion (versions : list Z) (target : Z) : bool :=
  let i := sort_Search (length versions)
             (fun i => match versions !! i with Some v => target <=? v | None => true end) in
  (i <? length versions)%nat
  && match versions !! i with Some v => v =? target | None => false end.

(** ** Offers *)

Fixpoint offers_loop (limits : Limits) (seen : gset string) (offers : list CapabilityOffer)
  : res (list CapabilityOffer) :=
  match offers with
  | [] => Ok []
  | offer :: offers =>
      _ ← validateCapabilityName (co_Name offer) limits;
      _ ← guard_err (bool_decide (co_Name offer ∈ seen))
            (invalid_capability ("duplicate capability offer: " +++ co_Name offer));
      versions ← map_err (EWrap ("kmtproto: capability " +++ co_Name offer +++ ": "))
                   (validateAndSortCapabilityVersions (co_Versions offer) limits);
      result ← offers_loop limits ({[co_Name offer]} ∪ seen) offers;
      Ok (mkOffer (co_Name offer) versions (co_Required offer) :: result)
  end.

Definition validateAndCopyCapabilityOffers (offers : list CapabilityOffer) (limits : Limits)
  : res (list CapabilityOffer) :=
  let limits := normalizeLimits limits in
  _ ← guard_err (MaxCapabilities limits <? Z.of_nat (length offers))
        (invalid_capability "too many capability offers");
  offers_loop limits ∅ offers.

Definition cloneCapabilityOffers (offers : list CapabilityOffer) : list CapabilityOffer :=
  map (fun o => mkOffer (co_Name o) (co_Versions o) (co_Required o)) offers.

(** ** Negotiated capabilities *)

Fixpoint negotiated_loop (limits : Limits) (seen : gset string) (previous : option string)
    (l : list NegotiatedCapability) : res unit :=
  match l with
  | [] => Ok tt
  | capability :: l =>
      _ ← validateCapabilityName (nc_Name capability) limits;
      _ ← guard_err (nc_Version capability =? 0)
            (invalid_capability "capability version must be positive");
      _ ← guard_err (bool_decide (nc_Name capability ∈ seen))
            (invalid_capability ("duplicate negotiated capability: " +++ nc_Name capability));
      _ ← guard_err (match previous with Some p => nc_Name capability <=s p | None => false end)
            (invalid_capability "negotiated capabilities must use canonical name order");
      negotiated_loop limits ({[nc_Name capability]} ∪ seen) (Some (nc_Name capability)) l
  end.

Definition ValidateNegotiatedCapabilities (capabilities : list NegotiatedCapability)
    (limits : Limits) : res unit :=
  let limits := normalizeLimits limits in
  _ ← guard_err (MaxCapabilities limits <? Z.of_nat (length capabilities))
        (invalid_capability "too many negotiated capabilities");
  negotiated_loop limits ∅ None capabilities.

Record SessionCapabilities := mkSessionCapabilities {
  sc_selections : list NegotiatedCapability;
  sc_versions : gmap string Z
}.
#[export] Instance SessionCapabilities_eq_dec : EqDecision SessionCapabilities.
Proof. solve_decision. Defined.
Definition zeroCapabilities : SessionCapabilities := mkSessionCapabilities [] ∅.

Definition cloneNegotiatedCapabilities (l : list NegotiatedCapability) : list NegotiatedCapability := l.

Definition versions_map (l : list NegotiatedCapability) : gmap string Z :=
  foldl (fun m c => <[nc_Name c := nc_Version c]> m) ∅ l.

Definition NewSessionCapabilities (capabilities : list NegotiatedCapability) (limits : Limits)
  : res SessionCapabilities :=
  _ ← ValidateNegotiatedCapabilities capabilities limits;
  Ok (mkSessionCapabilities (cloneNegotiatedCapabilities capabilities) (versions_map capabilities)).

Definition sc_Enabled (c : SessionCapabilities) (name : string) : bool :=
  match sc_versions c !! name with Some _ => true | None => false end.
Definition sc_Version (c : SessionCapabilities) (name : string) : option Z := sc_versions c !! name.
Definition sc_List (c : SessionCapabilities) : list NegotiatedCapability :=
  cloneNegotiatedCapabilities (sc_selections c).

(** ** The server registry *)

Record CapabilitySpec := mkSpec { cs_Name : string; cs_Versions : list Z }.
Record CapabilityRegistry := mkRegistry { cr_versions : gmap string (list Z) }.

Definition emptyCapabilityRegistry : CapabilityRegistry := mkRegistry ∅.

Fixpoint registry_loop (limits : Limits) (m : gmap string (list Z)) (specs : list CapabilitySpec)
  : res CapabilityRegistry :=
  match specs with
  | [] => Ok (mkRegistry m)
  | spec :: specs =>
      _ ← validateCapabilityName (cs_Name spec) limits;
      _ ← guard_err (match m !! cs_Name spec with Some _ => true | None => false end)
            (invalid_capability ("duplicate capability specification: " +++ cs_Name spec));
      versions ← map_err (EWrap ("kmtproto: capability " +++ cs_Name spec +++ ": "))
                   (validateAndSortCapabilityVersions (cs_Versions spec) limits);
      registry_loop limits (<[cs_Name spec := versions]> m) specs
  end.

Definition NewCapabilityRegistry (specs : list CapabilitySpec) (limits : Limits)
  : res CapabilityRegistry :=
  let limits := normalizeLimits limits in
  _ ← validateLimits limits;
  _ ← guard_err (MaxCapabilities limits <? Z.of_nat (length specs))
        (invalid_capability "too many capability specifications");
  registry_loop limits ∅ specs.

(** [sort.Slice] by name. *)
Definition name_le (a b : NegotiatedCapability) : Prop := str_le (nc_Name a) (nc_Name b).
#[export] Instance name_le_dec a b : Decision (name_le a b) := str_le_dec _ _.

Fixpoint negotiate_loop (r : CapabilityRegistry) (offers : list CapabilityOffer)
  : res (list NegotiatedCapability) :=
  match offers with
  | [] => Ok []
  | offer :: offers =>
      let serverVersions := default [] (cr_versions r !! co_Name offer) in
      match highestCommonCapabilityVersion (co_Versions offer) serverVersions with
      | None =>
          _ ← guard_err (co_Required offer)
                (NewProtocolError ErrorUnsupportedFeature
                   ("required capability is unsupported: " +++ co_Name offer));
          negotiate_loop r offers
      | Some version =>
          accepted ← negotiate_loop r offers;
          Ok (mkNegotiated (co_Name offer) version :: accepted)
      end
  end.

Definition Negotiate (r : option CapabilityRegistry) (offers : list CapabilityOffer)
    (limits : Limits) : res SessionCapabilities :=
  let limits := normalizeLimits limits in
  validated ← validateAndCopyCapabilityOffers offers limits;
  let r := default emptyCapabilityRegistry r in
  accepted ← negotiate_loop r validated;
  NewSessionCapabilities (merge_sort name_le accepted) limits.

(** [validate] walks the map in an arbitrary order: which of several
    failures is reported is not fixed, whether one is reported is. *)
Definition registry_validate (r : option CapabilityRegistry) (limits : Limits) : res unit :=
  let limits := normalizeLimits limits in
  match r with
  | None => Ok tt
  | Some r =>
      _ ← guard_err (MaxCapabilities limits <? Z.of_nat (size (cr_versions r)))
            (invalid_capability "capability registry exceeds configured limits");
      foldr (fun '(name, versions) acc =>
               _ ← validateCapabilityName name limits;
               _ ← guard_err ((Z.of_nat (length versions) =? 0)
                              || (MaxCapabilityVersions limits <? Z.of_nat (length versions)))
                     (invalid_capability "capability registry version list exceeds configured limits");
               acc)
        (Ok tt) (map_to_list (cr_versions r))
  end.

(** ** The client's check of the server's answer *)

Fixpoint accepted_loop (offerByName : gmap string CapabilityOffer) (names : gset string)
    (accepted : list NegotiatedCapability) : res (gset string) :=
  match accepted with
  | [] => Ok names
  | capability :: accepted =>
      _ ← guard_err
            (match offerByName !! nc_Name capability with
             | Some offer => negb (containsCapabilityVersion (co_Versions offer) (nc_Version capability))
             | None => true
             end)
            (NewProtocolError ErrorProtocolViolation "server accepted an unoffered capability version");
      accepted_loop offerByName ({[nc_Name capability]} ∪ names) accepted
  end.

Fixpoint required_loop (names : gset string) (offers : list CapabilityOffer) : res unit :=
  match offers with
  | [] => Ok tt
  | offer :: offers =>
      _ ← guard_err (co_Required offer && negb (bool_decide (co_Name offer ∈ names)))
            (NewProtocolError ErrorProtocolViolation
               ("server omitted a required capability: " +++ co_Name offer));
      required_loop names offers
  end.

Definition validateNegotiatedAgainstOffers (offers : list CapabilityOffer)
    (accepted : list NegotiatedCapability) (limits : Limits) : res unit :=
  validated ← validateAndCopyCapabilityOffers offers limits;
  _ ← ValidateNegotiatedCapabilities accepted limits;
  let offerByName := foldl (fun m o => <[co_Name o := o]> m) (∅ : gmap string CapabilityOffer) validated in
  names ← accepted_loop offerByName ∅ accepted;
  required_loop names validated.

(** ** state-sync, the one capability the protocol implements (state.go) *)

Definition CapabilityStateSync : string := "state-sync".
Definition CapabilityStateSyncVersion : Z := 1.

Definition stateSyncEnabled (c : SessionCapabilities) : bool :=
  match sc_Version c CapabilityStateSync with
  | Some version => version =? CapabilityStateSyncVersion
  | None => false
  end.

Definition not_implemented_version (versions : list Z) : bool :=
  negb (Z.of_nat (length versions) =? 1)
  || negb (bool_decide (head versions = Some CapabilityStateSyncVersion)).

Fixpoint validateImplementedCapabilityOffers (offers : list CapabilityOffer) : res unit :=
  match offers with
  | [] => Ok tt
  | offer :: offers =>
      _ ← guard_err ((co_Name offer == CapabilityStateSync) && not_implemented_version (co_Versions offer))
            (invalid_capability "state-sync must use its implemented numeric version");
      validateImplementedCapabilityOffers offers
  end.

Definition validateImplementedCapabilityRegistry (registry : option CapabilityRegistry) : res unit :=
  match registry with
  | None => Ok tt
  | Some r =>
      match cr_versions r !! CapabilityStateSync with
      | Some versions =>
          guard_err (not_implemented_version versions)
            (invalid_capability "state-sync must use its implemented numeric version")
      | None => Ok tt
      end
  end.
