(* ===== verification/CapabilityProps.v ===== *)
(** * Negotiation is correct

    The binary search and the two-pointer walk of capability.go against
    membership in a list, what the server's [Negotiate] returns, and that the
    client's check accepts it. *)

From Stdlib Require Import Ascii String.
From S2P Require Import Prelude Utf8 Json Types Codec Capability SortedLists.
Open Scope string_scope.
Open Scope list_scope.
Open Scope go_scope.
Open Scope Z_scope.

(** ** Version lists *)

Lemma sort_versions_sorted l : StronglySorted Z.le (sort_versions l).
Proof. apply (StronglySorted_merge_sort Z.le). Qed.

Lemma elem_of_sort_versions v l : v ∈ sort_versions l ↔ v ∈ l.
Proof. unfold sort_versions. by rewrite merge_sort_Permutation. Qed.

(** The walk keeps every common version below both pointers. *)
Lemma common_loop_spec fuel client server i j :
  StronglySorted Z.le client → StronglySorted Z.le server →
  -1 ≤ i < Z.of_nat (length client) → -1 ≤ j < Z.of_nat (length server) →
  i + j + 2 < Z.of_nat fuel →
  match common_loop fuel client server i j with
  | Some v => v ∈ client ∧ v ∈ server
      ∧ ∀ a b w, client !! a = Some w → server !! b = Some w → Z.of_nat a ≤ i → Z.of_nat b ≤ j → w ≤ v
  | None => ∀ a b w, client !! a = Some w → server !! b = Some w → Z.of_nat a ≤ i → Z.of_nat b ≤ j → False
  end.
Proof.
  intros Hc Hs. revert i j. induction fuel as [|fuel IH]; intros i j Hi Hj Hf; cbn; [lia|].
  destruct (Z.leb_spec 0 i), (Z.leb_spec 0 j); cbn; [|intros; lia..].
  destruct (client !! Z.to_nat i) as [c|] eqn:Ec.
  2:{ apply lookup_ge_None in Ec. lia. }
  destruct (server !! Z.to_nat j) as [s|] eqn:Es.
  2:{ apply lookup_ge_None in Es. lia. }
  destruct (Z.eqb_spec c s) as [->|Hne].
  { split_and!; [by eapply list_elem_of_lookup_2..|]. intros a b w Ha _ Hai _.
    eapply (sorted_lookup_le client); [done|exact Ha|exact Ec|lia]. }
  assert (∀ a w, client !! a = Some w → Z.of_nat a ≤ i → w ≤ c) as Hcle.
  { intros a w Ha ?. eapply (sorted_lookup_le client); [done|exact Ha|exact Ec|lia]. }
  assert (∀ b w, server !! b = Some w → Z.of_nat b ≤ j → w ≤ s) as Hsle.
  { intros b w Hb ?. eapply (sorted_lookup_le server); [done|exact Hb|exact Es|lia]. }
  destruct (Z.ltb_spec s c).
  - specialize (IH (i - 1) j ltac:(lia) Hj ltac:(lia)).
    assert (∀ a b w, client !! a = Some w → server !! b = Some w →
              Z.of_nat a ≤ i → Z.of_nat b ≤ j → Z.of_nat a ≤ i - 1) as Hskip.
    { intros a b w Ha Hb Hai Hbj. specialize (Hsle b w Hb Hbj).
      destruct (decide (Z.of_nat a = i)) as [Hae|]; [|lia].
      replace a with (Z.to_nat i) in Ha by lia. simplify_eq. lia. }
    destruct (common_loop _ _ _ _ _); [destruct IH as (? & ? & IH); split_and!; [done..|]|];
      intros a b w Ha Hb Hai Hbj; eapply IH; eauto.
  - specialize (IH i (j - 1) Hi ltac:(lia) ltac:(lia)).
    assert (∀ a b w, client !! a = Some w → server !! b = Some w →
              Z.of_nat a ≤ i → Z.of_nat b ≤ j → Z.of_nat b ≤ j - 1) as Hskip.
    { intros a b w Ha Hb Hai Hbj. specialize (Hcle a w Ha Hai).
      destruct (decide (Z.of_nat b = j)) as [Hbe|]; [|lia].
      replace b with (Z.to_nat j) in Hb by lia. simplify_eq. lia. }
    destruct (common_loop _ _ _ _ _); [destruct IH as (? & ? & IH); split_and!; [done..|]|];
      intros a b w Ha Hb Hai Hbj; eapply IH; eauto.
Qed.

(** [v] is the highest version in both lists. *)
Definition highest_common (client server : list Z) (r : option Z) : Prop :=
  match r with
  | Some v => v ∈ client ∧ v ∈ server ∧ ∀ w, w ∈ client → w ∈ server → w ≤ v
  | None => ∀ w, w ∈ client → w ∈ server → False
  end.

Lemma highestCommon_spec client server :
  StronglySorted Z.le client → StronglySorted Z.le server →
  highest_common client server (highestCommonCapabilityVersion client server).
Proof.
  intros Hc Hs. unfold highestCommonCapabilityVersion.
  pose proof (common_loop_spec (S (length client + length server)) client server
    (Z.of_nat (length client) - 1) (Z.of_nat (length server) - 1) Hc Hs
    ltac:(lia) ltac:(lia) ltac:(lia)) as H.
  assert (∀ (l : list Z) a w, l !! a = Some w → Z.of_nat a ≤ Z.of_nat (length l) - 1) as Hlen.
  { intros l a w ?%lookup_lt_Some. lia. }
  unfold highest_common. destruct (common_loop _ _ _ _ _) as [v|].
  - destruct H as (? & ? & H). split_and!; [done..|].
    intros w [a Ha]%list_elem_of_lookup [b Hb]%list_elem_of_lookup. eauto.
  - intros w [a Ha]%list_elem_of_lookup [b Hb]%list_elem_of_lookup. eauto.
Qed.

Lemma highest_common_unique c s r1 r2 : highest_common c s r1 → highest_common c s r2 → r1 = r2.
Proof.
  destruct r1 as [v1|], r2 as [v2|]; cbn; intros H1 H2; try done.
  - destruct H1 as (? & ? & H1), H2 as (? & ? & H2). f_equal. apply Z.le_antisymm; auto.
  - destruct H1 as (? & ? & _). exfalso. eauto.
  - destruct H2 as (? & ? & _). exfalso. eauto.
Qed.

(** ** Binary search *)

(** The loop finds the boundary of a monotone predicate. *)
Lemma search_loop_spec fuel f i j n :
  (∀ a b, (a ≤ b < n)%nat → f a = true → f b = true) →
  (i ≤ j ≤ n)%nat → (j - i < fuel)%nat →
  (∀ a, (a < i)%nat → f a = false) → (∀ a, (j ≤ a < n)%nat → f a = true) →
  let k := search_loop fuel f i j in
  (k ≤ n)%nat ∧ (∀ a, (a < k)%nat → f a = false) ∧ (∀ a, (k ≤ a < n)%nat → f a = true).
Proof.
  intros Hmono. revert i j. induction fuel as [|fuel IH]; intros i j Hij Hf Hlo Hhi; cbn -[Nat.ltb Nat.div]; [lia|].
  destruct (Nat.ltb_spec i j) as [Hlt|].
  2:{ split_and!; [lia|done|]. intros a ?. apply Hhi. lia. }
  assert (i ≤ (i + j) / 2 < j)%nat as Hh.
  { split; [apply Nat.div_le_lower_bound; lia|apply Nat.Div0.div_lt_upper_bound; lia]. }
  destruct (f ((i + j) / 2)%nat) eqn:E; apply IH; try lia; try done.
  - intros a ?. apply (Hmono ((i + j) / 2)%nat); [lia|done].
  - intros a ?. destruct (f a) eqn:Ea; [|done].
    rewrite (Hmono a ((i + j) / 2)%nat) in E; [done|lia|done].
Qed.

Lemma contains_spec versions target :
  StronglySorted Z.le versions →
  containsCapabilityVersion versions target = true ↔ target ∈ versions.
Proof.
  intros Hs. unfold containsCapabilityVersion, sort_Search.
  set (f := fun i => match versions !! i with Some v => target <=? v | None => true end).
  destruct (search_loop_spec (S (length versions)) f 0 (length versions) (length versions))
    as (Hk & Hlo & Hhi); [|lia..|].
  { intros a b [Hab Hb]. unfold f. destruct (lookup_lt_is_Some_2 versions b Hb) as [w Hw].
    destruct (lookup_lt_is_Some_2 versions a ltac:(lia)) as [v Hv]. rewrite Hv, Hw.
    rewrite !Z.leb_le. intros ?.
    assert (v ≤ w) by (by eapply (sorted_lookup_le versions)). lia. }
  set (k := search_loop _ _ _ _) in *. rewrite andb_true_iff, Nat.ltb_lt. split.
  - intros [Hlt Hv]. destruct (versions !! k) as [v|] eqn:E; [|done]. apply Z.eqb_eq in Hv as ->.
    by eapply list_elem_of_lookup_2.
  - intros [a Ha]%list_elem_of_lookup.
    assert (k ≤ a)%nat as Hka.
    { destruct (decide (k ≤ a)%nat) as [|Hn]; [done|]. specialize (Hlo a ltac:(lia)).
      unfold f in Hlo. rewrite Ha, Z.leb_gt in Hlo. lia. }
    apply lookup_lt_Some in Ha as Hlt. split; [lia|].
    destruct (lookup_lt_is_Some_2 versions k ltac:(lia)) as [v Hv]. rewrite Hv.
    specialize (Hhi k ltac:(lia)). unfold f in Hhi. rewrite Hv, Z.leb_le in Hhi.
    assert (v ≤ target) by (by eapply (sorted_lookup_le versions)). apply Z.eqb_eq. lia.
Qed.

#[local] Arguments highestCommonCapabilityVersion : simpl never.
#[local] Arguments containsCapabilityVersion : simpl never.
#[local] Arguments validateCapabilityName : simpl never.
#[local] Arguments validateAndSortCapabilityVersions : simpl never.

(** ** Offers *)

(** The copy [validateAndCopyCapabilityOffers] returns. *)
Definition copied (o : CapabilityOffer) : CapabilityOffer :=
  mkOffer (co_Name o) (sort_versions (co_Versions o)) (co_Required o).

Lemma check_versions_nonzero prev l : check_versions prev l = Ok tt → 0 ∉ l.
Proof.
  revert prev. induction l as [|v l IH]; intros prev; cbn; [by intros _ ?%elem_of_nil|].
  destruct (Z.eqb_spec v 0); [done|]. case_bool_decide; [done|]. intros Hz%IH.
  rewrite elem_of_cons. naive_solver.
Qed.

Lemma versions_ok vs limits r :
  validateAndSortCapabilityVersions vs limits = Ok r → r = sort_versions vs ∧ 0 ∉ vs.
Proof.
  intros H. unfold validateAndSortCapabilityVersions in H. inv_ok. split; [done|].
  apply check_versions_nonzero in H1. by rewrite elem_of_sort_versions in H1.
Qed.

(** What a list of offers that passed validation satisfies. *)
Definition offers_ok (limits : Limits) (offers : list CapabilityOffer) : Prop :=
  NoDup (map co_Name offers)
  ∧ Forall (fun o => validateCapabilityName (co_Name o) limits = Ok tt ∧ 0 ∉ co_Versions o) offers.

Lemma offers_loop_ok limits seen offers out :
  offers_loop limits seen offers = Ok out →
  out = map copied offers ∧ offers_ok limits offers ∧ Forall (fun o => co_Name o ∉ seen) offers.
Proof.
  revert seen out. induction offers as [|o offers IH]; intros seen out H; cbn in H.
  { injection H as <-. split_and!; repeat constructor. }
  inv_ok. bools. apply versions_ok in H2 as [-> Hz]. apply IH in H3 as (-> & [Hnd Hall] & Hseen).
  split_and!; [done| |].
  - split; cbn; constructor; auto. rewrite list_elem_of_In, in_map_iff.
    intros (o' & Ho' & Hin%list_elem_of_In). rewrite Forall_forall in Hseen.
    apply (Hseen o' Hin). rewrite Ho'. set_solver.
  - constructor; [done|]. eapply Forall_impl; [exact Hseen|]. set_solver.
Qed.

Lemma validateAndCopy_ok offers limits out :
  validateAndCopyCapabilityOffers offers limits = Ok out →
  out = map copied offers ∧ offers_ok (normalizeLimits limits) offers
  ∧ Z.of_nat (length offers) ≤ MaxCapabilities (normalizeLimits limits).
Proof.
  intros H. unfold validateAndCopyCapabilityOffers in H. inv_ok. bools.
  apply offers_loop_ok in H as (-> & Hok & _). done.
Qed.

(** ** Negotiation *)

(** Registries as [NewCapabilityRegistry] builds them. *)
Definition registry_ok (r : CapabilityRegistry) : Prop :=
  map_Forall (fun _ vs => StronglySorted Z.le vs) (cr_versions r).

Definition server_versions (r : CapabilityRegistry) (name : string) : list Z :=
  default [] (cr_versions r !! name).

Lemma server_versions_sorted r name : registry_ok r → StronglySorted Z.le (server_versions r name).
Proof.
  intros Hr. unfold server_versions. destruct (cr_versions r !! name) as [vs|] eqn:E; cbn; [|constructor].
  exact (Hr _ _ E).
Qed.

Lemma registry_loop_ok limits m specs r :
  map_Forall (fun _ vs => StronglySorted Z.le vs) m → registry_loop limits m specs = Ok r → registry_ok r.
Proof.
  revert m. induction specs as [|s specs IH]; intros m Hm H; cbn in H; [by injection H as <-|].
  inv_ok. eapply IH; [|done]. apply versions_ok in H2 as [-> _].
  apply map_Forall_insert_2; [apply sort_versions_sorted|done].
Qed.

Lemma NewCapabilityRegistry_ok specs limits r :
  NewCapabilityRegistry specs limits = Ok r → registry_ok r.
Proof.
  intros H. unfold NewCapabilityRegistry in H. inv_ok.
  eapply registry_loop_ok; [|done]. apply map_Forall_empty.
Qed.

(** The selection for one offer. *)
Definition selection (r : CapabilityRegistry) (o : CapabilityOffer) : option NegotiatedCapability :=
  mkNegotiated (co_Name o)
    <$> highestCommonCapabilityVersion (sort_versions (co_Versions o)) (server_versions r (co_Name o)).

Lemma selection_Some r o c :
  registry_ok r → selection r o = Some c →
  nc_Name c = co_Name o
  ∧ highest_common (co_Versions o) (server_versions r (co_Name o)) (Some (nc_Version c)).
Proof.
  intros Hr H. unfold selection in H. apply fmap_Some in H as (v & Hv & ->). split; [done|].
  pose proof (highestCommon_spec (sort_versions (co_Versions o)) (server_versions r (co_Name o))
    (sort_versions_sorted _) (server_versions_sorted _ _ Hr)) as Hs.
  rewrite Hv in Hs. destruct Hs as (H1 & H2 & H3). rewrite elem_of_sort_versions in H1.
  split_and!; [done..|]. intros w Hw. apply H3. by rewrite elem_of_sort_versions.
Qed.

Lemma negotiate_loop_ok r offers acc :
  negotiate_loop r (map copied offers) = Ok acc →
  acc = omap (selection r) offers ∧ Forall (fun o => co_Required o = true → is_Some (selection r o)) offers.
Proof.
  revert acc. induction offers as [|o offers IH]; intros acc H; cbn in H.
  { by injection H as <-. }
  unfold selection at 1. cbn. fold (server_versions r (co_Name o)) in H.
  destruct (highestCommonCapabilityVersion _ _) as [v|] eqn:E; cbn.
  - inv_ok. apply IH in H0 as [-> Hall]. split; [done|]. constructor; [|done].
    intros _. unfold selection. rewrite E. by eexists.
  - inv_ok. apply IH in H as [-> Hall]. split; [done|]. constructor; [|done]. congruence.
Qed.

(** A negotiated list in canonical order of valid names passes validation. *)
Lemma negotiated_loop_ok limits seen prev l :
  StronglySorted str_lt (map nc_Name l) →
  Forall (fun c => validateCapabilityName (nc_Name c) limits = Ok tt ∧ nc_Version c ≠ 0
                   ∧ nc_Name c ∉ seen ∧ ∀ p, prev = Some p → str_lt p (nc_Name c)) l →
  negotiated_loop limits seen prev l = Ok tt.
Proof.
  revert seen prev. induction l as [|c l IH]; intros seen prev Hs Hall; cbn; [done|].
  apply StronglySorted_inv in Hs as [Hs Hlt]. apply Forall_cons in Hall as [(Hn & Hv & Hseen & Hp) Hl].
  rewrite Hn. cbn. rewrite (proj2 (Z.eqb_neq _ _) Hv), bool_decide_false by done. cbn.
  assert ((match prev with Some p => nc_Name c <=s p | None => false end) = false) as ->.
  { destruct prev as [p|]; [|done]. apply negb_false_iff. by apply Hp. }
  cbn. apply IH; [done|]. rewrite Forall_forall in Hl |- *. intros c' Hc'.
  destruct (Hl c' Hc') as (? & ? & ? & _).
  assert (str_lt (nc_Name c) (nc_Name c')) as Hcc.
  { rewrite Forall_forall in Hlt. apply Hlt, list_elem_of_fmap. by exists c'. }
  split_and!; [done..| |by intros p [= <-]].
  apply str_lt_ne in Hcc. set_solver.
Qed.

(** The accepted list, in canonical order. *)
Definition accepted (r : CapabilityRegistry) (offers : list CapabilityOffer) : list NegotiatedCapability :=
  merge_sort name_le (omap (selection r) offers).

#[local] Instance name_le_trans : Transitive name_le.
Proof. intros a b c. apply str_le_trans. Qed.
#[local] Instance name_le_total : Total name_le.
Proof. intros a b. apply str_le_total. Qed.

Lemma elem_of_accepted r offers c :
  c ∈ accepted r offers ↔ ∃ o, o ∈ offers ∧ selection r o = Some c.
Proof. unfold accepted. rewrite merge_sort_Permutation, list_elem_of_omap. done. Qed.

Lemma selection_names r offers :
  NoDup (map co_Name offers) → NoDup (map nc_Name (omap (selection r) offers)).
Proof.
  induction offers as [|o offers IH]; cbn; intros Hnd; [constructor|].
  apply NoDup_cons in Hnd as [Hn Hnd].
  destruct (selection r o) as [c|] eqn:E; cbn; [|by apply IH]. constructor; [|by apply IH].
  unfold selection in E. apply fmap_Some in E as (v & _ & ->). cbn.
  contradict Hn. apply list_elem_of_fmap in Hn as (c & Hc & Hin).
  apply list_elem_of_omap in Hin as (o' & Ho' & Hs). apply list_elem_of_fmap. exists o'. split; [|done].
  unfold selection in Hs. apply fmap_Some in Hs as (v' & _ & ->). done.
Qed.

Lemma accepted_sorted r offers :
  NoDup (map co_Name offers) → StronglySorted str_lt (map nc_Name (accepted r offers)).
Proof.
  intros Hnd. apply sorted_strict.
  - eapply (StronglySorted_fmap nc_Name); [|apply (StronglySorted_merge_sort name_le)]. done.
  - unfold accepted. change (map nc_Name ?l) with (nc_Name <$> l).
    rewrite merge_sort_Permutation. by apply selection_names.
Qed.

Lemma accepted_length r offers : (length (accepted r offers) ≤ length offers)%nat.
Proof.
  unfold accepted. rewrite merge_sort_Permutation. induction offers as [|o l IH]; cbn; [lia|].
  destruct (selection r o); cbn; lia.
Qed.

(** The accepted list passes the validation both ends make of it. *)
Lemma accepted_valid r offers limits :
  registry_ok r → offers_ok (normalizeLimits limits) offers →
  Z.of_nat (length offers) ≤ MaxCapabilities (normalizeLimits limits) →
  ValidateNegotiatedCapabilities (accepted r offers) limits = Ok tt.
Proof.
  intros Hr [Hnd Hall] Hlen. unfold ValidateNegotiatedCapabilities.
  pose proof (accepted_length r offers) as Hl.
  rewrite (proj2 (Z.ltb_ge _ _)) by lia. cbn.
  apply negotiated_loop_ok; [by apply accepted_sorted|].
  apply Forall_forall. intros c (o & Ho & Hs)%elem_of_accepted.
  apply selection_Some in Hs as (-> & Hin & _); [|done].
  rewrite Forall_forall in Hall. destruct (Hall o Ho) as [? Hz].
  split_and!; [done|congruence|set_solver|done].
Qed.

Lemma versions_map_lookup l (m : gmap string Z) name v :
  NoDup (map nc_Name l) →
  foldl (fun m c => <[nc_Name c := nc_Version c]> m) m l !! name = Some v ↔
  mkNegotiated name v ∈ l ∨ (name ∉ map nc_Name l ∧ m !! name = Some v).
Proof.
  revert m. induction l as [|c l IH]; intros m Hnd; cbn.
  { rewrite !elem_of_nil. naive_solver. }
  apply NoDup_cons in Hnd as [Hn Hnd]. rewrite IH by done. rewrite !elem_of_cons, lookup_insert_Some.
  destruct c as [n w]. cbn in *. split.
  - intros [?|[Hnot [[-> ->]|[Hne Hm]]]]; [auto|auto|]. right. naive_solver.
  - intros [[[= -> ->]|?]|[Hnot Hm]]; [right; auto|auto|right]. naive_solver.
Qed.

(** [v] is a version of capability [name] in a server's specifications. *)
Definition supported (specs : list CapabilitySpec) (name : string) (v : Z) : Prop :=
  ∃ s, s ∈ specs ∧ cs_Name s = name ∧ v ∈ cs_Versions s.

Lemma registry_loop_elem limits m specs r name v :
  registry_loop limits m specs = Ok r →
  v ∈ server_versions r name ↔ (∃ vs, m !! name = Some vs ∧ v ∈ vs) ∨ supported specs name v.
Proof.
  revert m. induction specs as [|s specs IH]; intros m H; cbn in H.
  { injection H as <-. unfold server_versions, supported. cbn. split.
    - destruct (m !! name) as [vs|] eqn:E; cbn; [eauto|by intros ?%elem_of_nil].
    - intros [(vs & -> & ?)|(s & Hs & _)]; [done|by apply elem_of_nil in Hs]. }
  inv_ok. apply versions_ok in H2 as [-> _]. rewrite (IH _ H).
  destruct (m !! cs_Name s) as [vs0|] eqn:Em; [done|].
  unfold supported. setoid_rewrite elem_of_cons. setoid_rewrite lookup_insert_Some. split.
  - intros [(vs & [[<- <-]|[? ?]] & Hv)|(s' & ? & ? & ?)]; [|eauto|eauto 6].
    right. exists s. rewrite elem_of_sort_versions in Hv. auto.
  - intros [(vs & Hvs & Hv)|(s' & [->|?] & <- & Hv)].
    + left. exists vs. split; [|done]. right. split; [congruence|done].
    + left. exists (sort_versions (cs_Versions s)). rewrite elem_of_sort_versions. auto.
    + right. eauto.
Qed.

Lemma registry_elem specs limits r name v :
  NewCapabilityRegistry specs limits = Ok r → v ∈ server_versions r name ↔ supported specs name v.
Proof.
  intros H. unfold NewCapabilityRegistry in H. inv_ok. rewrite (registry_loop_elem _ _ _ _ _ _ H).
  split; [|auto]. intros [(vs & Hvs & _)|?]; [|done]. by rewrite lookup_empty in Hvs.
Qed.

Lemma Negotiate_ok r offers limits caps :
  registry_ok r → Negotiate (Some r) offers limits = Ok caps →
  caps = mkSessionCapabilities (accepted r offers) (versions_map (accepted r offers))
  ∧ offers_ok (normalizeLimits limits) offers
  ∧ Forall (fun o => co_Required o = true → is_Some (selection r o)) offers.
Proof.
  intros Hr H. unfold Negotiate in H. inv_ok.
  apply validateAndCopy_ok in H0 as (-> & Hok & _). rewrite normalizeLimits_idem in Hok.
  apply negotiate_loop_ok in H1 as [-> Hreq].
  unfold NewSessionCapabilities in H. inv_ok. done.
Qed.

(** C30. What the server negotiates: capability [name] is enabled at version
    [v] exactly when some offer names it and [v] is the highest version that
    the offer and the server's specifications have in common; every required
    offer is enabled; the accepted list is in strictly increasing name order. *)
Theorem negotiate_highest_common specs limits r offers limits' caps :
  NewCapabilityRegistry specs limits = Ok r → Negotiate (Some r) offers limits' = Ok caps →
  (∀ name v, sc_Version caps name = Some v ↔
     ∃ o, o ∈ offers ∧ co_Name o = name ∧ v ∈ co_Versions o ∧ supported specs name v
          ∧ ∀ w, w ∈ co_Versions o → supported specs name w → w ≤ v)
  ∧ Forall (fun o => co_Required o = true → sc_Enabled caps (co_Name o) = true) offers
  ∧ StronglySorted str_lt (map nc_Name (sc_List caps)).
Proof.
  intros Hnew Hneg. pose proof (NewCapabilityRegistry_ok _ _ _ Hnew) as Hr.
  apply Negotiate_ok in Hneg as (-> & [Hnd _] & Hreq); [|done].
  pose proof (accepted_sorted r offers Hnd) as Hsorted.
  assert (∀ name v, sc_Version (mkSessionCapabilities (accepted r offers)
            (versions_map (accepted r offers))) name = Some v ↔
            mkNegotiated name v ∈ accepted r offers) as Hver.
  { intros name v. unfold sc_Version, versions_map. cbn. rewrite versions_map_lookup.
    - rewrite lookup_empty. naive_solver.
    - clear -Hsorted. induction Hsorted as [|x l _ IH Hx]; constructor; [|done].
      intros Hin. rewrite Forall_forall in Hx. by apply (str_lt_irrefl x), Hx. }
  split_and!; [|apply Forall_forall|done].
  - intros name v. rewrite Hver, elem_of_accepted. split.
    + intros (o & Ho & Hs). apply selection_Some in Hs as (Hn & H1 & H2 & H3); [|done]. cbn in *. subst name.
      exists o. rewrite <- (registry_elem _ _ _ _ _ Hnew). split_and!; auto.
      intros w Hw. rewrite <- (registry_elem _ _ _ _ _ Hnew). by apply H3.
    + intros (o & Ho & <- & H1 & H2 & H3). exists o. split; [done|]. unfold selection.
      pose proof (highestCommon_spec (sort_versions (co_Versions o)) (server_versions r (co_Name o))
        (sort_versions_sorted _) (server_versions_sorted _ _ Hr)) as Hs.
      rewrite (highest_common_unique _ _ _ (Some v) Hs); [done|].
      cbn. rewrite elem_of_sort_versions, (registry_elem _ _ _ _ _ Hnew). split_and!; [done..|].
      intros w. rewrite elem_of_sort_versions, (registry_elem _ _ _ _ _ Hnew). apply H3.
  - intros o Ho Hro. rewrite Forall_forall in Hreq. destruct (Hreq o Ho Hro) as [c Hc].
    assert (c ∈ accepted r offers) as Hin by (apply elem_of_accepted; eauto).
    apply selection_Some in Hc as [Hn _]; [|done]. destruct c as [n v]. cbn in Hn. subst n.
    apply Hver in Hin. unfold sc_Version in Hin. unfold sc_Enabled. by rewrite Hin.
Qed.

Lemma selection_None r o :
  registry_ok r → selection r o = None →
  ∀ v, v ∈ co_Versions o → v ∈ server_versions r (co_Name o) → False.
Proof.
  intros Hr H. unfold selection in H. apply fmap_None in H.
  pose proof (highestCommon_spec (sort_versions (co_Versions o)) (server_versions r (co_Name o))
    (sort_versions_sorted _) (server_versions_sorted _ _ Hr)) as Hs.
  rewrite H in Hs. intros v Hv. apply Hs. by rewrite elem_of_sort_versions.
Qed.

Lemma negotiate_loop_err r offers e :
  negotiate_loop r (map copied offers) = Err e →
  err_code e = Some ErrorUnsupportedFeature
  ∧ ∃ o, o ∈ offers ∧ co_Required o = true ∧ selection r o = None.
Proof.
  induction offers as [|o offers IH]; intros H; cbn in H; [done|].
  setoid_rewrite elem_of_cons. fold (server_versions r (co_Name o)) in H.
  destruct (highestCommonCapabilityVersion _ _) as [v|] eqn:E; cbn in H.
  - destruct (negotiate_loop r _); [done|]. destruct (IH H) as (? & o' & ? & ?). eauto.
  - destruct (co_Required o) eqn:Ereq; cbn in H.
    + injection H as <-. split; [done|]. exists o. split_and!; [auto|done|].
      unfold selection. by rewrite E.
    + destruct (IH H) as (? & o' & ? & ?). eauto.
Qed.

Lemma validateAndCopy_normalize offers limits :
  validateAndCopyCapabilityOffers offers (normalizeLimits limits)
  = validateAndCopyCapabilityOffers offers limits.
Proof. unfold validateAndCopyCapabilityOffers. by rewrite normalizeLimits_idem. Qed.

(** C39. Negotiation of valid offers is refused exactly when a required
    capability has no common version, and then with UNSUPPORTED_FEATURE. *)
Theorem negotiate_refused specs limits r offers limits' validated :
  NewCapabilityRegistry specs limits = Ok r →
  validateAndCopyCapabilityOffers offers limits' = Ok validated →
  match Negotiate (Some r) offers limits' with
  | Ok _ => ∀ o, o ∈ offers → co_Required o = true → ∃ v, v ∈ co_Versions o ∧ supported specs (co_Name o) v
  | Err e => err_code e = Some ErrorUnsupportedFeature
      ∧ ∃ o, o ∈ offers ∧ co_Required o = true ∧ ∀ v, v ∈ co_Versions o → ¬ supported specs (co_Name o) v
  end.
Proof.
  intros Hnew Hval. pose proof (NewCapabilityRegistry_ok _ _ _ Hnew) as Hr.
  destruct (Negotiate (Some r) offers limits') as [caps|e] eqn:Hneg.
  - apply Negotiate_ok in Hneg as (_ & _ & Hreq); [|done]. intros o Ho Hro.
    rewrite Forall_forall in Hreq. destruct (Hreq o Ho Hro) as [c Hc].
    apply selection_Some in Hc as (_ & H1 & H2 & _); [|done].
    exists (nc_Version c). by rewrite <- (registry_elem _ _ _ _ _ Hnew).
  - unfold Negotiate in Hneg. rewrite validateAndCopy_normalize, Hval in Hneg. cbn in Hneg.
    apply validateAndCopy_ok in Hval as (-> & Hok & Hlen).
    destruct (negotiate_loop r (map copied offers)) as [acc|e'] eqn:E; cbn in Hneg.
    + apply negotiate_loop_ok in E as [-> _]. unfold NewSessionCapabilities in Hneg.
      fold (accepted r offers) in Hneg.
      rewrite accepted_valid in Hneg; rewrite ?normalizeLimits_idem; done.
    + injection Hneg as ->. apply negotiate_loop_err in E as (? & o & Ho & Hro & Hs).
      split; [done|]. exists o. split_and!; [done..|]. intros v Hv Hsup.
      eapply (selection_None r o); [done..|]. by rewrite (registry_elem _ _ _ _ _ Hnew).
Qed.

(** *** The client's side *)

Lemma offer_map_lookup offers (m : gmap string CapabilityOffer) o :
  NoDup (map co_Name offers) → o ∈ offers →
  foldl (fun m o => <[co_Name o := o]> m) m offers !! co_Name o = Some o.
Proof.
  revert m. induction offers as [|o' offers IH]; intros m Hnd Hin; [by apply elem_of_nil in Hin|].
  cbn in *. apply NoDup_cons in Hnd as [Hn Hnd]. apply elem_of_cons in Hin as [->|Hin]; [|by apply IH].
  clear IH. assert (<[co_Name o' := o']> m !! co_Name o' = Some o') as Hm by apply lookup_insert_eq.
  revert Hm. generalize (<[co_Name o' := o']> m). clear m. induction offers as [|o offers IH]; [done|].
  intros m Hm. cbn in *. apply NoDup_cons in Hnd as [_ Hnd]. apply not_elem_of_cons in Hn as [Hne Hn].
  apply IH; [done..|]. by rewrite lookup_insert_ne.
Qed.

Lemma accepted_loop_ok m names acc :
  Forall (fun c => ∃ o, m !! nc_Name c = Some o
                        ∧ containsCapabilityVersion (co_Versions o) (nc_Version c) = true) acc →
  accepted_loop m names acc = Ok (list_to_set (map nc_Name acc) ∪ names).
Proof.
  revert names. induction acc as [|c acc IH]; intros names Hall; cbn.
  { f_equal. set_solver. }
  apply Forall_cons in Hall as [(o & -> & ->) Hall]. cbn. rewrite IH by done. f_equal. set_solver.
Qed.

Lemma required_loop_ok names offers :
  Forall (fun o => co_Required o = true → co_Name o ∈ names) offers →
  required_loop names offers = Ok tt.
Proof.
  induction offers as [|o offers IH]; intros Hall; cbn; [done|].
  apply Forall_cons in Hall as [Ho Hall]. rewrite IH by done.
  destruct (co_Required o); cbn; [|done]. by rewrite bool_decide_true by auto.
Qed.

Lemma accepted_agreed r offers limits_s caps limits_c validated :
  registry_ok r → Negotiate (Some r) offers limits_s = Ok caps →
  validateAndCopyCapabilityOffers offers limits_c = Ok validated →
  validateNegotiatedAgainstOffers offers (sc_List caps) limits_c = Ok tt.
Proof.
  intros Hr Hneg Hval.
  apply Negotiate_ok in Hneg as (-> & _ & Hreq); [|done].
  unfold validateNegotiatedAgainstOffers. rewrite Hval. cbn.
  apply validateAndCopy_ok in Hval as (-> & [Hnd Hall] & Hlen).
  change (cloneNegotiatedCapabilities (accepted r offers)) with (accepted r offers).
  rewrite accepted_valid by (repeat split; done). cbn.
  assert (NoDup (map co_Name (map copied offers))) as Hnd' by (by rewrite map_map).
  rewrite accepted_loop_ok; cbn.
  - apply required_loop_ok, Forall_forall. intros o' Ho' Hro.
    apply list_elem_of_fmap in Ho' as (o & -> & Ho). rewrite Forall_forall in Hreq.
    destruct (Hreq o Ho Hro) as [c Hc]. pose proof (selection_Some _ _ _ Hr Hc) as [Hn _].
    apply elem_of_union_l, elem_of_list_to_set, list_elem_of_fmap. exists c.
    split; [done|]. apply elem_of_accepted. eauto.
  - apply Forall_forall. intros c (o & Ho & Hs)%elem_of_accepted.
    apply selection_Some in Hs as (Hn & H1 & _); [|done]. exists (copied o). split.
    + rewrite Hn. apply (offer_map_lookup _ ∅ (copied o)); [done|].
      apply list_elem_of_fmap. by exists o.
    + apply contains_spec; [apply sort_versions_sorted|]. cbn. by rewrite elem_of_sort_versions.
Qed.

(** Whatever the server accepts, the client that made the offers accepts:
    for every registry the negotiated list passes the check the client makes
    of a WELCOME against its own offers, even when the two ends run with
    different limits. *)
Theorem handshake_agreement specs limits r offers limits_s caps limits_c validated :
  NewCapabilityRegistry specs limits = Ok r → Negotiate (Some r) offers limits_s = Ok caps →
  validateAndCopyCapabilityOffers offers limits_c = Ok validated →
  validateNegotiatedAgainstOffers offers (sc_List caps) limits_c = Ok tt.
Proof.
  intros Hnew%NewCapabilityRegistry_ok. by apply accepted_agreed.
Qed.

(** ** A concrete negotiation *)

Definition demo_specs : list CapabilitySpec :=
  [mkSpec "state-sync" [1]; mkSpec "chat.edit" [3; 1; 2]].
Definition demo_offers : list CapabilityOffer :=
  [mkOffer "state-sync" [1] true; mkOffer "chat.edit" [5; 2; 1] false; mkOffer "typing" [1] false].
Definition demo_registry : CapabilityRegistry :=
  match NewCapabilityRegistry demo_specs DefaultLimits with Ok r => r | Err _ => emptyCapabilityRegistry end.
Definition demo_caps : SessionCapabilities :=
  match Negotiate (Some demo_registry) demo_offers DefaultLimits with
  | Ok c => c | Err _ => zeroCapabilities
  end.

Lemma demo_registry_ok : NewCapabilityRegistry demo_specs DefaultLimits = Ok demo_registry.
Proof. vm_compute. reflexivity. Qed.
Lemma demo_caps_ok : Negotiate (Some demo_registry) demo_offers DefaultLimits = Ok demo_caps.
Proof. vm_compute. reflexivity. Qed.

Lemma negotiate_highest_common_witness :
  sc_Version demo_caps "chat.edit" = Some 2 ∧ StronglySorted str_lt (map nc_Name (sc_List demo_caps)).
Proof.
  destruct (negotiate_highest_common demo_specs DefaultLimits demo_registry demo_offers DefaultLimits
    demo_caps demo_registry_ok demo_caps_ok) as (_ & _ & H).
  split; [vm_compute; reflexivity|exact H].
Defined.

Lemma negotiate_refused_witness :
  match Negotiate (Some demo_registry) [mkOffer "typing" [1] true] DefaultLimits with
  | Ok _ => False
  | Err e => err_code e = Some ErrorUnsupportedFeature
  end.
Proof.
  pose proof (negotiate_refused demo_specs DefaultLimits demo_registry [mkOffer "typing" [1] true]
    DefaultLimits [mkOffer "typing" [1] true] demo_registry_ok) as H.
  destruct (Negotiate _ _ _) as [c|e] eqn:E; [vm_compute in E; discriminate|].
  apply H. vm_compute. reflexivity.
Defined.

Lemma handshake_agreement_witness :
  validateNegotiatedAgainstOffers demo_offers (sc_List demo_caps) DefaultLimits = Ok tt.
Proof.
  apply (handshake_agreement demo_specs DefaultLimits demo_registry demo_offers DefaultLimits demo_caps
    DefaultLimits (map copied demo_offers) demo_registry_ok demo_caps_ok).
  vm_compute. reflexivity.
Defined.
