(* ===== verification/State.v ===== *)
(** * State Objects (state.go)

    Validation of a complete State replacement, the monotonic merge
    [ApplyStateObject] with its semantic comparison of JSON data, and the
    bounded accumulator the server builds snapshots with. *)

From Stdlib Require Import Ascii String.
From S2P Require Import Prelude Utf8 Json Types Codec Capability.
Open Scope string_scope.
Open Scope list_scope.
Open Scope go_scope.
Open Scope Z_scope.

Definition ErrStateStale : string := "kmtproto: stale state version".
Definition ErrStateConflict : string := "kmtproto: state version conflict".
Definition ErrStateIdentityMismatch : string := "kmtproto: state identity mismatch".
Definition ErrStateSnapshotLimitExceeded : string :=
  "kmtproto: State snapshot exceeds configured limits".

(** ** Identity *)

Definition validateStateNamespace (namespace : string) (maxLength : Z) : res unit :=
  _ ← guard_err ((namespace == "") || (maxLength <? slen namespace)
                 || negb (utf8_ValidString namespace))
        (bad_request "invalid or oversized state namespace");
  match namespace with
  | EmptyString => Ok tt
  | String first tl =>
      _ ← guard_err (negb (is_lower first)) (bad_request ("invalid state namespace: " +++ namespace));
      match name_loop false tl with
      | Some false => Ok tt
      | None | Some true => Err (bad_request ("invalid state namespace: " +++ namespace))
      end
  end.

Definition ValidateStateIdentity (namespace objectID : string) (limits : Limits) : res unit :=
  let limits := normalizeLimits limits in
  _ ← validateStateNamespace namespace (MaxStateNamespaceLength limits);
  _ ← guard_err ((objectID == "") || (MaxStateObjectIDLength limits <? slen objectID)
                 || negb (utf8_ValidString objectID))
        (bad_request "invalid or oversized state object_id");
  guard_err (existsb IsControl (range_runes objectID))
    (bad_request "state object_id must not contain control characters").

Section validation.
Context {ST : StdText}.

(** [ValidateStateObject] of a non-nil object. *)
Definition ValidateStateObject (object : StateObject) (limits : Limits) : res unit :=
  let limits := normalizeLimits limits in
  _ ← ValidateStateIdentity (so_Namespace object) (so_ObjectID object) limits;
  _ ← guard_err ((so_Version object =? 0) || (so_Version object =? MaxUint64))
        (NewProtocolError ErrorInvalidStateVersion "state version must be positive and non-exhausted");
  _ ← guard_err ((slen (so_Data object) =? 0) || negb (json_Valid (so_Data object)))
        (bad_request "state data must contain one valid JSON value");
  _ ← guard_err (MaxStateDataSize limits <? slen (so_Data object))
        (bad_request "state data exceeds maximum size");
  match Marshal object with
  | None => Err (bad_request ("state object cannot be encoded: " +++ err_Error (EJson JMarshal)))
  | Some encoded =>
      guard_err ((MaxStateObjectSize limits <? slen encoded) || (MaxPayloadSize limits <? slen encoded))
        (bad_request "state object exceeds maximum size")
  end.

Definition NewStateObject (namespace objectID : string) (version : Z) (data : string)
    (limits : Limits) : res StateObject :=
  let object := mkStateObject namespace objectID version data in
  _ ← ValidateStateObject object limits;
  Ok object.

End validation.

(** ** Comparison of JSON data *)

(** Positions and trimming, as in package [strings]. *)
Fixpoint split_at (p : ascii → bool) (s : string) : option (string * string) :=
  match s with
  | EmptyString => None
  | String a r =>
      if p a then Some ("", r)
      else match split_at p r with Some (x, y) => Some (String a x, y) | None => None end
  end.

Fixpoint TrimLeft0 (s : string) : string :=
  match s with
  | String a r => if byte_of a =? 48 then TrimLeft0 r else s
  | EmptyString => EmptyString
  end.

Fixpoint TrimRight0 (s : string) : string :=
  match s with
  | EmptyString => EmptyString
  | String a r =>
      match TrimRight0 r with
      | EmptyString => if byte_of a =? 48 then EmptyString else String a EmptyString
      | r' => String a r'
      end
  end.

(** [big.Int.SetString] in base 10. *)
Definition big_SetString (s : string) : option Z :=
  match s with
  | String a r =>
      if byte_of a =? 45 then Z.opp <$> parse_uint r
      else if byte_of a =? 43 then parse_uint r
      else parse_uint s
  | EmptyString => None
  end.

Record normalizedStateJSONNumber := mkNormalized {
  nn_negative : bool;
  nn_coefficient : string;
  nn_exponent : string
}.
#[export] Instance normalizedStateJSONNumber_eq_dec : EqDecision normalizedStateJSONNumber.
Proof. solve_decision. Defined.

Definition is_e (a : ascii) : bool := (byte_of a =? 101) || (byte_of a =? 69).
Definition is_dot (a : ascii) : bool := byte_of a =? 46.

Definition normalizeStateJSONNumber (number : string) : option normalizedStateJSONNumber :=
  let '(negative, text) :=
    match number with
    | String a r => if byte_of a =? 45 then (true, r) else (false, number)
    | EmptyString => (false, number)
    end in
  let '(text, exponentText) :=
    match split_at is_e text with Some (m, x) => (m, x) | None => (text, "0") end in
  exponent ← big_SetString exponentText;
  let '(text, fractionDigits) :=
    match split_at is_dot text with
    | Some (ip, fp) => (ip +++ fp, slen fp)
    | None => (text, 0)
    end in
  let digits := TrimLeft0 text in
  if digits == "" then Some (mkNormalized false "0" "0")
  else
    let trailingZeros := slen digits - slen (TrimRight0 digits) in
    let digits := TrimRight0 digits in
    Some (mkNormalized negative digits (Z_dec (exponent - fractionDigits + trailingZeros))).

(** A decoded object is a map: of equal member names the last one counts. *)
Fixpoint member_last (key : string) (ms : list (string * string * jvalue)) : option jvalue :=
  match ms with
  | [] => None
  | (k, _, v) :: ms =>
      match member_last key ms with
      | Some w => Some w
      | None => if k == key then Some v else None
      end
  end.
Definition member_key (m : string * string * jvalue) : string := m.1.1.
Definition map_len (ms : list (string * string * jvalue)) : nat :=
  size (list_to_set (map member_key ms) : gset string).

Fixpoint equalStateJSONValue (left right : jvalue) : bool :=
  match left, right with
  | JNull, JNull => true
  | JBool a, JBool b => Bool.eqb a b
  | JString a, JString b => a == b
  | JNumber a, JNumber b =>
      match normalizeStateJSONNumber a, normalizeStateJSONNumber b with
      | Some x, Some y => x == y
      | _, _ => false
      end
  | JArray vs, JArray ws =>
      (fix elements (vs ws : list jvalue) : bool :=
         match vs, ws with
         | [], [] => true
         | v :: vs, w :: ws => equalStateJSONValue v w && elements vs ws
         | _, _ => false
         end) vs ws
  | JObject ms, JObject ns =>
      (map_len ms =? map_len ns)%nat
      && (fix members (ms : list (string * string * jvalue)) : bool :=
            match ms with
            | [] => true
            | (key, _, v) :: ms =>
                if str_in key (map member_key ms) then members ms
                else match member_last key ns with
                     | Some w => equalStateJSONValue v w && members ms
                     | None => false
                     end
            end) ms
  | _, _ => false
  end.

Section merge.
Context {ST : StdText}.

Definition decodeStateData (data : string) : res jvalue :=
  match dec_Decode data with
  | Err e => Err (bad_request ("invalid state data: " +++ err_Error (EJson e)))
  | Ok (v, rest) =>
      _ ← map_err (fun e => bad_request ("invalid state data: " +++ err_Error e)) (ensureJSONEOF rest);
      Ok v
  end.

Definition equalStateData (left right : string) : res bool :=
  leftValue ← decodeStateData left;
  rightValue ← decodeStateData right;
  Ok (equalStateJSONValue leftValue rightValue).

(** [ApplyStateObject] returns an object, a result (0 is [None]) and an
    error. *)
Definition ApplyStateObject (current : option StateObject) (incoming : StateObject)
    (limits : Limits) : StateObject * option StateApplyResult * option goerror :=
  match ValidateStateObject incoming limits with
  | Err e => (zero, None, Some e)
  | Ok _ =>
      match current with
      | None => (cloneStateObject incoming, Some StateApplyApplied, None)
      | Some current =>
          match ValidateStateObject current limits with
          | Err e => (zero, None, Some e)
          | Ok _ =>
              let retained := cloneStateObject current in
              if Identity current != Identity incoming then
                (retained, Some StateApplyConflict, Some (ENew ErrStateIdentityMismatch))
              else if so_Version current <? so_Version incoming then
                (cloneStateObject incoming, Some StateApplyApplied, None)
              else if so_Version incoming <? so_Version current then
                (retained, Some StateApplyStale, Some (ENew ErrStateStale))
              else
                match equalStateData (so_Data current) (so_Data incoming) with
                | Err e => (retained, Some StateApplyConflict, Some e)
                | Ok true => (retained, Some StateApplyDuplicate, None)
                | Ok false => (retained, Some StateApplyConflict, Some (ENew ErrStateConflict))
                end
          end
      end
  end.
End merge.

(** ** Snapshots *)

Record StateSnapshotLimits := mkSnapshotLimits { sl_MaxObjects : Z; sl_MaxBytes : Z }.

Record stateSnapshotAccumulator := mkAccumulator {
  ac_protocolLimits : Limits;
  ac_snapshotLimits : StateSnapshotLimits;
  ac_states : list StateObject;
  ac_encodedBytes : Z
}.

(** The length of an empty snapshot payload. *)
Definition baseBytes : Z := slen (js "{'states':[]}").

Definition newStateSnapshotAccumulator (protocolLimits : Limits)
    (snapshotLimits : StateSnapshotLimits) : res stateSnapshotAccumulator :=
  let protocolLimits := normalizeLimits protocolLimits in
  _ ← guard_err ((sl_MaxObjects snapshotLimits <=? 0) || (sl_MaxBytes snapshotLimits <=? 0))
        (ENew ErrStateSnapshotLimitExceeded);
  _ ← guard_err (sl_MaxBytes snapshotLimits <? baseBytes) (ENew ErrStateSnapshotLimitExceeded);
  Ok (mkAccumulator protocolLimits snapshotLimits [] baseBytes).

Section accumulator.
Context {ST : StdText}.

Definition accumulator_Add (a : stateSnapshotAccumulator) (object : StateObject)
  : res stateSnapshotAccumulator :=
  _ ← guard_err (sl_MaxObjects (ac_snapshotLimits a) <=? Z.of_nat (length (ac_states a)))
        (ENew ErrStateSnapshotLimitExceeded);
  _ ← ValidateStateObject object (ac_protocolLimits a);
  match Marshal object with
  | None => Err (bad_request ("state object cannot be encoded: " +++ err_Error (EJson JMarshal)))
  | Some encoded =>
      let additional := slen encoded + (if 0 <? Z.of_nat (length (ac_states a)) then 1 else 0) in
      _ ← guard_err (sl_MaxBytes (ac_snapshotLimits a) - ac_encodedBytes a <? additional)
            (ENew ErrStateSnapshotLimitExceeded);
      Ok (mkAccumulator (ac_protocolLimits a) (ac_snapshotLimits a)
            (ac_states a ++ [cloneStateObject object]) (ac_encodedBytes a + additional))
  end.

(** The loop that adds the objects of a snapshot one by one. *)
Fixpoint accumulate (a : stateSnapshotAccumulator) (objects : list StateObject)
  : res stateSnapshotAccumulator :=
  match objects with
  | [] => Ok a
  | object :: rest => a ← accumulator_Add a object; accumulate a rest
  end.

Definition accumulator_Payload (a : stateSnapshotAccumulator) : res string :=
  match Marshal (mkStateSnapshot (ac_states a)) with
  | None => Err (bad_request ("State snapshot cannot be encoded: " +++ err_Error (EJson JMarshal)))
  | Some payload =>
      _ ← guard_err (sl_MaxBytes (ac_snapshotLimits a) <? slen payload)
            (ENew ErrStateSnapshotLimitExceeded);
      Ok payload
  end.

End accumulator.

Definition minInt (left right : Z) : Z := if left <? right then left else right.

(** ** The objects of an accumulator *)

Lemma accumulator_new_states pl sl a : newStateSnapshotAccumulator pl sl = Ok a → ac_states a = [].
Proof. unfold newStateSnapshotAccumulator. intros H. by inv_ok. Qed.

Lemma accumulator_Add_states {ST : StdText} a o a' : accumulator_Add a o = Ok a' → ac_states a' = ac_states a ++ [o].
Proof.
  unfold accumulator_Add. intros H. inv_ok. destruct (Marshal o); [|done]. inv_ok. cbn. by rewrite cloneStateObject_id.
Qed.

Lemma accumulator_Payload_Marshal {ST : StdText} a p :
  accumulator_Payload a = Ok p → Marshal (mkStateSnapshot (ac_states a)) = Some p.
Proof. unfold accumulator_Payload. destruct (Marshal _) as [q|]; [|done]. intros H. by inv_ok. Qed.

(** ** The merge, case by case *)

Section merge_facts.
Context {ST : StdText}.

Lemma ApplyStateObject_ok cur inc lim o r :
  ApplyStateObject cur inc lim = (o, r, None) →
  ValidateStateObject inc lim = Ok tt
  ∧ ((r = Some StateApplyApplied ∧ o = inc
      ∧ ∀ c, cur = Some c → Identity c = Identity inc ∧ so_Version c < so_Version inc)
     ∨ (r = Some StateApplyDuplicate
        ∧ ∃ c, cur = Some c ∧ o = c ∧ Identity c = Identity inc
               ∧ so_Version c = so_Version inc
               ∧ equalStateData (so_Data c) (so_Data inc) = Ok true)).
Proof.
  unfold ApplyStateObject. rewrite !cloneStateObject_id.
  destruct (ValidateStateObject inc lim) as [[]|]; [|by intros [=]].
  destruct cur as [c|]; [|intros [= <- <-]; split; [done|left; by repeat split]].
  destruct (ValidateStateObject c lim) as [[]|]; [|by intros [=]].
  rewrite cloneStateObject_id. case_bool_decide as Hid; cbn; [|by intros [=]].
  destruct (Z.ltb_spec (so_Version c) (so_Version inc)).
  { intros [= <- <-]. split; [done|left]. split_and!; [done..|]. by intros ? [= <-]. }
  destruct (Z.ltb_spec (so_Version inc) (so_Version c)); [by intros [=]|].
  destruct (equalStateData _ _) as [[]|] eqn:E; [|by intros [=]..].
  intros [= <- <-]. split; [done|right]. split; [done|]. exists c. split_and!; auto. lia.
Qed.
End merge_facts.
