(* ===== verification/StateNumbers.v ===== *)
(** * JSON numbers compare by value

    [normalizeStateJSONNumber] against the rational number a JSON number
    denotes: two number texts normalize to the same triple exactly when they
    denote the same rational, whatever their notation. *)

From Stdlib Require Import Ascii String QArith Qpower Qcanon.
From Stdlib Require DecimalString DecimalZ DecimalPos.
From S2P Require Import Prelude Utf8 Json Types Codec Capability State.
Open Scope string_scope.
Open Scope list_scope.
Open Scope go_scope.
Open Scope Z_scope.

(** ** Digit strings *)

Definition all_digits (s : string) : Prop := str_forall is_digit s = true.

(** The number a digit string denotes, after the digits read so far. *)
Fixpoint dv (acc : Z) (s : string) : Z :=
  match s with
  | EmptyString => acc
  | String a s => dv (acc * 10 + (byte_of a - 48)) s
  end.

Lemma is_digit_range a : is_digit a = true → 0 ≤ byte_of a - 48 ≤ 9.
Proof. unfold is_digit, in_range. intros H. bools. lia. Qed.

Lemma all_digits_cons a s : all_digits (String a s) ↔ is_digit a = true ∧ all_digits s.
Proof. unfold all_digits. cbn. apply andb_true_iff. Qed.

Lemma all_digits_app s t : all_digits (s +++ t) ↔ all_digits s ∧ all_digits t.
Proof. unfold all_digits. rewrite str_forall_app. apply andb_true_iff. Qed.

Lemma digits_val_dv acc s : all_digits s → digits_val acc s = Some (dv acc s).
Proof.
  revert acc. induction s as [|a s IH]; intros acc; [done|]. rewrite all_digits_cons.
  intros [Ha Hs]. cbn. rewrite Ha. by apply IH.
Qed.

Lemma dv_acc acc s : dv acc s = acc * 10 ^ slen s + dv 0 s.
Proof.
  revert acc. induction s as [|a s IH]; intros acc.
  { unfold slen. cbn. lia. }
  cbn [dv]. rewrite IH, (IH (0 * 10 + _)).
  change (slen (String a s)) with (Z.of_nat (S (String.length s))).
  rewrite Nat2Z.inj_succ, Z.pow_succ_r by lia. unfold slen. lia.
Qed.

Lemma dv_cons a s : dv 0 (String a s) = (byte_of a - 48) * 10 ^ slen s + dv 0 s.
Proof. cbn [dv]. rewrite dv_acc. lia. Qed.

Lemma dv_bounds s : all_digits s → 0 ≤ dv 0 s < 10 ^ slen s.
Proof.
  induction s as [|a s IH]; [unfold slen; cbn; lia|]. rewrite all_digits_cons. intros [Ha Hs].
  specialize (IH Hs). apply is_digit_range in Ha. cbn [dv]. rewrite dv_acc.
  change (slen (String a s)) with (Z.of_nat (S (String.length s))).
  rewrite Nat2Z.inj_succ, Z.pow_succ_r by lia. fold (slen s). nia.
Qed.

(** Digit strings of one length are determined by their number. *)
Lemma dv_inj_len s t :
  all_digits s → all_digits t → String.length s = String.length t → dv 0 s = dv 0 t → s = t.
Proof.
  revert t. induction s as [|a s IH]; intros [|b t]; try done.
  rewrite !all_digits_cons. intros [Ha Hs] [Hb Ht] Hlen Hdv. injection Hlen as Hlen.
  cbn [dv] in Hdv. rewrite dv_acc, (dv_acc _ t) in Hdv.
  assert (slen s = slen t) as Hsl by (unfold slen; lia). rewrite Hsl in Hdv.
  pose proof (dv_bounds s Hs) as Bs. pose proof (dv_bounds t Ht) as Bt. rewrite Hsl in Bs.
  assert (byte_of a = byte_of b) as ->%byte_of_inj by nia.
  f_equal. apply IH; try done. lia.
Qed.

Definition no_leading_zero (s : string) : Prop :=
  match s with EmptyString => False | String a _ => byte_of a ≠ 48 end.

Lemma dv_lower s : all_digits s → no_leading_zero s → 10 ^ (slen s - 1) ≤ dv 0 s.
Proof.
  destruct s as [|a s]; [done|]. rewrite all_digits_cons. intros [Ha Hs] Hz. cbn in Hz.
  apply is_digit_range in Ha. cbn [dv]. rewrite dv_acc. pose proof (dv_bounds s Hs).
  replace (slen (String a s) - 1) with (slen s) by (unfold slen; cbn [String.length]; lia). nia.
Qed.

(** Without leading zeros, digit strings are determined by their number. *)
Lemma dv_inj s t :
  all_digits s → all_digits t → no_leading_zero s → no_leading_zero t → dv 0 s = dv 0 t → s = t.
Proof.
  intros Hs Ht Zs Zt Hdv. apply dv_inj_len; try done.
  pose proof (dv_bounds s Hs). pose proof (dv_bounds t Ht).
  pose proof (dv_lower s Hs Zs). pose proof (dv_lower t Ht Zt).
  assert (slen s - 1 < slen t) by (apply (Z.pow_lt_mono_r_iff 10); [lia|apply slen_nonneg|lia]).
  assert (slen t - 1 < slen s) by (apply (Z.pow_lt_mono_r_iff 10); [lia|apply slen_nonneg|lia]).
  unfold slen in *. lia.
Qed.

(** ** Trimming zeros *)

Lemma TrimLeft0_spec s :
  all_digits s → all_digits (TrimLeft0 s) ∧ dv 0 (TrimLeft0 s) = dv 0 s
  ∧ (TrimLeft0 s = "" ∨ no_leading_zero (TrimLeft0 s)).
Proof.
  induction s as [|a s IH]; cbn; [auto|]. intros H. destruct (Z.eqb_spec (byte_of a) 48) as [E|E].
  - apply all_digits_cons in H as [_ Hs]. destruct (IH Hs) as (? & -> & ?).
    split_and!; [done| |done]. by rewrite E.
  - split_and!; [done..|]. right. cbn. done.
Qed.

Lemma TrimRight0_spec s :
  all_digits s →
  all_digits (TrimRight0 s)
  ∧ slen (TrimRight0 s) ≤ slen s
  ∧ dv 0 s = dv 0 (TrimRight0 s) * 10 ^ (slen s - slen (TrimRight0 s))
  ∧ (TrimRight0 s = "" ∨ dv 0 (TrimRight0 s) mod 10 ≠ 0)
  ∧ (no_leading_zero s → no_leading_zero (TrimRight0 s)).
Proof.
  induction s as [|a s IH]; [cbn; intros; split_and!; auto; lia|].
  rewrite all_digits_cons. intros [Ha Hs]. destruct (IH Hs) as (H1 & H2 & H3 & H4 & _).
  assert (slen (String a s) = slen s + 1) as Hl by (unfold slen; cbn [String.length]; lia).
  apply is_digit_range in Ha as Hr. cbn [TrimRight0].
  destruct (TrimRight0 s) as [|b r] eqn:E.
  - assert (dv 0 s = 0) as Hz by (rewrite H3; cbn; lia).
    destruct (Z.eqb_spec (byte_of a) 48) as [Ea|Ea]; cbn [dv].
    + rewrite dv_acc, Hz, Hl, Ea. change (slen "") with 0. change (dv 0 "") with 0.
      pose proof (slen_nonneg s). split_and!; [done|lia|lia|auto|]. by intros Hn.
    + rewrite dv_acc, Hz, Hl. change (slen (String a "")) with 1.
      pose proof (slen_nonneg s). split_and!.
      * apply all_digits_cons. split; [|done]. by unfold is_digit, in_range; apply andb_true_iff; split; apply Z.leb_le; lia.
      * lia.
      * replace (slen s + 1 - 1) with (slen s) by lia. cbn [dv]. lia.
      * right. cbn [dv]. rewrite Z.mod_small; lia.
      * done.
  - assert (slen (String a (String b r)) = slen (String b r) + 1) as Hl' by (unfold slen; cbn [String.length]; lia).
    rewrite (dv_cons a s), (dv_cons a (String b r)), Hl, Hl'. split_and!.
    + apply all_digits_cons. split; [|done]. by unfold is_digit, in_range; apply andb_true_iff; split; apply Z.leb_le; lia.
    + lia.
    + rewrite H3, Z.mul_add_distr_r, <- Z.mul_assoc, <- Z.pow_add_r by (pose proof (slen_nonneg (String b r)); lia).
      do 3 f_equal; lia.
    + right. destruct H4 as [?|H4]; [done|].
      assert (slen (String b r) = Z.succ (slen r)) as -> by (unfold slen; cbn [String.length]; lia).
      rewrite Z.pow_succ_r by apply slen_nonneg.
      rewrite Z.add_comm, Z.mul_assoc, (Z.mul_comm _ 10), <- Z.mul_assoc, (Z.mul_comm 10), Z.mod_add by lia. done.
    + done.
Qed.

(** ** JSON numbers and the rationals they denote *)

Record jnum := mkNum {
  n_neg : bool;
  n_int : string;
  n_frac : option string;
  n_exp : option (ascii * string * string)
}.

Definition num_text (n : jnum) : string :=
  (if n_neg n then "-" else "") +++ n_int n
  +++ (match n_frac n with Some ds => "." +++ ds | None => "" end)
  +++ (match n_exp n with Some (c, sg, ds) => String c (sg +++ ds) | None => "" end).

Definition num_wf (n : jnum) : Prop :=
  all_digits (n_int n) ∧ n_int n ≠ ""
  ∧ match n_frac n with Some ds => all_digits ds ∧ ds ≠ "" | None => True end
  ∧ match n_exp n with
    | Some (c, sg, ds) => is_e c = true ∧ (sg = "" ∨ sg = "+" ∨ sg = "-") ∧ all_digits ds ∧ ds ≠ ""
    | None => True
    end.

Definition num_digits (n : jnum) : string := n_int n +++ default "" (n_frac n).
Definition num_exponent (n : jnum) : Z :=
  match n_exp n with
  | Some (_, sg, ds) => if bool_decide (sg = "-") then - dv 0 ds else dv 0 ds
  | None => 0
  end.
Definition num_scale (n : jnum) : Z := num_exponent n - slen (default "" (n_frac n)).

(** [± digits * 10 ^ (exponent - number of fraction digits)]. *)
Definition num_value (n : jnum) : Q :=
  Qmult (inject_Z ((if n_neg n then -1 else 1) * dv 0 (num_digits n)))
        (Qpower (inject_Z 10) (num_scale n)).

(** The normal form in terms of the digits and the scale. *)
Definition norm (neg : bool) (digits : string) (scale : Z) : normalizedStateJSONNumber :=
  let d := TrimLeft0 digits in
  if bool_decide (d = "") then mkNormalized false "0" "0"
  else mkNormalized neg (TrimRight0 d) (Z_dec (scale + (slen d - slen (TrimRight0 d)))).

Lemma split_at_app p s a r :
  str_forall (fun c => negb (p c)) s = true → p a = true → split_at p (s +++ String a r) = Some (s, r).
Proof.
  intros Hs Ha. induction s as [|b s IH]; cbn; [by rewrite Ha|]. cbn in Hs. bools.
  rewrite H, IH by done. done.
Qed.

Lemma split_at_none p s : str_forall (fun c => negb (p c)) s = true → split_at p s = None.
Proof. induction s as [|b s IH]; cbn; [done|]. intros H. bools. by rewrite H0, IH. Qed.

Lemma digits_avoid p s :
  (∀ a, is_digit a = true → p a = false) → all_digits s → str_forall (fun c => negb (p c)) s = true.
Proof.
  intros Hp. induction s as [|a s IH]; [done|]. rewrite all_digits_cons. intros [Ha Hs]. cbn.
  by rewrite Hp, IH.
Qed.

Lemma digit_not_e a : is_digit a = true → is_e a = false.
Proof. intros H%is_digit_range. unfold is_e. apply orb_false_iff. split; apply Z.eqb_neq; lia. Qed.

Lemma digit_not_dot a : is_digit a = true → is_dot a = false.
Proof. intros H%is_digit_range. unfold is_dot. apply Z.eqb_neq. lia. Qed.

Lemma SetString_digits ds : all_digits ds → ds ≠ "" → big_SetString ds = Some (dv 0 ds).
Proof.
  intros Hd Hne. destruct ds as [|a r]; [done|]. pose proof Hd as Hd'.
  apply all_digits_cons in Hd' as [Ha%is_digit_range _]. cbn [big_SetString].
  rewrite !(proj2 (Z.eqb_neq _ _)) by lia. unfold parse_uint. by apply digits_val_dv.
Qed.

Lemma SetString_exponent sg ds :
  (sg = "" ∨ sg = "+" ∨ sg = "-") → all_digits ds → ds ≠ "" →
  big_SetString (sg +++ ds) = Some (if bool_decide (sg = "-") then - dv 0 ds else dv 0 ds).
Proof.
  intros [->|[-> | ->]] Hd Hne; cbn [String.append].
  - by apply SetString_digits.
  - destruct ds; [done|]. unfold big_SetString. cbn - [digits_val dv].
    unfold parse_uint. by rewrite digits_val_dv.
  - destruct ds; [done|]. unfold big_SetString. cbn - [digits_val dv].
    unfold parse_uint. by rewrite digits_val_dv.
Qed.

(** Reading a number as sign, digits and scale. *)
Definition scan_number (number : string) : option (bool * string * Z) :=
  let '(negative, text) :=
    match number with
    | String a r => if byte_of a =? 45 then (true, r) else (false, number)
    | EmptyString => (false, number)
    end in
  let '(mantissa, exponentText) :=
    match split_at is_e text with Some (m, x) => (m, x) | None => (text, "0") end in
  exponent ← big_SetString exponentText;
  let '(digits, fractionDigits) :=
    match split_at is_dot mantissa with Some (ip, fp) => (ip +++ fp, slen fp) | None => (mantissa, 0) end in
  Some (negative, digits, exponent - fractionDigits).

Lemma normalize_scan t :
  normalizeStateJSONNumber t = (fun '(neg, digits, scale) => norm neg digits scale) <$> scan_number t.
Proof.
  unfold normalizeStateJSONNumber, scan_number. destruct (match t with EmptyString => _ | String _ _ => _ end) as [neg text].
  destruct (match split_at is_e text with Some _ => _ | None => _ end) as [m x]. destruct (big_SetString x) as [e|]; [|done].
  cbn. destruct (match split_at is_dot m with Some _ => _ | None => _ end) as [digits k]. unfold norm. cbn.
  by case_bool_decide.
Qed.

Lemma scan_text n : num_wf n → scan_number (num_text n) = Some (n_neg n, num_digits n, num_scale n).
Proof.
  intros (Hi & Hne & Hf & He). unfold scan_number, num_text.
  set (ft := match n_frac n with Some ds => "." +++ ds | None => "" end).
  set (et := match n_exp n with Some (c, sg, ds) => String c (sg +++ ds) | None => "" end).
  assert (match (if n_neg n then "-" else "") +++ n_int n +++ ft +++ et with
          | String a r => if byte_of a =? 45 then (true, r)
                          else (false, (if n_neg n then "-" else "") +++ n_int n +++ ft +++ et)
          | EmptyString => (false, (if n_neg n then "-" else "") +++ n_int n +++ ft +++ et)
          end = (n_neg n, n_int n +++ ft +++ et)) as ->.
  { destruct (n_neg n); cbn; [done|]. destruct (n_int n) as [|a r]; [done|]. cbn.
    apply all_digits_cons in Hi as [Ha%is_digit_range _]. by rewrite (proj2 (Z.eqb_neq _ _)) by lia. }
  assert (str_forall (fun c => negb (is_e c)) (n_int n +++ ft) = true) as Hne'.
  { rewrite str_forall_app. rewrite (digits_avoid is_e (n_int n)); [|apply digit_not_e|done]. cbn.
    unfold ft. destruct (n_frac n) as [ds|]; [|done]. cbn. apply digits_avoid; [apply digit_not_e|apply Hf]. }
  assert (match split_at is_e (n_int n +++ ft +++ et) with
          | Some (m, x) => (m, x) | None => (n_int n +++ ft +++ et, "0") end
          = (n_int n +++ ft, match n_exp n with Some (_, sg, ds) => sg +++ ds | None => "0" end)) as ->.
  { rewrite <- str_app_assoc. unfold et. destruct (n_exp n) as [[[c sg] ds]|].
    - rewrite split_at_app; [done|done|apply He].
    - rewrite str_app_nil_r. by rewrite split_at_none. }
  assert (big_SetString (match n_exp n with Some (_, sg, ds) => sg +++ ds | None => "0" end)
          = Some (num_exponent n)) as ->.
  { unfold num_exponent. destruct (n_exp n) as [[[c sg] ds]|]; [|done].
    destruct He as (_ & ? & ? & ?). by apply SetString_exponent. }
  assert (match split_at is_dot (n_int n +++ ft) with
          | Some (ip, fp) => (ip +++ fp, slen fp) | None => (n_int n +++ ft, 0) end
          = (num_digits n, slen (default "" (n_frac n)))) as ->.
  { assert (str_forall (fun c => negb (is_dot c)) (n_int n) = true) as Hd
      by (apply digits_avoid; [apply digit_not_dot|done]).
    unfold ft, num_digits. destruct (n_frac n) as [ds|]; cbn.
    - by rewrite split_at_app.
    - rewrite str_app_nil_r. by rewrite split_at_none. }
  done.
Qed.

Lemma normalize_text n :
  num_wf n → normalizeStateJSONNumber (num_text n) = Some (norm (n_neg n) (num_digits n) (num_scale n)).
Proof. intros Hn. by rewrite normalize_scan, scan_text. Qed.

(** ** Equality of scaled integers *)

Definition scaled (m e : Z) : Q := Qmult (inject_Z m) (Qpower (inject_Z 10) e).

Lemma ten_nonzero e : ¬ Qeq (Qpower (inject_Z 10) e) 0.
Proof. apply Qpower_not_0. done. Qed.

Lemma scaled_shift m k e : 0 ≤ k → Qeq (scaled (m * 10 ^ k) e) (scaled m (e + k)).
Proof.
  intros Hk. unfold scaled. rewrite inject_Z_mult, (Zpower_Qpower 10 k Hk).
  rewrite Qpower_plus by done. ring.
Qed.

Lemma scaled_inj_le m1 m2 e1 e2 :
  e1 ≤ e2 → Qeq (scaled m1 e1) (scaled m2 e2) → m1 = m2 * 10 ^ (e2 - e1).
Proof.
  intros Hle H. replace e2 with (e1 + (e2 - e1)) in H by lia.
  rewrite <- (scaled_shift m2 (e2 - e1) e1) in H by lia.
  unfold scaled in H. apply Qmult_inj_r in H; [|apply ten_nonzero].
  exact (proj1 (inject_Z_injective _ _) H).
Qed.

(** A scaled integer that is no multiple of ten determines both parts. *)
Lemma scaled_inj m1 m2 e1 e2 :
  m1 mod 10 ≠ 0 → m2 mod 10 ≠ 0 → Qeq (scaled m1 e1) (scaled m2 e2) → m1 = m2 ∧ e1 = e2.
Proof.
  assert (∀ m1 m2 e1 e2, m1 mod 10 ≠ 0 → e1 ≤ e2 → Qeq (scaled m1 e1) (scaled m2 e2) →
            m1 = m2 ∧ e1 = e2) as Hle.
  { intros n1 n2 d1 d2 Hn Hd H. apply scaled_inj_le in H; [|done].
    destruct (decide (d1 = d2)) as [->|Hne]; [by rewrite Z.sub_diag, Z.mul_1_r in H|].
    replace (d2 - d1) with (Z.succ (d2 - d1 - 1)) in H by lia.
    rewrite Z.pow_succ_r in H by lia. destruct Hn. rewrite H.
    rewrite (Z.mul_comm 10), Z.mul_assoc. apply Z_mod_mult. }
  intros H1 H2 H. destruct (Z.le_ge_cases e1 e2) as [?|?]; [by eapply Hle|].
  destruct (Hle m2 m1 e2 e1 H2 ltac:(lia)) as [-> ->]; [by symmetry|done].
Qed.

Lemma scaled_zero m e : Qeq (scaled m e) 0 ↔ m = 0.
Proof.
  unfold scaled. split; [|intros ->; apply Qmult_0_l].
  intros [H|H]%Qmult_integral; [|by apply ten_nonzero in H].
  exact (proj1 (inject_Z_injective m 0) H).
Qed.

(** ** The normal form determines the value and is determined by it *)

Definition sign (neg : bool) : Z := if neg then -1 else 1.

Lemma dv_pos s : all_digits s → no_leading_zero s → 0 < dv 0 s.
Proof.
  intros Hd Hz. pose proof (dv_lower s Hd Hz).
  assert (1 ≤ slen s) by (destruct s; [done|unfold slen; cbn [String.length]; lia]).
  pose proof (Z.pow_pos_nonneg 10 (slen s - 1) ltac:(lia) ltac:(lia)). lia.
Qed.

Lemma norm_cases neg digits scale :
  all_digits digits →
  (dv 0 digits = 0 ∧ norm neg digits scale = mkNormalized false "0" "0")
  ∨ (∃ c e, norm neg digits scale = mkNormalized neg c (Z_dec e)
       ∧ all_digits c ∧ no_leading_zero c ∧ 0 < dv 0 c ∧ dv 0 c mod 10 ≠ 0
       ∧ Qeq (scaled (sign neg * dv 0 digits) scale) (scaled (sign neg * dv 0 c) e)).
Proof.
  intros Hd. destruct (TrimLeft0_spec digits Hd) as (H1 & H2 & H3). unfold norm.
  case_bool_decide as He.
  { left. split; [|done]. by rewrite <- H2, He. }
  right. destruct H3 as [?|Hz]; [done|].
  destruct (TrimRight0_spec _ H1) as (R1 & R2 & R3 & R4 & R5). specialize (R5 Hz).
  set (d := TrimLeft0 digits) in *. set (c := TrimRight0 d) in *.
  exists c, (scale + (slen d - slen c)). split_and!; try done.
  - by apply dv_pos.
  - destruct R4 as [->|?]; done.
  - rewrite <- H2, R3, Z.mul_assoc. apply scaled_shift. lia.
Qed.

Lemma to_int_nonnil z : Z.to_int z ≠ Decimal.Pos Decimal.Nil ∧ Z.to_int z ≠ Decimal.Neg Decimal.Nil.
Proof.
  destruct z as [|p|p]; cbn; split; intros H; try discriminate; injection H as H;
    by apply DecimalPos.Unsigned.to_uint_nonnil in H.
Qed.

Lemma Z_dec_inj a b : Z_dec a = Z_dec b → a = b.
Proof.
  unfold Z_dec. intros H. apply (f_equal DecimalString.NilZero.int_of_string) in H.
  destruct (to_int_nonnil a), (to_int_nonnil b).
  rewrite !DecimalString.NilZero.isi in H by done. injection H as H.
  by apply DecimalZ.to_int_inj.
Qed.

Lemma norm_equal n1 n2 d1 d2 s1 s2 :
  all_digits d1 → all_digits d2 →
  norm n1 d1 s1 = norm n2 d2 s2
  ↔ Qeq (scaled (sign n1 * dv 0 d1) s1) (scaled (sign n2 * dv 0 d2) s2).
Proof.
  intros H1 H2.
  assert (∀ n c, 0 < dv 0 c → sign n * dv 0 c ≠ 0) as Hnz by (intros [] ?; cbn; lia).
  assert (∀ n c, dv 0 c mod 10 ≠ 0 → (sign n * dv 0 c) mod 10 ≠ 0) as Hmod.
  { intros [] c Hc; cbn [sign]; [|by rewrite Z.mul_1_l].
    intros Hm%Z.mod_divide; [|lia]. destruct Hc. apply Z.mod_divide; [lia|].
    destruct Hm as [q Hq]. exists (-q). lia. }
  destruct (norm_cases n1 d1 s1 H1) as [[Z1 ->]|(c1 & e1 & -> & A1 & L1 & P1 & M1 & V1)];
    destruct (norm_cases n2 d2 s2 H2) as [[Z2 ->]|(c2 & e2 & -> & A2 & L2 & P2 & M2 & V2)].
  - rewrite Z1, Z2, !Z.mul_0_r. split; [|done]. intros _. unfold scaled. by rewrite !Qmult_0_l.
  - rewrite Z1, Z.mul_0_r, V2. split.
    + intros [= _ <- _]. by cbn in L2.
    + intros Hq. assert (Qeq (scaled (sign n2 * dv 0 c2) e2) 0) as Hz.
      { rewrite <- Hq. by apply scaled_zero. }
      apply scaled_zero in Hz. by apply Hnz in Hz.
  - rewrite Z2, Z.mul_0_r, V1. split.
    + intros [= _ -> _]. by cbn in L1.
    + intros Hq. assert (Qeq (scaled (sign n1 * dv 0 c1) e1) 0) as Hz.
      { rewrite Hq. by apply scaled_zero. }
      apply scaled_zero in Hz. by apply Hnz in Hz.
  - rewrite V1, V2. split.
    + intros [= -> -> ->%Z_dec_inj]. done.
    + intros Hq. apply scaled_inj in Hq as [Hm ->]; [|auto..].
      assert (n1 = n2 ∧ dv 0 c1 = dv 0 c2) as [-> Hc] by (destruct n1, n2; cbn in Hm; split; lia || done).
      by rewrite (dv_inj c1 c2).
Qed.

(** The rational a text denotes. *)
Definition number_value (t : string) : option Qc :=
  (fun '(neg, digits, scale) => Q2Qc (scaled (sign neg * dv 0 digits) scale)) <$> scan_number t.
Definition number_ok (t : string) : Prop :=
  match scan_number t with Some (_, digits, _) => all_digits digits | None => False end.

Lemma normalize_value t t' :
  number_ok t → number_ok t' →
  match normalizeStateJSONNumber t, normalizeStateJSONNumber t' with Some x, Some y => x == y | _, _ => false end = true
  ↔ number_value t = number_value t'.
Proof.
  unfold number_ok, number_value. rewrite !normalize_scan.
  destruct (scan_number t) as [[[n1 d1] s1]|], (scan_number t') as [[[n2 d2] s2]|]; try done. intros H1 H2. cbn.
  rewrite bool_decide_eq_true, norm_equal, <- Q2Qc_eq_iff by done. split; congruence.
Qed.

(** ** Every number the JSON grammar accepts has this shape *)

Lemma span_digits_ok s ds t : span_digits s = (ds, t) → all_digits ds.
Proof.
  revert ds. induction s as [|a s IH]; intros ds; cbn; [by intros [= <- _]|].
  destruct (is_digit a) eqn:Ha; [|by intros [= <- _]].
  destruct (span_digits s) as [ds' t']. intros [= <- ->]. apply all_digits_cons. auto.
Qed.

Lemma ascii_of_byte a (c : ascii) : (byte_of a =? byte_of c) = true → a = c.
Proof. intros ?%Z.eqb_eq. by apply byte_of_inj. Qed.

Lemma lex_int_ok s ip r : lex_int s = Some (ip, r) → all_digits ip ∧ ip ≠ "".
Proof.
  destruct s as [|a s]; [done|]. cbn -[span_digits].
  destruct (Z.eqb_spec (byte_of a) 48) as [E|E].
  { intros [= <- <-]. split; [|done]. apply all_digits_cons. split; [|done].
    unfold is_digit, in_range. by rewrite E. }
  destruct (is_digit a) eqn:Ha; [|done]. intros [= H].
  split; [exact (span_digits_ok (String a s) _ _ H)|].
  rewrite Ha in H. destruct (span_digits s). by injection H as <- _.
Qed.

Lemma lex_frac_ok s fp r :
  lex_frac s = Some (fp, r) →
  ∃ f, fp = match f with Some ds => "." +++ ds | None => "" end
       ∧ match f with Some ds => all_digits ds ∧ ds ≠ "" | None => True end.
Proof.
  destruct s as [|a s]; cbn -[span_digits]; [intros [= <- <-]; by exists None|].
  destruct (byte_of a =? 46) eqn:E; [|intros [= <- <-]; by exists None].
  apply (ascii_of_byte a ".") in E as ->. destruct (span_digits s) as [ds t] eqn:Hs.
  case_bool_decide; [done|]. intros [= <- _]. exists (Some ds). split; [done|].
  split; [by eapply span_digits_ok|done].
Qed.

Lemma lex_exp_ok s ep r :
  lex_exp s = Some (ep, r) →
  ∃ x, ep = match x with Some (c, sg, ds) => String c (sg +++ ds) | None => "" end
       ∧ match x with
         | Some (c, sg, ds) => is_e c = true ∧ (sg = "" ∨ sg = "+" ∨ sg = "-") ∧ all_digits ds ∧ ds ≠ ""
         | None => True
         end.
Proof.
  destruct s as [|a s]; cbn -[span_digits]; [intros [= <- <-]; by exists None|].
  destruct (_ || _) eqn:E; [|intros [= <- <-]; by exists None].
  set (p := match s with String b r1 => _ | EmptyString => _ end).
  assert (p.1 = "" ∨ p.1 = "+" ∨ p.1 = "-") as Hp.
  { unfold p. destruct s as [|b s]; [by left|].
    destruct ((byte_of b =? 43) || (byte_of b =? 45)) eqn:Eb; [|by left]. cbn. right.
    apply orb_true_iff in Eb as [Eb|Eb].
    - apply (ascii_of_byte b "+") in Eb as ->. auto.
    - apply (ascii_of_byte b "-") in Eb as ->. auto. }
  destruct p as [sg r1]. destruct (span_digits r1) as [ds t] eqn:Hs.
  case_bool_decide; [done|]. intros [= <- _]. exists (Some (a, sg, ds)). split; [done|].
  split_and!; [done|done|by eapply span_digits_ok|done].
Qed.

Lemma lex_number_shape s t r : lex_number s = Some (t, r) → ∃ n, num_wf n ∧ t = num_text n.
Proof.
  unfold lex_number. set (p := match s with String a r => _ | EmptyString => _ end).
  assert (p.1 = "" ∨ p.1 = "-") as Hp.
  { unfold p. destruct s as [|a s]; [by left|]. destruct (byte_of a =? 45) eqn:E; [|by left].
    apply (ascii_of_byte a "-") in E as ->. by right. }
  destruct p as [sg s1]. cbn in Hp.
  destruct (lex_int s1) as [[ip s2]|] eqn:Ei; [|done]. cbn.
  destruct (lex_frac s2) as [[fp s3]|] eqn:Ef; [|done]. cbn.
  destruct (lex_exp s3) as [[ep s4]|] eqn:Ee; [|done]. cbn. intros [= <- _].
  apply lex_int_ok in Ei as [Hi Hne]. apply lex_frac_ok in Ef as (f & -> & Hf).
  apply lex_exp_ok in Ee as (x & -> & Hx).
  exists (mkNum (bool_decide (sg = "-")) ip f x). split; [done|].
  unfold num_text. cbn. by destruct Hp as [-> | ->].
Qed.

Lemma num_digits_ok n : num_wf n → all_digits (num_digits n).
Proof.
  intros (Hi & _ & Hf & _). unfold num_digits. apply all_digits_app. split; [done|].
  destruct (n_frac n); [apply Hf|done].
Qed.

Lemma lexed_ok s t r : lex_number s = Some (t, r) → number_ok t.
Proof. intros (n & Hn & ->)%lex_number_shape. unfold number_ok. rewrite scan_text by done. by apply num_digits_ok. Qed.

(** State data with numbers is compared by value: two JSON number texts,
    in whatever notation (sign, fraction, exponent of any size), are equal for
    the State merge exactly when they denote the same rational number. *)
Theorem state_numbers_by_value a b ra rb ta tb :
  lex_number a = Some (ta, ra) → lex_number b = Some (tb, rb) →
  ∃ n1 n2, num_wf n1 ∧ num_wf n2 ∧ ta = num_text n1 ∧ tb = num_text n2
    ∧ (equalStateJSONValue (JNumber ta) (JNumber tb) = true ↔ Qeq (num_value n1) (num_value n2)).
Proof.
  intros (n1 & W1 & ->)%lex_number_shape (n2 & W2 & ->)%lex_number_shape.
  exists n1, n2. split_and!; [done..|]. cbn [equalStateJSONValue].
  rewrite !normalize_text by done. rewrite bool_decide_eq_true.
  rewrite norm_equal by (by apply num_digits_ok). done.
Qed.

Lemma state_numbers_by_value_witness :
  ∃ n1 n2, "1.50e3" = num_text n1 ∧ "15e+2" = num_text n2 ∧ Qeq (num_value n1) (num_value n2).
Proof.
  destruct (state_numbers_by_value "1.50e3" "15e+2" "" "" "1.50e3" "15e+2")
    as (n1 & n2 & _ & _ & H1 & H2 & H); [vm_compute; reflexivity..|].
  exists n1, n2. split_and!; [exact H1|exact H2|]. apply H. vm_compute. reflexivity.
Defined.
