(* ===== verification/StateData.v ===== *)
(** * State data is compared by value (state.go)

    The merge compares the data of two State objects as decoded JSON, not as
    text.  The specification is what the data denotes: object members form a
    map in which the last of equal names counts, and numbers are rationals.
    The comparison decides equality of denotations; so it is an equivalence,
    and never fails on valid data. *)

From Stdlib Require Import Ascii String Qcanon.
From S2P Require Import Prelude Utf8 Json JsonText Types Codec Capability State StateNumbers.
Open Scope string_scope.
Open Scope list_scope.
Open Scope go_scope.
Open Scope Z_scope.

(** ** Denotations *)

Inductive svalue :=
| SNull
| SBool (b : bool)
| SNumber (q : option Qc)
| SString (s : string)
| SArray (l : list svalue)
| SObject (m : gmap string svalue).

Fixpoint denote (v : jvalue) : svalue :=
  match v with
  | JNull => SNull
  | JBool b => SBool b
  | JNumber n => SNumber (number_value n)
  | JString s => SString s
  | JArray vs => SArray (map denote vs)
  | JObject ms => SObject (foldl (fun m '(k, _, v) => <[k := denote v]> m) ∅ ms)
  end.

(** Every number is one of the grammar. *)
Fixpoint numbers_ok (v : jvalue) : Prop :=
  match v with
  | JNumber n => number_ok n
  | JArray vs => foldr (fun v P => numbers_ok v ∧ P) True vs
  | JObject ms => foldr (fun '(_, _, v) P => numbers_ok v ∧ P) True ms
  | _ => True
  end.

Section jvalue_ind.
Variable P : jvalue → Prop.
Hypothesis HNull : P JNull.
Hypothesis HBool : ∀ b, P (JBool b).
Hypothesis HNumber : ∀ n, P (JNumber n).
Hypothesis HString : ∀ s, P (JString s).
Hypothesis HArray : ∀ vs, Forall P vs → P (JArray vs).
Hypothesis HObject : ∀ ms, Forall (fun m => P m.2) ms → P (JObject ms).

Fixpoint jvalue_nested_ind (v : jvalue) : P v :=
  match v with
  | JNull => HNull
  | JBool b => HBool b
  | JNumber n => HNumber n
  | JString s => HString s
  | JArray vs => HArray vs ((fix go l : Forall P l :=
      match l with [] => Forall_nil_2 _ | x :: l => Forall_cons_2 _ _ _ (jvalue_nested_ind x) (go l) end) vs)
  | JObject ms => HObject ms ((fix go l : Forall (fun m => P m.2) l :=
      match l with
      | [] => Forall_nil_2 _
      | (k, x) :: l => Forall_cons_2 (fun m => P m.2) (k, x) l (jvalue_nested_ind x) (go l)
      end) ms)
  end.
End jvalue_ind.

Lemma numbers_array vs : numbers_ok (JArray vs) ↔ Forall numbers_ok vs.
Proof. cbn. induction vs as [|v vs IH]; cbn; [by split|]. by rewrite Forall_cons, IH. Qed.

Lemma numbers_object ms : numbers_ok (JObject ms) ↔ Forall (fun m => numbers_ok m.2) ms.
Proof. cbn. induction ms as [|[k v] ms IH]; cbn; [by split|]. destruct k. by rewrite Forall_cons, IH. Qed.

(** ** Members *)

Lemma member_last_elem key ms v : member_last key ms = Some v → ∃ raw, (key, raw, v) ∈ ms.
Proof.
  induction ms as [|[[k raw] w] ms IH]; cbn; [done|]. destruct (member_last key ms) as [u|].
  - intros [= ->]. destruct (IH eq_refl) as [raw' H]. exists raw'. by right.
  - case_bool_decide; [|done]. subst. intros [= ->]. exists raw. by left.
Qed.

Lemma member_last_None key ms : member_last key ms = None ↔ key ∉ map member_key ms.
Proof.
  induction ms as [|[[k raw] w] ms IH]; cbn; [set_solver|]. rewrite not_elem_of_cons. unfold member_key at 1. cbn.
  destruct (member_last key ms) as [u|]; [split; [done|]; intros [_ H]; by apply IH in H|].
  case_bool_decide; [split; [done|]; intros [? _]; congruence|]. split; [|done]. intros _. split; [congruence|by apply IH].
Qed.

Definition members_of (ms : list (string * string * jvalue)) : gmap string svalue :=
  foldl (fun m '(k, _, v) => <[k := denote v]> m) ∅ ms.

Lemma members_of_lookup ms key : members_of ms !! key = denote <$> member_last key ms.
Proof.
  unfold members_of. enough (∀ m : gmap string svalue, foldl (fun m '(k, _, v) => <[k := denote v]> m) m ms !! key
    = match member_last key ms with Some v => Some (denote v) | None => m !! key end) as H.
  { rewrite H, lookup_empty. by destruct (member_last key ms). }
  induction ms as [|[[k raw] w] ms IH]; intros m; cbn; [done|]. rewrite IH. destruct (member_last key ms); [done|].
  rewrite lookup_insert. case_decide; case_bool_decide; congruence.
Qed.

Lemma members_of_dom ms : dom (members_of ms) = list_to_set (map member_key ms).
Proof.
  apply set_eq. intros key. rewrite elem_of_dom, members_of_lookup, elem_of_list_to_set, fmap_is_Some.
  destruct (member_last key ms) as [v|] eqn:E.
  - split; [|by eexists]. intros _. destruct (decide (key ∈ map member_key ms)) as [|H]; [done|].
    apply member_last_None in H. congruence.
  - apply member_last_None in E. split; [by intros [? ?]|done].
Qed.

(** ** The comparison decides equality of denotations *)

Definition elements_equal : list jvalue → list jvalue → bool :=
  fix elements (vs ws : list jvalue) : bool :=
    match vs, ws with
    | [], [] => true
    | v :: vs, w :: ws => equalStateJSONValue v w && elements vs ws
    | _, _ => false
    end.
Definition members_equal (ns : list (string * string * jvalue)) : list (string * string * jvalue) → bool :=
  fix members (ms : list (string * string * jvalue)) : bool :=
    match ms with
    | [] => true
    | (key, _, v) :: ms =>
        if str_in key (map member_key ms) then members ms
        else match member_last key ns with
             | Some w => equalStateJSONValue v w && members ms
             | None => false
             end
    end.

Lemma equal_arrays vs ws : equalStateJSONValue (JArray vs) (JArray ws) = elements_equal vs ws.
Proof. done. Qed.

Lemma equal_objects ms ns :
  equalStateJSONValue (JObject ms) (JObject ns) = (map_len ms =? map_len ns)%nat && members_equal ns ms.
Proof. done. Qed.

Lemma members_equal_spec ns ms :
  members_equal ns ms = true ↔
  ∀ key v, member_last key ms = Some v → ∃ w, member_last key ns = Some w ∧ equalStateJSONValue v w = true.
Proof.
  induction ms as [|[[k raw] x] ms IH]; [by split|]. cbn [members_equal member_last].
  destruct (str_in k (map member_key ms)) eqn:Hk.
  - rewrite IH. apply str_in_elem in Hk. assert (∀ key, match member_last key ms with Some w => Some w
      | None => if k == key then Some x else None end = member_last key ms) as E.
    { intros key. destruct (member_last key ms) eqn:E; [done|]. apply member_last_None in E. case_bool_decide; congruence. }
    by setoid_rewrite E.
  - assert (member_last k ms = None) as Hn.
    { apply member_last_None. intros H%str_in_elem. congruence. }
    split.
    + intros H key v. destruct (member_last k ns) as [w|] eqn:Ek; [|done]. apply andb_true_iff in H as [He H].
      destruct (member_last key ms) as [u|] eqn:Eu; [intros [= <-]; by apply IH|].
      case_bool_decide; [|done]. subst. intros [= <-]. eauto.
    + intros H. destruct (H k x) as (w & Hw & He); [by rewrite Hn, bool_decide_true|]. rewrite Hw, He. cbn.
      apply IH. intros key v Hv. apply (H key v). by rewrite Hv.
Qed.

Lemma map_len_dom ms : map_len ms = size (dom (members_of ms)).
Proof. unfold map_len. by rewrite members_of_dom. Qed.

Lemma equal_denote v w : numbers_ok v → numbers_ok w → equalStateJSONValue v w = true ↔ denote v = denote w.
Proof.
  revert w. induction v as [|b|n|s|vs IH|ms IH] using jvalue_nested_ind; intros w Hv Hw; destruct w as [|b'|n'|s'|ws|ns]; try done.
  - cbn. rewrite Bool.eqb_true_iff. split; congruence.
  - cbn [equalStateJSONValue denote]. rewrite normalize_value by done. split; congruence.
  - cbn. rewrite bool_decide_eq_true. split; congruence.
  - rewrite equal_arrays. cbn [denote]. apply numbers_array in Hv, Hw.
    trans (map denote vs = map denote ws); [|split; [by intros ->|congruence]].
    revert ws Hv Hw. induction IH as [|v vs Hv _ IH]; intros [|w ws] Hn Hw; try done.
    apply Forall_cons in Hn as [Hn1 Hn2], Hw as [Hw1 Hw2].
    cbn. rewrite andb_true_iff, Hv, IH by done. split; [by intros [-> ->]|]. intros [= -> ->]. done.
  - rewrite equal_objects. cbn [denote]. fold (members_of ms) (members_of ns). apply numbers_object in Hv, Hw.
    trans (members_of ms = members_of ns); [|split; [by intros ->|congruence]].
    rewrite andb_true_iff, Nat.eqb_eq, members_equal_spec, !map_len_dom. rewrite Forall_forall in IH, Hv, Hw.
    assert (∀ key key' v w, member_last key ms = Some v → member_last key' ns = Some w → equalStateJSONValue v w = true ↔ denote v = denote w) as IH'.
    { intros key key' v w (raw & Hin)%member_last_elem (raw' & Hin')%member_last_elem.
      apply (IH _ Hin); [apply (Hv _ Hin)|apply (Hw _ Hin')]. }
    split.
    + intros [Hlen Hmem]. assert (dom (members_of ms) = dom (members_of ns)) as Hdom.
      { apply (set_subseteq_size_eq (C:=gset string)); [|lia]. intros key [v Hl]%elem_of_dom.
        rewrite members_of_lookup in Hl. apply fmap_Some in Hl as (v' & Hl & _). apply elem_of_dom.
        destruct (Hmem _ _ Hl) as (w & Hl2 & _). rewrite members_of_lookup, Hl2. by eexists. }
      apply map_eq. intros key. destruct (members_of ms !! key) as [x|] eqn:Ex.
      * rewrite members_of_lookup in Ex. apply fmap_Some in Ex as (v & Hl & ->). destruct (Hmem _ _ Hl) as (w & Hl' & He).
        rewrite members_of_lookup, Hl'. cbn. f_equal. by eapply IH'.
      * symmetry. apply not_elem_of_dom. rewrite <- Hdom. by apply not_elem_of_dom.
    + intros E. split; [by rewrite E|]. intros key v Hl.
      assert (members_of ms !! key = Some (denote v)) as Hm by by rewrite members_of_lookup, Hl.
      rewrite E, members_of_lookup in Hm. apply fmap_Some in Hm as (w & Hl2 & Hd). exists w. split; [done|]. by eapply IH'.
Qed.

(** ** Data as decoded *)

Lemma parse_numbers f :
  (∀ d s v r, parse_value f d s = Some (v, r) → numbers_ok v)
  ∧ (∀ d s ms r, parse_members f d s = Some (ms, r) → Forall (fun m => numbers_ok m.2) ms)
  ∧ (∀ d s vs r, parse_elements f d s = Some (vs, r) → Forall numbers_ok vs).
Proof.
  induction f as [|f (IHv & IHm & IHe)]; [done|]. split_and!; intros d s v r; cbn.
  - destruct (skip_ws s) as [|a t]; [done|]. repeat case_match; try done.
    + by intros [= <- _].
    + intros ([ms t'] & Hm & [= <- _])%bind_Some. rewrite numbers_object. by eapply IHm.
    + by intros [= <- _].
    + intros ([vs t'] & Hm & [= <- _])%bind_Some. rewrite numbers_array. by eapply IHe.
    + by intros ([body t'] & _ & [= <- _])%bind_Some.
    + unfold lex_literal. repeat case_match; try (by intros [= <- _]).
      intros ([n t'] & Hn & [= <- _])%bind_Some. by eapply lexed_ok.
  - destruct (skip_ws s) as [|a t]; [done|]. case_match; [|done].
    intros ([body r1] & _ & Hr)%bind_Some. destruct (skip_ws r1) as [|c r2]; [done|]. case_match; [|done].
    apply bind_Some in Hr as ([x r4] & Hx & Hr). apply IHv in Hx. destruct (skip_ws r4) as [|e r5]; [done|]. case_match.
    + apply bind_Some in Hr as ([ms t'] & Hm & [= <- _]). constructor; [done|by eapply IHm].
    + case_match; [|done]. injection Hr as <- _. by repeat constructor.
  - intros ([x r1] & Hx & Hr)%bind_Some. apply IHv in Hx. destruct (skip_ws r1) as [|e r2]; [done|]. case_match.
    + apply bind_Some in Hr as ([vs t'] & Hm & [= <- _]). constructor; [done|by eapply IHe].
    + case_match; [|done]. injection Hr as <- _. by repeat constructor.
Qed.

Lemma json_value_numbers s v : json_value s = Some v → numbers_ok v.
Proof.
  unfold json_value, json_parse. intros ([v' r] & Hp & H)%bind_Some. destruct (skip_ws r); [|done]. injection H as ->.
  by eapply parse_numbers.
Qed.

Section data.
Context {ST : StdText}.

Lemma decodeStateData_value data v : json_value data = Some v → decodeStateData data = Ok v.
Proof.
  unfold json_value, decodeStateData, dec_Decode. intros ([v' r] & Hp & H)%bind_Some.
  destruct (skip_ws r) eqn:Er; [|done]. injection H as ->.
  assert (skip_ws data ≠ "") as Hne.
  { unfold json_parse in Hp. cbn in Hp. intros E. by rewrite E in Hp. }
  destruct (skip_ws data); [done|]. rewrite Hp. unfold ensureJSONEOF, dec_Decode. by rewrite Er.
Qed.

Lemma equalStateData_denote a b va vb :
  json_value a = Some va → json_value b = Some vb →
  ∃ same, equalStateData a b = Ok same ∧ (same = true ↔ denote va = denote vb).
Proof.
  intros Ha Hb. unfold equalStateData. rewrite (decodeStateData_value a va), (decodeStateData_value b vb) by done.
  eexists. split; [reflexivity|]. apply equal_denote; by eapply json_value_numbers.
Qed.

(** Valid data equals itself. *)
Lemma equalStateData_refl a : json_Valid a = true → equalStateData a a = Ok true.
Proof.
  unfold json_Valid. destruct (json_value a) as [v|] eqn:E; [|done]. intros _.
  destruct (equalStateData_denote a a v v E E) as ([] & -> & H); [done|]. by assert (false = true) by by apply H.
Qed.

Lemma valid_object_json o limits : ValidateStateObject o limits = Ok tt → json_Valid (so_Data o) = true.
Proof.
  unfold ValidateStateObject. intros H. apply result_bind_Ok in H as ([] & _ & H).
  apply result_bind_Ok in H as ([] & _ & H). apply result_bind_Ok in H as ([] & H & _). inv_ok. by bools.
Qed.

(** C34. Two State objects of one identity and version are the same exactly when
    their data denotes the same value: white space, escapes, the order of
    members and the notation of numbers do not matter, of members with one
    name the last counts, and numbers are compared as rationals of any size.
    Then the merge keeps the current object and reports a duplicate; otherwise
    it keeps it and reports a conflict, and never another error. *)
Theorem state_data_by_value cur inc limits va vb :
  ValidateStateObject cur limits = Ok tt → ValidateStateObject inc limits = Ok tt →
  Identity cur = Identity inc → so_Version cur = so_Version inc →
  json_value (so_Data cur) = Some va → json_value (so_Data inc) = Some vb →
  (denote va = denote vb ∧ ApplyStateObject (Some cur) inc limits = (cur, Some StateApplyDuplicate, None))
  ∨ (denote va ≠ denote vb
     ∧ ApplyStateObject (Some cur) inc limits = (cur, Some StateApplyConflict, Some (ENew ErrStateConflict))).
Proof.
  intros Hc Hi Hid Hver Ha Hb. unfold ApplyStateObject. rewrite Hi, Hc, Hid, Hver, !cloneStateObject_id.
  rewrite bool_decide_true, Z.ltb_irrefl by done. cbn [negb].
  destruct (equalStateData_denote _ _ _ _ Ha Hb) as ([] & -> & H); [left; split; [by apply H|done]|right].
  split; [|done]. intros E. by apply H in E.
Qed.
End data.

(** The data of a document, written in two ways. *)
Definition demo_written (data : string) : StateObject := mkStateObject "room" "a" 4 (js data).

Lemma state_data_by_value_witness :
  ApplyStateObject (ST:=demo_text) (Some (demo_written "{'n':150e-1,'tags':['x'],'old':1,'old':2}"))
    (demo_written "{'old':2.0, 'tags':['\u0078'], 'n':15}") DefaultLimits
  = (demo_written "{'n':150e-1,'tags':['x'],'old':1,'old':2}", Some StateApplyDuplicate, None).
Proof.
  destruct (json_value (so_Data (demo_written "{'n':150e-1,'tags':['x'],'old':1,'old':2}"))) as [va|] eqn:Ea;
    [|vm_compute in Ea; discriminate Ea].
  destruct (json_value (so_Data (demo_written "{'old':2.0, 'tags':['\u0078'], 'n':15}"))) as [vb|] eqn:Eb;
    [|vm_compute in Eb; discriminate Eb].
  destruct (state_data_by_value (ST:=demo_text) (demo_written "{'n':150e-1,'tags':['x'],'old':1,'old':2}")
              (demo_written "{'old':2.0, 'tags':['\u0078'], 'n':15}") DefaultLimits va vb) as [[_ H]|[Hne _]].
  - vm_compute. reflexivity.
  - vm_compute. reflexivity.
  - reflexivity.
  - reflexivity.
  - exact Ea.
  - exact Eb.
  - exact H.
  - exfalso. apply Hne, equal_denote; [exact (json_value_numbers _ _ Ea)|exact (json_value_numbers _ _ Eb)|].
    clear Hne. vm_compute in Ea, Eb. injection Ea as <-. injection Eb as <-. vm_compute. reflexivity.
Defined.
