(* ===== verification/StateWire.v ===== *)
(** * State data on the wire (state.go, types.go)

    State data is a [json.RawMessage]: the store keeps the bytes it was given,
    and encoding a frame prints them in compact form, with the characters
    [<], [>], [&], U+2028 and U+2029 escaped.  Compaction keeps the text one
    JSON value, of the same nesting depth, that denotes the same value
    ([compact_denotes]); so what a client reads is the object that was
    printed, up to the form of its data ([wire_form]). *)

From Stdlib Require Import Ascii String.
From S2P Require Import Prelude Utf8 Json JsonText JsonPrint Types Codec Capability State StateNumbers StateData.
Open Scope string_scope.
Open Scope list_scope.
Open Scope go_scope.
Open Scope Z_scope.

(** ** String literals

    Compaction replaces a literal character by its escape. *)

Inductive item_same : str_item → str_item → Prop :=
| same_item i : item_same i i
| same_escaped u : 0 ≤ u < 0xD800 ∨ 0xE000 ≤ u → item_same (ILit (encode_rune u)) (IUnit u).

Lemma plain_unit u t : 0 ≤ u < 0xD800 ∨ 0xE000 ≤ u → items_text (IUnit u :: t) = encode_rune u +++ items_text t.
Proof.
  intros Hu. cbn [items_text]. assert (is_surrogate u = false) as -> by (unfold is_surrogate, in_range; lia). done.
Qed.

(** A surrogate is not completed by another code unit. *)
Lemma lone_surrogate u u2 : 0 ≤ u2 < 0xD800 ∨ 0xE000 ≤ u2 → utf16_DecodeRune u u2 = RuneError.
Proof.
  intros Hu. unfold utf16_DecodeRune, in_range.
  destruct (_ && _) eqn:E; [|done]. exfalso. lia.
Qed.

Lemma items_text_same l l' : Forall2 item_same l l' → items_text l = items_text l'.
Proof.
  remember (length l) as n eqn:Hn. revert l l' Hn. induction n as [n IH] using lt_wf_ind. intros l l' -> Hall.
  assert (∀ k k', (length k < length l)%nat → Forall2 item_same k k' → items_text k = items_text k') as IH'
    by (intros k k' Hk; by apply (IH _ Hk)).
  clear IH. destruct Hall as [|i i' k k' Hi Hk]; [done|]. cbn [length] in IH'. destruct Hi as [[bs|u]|u Hu].
  - cbn [items_text]. f_equal. by apply IH'; [lia|].
  - cbn [items_text]. destruct (is_surrogate u); [|f_equal; by apply IH'; [lia|]].
    pose proof (IH' k k' ltac:(lia) Hk) as Ek. destruct Hk as [|j j' k k' Hj Hk]; [done|]. destruct Hj as [[bs|u2]|u2 Hu2].
    + by rewrite Ek.
    + destruct (_ =? _); [by rewrite Ek|]. f_equal. by apply IH'; [cbn; lia|].
    + rewrite lone_surrogate by done. by rewrite Ek.
  - rewrite plain_unit by done. cbn [items_text]. f_equal. by apply IH'; [lia|].
Qed.

(** ** Segments

    A byte that does not start an encoding still does not after compaction,
    which keeps continuation bytes where they are. *)

Inductive same_conts : string → string → Prop :=
| sc_cont a r r' : is_cont (byte_of a) = true → same_conts r r' → same_conts (String a r) (String a r')
| sc_fresh r r' : fresh r = true → fresh r' = true → same_conts r r'.

Lemma compact_conts r : same_conts r (compact true false r).
Proof.
  induction r as [|a r IH]; [by apply sc_fresh|]. destruct (is_cont (byte_of a)) eqn:Ha.
  - rewrite compact_in. cbv zeta. unfold is_cont, in_range in Ha. rewrite high_next by lia. unfold html_byte.
    rewrite !(proj2 (Z.eqb_neq _ _)) by lia. cbn [orb fst snd]. apply sc_cont; [unfold is_cont, in_range; lia|done].
  - apply sc_fresh; [unfold fresh; cbn; by rewrite Ha|].
    destruct (compact_head false a r) as (b & t & -> & Hb). unfold fresh. cbn.
    destruct Hb as [-> |Hb]; [by rewrite Ha|]. by rewrite Hb.
Qed.

(** An encoding starts here. *)
Definition starts_encoding (a : ascii) (r : string) : bool :=
  (byte_of a <? 0x80)
  || match r with
     | String b r1 =>
         ok2 (byte_of a) (byte_of b)
         || match r1 with
            | String c r2 =>
                ok3 (byte_of a) (byte_of b) (byte_of c)
                || match r2 with
                   | String d _ => ok4 (byte_of a) (byte_of b) (byte_of c) (byte_of d)
                   | EmptyString => false
                   end
            | EmptyString => false
            end
     | EmptyString => false
     end.

Lemma segs_bad a r : starts_encoding a r = false → utf8_segs (String a r) = Bad a :: utf8_segs r.
Proof.
  unfold starts_encoding. intros [Ha H]%orb_false_iff. cbn [utf8_segs]. rewrite Ha.
  destruct r as [|b r1]; [done|]. apply orb_false_iff in H as [-> H].
  destruct r1 as [|c r2]; [done|]. apply orb_false_iff in H as [-> H].
  destruct r2 as [|d r3]; [done|]. by rewrite H.
Qed.

Lemma segs_good a r : starts_encoding a r = true →
  ∃ u bs t, String a r = bs +++ t ∧ encoding u bs ∧ utf8_segs (String a r) = Good u bs :: utf8_segs t
            ∧ (String.length t < String.length (String a r))%nat.
Proof.
  intros H. enough (∃ u bs t, String a r = bs +++ t ∧ encoding u bs) as (u & bs & t & E & He).
  { exists u, bs, t. split_and!; [done|done|rewrite E; by apply segs_encoding|]. rewrite E, str_length_app.
    destruct He; cbn; lia. }
  unfold starts_encoding in H. apply orb_true_iff in H as [H|H].
  { exists (byte_of a), (String a ""), r. split; [done|]. constructor. lia. }
  destruct r as [|b r1]; [done|]. apply orb_true_iff in H as [H|H].
  { eexists _, (String a (String b "")), r1. split; [done|]. by constructor. }
  destruct r1 as [|c r2]; [done|]. apply orb_true_iff in H as [H|H].
  { eexists _, (String a (String b (String c ""))), r2. split; [done|]. by constructor. }
  destruct r2 as [|d r3]; [done|].
  eexists _, (String a (String b (String c (String d "")))), r3. split; [done|]. by constructor.
Qed.

Lemma ok2_cont x y : ok2 x y = true → is_cont y = true.
Proof. unfold ok2, is_cont, in_range. lia. Qed.
Lemma ok3_cont x y z : ok3 x y z = true → is_cont y = true ∧ is_cont z = true.
Proof. unfold ok3, is_cont, in_range. lia. Qed.
Lemma ok4_cont x y z w : ok4 x y z w = true → is_cont y = true ∧ is_cont z = true ∧ is_cont w = true.
Proof. unfold ok4, is_cont, in_range. lia. Qed.

Lemma starts_same a r r' : same_conts r r' → starts_encoding a r = false → starts_encoding a r' = false.
Proof.
  unfold starts_encoding. intros Hs [Ha H]%orb_false_iff. rewrite Ha. cbn [orb].
  apply not_true_is_false. intros H'.
  destruct r' as [|b' r1']; [done|].
  assert (is_cont (byte_of b') = true) as Hb.
  { apply orb_true_iff in H' as [H'|H']; [by apply ok2_cont in H'|].
    destruct r1' as [|c' r2']; [done|]. apply orb_true_iff in H' as [H'|H']; [by apply ok3_cont in H' as [? ?]|].
    destruct r2' as [|d' r3']; [done|]. by apply ok4_cont in H' as (? & ? & ?). }
  inversion Hs as [x r1 y Hx Hs1 E1 E2|x y _ Hf E1 E2]; subst; [|unfold fresh in Hf; cbn in Hf; by rewrite Hb in Hf].
  apply orb_false_iff in H as [H2 H]. rewrite H2 in H'. cbn [orb] in H'. clear Hs Hb.
  destruct r1' as [|c' r2']; [done|].
  assert (is_cont (byte_of c') = true) as Hc.
  { apply orb_true_iff in H' as [H'|H']; [by apply ok3_cont in H' as [? ?]|].
    destruct r2' as [|d' r3']; [done|]. by apply ok4_cont in H' as (? & ? & ?). }
  inversion Hs1 as [x r2 y Hx1 Hs2 E1 E2|x y _ Hf E1 E2]; subst; [|unfold fresh in Hf; cbn in Hf; by rewrite Hc in Hf].
  apply orb_false_iff in H as [H3 H]. rewrite H3 in H'. cbn [orb] in H'. clear Hs1 Hc.
  destruct r2' as [|d' r3']; [done|]. pose proof (ok4_cont _ _ _ _ H') as (_ & _ & Hd).
  inversion Hs2 as [x r3 y Hx2 Hs3 E1 E2|x y _ Hf E1 E2]; subst; [congruence|].
  unfold fresh in Hf. cbn in Hf. by rewrite Hd in Hf.
Qed.

(** ** Compacted literals *)

Lemma str_app_inj_l (s t u : string) : s +++ t = s +++ u → t = u.
Proof. induction s as [|a s IH]; cbn; [done|]. intros [= ?]. auto. Qed.

(** What reads as a literal body, one item at a time. *)
Lemma sreads_tail p body :
  (∀ t, scan_string (p +++ t) = ('(b, u) ← scan_string t; Some (p +++ b, u))) → sreads (p +++ body) ↔ sreads body.
Proof.
  intros Hp. unfold sreads. split.
  - intros H x. specialize (H x). rewrite str_app_assoc, Hp in H.
    apply bind_Some in H as ([b u] & -> & [= E ->]). by apply str_app_inj_l in E as ->.
  - intros H x. by rewrite str_app_assoc, Hp, H.
Qed.

Definition items (body : string) : list str_item := string_items (utf8_segs body).

Definition literal_same (body body' : string) : Prop :=
  sreads body' ∧ Forall2 item_same (items body) (items body').

Definition scans (p : string) : Prop :=
  ∀ t, scan_string (p +++ t) = ('(b, u) ← scan_string t; Some (p +++ b, u)).

(** One piece of a literal and the rest. *)
Lemma literal_step p p' l l' body :
  scans p → scans p' → compact true false (p +++ body) = p' +++ compact true false body →
  items (p +++ body) = l ++ items body → items (p' +++ compact true false body) = l' ++ items (compact true false body) →
  Forall2 item_same l l' → literal_same body (compact true false body) →
  literal_same (p +++ body) (compact true false (p +++ body)).
Proof.
  intros Hp Hp' Hc Hi Hi' Hl [Hs Hb]. rewrite Hc. split; [by apply sreads_tail|]. rewrite Hi, Hi'. by apply Forall2_app.
Qed.

Lemma item_same_refl l : Forall2 item_same l l.
Proof. induction l; constructor; [constructor|done]. Qed.

(** The pieces that compaction keeps. *)
Lemma literal_kept p l body :
  scans p → compact true false (p +++ body) = p +++ compact true false body →
  (∀ t, items (p +++ t) = l ++ items t) → literal_same body (compact true false body) →
  literal_same (p +++ body) (compact true false (p +++ body)).
Proof. intros Hp Hc Hi. apply (literal_step p p l l); auto using item_same_refl. Qed.

Definition escape_byte (e : Z) : bool :=
  (e =? 98) || (e =? 102) || (e =? 110) || (e =? 114) || (e =? 116) || (e =? 92) || (e =? 47) || (e =? 34).

Lemma segs_ascii a t : byte_of a < 0x80 → utf8_segs (String a t) = Good (byte_of a) (String a "") :: utf8_segs t.
Proof. intros Ha. cbn [utf8_segs]. by rewrite (proj2 (Z.ltb_lt _ _) Ha). Qed.

Lemma compact_kept e a s : html_byte (byte_of a) = false → byte_of a ≠ 0xE2 →
  compact true e (String a s) = String a (compact (cnext (true, e) a).1 (cnext (true, e) a).2 s).
Proof. intros Hh Ha. rewrite compact_in. cbv zeta. by rewrite Hh, (proj2 (Z.eqb_neq _ _) Ha). Qed.

Lemma literal_escape a b body :
  byte_of a = q_backslash → escape_byte (byte_of b) = true → literal_same body (compact true false body) →
  literal_same (String a (String b body)) (compact true false (String a (String b body))).
Proof.
  intros Ha Hb. assert (byte_of b < 0x80 ∧ byte_of b ≠ 117 ∧ html_byte (byte_of b) = false) as (Hlt & Hu & Hh)
    by (unfold escape_byte in Hb; unfold html_byte; split_and!; lia).
  apply (literal_kept (String a (String b "")) [ILit (char (escape_char (byte_of b)))]).
  - intros t. cbn [String.append scan_string]. rewrite Ha. change (q_backslash =? q_quote) with false.
    change (q_backslash =? q_backslash) with true. lazy iota. unfold escape_byte in Hb. rewrite Hb. by destruct (scan_string t) as [[]|].
  - cbn [String.append]. rewrite compact_kept by (rewrite Ha; done).
    assert (cnext (true, false) a = (true, true)) as -> by (unfold cnext; cbn [fst snd]; by rewrite Ha). cbn [fst snd].
    rewrite compact_kept by (done || lia). unfold cnext. cbn [fst snd]. by rewrite orb_true_r.
  - intros t. unfold items. cbn [String.append]. rewrite !segs_ascii by (rewrite ?Ha; unfold q_backslash; lia).
    cbn [string_items seg_rune app]. rewrite Ha. change (q_backslash =? q_backslash) with true. lazy iota.
    by rewrite (proj2 (Z.eqb_neq _ _) Hu).
Qed.

Lemma hex_plain h : is_hex h = true → byte_of h < 0x80 ∧ html_byte (byte_of h) = false ∧ cnext (true, false) h = (true, false).
Proof.
  unfold is_hex, in_range, html_byte, cnext, q_quote, q_backslash. cbn [fst snd]. intros H. split_and!; [lia..|].
  rewrite !(proj2 (Z.eqb_neq _ _)) by lia. done.
Qed.

Lemma literal_unicode a b h1 h2 h3 h4 body :
  byte_of a = q_backslash → byte_of b = 117 → is_hex h1 && is_hex h2 && is_hex h3 && is_hex h4 = true →
  literal_same body (compact true false body) →
  let s := String a (String b (String h1 (String h2 (String h3 (String h4 body))))) in
  literal_same s (compact true false s).
Proof.
  intros Ha Hb Hh. pose proof Hh as Hh'. rewrite !andb_true_iff in Hh'. destruct Hh' as [[[H1 H2] H3] H4].
  destruct (hex_plain _ H1) as (L1 & P1 & C1), (hex_plain _ H2) as (L2 & P2 & C2), (hex_plain _ H3) as (L3 & P3 & C3),
    (hex_plain _ H4) as (L4 & P4 & C4).
  eapply (literal_kept (String a (String b (String h1 (String h2 (String h3 (String h4 ""))))))
    [IUnit (((hex_val (byte_of h1) * 16 + hex_val (byte_of h2)) * 16 + hex_val (byte_of h3)) * 16 + hex_val (byte_of h4))]).
  - intros t. cbn [String.append scan_string]. rewrite Ha, Hb. change (q_backslash =? q_quote) with false.
    change (q_backslash =? q_backslash) with true. lazy iota.
    change (escape_byte 117) with false. lazy iota. rewrite Hh. by destruct (scan_string t) as [[]|].
  - cbn [String.append]. rewrite compact_kept by (rewrite Ha; done).
    assert (cnext (true, false) a = (true, true)) as -> by (unfold cnext; cbn [fst snd]; by rewrite Ha). cbn [fst snd].
    rewrite compact_kept by (rewrite Hb; done).
    assert (cnext (true, true) b = (true, false)) as -> by (unfold cnext; cbn [fst snd]; by rewrite Hb). cbn [fst snd].
    do 4 (rewrite compact_kept by (done || lia); rewrite ?C1, ?C2, ?C3, ?C4; cbn [fst snd]). done.
  - intros t. unfold items. cbn [String.append]. rewrite !segs_ascii by (rewrite ?Ha, ?Hb; unfold q_backslash; lia).
    cbn [string_items seg_rune app]. rewrite Ha, Hb. reflexivity.
Qed.

(** A byte that stands for itself. *)
Definition literal_byte (a : ascii) : Prop := 32 ≤ byte_of a ∧ byte_of a ≠ q_quote ∧ byte_of a ≠ q_backslash.

Lemma scans_byte a : literal_byte a → scans (String a "").
Proof.
  intros (H1 & H2 & H3) t. cbn [String.append scan_string].
  rewrite (proj2 (Z.eqb_neq _ _) H2), (proj2 (Z.eqb_neq _ _) H3), (proj2 (Z.ltb_ge _ _) H1). by destruct (scan_string t) as [[]|].
Qed.

Lemma literal_next a e : literal_byte a → cnext (true, e) a = (true, false).
Proof.
  intros (_ & H2 & H3). unfold cnext. cbn [fst snd]. rewrite (proj2 (Z.eqb_neq _ _) H2), (proj2 (Z.eqb_neq _ _) H3).
  by rewrite andb_false_r.
Qed.

Lemma items_ascii a t : literal_byte a → byte_of a < 0x80 → items (String a t) = ILit (String a "") :: items t.
Proof.
  intros (_ & _ & H3) Hlt. unfold items. rewrite segs_ascii by done. cbn [string_items seg_rune].
  by rewrite (proj2 (Z.eqb_neq _ _) H3).
Qed.

Lemma literal_html a body :
  html_byte (byte_of a) = true → literal_same body (compact true false body) →
  literal_same (String a body) (compact true false (String a body)).
Proof.
  intros Hh. assert (literal_byte a ∧ byte_of a < 0x80) as [Hb Hlt].
  { unfold html_byte in Hh. unfold literal_byte, q_quote, q_backslash. lia. }
  set (esc := char 92 +++ "u00" +++ hex_digit (byte_of a / 16) +++ hex_digit (byte_of a mod 16)).
  assert (scans esc ∧ (∀ t, items (esc +++ t) = IUnit (byte_of a) :: items t) ∧ String a "" = encode_rune (byte_of a)) as (Hs & Hi & He).
  { unfold esc. clear -Hh. unfold html_byte in Hh.
    assert (a = chr 60 ∨ a = chr 62 ∨ a = chr 38) as [->|[->| ->]].
    { rewrite !orb_true_iff, !Z.eqb_eq in Hh. destruct Hh as [[H|H]|H]; apply chr_byte in H; auto. }
    all: (split_and!; [intros t; reflexivity|intros t; reflexivity|reflexivity]). }
  apply (literal_step (String a "") esc [ILit (String a "")] [IUnit (byte_of a)]).
  - by apply scans_byte.
  - done.
  - cbn [String.append]. rewrite compact_in. cbv zeta. rewrite Hh. unfold esc. by rewrite !str_app_assoc.
  - by apply items_ascii.
  - apply Hi.
  - rewrite He. constructor; [|constructor]. apply same_escaped. pose proof (byte_of_range a). lia.
Qed.

Lemma literal_ascii a body :
  literal_byte a → byte_of a < 0x80 → html_byte (byte_of a) = false → literal_same body (compact true false body) →
  literal_same (String a body) (compact true false (String a body)).
Proof.
  intros Hb Hlt Hh. apply (literal_kept (String a "") [ILit (String a "")]).
  - by apply scans_byte.
  - cbn [String.append]. rewrite compact_kept by (done || lia). by rewrite literal_next.
  - intros t. by apply items_ascii.
Qed.

Lemma items_encoding r bs t : encoding r bs → 0x80 ≤ r → items (bs +++ t) = ILit bs :: items t.
Proof.
  intros He Hr. unfold items. rewrite (segs_encoding r bs) by done. cbn [string_items seg_rune]. unfold q_backslash.
  by rewrite (proj2 (Z.eqb_neq r 92)) by lia.
Qed.

Lemma literal_encoding r bs body :
  encoding r bs → 0x80 ≤ r → literal_same body (compact true false body) →
  literal_same (bs +++ body) (compact true false (bs +++ body)).
Proof.
  intros He Hr. assert (scans bs) as Hs by (intros t; by eapply high_scan, encoding_high).
  destruct (decide (r = 0x2028 ∨ r = 0x2029)) as [Hsep|Hsep].
  - pose proof (encoding_sep _ _ He Hsep) as Hbs.
    apply (literal_step bs (sep_text r) [ILit bs] [IUnit r]); [done|..].
    + destruct Hsep as [-> | ->]; intros t; reflexivity.
    + rewrite Hbs. destruct Hsep as [-> | ->]; reflexivity.
    + by apply (items_encoding r).
    + destruct Hsep as [-> | ->]; reflexivity.
    + rewrite Hbs. constructor; [|constructor]. apply same_escaped. lia.
  - apply (literal_kept bs [ILit bs]); [done| |].
    + eapply encoding_compact; [done|done|intros ?; apply Hsep; auto|intros ?; apply Hsep; auto].
    + intros t. by apply (items_encoding r).
Qed.

Lemma literal_bad a body :
  starts_encoding a body = false → literal_same body (compact true false body) →
  literal_same (String a body) (compact true false (String a body)).
Proof.
  intros Hbad. assert (0x80 ≤ byte_of a) as Ha.
  { unfold starts_encoding in Hbad. apply orb_false_iff in Hbad as [H _]. lia. }
  assert (∀ t, starts_encoding a t = false → items (String a t) = [ILit replacement] ++ items t) as Hi.
  { intros t Ht. unfold items. by rewrite segs_bad. }
  assert (compact true false (String a body) = String a (compact true false body)) as Hc.
  { rewrite compact_in. cbv zeta. rewrite high_next by done. unfold html_byte. rewrite !(proj2 (Z.eqb_neq _ _)) by lia. cbn [orb].
    destruct (Z.eqb_spec (byte_of a) 226) as [E|]; [|done]. destruct (sep_next body) as [[d r2]|] eqn:Es; [|done].
    exfalso. apply sep_next_Some in Es as (b1 & b2 & -> & H1 & H2 & H3). revert Hbad. unfold starts_encoding.
    rewrite E, H1, H2. destruct H3 as [-> | ->]; done. }
  apply (literal_step (String a "") (String a "") [ILit replacement] [ILit replacement]); cbn [String.append].
  - apply scans_byte. unfold literal_byte, q_quote, q_backslash. lia.
  - apply scans_byte. unfold literal_byte, q_quote, q_backslash. lia.
  - done.
  - by apply Hi.
  - apply Hi. eapply starts_same; [apply compact_conts|done].
  - apply item_same_refl.
Qed.

(** A literal and its compacted form read as the same string. *)
Lemma compact_literal body : sreads body → literal_same body (compact true false body).
Proof.
  induction body as [body IH] using str_len_ind. intros Hs. destruct body as [|a r]; [by split; [|constructor]|].
  pose proof (Hs "") as H. cbn [String.append scan_string] in H.
  destruct (Z.eqb_spec (byte_of a) q_quote) as [Hq|Hq]; [by injection H as ?|].
  destruct (Z.eqb_spec (byte_of a) q_backslash) as [Hb|Hb].
  - destruct r as [|b r]; [done|]. cbn [String.append] in H. destruct (_ || _) eqn:He.
    + apply literal_escape; [done|exact He|]. apply IH; [cbn; lia|]. intros x. specialize (Hs x).
      cbn [String.append scan_string] in Hs. rewrite Hb in Hs. change (q_backslash =? q_quote) with false in Hs.
      change (q_backslash =? q_backslash) with true in Hs. lazy iota in Hs. rewrite He in Hs.
      apply bind_Some in Hs as ([b' u] & -> & [= -> ->]). done.
    + destruct (Z.eqb_spec (byte_of b) 117) as [Hu|]; [|done].
      destruct r as [|h1 r]; [done|]. destruct r as [|h2 r]; [done|].
      destruct r as [|h3 r]; [done|]. destruct r as [|h4 r]; [cbn [String.append quote_then] in H; by destruct (_ && _)|].
      cbn [String.append] in H. destruct (is_hex h1 && is_hex h2 && is_hex h3 && is_hex h4) eqn:Hh; [|done].
      apply literal_unicode; [done..|]. apply IH; [cbn; lia|]. intros x. specialize (Hs x).
      cbn [String.append scan_string] in Hs. rewrite Hb, Hu in Hs. change (q_backslash =? q_quote) with false in Hs.
      change (q_backslash =? q_backslash) with true in Hs. lazy iota in Hs. change (escape_byte 117) with false in Hs. lazy iota in Hs.
      change (117 =? 117) with true in Hs. lazy iota in Hs. rewrite Hh in Hs.
      apply bind_Some in Hs as ([b' u] & -> & [= -> ->]). done.
  - destruct (Z.ltb_spec (byte_of a) 32) as [|Hlow]; [done|]. clear H.
    assert (literal_byte a) as Hlit by done.
    assert (sreads r) as Hr by (by apply (sreads_tail (String a "") r (scans_byte a Hlit))).
    destruct (starts_encoding a r) eqn:Hst; [|apply literal_bad; [done|by apply IH; [cbn; lia|]]].
    destruct (html_byte (byte_of a)) eqn:Hh; [apply literal_html; [done|by apply IH; [cbn; lia|]]|].
    destruct (Z.ltb_spec (byte_of a) 0x80); [apply literal_ascii; [done..|by apply IH; [cbn; lia|]]|].
    destruct (segs_good a r Hst) as (u & bs & t & E & He & _ & Hlen). rewrite E in *.
    assert (0x80 ≤ u) as Hu.
    { destruct (Z.le_gt_cases 0x80 u) as [|Hlt]; [done|]. destruct (encoding_ascii u bs He ltac:(lia)) as [-> ?].
      cbn in E. injection E as -> _. rewrite byte_of_chr in *; lia. }
    apply (literal_encoding u); [done..|]. apply IH; [done|].
    apply (sreads_tail bs t); [intros t'; by eapply high_scan, encoding_high|done].
Qed.

Lemma compact_unquote body : sreads body → unquote (compact true false body) = unquote body.
Proof. intros [_ H]%compact_literal. symmetry. by apply items_text_same. Qed.

(** ** Values

    The compact form of a text. *)
Notation squeeze := (compact false false).

Lemma squeeze_ws w t : all_ws w = true → squeeze (w +++ t) = squeeze t.
Proof. unfold all_ws. induction w as [|a w IH]; [done|]. cbn [str_forall String.append]. intros [Ha Hw]%andb_true_iff. rewrite compact_out, Ha. auto. Qed.

Lemma squeeze_app s t : closed s → fresh t = true → squeeze (s +++ t) = squeeze s +++ squeeze t.
Proof. intros Hs Ht. rewrite compact_app by done. by rewrite Hs. Qed.

Lemma squeeze_opening z t : z ∈ [123; 125; 91; 93; 44; 58] → squeeze (opening z t) = opening z (squeeze t).
Proof. intros Hz. unfold opening. set_unfold in Hz. destruct_or! Hz; subst; done. Qed.

Lemma squeeze_literal body t : sreads body →
  squeeze (quote_then (body +++ quote_then t)) = quote_then (compact true false body +++ quote_then (squeeze t)).
Proof.
  intros Hb. unfold quote_then at 1 3. rewrite compact_out. change (is_ws (chr 34)) with false. lazy iota.
  change (cnext (false, false) (chr 34)).1 with true. rewrite compact_app by done. by rewrite (sreads_state _ Hb).
Qed.

Lemma fresh_ws w t : all_ws w = true → fresh t = true → fresh (w +++ t) = true.
Proof.
  unfold all_ws, fresh. destruct w as [|a w]; [done|]. cbn. intros [Ha _]%andb_true_iff _.
  unfold is_ws in Ha. unfold is_cont, in_range. lia.
Qed.

Lemma fresh_opening z t : z ∈ [123; 125; 91; 93; 44; 58] → fresh (opening z t) = true.
Proof. intros Hz. set_unfold in Hz. destruct_or! Hz; subst; done. Qed.

(** A value with white space around it, before a byte of the grammar. *)
Lemma squeeze_value w pv w4 z t d v : vreads d pv v → all_ws w = true → all_ws w4 = true → z ∈ [123; 125; 91; 93; 44; 58] →
  squeeze (w +++ pv +++ w4 +++ opening z t) = squeeze pv +++ opening z (squeeze t).
Proof.
  intros (_ & Hc & _) Hw H4 Hz. rewrite squeeze_ws by done. rewrite squeeze_app; [|done|by apply fresh_ws, fresh_opening].
  by rewrite squeeze_ws, squeeze_opening.
Qed.

Lemma squeeze_member body w2 w3 pv w4 z t d v :
  sreads body → vreads d pv v → all_ws w2 = true → all_ws w3 = true → all_ws w4 = true → z ∈ [123; 125; 91; 93; 44; 58] →
  squeeze (member body w2 w3 pv w4 +++ opening z t)
  = member (compact true false body) "" "" (squeeze pv) "" +++ opening z (squeeze t).
Proof.
  intros Hb Hv H2 H3 H4 Hz.
  replace (member body w2 w3 pv w4 +++ opening z t)
    with (quote_then (body +++ quote_then (w2 +++ opening 58 (w3 +++ pv +++ w4 +++ opening z t)))).
  2:{ unfold member, quote_then, opening. cbn [String.append]. by repeat (rewrite !str_app_assoc; cbn [String.append]). }
  rewrite squeeze_literal by done. rewrite squeeze_ws by done. rewrite squeeze_opening by set_solver.
  rewrite (squeeze_value w3 pv w4 z t d v) by done. unfold member, quote_then, opening. cbn [String.append].
  by repeat (rewrite !str_app_assoc; cbn [String.append]).
Qed.

(** The same members, with values of the same meaning. *)
Definition member_same (m m' : string * string * jvalue) : Prop := m.1.1 = m'.1.1 ∧ denote m.2 = denote m'.2.

Lemma denote_object ms ms' : Forall2 member_same ms ms' → denote (JObject ms) = denote (JObject ms').
Proof.
  intros H. cbn [denote]. f_equal. revert H. generalize (∅ : gmap string svalue). intros m H. revert m.
  induction H as [|[[k t] v] [[k' t'] v'] ms ms' [Hk Hv] _ IH]; intros m; [done|]. cbn in *. subst k'. rewrite Hv. apply IH.
Qed.

Lemma denote_array vs vs' : Forall2 (fun v v' => denote v = denote v') vs vs' → denote (JArray vs) = denote (JArray vs').
Proof. intros H. cbn [denote]. f_equal. induction H as [|v v' vs vs' Hv _ IH]; cbn; [done|]. by rewrite Hv, IH. Qed.

Definition value_keeps (f : nat) : Prop := ∀ d s v r, parse_value f d s = Some (v, r) →
  ∃ w p v', s = w +++ p +++ r ∧ all_ws w = true ∧ vreads d p v ∧ vreads d (squeeze p) v' ∧ denote v = denote v'.
Definition members_keeps (f : nat) : Prop := ∀ d s ms r, parse_members f d s = Some (ms, r) →
  ∃ p ms', s = p +++ r ∧ mreads d p ms ∧ mreads d (squeeze p) ms' ∧ starts 125 (squeeze p) = true ∧ Forall2 member_same ms ms'.
Definition elements_keeps (f : nat) : Prop := ∀ d s vs r, parse_elements f d s = Some (vs, r) →
  ∃ p vs', s = p +++ r ∧ ereads d p vs ∧ ereads d (squeeze p) vs' ∧ starts 93 (squeeze p) = true
           ∧ Forall2 (fun v v' => denote v = denote v') vs vs'.

Lemma elements_keeps_S f : value_keeps f → elements_keeps f → elements_keeps (S f).
Proof.
  intros IHv IHe d s vs r. cbn [parse_elements].
  intros ([v r1] & Hv & H)%bind_Some. apply IHv in Hv as (w & p & v' & -> & Hw & Hp & Hp' & Hvv).
  destruct (skip_ws r1) as [|b r2] eqn:E; [done|]. apply skip_ws_inv in E as (w4 & -> & H4 & Hb).
  pose proof (vreads_not_close _ _ _ Hp') as Hst.
  destruct (Z.eqb_spec (byte_of b) 44) as [Eb|_].
  - apply bind_Some in H as ([vs' t] & He & [= <- <-]). apply IHe in He as (q & vs1 & -> & Hq & Hq' & _ & Hall).
    apply chr_byte in Eb as ->. exists (w +++ p +++ w4 +++ opening 44 q), (v' :: vs1).
    rewrite (squeeze_value w p w4 44 q d v) by (done || set_solver).
    split_and!; [by rewrite !str_app_assoc|by apply ereads_more| |by apply starts_app|by constructor].
    exact (ereads_more d "" (squeeze p) v' "" _ _ Hp' eq_refl eq_refl Hq').
  - destruct (Z.eqb_spec (byte_of b) 93) as [Eb|_]; [|done]. injection H as <- <-.
    apply chr_byte in Eb as ->. exists (w +++ p +++ w4 +++ opening 93 ""), [v'].
    rewrite (squeeze_value w p w4 93 "" d v) by (done || set_solver).
    split_and!; [by rewrite !str_app_assoc|by apply ereads_last| |by apply starts_app|by repeat constructor].
    exact (ereads_last d "" (squeeze p) v' "" Hp' eq_refl eq_refl).
Qed.

Lemma members_keeps_S f : value_keeps f → members_keeps f → members_keeps (S f).
Proof.
  intros IHv IHm d s ms r. cbn [parse_members].
  destruct (skip_ws s) as [|q r0] eqn:E; [done|]. apply skip_ws_inv in E as (w1 & -> & H1 & _).
  destruct (Z.eqb_spec (byte_of q) q_quote) as [Eq|_]; [|done]. apply chr_byte in Eq as ->.
  intros ([body r1] & (-> & Hb)%scan_string_inv & H)%bind_Some.
  destruct (skip_ws r1) as [|c r2] eqn:E; [done|]. apply skip_ws_inv in E as (w2 & -> & H2 & _).
  destruct (Z.eqb_spec (byte_of c) 58) as [Ec|_]; [|done]. apply chr_byte in Ec as ->.
  apply bind_Some in H as ([v r4] & Hv & H). pose proof (skip_ws_split r2) as (w3 & E3 & H3 & Hh).
  apply IHv in Hv as (w & p & v' & E4 & Hw & Hp & Hp' & Hvv). rewrite E4 in *.
  assert (w = "") as ->.
  { destruct w as [|a w]; [done|]. destruct Hh as [Hh|Hh]; [done|]. cbn in Hh, Hw.
    unfold not_ws in Hh. by destruct (is_ws a). }
  cbn [String.append] in E3, H. rewrite E3. clear E3 E4 Hh Hw r2.
  assert (text_between (p +++ r4) r4 = p) as Et.
  { unfold text_between. by rewrite str_length_app, Nat.add_sub, str_take_app. }
  rewrite Et in H. destruct (skip_ws r4) as [|b r5] eqn:E; [done|]. apply skip_ws_inv in E as (w4 & -> & H4 & Hbw).
  assert (∀ y t, w1 +++ quote_then (body +++ quote_then (w2 +++ String (chr 58) (w3 +++ p +++ w4 +++ String b (y +++ t))))
            = (w1 +++ member body w2 w3 p w4 +++ String b y) +++ t) as Hassoc.
  { intros y t. unfold member, quote_then, opening. cbn [String.append].
    by repeat (rewrite !str_app_assoc; cbn [String.append]). }
  destruct (compact_literal _ Hb) as [Hb' _]. pose proof (compact_unquote _ Hb) as Hu.
  destruct (Z.eqb_spec (byte_of b) 44) as [Eb|_].
  - apply bind_Some in H as ([ms' t] & He & [= <- <-]). apply IHm in He as (q & ms1 & -> & Hq & Hq' & _ & Hall).
    apply chr_byte in Eb as ->. eexists _, _. split; [apply Hassoc|]. fold (opening 44 q).
    rewrite squeeze_ws by done. rewrite (squeeze_member _ _ _ _ _ 44 q d v) by (done || set_solver).
    split_and!; [by apply mreads_ws, mreads_more|by apply mreads_more|done|]. by constructor; [split|].
  - destruct (Z.eqb_spec (byte_of b) 125) as [Eb|_]; [|done]. injection H as <- <-.
    apply chr_byte in Eb as ->. eexists _, _. split; [apply (Hassoc "")|]. fold (opening 125 "").
    rewrite squeeze_ws by done. rewrite (squeeze_member _ _ _ _ _ 125 "" d v) by (done || set_solver).
    split_and!; [by apply mreads_ws, mreads_last|by apply mreads_last|done|]. by repeat constructor.
Qed.

Lemma squeeze_word p : str_forall word_byte p = true → squeeze p = p.
Proof.
  intros Hp. apply tidy_plain. eapply str_forall_impl; [|exact Hp]. intros a Ha. rewrite word_no_quote by done. cbn [andb].
  unfold word_byte, number_byte, is_digit, in_range in Ha. unfold is_ws, is_cont, in_range. lia.
Qed.

(** The value at the front of a text, and its compact form. *)
Definition keeps (d : Z) (s : string) (v : jvalue) (r : string) : Prop :=
  ∃ p v', s = p +++ r ∧ vreads d p v ∧ vreads d (squeeze p) v' ∧ denote v = denote v'.

Lemma object_keeps f d r0 v r :
  members_keeps f →
  (if d <=? 0 then None else
   match skip_ws r0 with
   | EmptyString => None
   | String b r1 =>
       if byte_of b =? 125 then Some (JObject [], r1)
       else '(l, t) ← parse_members f (d - 1) (String b r1); Some (JObject l, t)
   end) = Some (v, r) →
  keeps d (opening 123 r0) v r.
Proof.
  intros IH. destruct (Z.leb_spec d 0) as [|Hd]; [done|]. destruct (skip_ws r0) as [|b r1] eqn:E; [done|].
  apply skip_ws_inv in E as (w1 & -> & H1 & Hb). destruct (Z.eqb_spec (byte_of b) 125) as [Eb|Eb]; intros H.
  - injection H as <- <-. apply chr_byte in Eb as ->. exists (opening 123 (w1 +++ opening 125 "")), (JObject []).
    rewrite squeeze_opening, squeeze_ws, squeeze_opening by (done || set_solver).
    split_and!; [unfold opening; cbn; by rewrite str_app_assoc|apply vreads_empty; [set_solver|done..]
      |apply (vreads_empty d ""); [set_solver|done..]|done].
  - apply bind_Some in H as ([l t] & (p & l' & Ep & Hp & Hp' & Hst & Hall)%IH & [= <- <-]).
    exists (opening 123 (w1 +++ p)), (JObject l'). rewrite squeeze_opening, squeeze_ws by (done || set_solver).
    split_and!; [unfold opening; cbn; by rewrite str_app_assoc, Ep| | |by apply denote_object];
      replace d with (d - 1 + 1) by lia; [|by apply (vreads_object (d - 1) ""); [lia|..]].
    apply vreads_object; [lia|done| |done]. destruct p as [|b' p]; [by destruct Hst|]. injection Ep as -> _.
    unfold starts, not_ws. cbn. rewrite Hb. cbn. by apply negb_true_iff, Z.eqb_neq.
Qed.

Lemma array_keeps f d r0 v r :
  elements_keeps f →
  (if d <=? 0 then None else
   match skip_ws r0 with
   | EmptyString => None
   | String b r1 =>
       if byte_of b =? 93 then Some (JArray [], r1)
       else '(l, t) ← parse_elements f (d - 1) (String b r1); Some (JArray l, t)
   end) = Some (v, r) →
  keeps d (opening 91 r0) v r.
Proof.
  intros IH. destruct (Z.leb_spec d 0) as [|Hd]; [done|]. destruct (skip_ws r0) as [|b r1] eqn:E; [done|].
  apply skip_ws_inv in E as (w1 & -> & H1 & Hb). destruct (Z.eqb_spec (byte_of b) 93) as [Eb|Eb]; intros H.
  - injection H as <- <-. apply chr_byte in Eb as ->. exists (opening 91 (w1 +++ opening 93 "")), (JArray []).
    rewrite squeeze_opening, squeeze_ws, squeeze_opening by (done || set_solver).
    split_and!; [unfold opening; cbn; by rewrite str_app_assoc|apply vreads_empty; [set_solver|done..]
      |apply (vreads_empty d ""); [set_solver|done..]|done].
  - apply bind_Some in H as ([l t] & (p & l' & Ep & Hp & Hp' & Hst & Hall)%IH & [= <- <-]).
    exists (opening 91 (w1 +++ p)), (JArray l'). rewrite squeeze_opening, squeeze_ws by (done || set_solver).
    split_and!; [unfold opening; cbn; by rewrite str_app_assoc, Ep| | |by apply denote_array];
      replace d with (d - 1 + 1) by lia; [|by apply (vreads_array (d - 1) ""); [lia|..]].
    apply vreads_array; [lia|done| |done]. destruct p as [|b' p]; [by destruct Hst|]. injection Ep as -> _.
    unfold starts, not_ws. cbn. rewrite Hb. cbn. by apply negb_true_iff, Z.eqb_neq.
Qed.

Lemma value_keeps_S f : members_keeps f → elements_keeps f → value_keeps (S f).
Proof.
  intros IHm IHe d s v r. cbn [parse_value].
  destruct (skip_ws s) as [|a r0] eqn:E; [done|]. apply skip_ws_inv in E as (w & -> & Hw & Haw). intros H.
  enough (keeps d (String a r0) v r) as (p & v' & -> & Hp) by (by exists w, p, v').
  destruct (Z.eqb_spec (byte_of a) 123) as [Ea|_]; [apply chr_byte in Ea as ->; by eapply object_keeps|].
  destruct (Z.eqb_spec (byte_of a) 91) as [Ea|_]; [apply chr_byte in Ea as ->; by eapply array_keeps|].
  destruct (Z.eqb_spec (byte_of a) q_quote) as [Ea|_]; [apply chr_byte in Ea as ->|].
  - apply bind_Some in H as ([body t] & (-> & Hb)%scan_string_inv & [= <- <-]).
    exists (quote_then (body +++ quote_then "")), (JString (unquote (compact true false body))).
    rewrite squeeze_literal by done. destruct (compact_literal _ Hb) as [Hb' _].
    split_and!; [unfold quote_then; cbn; by rewrite str_app_assoc|by apply vreads_string|by apply vreads_string|].
    by rewrite compact_unquote.
  - pose proof H as (p & Ep & Hh & Hp)%lex_literal_inv. exists p, v. pose proof (lex_literal_plain _ _ _ _ H Ep) as Hword.
    assert (vreads d p v) as Hv by (apply vreads_literal; [done|by eapply str_forall_impl; [apply word_no_quote|]|done]).
    by rewrite squeeze_word.
Qed.

Lemma parse_keeps f : value_keeps f ∧ members_keeps f ∧ elements_keeps f.
Proof.
  induction f as [|f (IHv & IHm & IHe)]; [done|].
  split_and!; [by apply value_keeps_S|by apply members_keeps_S|by apply elements_keeps_S].
Qed.

(** ** Data *)

(** One JSON value, nested at most [d] deep. *)
Definition data_within (d : Z) (raw : string) : bool :=
  match parse_value (S (String.length raw)) d raw with Some (_, r) => skip_ws r == "" | None => false end.

(** A text with white space around its value: its compact form is the
    value's. *)
Lemma squeeze_whole w p w' d v : vreads d p v → all_ws w = true → all_ws w' = true → squeeze (w +++ p +++ w') = squeeze p.
Proof.
  intros (_ & Hc & _) Hw Hw'. rewrite squeeze_ws by done. rewrite squeeze_app; [|done|].
  - rewrite <- (str_app_nil_r w'), squeeze_ws by done. apply str_app_nil_r.
  - rewrite <- (str_app_nil_r w'). by apply fresh_ws.
Qed.

Lemma skip_ws_all s : skip_ws s = "" → all_ws s = true.
Proof. intros H. destruct (skip_ws_split s) as (w & E & Hw & _). rewrite H, str_app_nil_r in E. by subst. Qed.

(** Compaction keeps a text one value of the same depth and meaning. *)
Lemma squeeze_reads f d raw v r :
  parse_value f d raw = Some (v, r) → skip_ws r = "" → ∃ v', vreads d (squeeze raw) v' ∧ denote v = denote v'.
Proof.
  intros Hp Hr%skip_ws_all. destruct (parse_keeps f) as (Hkeep & _ & _).
  apply Hkeep in Hp as (w & p & v' & -> & Hw & Hp & Hp' & Hv). exists v'. split; [|done].
  by rewrite (squeeze_whole w p r d v).
Qed.

Lemma compact_denotes raw v : json_value raw = Some v → ∃ v', json_value (squeeze raw) = Some v' ∧ denote v = denote v'.
Proof.
  unfold json_value at 1, json_parse. intros ([v0 r] & Hp & H)%bind_Some. destruct (skip_ws r) eqn:Er; [|done]. injection H as ->.
  destruct (squeeze_reads _ _ _ _ _ Hp Er) as (v' & Hv' & Hd). exists v'. split; [|done]. by eapply vreads_whole.
Qed.

Lemma data_within_compact d raw : data_within d raw = true → raw_ok d (squeeze raw) = true.
Proof.
  unfold data_within. intros H. destruct (parse_value _ d raw) as [[v r]|] eqn:E; [|done]. bools.
  destruct (squeeze_reads _ _ _ _ _ E H) as (v' & (_ & _ & Hp) & _). unfold raw_ok.
  rewrite compact_idem by (by right). rewrite bool_decide_true by done. cbn [andb].
  specialize (Hp (S (String.length (squeeze raw))) d "" ltac:(lia) ltac:(lia) eq_refl). rewrite str_app_nil_r in Hp.
  by rewrite Hp.
Qed.

Lemma raw_ok_within d raw : raw_ok d raw = true → data_within d raw = true.
Proof.
  unfold raw_ok, data_within. intros [_ H]%andb_true_iff. by destruct (parse_value _ d raw) as [[v [|]]|].
Qed.

Lemma data_within_mono d d' raw : data_within d raw = true → d ≤ d' → data_within d' raw = true.
Proof.
  unfold data_within. intros H Hd. destruct (parse_value _ d raw) as [[v r]|] eqn:E; [|done]. bools.
  apply parse_inv in E as (w & p & -> & Hw & Hp). apply skip_ws_all in H.
  assert (parse_value (S (String.length (w +++ p +++ r))) d' (w +++ p +++ r) = Some (v, r)) as ->.
  { cbn [parse_value]. rewrite skip_ws_app by done. destruct Hp as (_ & _ & Hp).
    apply (Hp (S (String.length (w +++ p +++ r)))); [rewrite !str_length_app; lia|done|].
    rewrite <- (str_app_nil_r r). by apply ws_stop. }
  rewrite <- (str_app_nil_r r), skip_ws_app by done. done.
Qed.

(** ** Objects *)

(** The object as the encoder prints it and a client reads it. *)
Definition wire_form (o : StateObject) : StateObject :=
  mkStateObject (so_Namespace o) (so_ObjectID o) (so_Version o) (squeeze (so_Data o)).

Lemma wire_form_Identity o : Identity (wire_form o) = Identity o.
Proof. done. Qed.
