(* ===== verification/StateProps.v ===== *)
(** * State merge and snapshots

    Delivery of State replacements in any order ends at the newest version;
    the snapshot accumulator's byte count is the exact length of the payload
    it produces. *)

From Stdlib Require Import Ascii String.
From S2P Require Import Prelude Utf8 Json Types Codec Capability State.
Open Scope string_scope.
Open Scope list_scope.
Open Scope go_scope.
Open Scope Z_scope.

Section merge.
Context {ST : StdText}.

(** A receiver that keeps what it has when a replacement is refused. *)
Definition deliver_state (limits : Limits) (cur : option StateObject) (inc : StateObject)
  : option StateObject :=
  match ApplyStateObject cur inc limits with
  | (o, _, None) => Some o
  | _ => cur
  end.

Lemma deliver_state_some limits o inc :
  ValidateStateObject o limits = Ok tt → ValidateStateObject inc limits = Ok tt →
  Identity o = Identity inc →
  deliver_state limits (Some o) inc
  = Some (if so_Version o <? so_Version inc then inc else o).
Proof.
  intros Ho Hi Hid. unfold deliver_state, ApplyStateObject. rewrite Hi, Ho, !cloneStateObject_id.
  rewrite bool_decide_true by done. cbn [negb].
  destruct (so_Version o <? so_Version inc); [done|]. destruct (so_Version inc <? so_Version o); [done|].
  by destruct (equalStateData _ _) as [[]|].
Qed.

Lemma merge_from limits id o objs :
  Forall (fun x => ValidateStateObject x limits = Ok tt ∧ Identity x = id) (o :: objs) →
  ∃ o', foldl (deliver_state limits) (Some o) objs = Some o' ∧ o' ∈ o :: objs
        ∧ Forall (fun x => so_Version x ≤ so_Version o') (o :: objs).
Proof.
  revert o. induction objs as [|i objs IH]; intros o Hall; cbn.
  { exists o. split_and!; [done|by left|]. repeat constructor. lia. }
  apply Forall_cons in Hall as [[Ho Hoid] Hall]. apply Forall_cons in Hall as [[Hi Hiid] Hall].
  rewrite deliver_state_some by congruence.
  set (n := if so_Version o <? so_Version i then i else o).
  assert (so_Version o ≤ so_Version n ∧ so_Version i ≤ so_Version n
          ∧ ValidateStateObject n limits = Ok tt ∧ Identity n = id ∧ (n = i ∨ n = o)) as (H1 & H2 & H3 & H4 & H5).
  { unfold n. destruct (Z.ltb_spec (so_Version o) (so_Version i)); split_and!; auto; lia. }
  destruct (IH n) as (o' & -> & Hin & Hle); [by constructor|].
  exists o'. apply Forall_cons in Hle as [Hn Hle]. split_and!; [done| |].
  - apply elem_of_cons in Hin as [->|Hin]; [destruct H5 as [-> | ->]; set_solver|set_solver].
  - repeat constructor; [lia|lia|done].
Qed.

(** C33. State replacements of one object converge: whatever the order in which
    valid replacements arrive, stale and repeated ones included, the receiver
    ends with one of them that has the highest version. *)
Theorem state_merge_converges limits id objs :
  objs ≠ [] → Forall (fun x => ValidateStateObject x limits = Ok tt ∧ Identity x = id) objs →
  ∃ o, foldl (deliver_state limits) None objs = Some o ∧ o ∈ objs
       ∧ ∀ x, x ∈ objs → so_Version x ≤ so_Version o.
Proof.
  intros Hne Hall. destruct objs as [|i objs]; [done|]. cbn.
  assert (deliver_state limits None i = Some i) as ->.
  { apply Forall_cons in Hall as [[Hi _] _]. unfold deliver_state, ApplyStateObject.
    rewrite Hi. by rewrite cloneStateObject_id. }
  destruct (merge_from limits id i objs Hall) as (o & Hf & Hin & Hle).
  exists o. rewrite Forall_forall in Hle. auto.
Qed.

(** ** The snapshot accumulator *)

Lemma slen_join texts :
  slen (str_join "," texts) = texts_len texts + Z.of_nat (length texts - 1).
Proof.
  induction texts as [|t texts IH]; [done|]. destruct texts as [|u texts].
  { cbn. lia. }
  change (str_join "," (t :: u :: texts)) with (t +++ "," +++ str_join "," (u :: texts)).
  rewrite !slen_app, IH. change (slen ",") with 1. cbn [texts_len foldr length]. lia.
Qed.

(** What holds of an accumulator while objects are added. *)
Definition accumulator_ok (a : stateSnapshotAccumulator) : Prop :=
  ∃ texts, mapM Marshal (ac_states a) = Some texts
    ∧ ac_encodedBytes a = baseBytes + texts_len texts + Z.of_nat (length texts - 1)
    ∧ ac_encodedBytes a ≤ sl_MaxBytes (ac_snapshotLimits a)
    ∧ Z.of_nat (length (ac_states a)) ≤ sl_MaxObjects (ac_snapshotLimits a).

Lemma accumulator_new_ok pl sl a : newStateSnapshotAccumulator pl sl = Ok a → accumulator_ok a.
Proof.
  intros H. unfold newStateSnapshotAccumulator in H. inv_ok. bools.
  exists []. cbn. split_and!; [done|lia|lia|lia].
Qed.

Lemma accumulator_add_ok a o a' :
  accumulator_ok a → accumulator_Add a o = Ok a' →
  accumulator_ok a' ∧ ac_states a' = ac_states a ++ [o] ∧ ac_snapshotLimits a' = ac_snapshotLimits a.
Proof.
  intros (texts & Ht & Hb & Hm & Hn) H. unfold accumulator_Add in H. inv_ok.
  destruct (Marshal o) as [t|] eqn:Eo; [|done]. inv_ok. bools.
  rewrite cloneStateObject_id. cbn. split_and!; [|done..]. exists (texts ++ [t]). cbn.
  assert (length texts = length (ac_states a)) as Hlen.
  { symmetry. by apply length_mapM in Ht. }
  split_and!.
  - apply mapM_Some. apply mapM_Some in Ht. apply Forall2_app; [done|]. repeat constructor. done.
  - rewrite texts_len_snoc, Hb, length_app, Hlen. cbn.
    destruct (Z.ltb_spec 0 (Z.of_nat (length (ac_states a)))); lia.
  - lia.
  - rewrite length_app. cbn. lia.
Qed.

Lemma accumulator_payload_ok a :
  accumulator_ok a → ∃ payload, accumulator_Payload a = Ok payload ∧ slen payload = ac_encodedBytes a.
Proof.
  intros (texts & Ht & Hb & Hm & _).
  assert (Marshal (mkStateSnapshot (ac_states a))
          = Some (braces (enc_string "states" +++ char 58 +++ brackets (str_join "," texts)))) as HM.
  { unfold Marshal.
    change (layout (mkStateSnapshot (ac_states a))) with (OObj [("states", OArr (map layout (ac_states a)))]).
    rewrite json_Marshal_obj. cbn [mapM]. rewrite json_Marshal_arr.
    assert (mapM json_Marshal (map layout (ac_states a)) = Some texts) as ->.
    { apply mapM_Some. apply mapM_Some in Ht. change (map layout ?l) with (layout <$> l).
      apply Forall2_fmap_l. exact Ht. }
    cbn -[enc_string brackets braces char]. done. }
  unfold accumulator_Payload. rewrite HM.
  set (p := braces _). assert (slen p = ac_encodedBytes a) as Hp.
  { unfold p, braces, brackets. rewrite !slen_app, slen_join, Hb. unfold baseBytes.
    vm_compute (slen (js _)). vm_compute (slen (char _)). vm_compute (slen (enc_string _)). lia. }
  rewrite Hp. rewrite (proj2 (Z.ltb_ge _ _)) by lia. cbn. eauto.
Qed.

(** What a run of additions leaves in a fresh accumulator. *)
Lemma accumulate_ok pl sl a0 objects a :
  newStateSnapshotAccumulator pl sl = Ok a0 → accumulate a0 objects = Ok a →
  accumulator_ok a ∧ ac_states a = objects ∧ ac_snapshotLimits a = sl.
Proof.
  intros Hnew Hadd. pose proof (accumulator_new_ok _ _ _ Hnew) as Hok.
  assert (ac_states a0 = [] ∧ ac_snapshotLimits a0 = sl) as [Hs0 <-].
  { unfold newStateSnapshotAccumulator in Hnew. by inv_ok. }
  rewrite <- (app_nil_l objects) at 1. rewrite <- Hs0. clear Hnew Hs0.
  revert a0 Hok Hadd. induction objects as [|o objects IH]; intros a0 Hok Hadd; cbn in Hadd.
  - injection Hadd as <-. by rewrite app_nil_r.
  - inv_ok. apply accumulator_add_ok in H as (Hx & Hs & Hl); [|done].
    apply IH in Hadd as (? & -> & ->); [|done]. by rewrite Hs, Hl, <- app_assoc.
Qed.

(** C35. The snapshot accumulator is exact: after any objects have been added,
    producing the payload succeeds, the payload is exactly as long as the
    accumulator's running byte count, and both the count and the number of
    objects stay within the snapshot limits; no accepted object is dropped. *)
Theorem snapshot_accumulator_exact pl sl a0 objects a :
  newStateSnapshotAccumulator pl sl = Ok a0 → accumulate a0 objects = Ok a →
  ∃ payload, accumulator_Payload a = Ok payload ∧ slen payload = ac_encodedBytes a
    ∧ ac_encodedBytes a ≤ sl_MaxBytes sl
    ∧ ac_states a = objects ∧ Z.of_nat (length objects) ≤ sl_MaxObjects sl.
Proof.
  intros Hnew Hadd. destruct (accumulate_ok _ _ _ _ _ Hnew Hadd) as (Ha & Hs & Hl).
  destruct (accumulator_payload_ok a Ha) as (payload & Hp & Hlen).
  destruct Ha as (_ & _ & _ & Hm & Hn). rewrite Hl in Hm, Hn. rewrite Hs in Hn. eauto 7.
Qed.

End merge.

(** ** Concrete inputs *)

Definition demo_states : list StateObject :=
  [mkStateObject "room" "a" 2 (js "{'n':1}"); mkStateObject "room" "a" 5 (js "{'n':2}");
   mkStateObject "room" "a" 3 "null"].

Lemma state_merge_converges_witness :
  ∃ o, foldl (deliver_state (ST:=demo_text) DefaultLimits) None demo_states = Some o
       ∧ ∀ x, x ∈ demo_states → so_Version x ≤ so_Version o.
Proof.
  destruct (state_merge_converges (ST:=demo_text) DefaultLimits ("room", "a") demo_states)
    as (o & H1 & _ & H2).
  - discriminate.
  - repeat constructor; vm_compute; reflexivity.
  - exists o. split; [exact H1|exact H2].
Defined.

Lemma snapshot_accumulator_exact_witness :
  ∃ a payload, accumulator_Payload (ST:=demo_text) a = Ok payload ∧ slen payload ≤ 400
               ∧ ac_states a = demo_states.
Proof.
  destruct (newStateSnapshotAccumulator DefaultLimits (mkSnapshotLimits 3 400)) as [a0|] eqn:E0;
    [|vm_compute in E0; discriminate].
  destruct (accumulate (ST:=demo_text) a0 demo_states) as [a|] eqn:E1;
    [|vm_compute in E0; injection E0 as <-; vm_compute in E1; discriminate].
  destruct (snapshot_accumulator_exact (ST:=demo_text) _ _ _ _ _ E0 E1) as (p & Hp & Hl & Hm & Hs & _).
  exists a, p. split; [exact Hp|]. split; [rewrite Hl; exact Hm|exact Hs].
Defined.
