(* ===== verification/Validate.v ===== *)
(** * Frame validation and the bounded codec (validate.go, json_codec.go)

    [ValidateEnvelope], [ValidateFrame] with one definition per frame type,
    and the [JSONCodec] that validates what it encodes and decodes. *)

From Stdlib Require Import Ascii String.
From S2P Require Import Prelude Utf8 Json Types Codec Capability State.
Open Scope string_scope.
Open Scope list_scope.
Open Scope go_scope.
Open Scope Z_scope.

Definition validBoundedProtocolString (value : string) (maxLength : Z) (allowEmpty : bool) : bool :=
  if (negb allowEmpty && (value == "")) || (maxLength <? slen value) || negb (utf8_ValidString value)
  then false
  else negb (existsb IsControl (range_runes value)).

Fixpoint namespaces_loop (maxLength : Z) (previous : option string) (l : list string) : res unit :=
  match l with
  | [] => Ok tt
  | namespace :: l =>
      _ ← validateStateNamespace namespace maxLength;
      _ ← guard_err (match previous with Some p => namespace <=s p | None => false end)
            (bad_request "state_sync namespaces must be unique and canonically ordered");
      namespaces_loop maxLength (Some namespace) l
  end.

Definition validateResumeStateSync (sync : ResumeStateSync) (limits : Limits) : res unit :=
  let limits := normalizeLimits limits in
  _ ← guard_err ((Z.of_nat (length (rss_Namespaces sync)) =? 0)
                 || (MaxStateSyncNamespaces limits <? Z.of_nat (length (rss_Namespaces sync))))
        (bad_request "state_sync requires a bounded non-empty namespace list");
  namespaces_loop (MaxStateNamespaceLength limits) None (rss_Namespaces sync).

(** The text of the last member with this name: decoding into
    [map[string]json.RawMessage] keeps the last of equal names. *)
Fixpoint raw_last (field : string) (ms : list (string * string * jvalue)) : option string :=
  match ms with
  | [] => None
  | (k, raw, _) :: ms =>
      match raw_last field ms with
      | Some r => Some r
      | None => if k == field then Some raw else None
      end
  end.

Section validate.
Context {ST : StdText}.

Definition json_fields (raw : string) : res (list (string * string * jvalue)) :=
  match json_value raw with
  | None => Err (bad_request ("invalid payload: " +++ err_Error (EJson JSyntax)))
  | Some (JObject ms) => Ok ms
  | Some JNull => Ok []
  | Some _ => Err (bad_request ("invalid payload: " +++ err_Error (EJson JType)))
  end.

Definition jsonFieldPresent (raw field : string) : res bool :=
  ms ← json_fields raw;
  Ok (match raw_last field ms with Some _ => true | None => false end).

Definition jsonFieldPresentAndNonNull (raw field : string) : res bool :=
  ms ← json_fields raw;
  Ok (match raw_last field ms with Some value => TrimSpace value != "null" | None => false end).

(** [ValidateEnvelope] of a non-nil envelope. *)
Definition ValidateEnvelope (e : Envelope) (limits : Limits) : res unit :=
  let limits := normalizeLimits limits in
  _ ← map_err (fun err => bad_request ("invalid protocol limits: " +++ err_Error err))
        (validateLimits limits);
  _ ← guard_err (negb (e_V e =? WireVersionV2))
        (EProtocol (mkProtocolError ErrorUnsupportedVersion
           ("unsupported wire version " +++ Z_dec (e_V e)) "" false true None));
  _ ← guard_err (e_Type e == "") (bad_request "missing frame type");
  _ ← guard_err (negb (validBoundedProtocolString (e_ID e) (MaxIDLength limits) true))
        (bad_request "invalid or oversized frame id");
  _ ← guard_err (negb (validBoundedProtocolString (e_SessionID e) (MaxSessionIDLength limits) true))
        (bad_request "invalid or oversized session id");
  _ ← guard_err (MaxPayloadSize limits <? slen (e_Payload e))
        (bad_request "payload exceeds maximum size");
  match Marshal e with
  | None => Err (bad_request ("frame cannot be encoded: " +++ err_Error (EJson JMarshal)))
  | Some encoded =>
      guard_err (MaxFrameSize limits <? slen encoded) (bad_request "frame exceeds maximum size")
  end.

(** The local closures of [ValidateFrame]. *)
Definition zeroSeq (e : Envelope) : res unit :=
  guard_err (negb (e_Seq e =? 0)) (bad_request (e_Type e +++ " must not carry sequence")).
Definition session (e : Envelope) : res unit :=
  guard_err (e_SessionID e == "") (bad_request (e_Type e +++ " requires session_id")).
Definition noEnvelopeID (e : Envelope) : res unit :=
  guard_err (e_ID e != "") (bad_request (e_Type e +++ " must not carry envelope id")).
Definition requireEnvelopeID (e : Envelope) : res unit :=
  guard_err (e_ID e == "") (bad_request (e_Type e +++ " requires id")).
Definition validContent (raw : string) : res unit :=
  guard_err ((slen raw =? 0) || (TrimSpace raw == "null") || negb (json_Valid raw))
    (bad_request "content must contain one valid JSON value").

Definition validateHello (e : Envelope) (limits : Limits) (strict : bool) : res unit :=
  _ ← guard_err ((e_SessionID e != "") || negb (e_Seq e =? 0))
        (bad_request "HELLO must not carry session_id or sequence");
  p ← decodePayload (A:=HelloPayload) (e_Payload e) strict;
  _ ← guard_err (negb (validBoundedProtocolString (hp_ClientName p) (MaxClientNameLength limits) true))
        (bad_request "HELLO carries an invalid or oversized client_name");
  _ ← validateAndCopyCapabilityOffers (hp_Capabilities p) limits;
  Ok tt.

(** The WELCOME checks after decoding: [has f] tells whether a member is
    present. *)
Definition validateWelcome (e : Envelope) (limits : Limits) (strict : bool) : res unit :=
  _ ← session e;
  _ ← zeroSeq e;
  _ ← noEnvelopeID e;
  p ← decodePayload (A:=WelcomePayload) (e_Payload e) strict;
  let mnew := wp_Mode p == WelcomeModeNew in
  let mresumed := wp_Mode p == WelcomeModeResumed in
  _ ← guard_err (negb mnew && negb mresumed) (bad_request "invalid WELCOME mode");
  hasResumeFrom ← jsonFieldPresent (e_Payload e) "resume_from";
  hasReplayTo ← jsonFieldPresent (e_Payload e) "replay_to";
  hasAcceptedCapabilities ← jsonFieldPresent (e_Payload e) "accepted_capabilities";
  hasStateSync ← jsonFieldPresent (e_Payload e) "state_sync";
  hasNonNullStateSync ← jsonFieldPresentAndNonNull (e_Payload e) "state_sync";
  _ ← guard_err (hasStateSync && negb hasNonNullStateSync)
        (bad_request "WELCOME state_sync must not be null");
  _ ← guard_err (mnew && (hasResumeFrom || hasReplayTo))
        (bad_request "NEW WELCOME must not carry replay bounds");
  _ ← guard_err (mnew && hasStateSync) (bad_request "NEW WELCOME must not carry state_sync");
  _ ← guard_err (mresumed && hasAcceptedCapabilities)
        (bad_request "RESUMED WELCOME must not renegotiate capabilities");
  _ ← guard_err (mresumed && (negb hasResumeFrom || negb hasReplayTo || (wp_ResumeFrom p =? 0)))
        (bad_request "RESUMED WELCOME requires explicit replay bounds");
  _ ← guard_err (mresumed && (wp_ReplayTo p <? u64 (wp_ResumeFrom p - 1)))
        (bad_request "invalid replay bounds");
  _ ← (if mresumed then
         match wp_StateSync p with
         | Some sync => validateResumeStateSync sync limits
         | None => Ok tt
         end
       else Ok tt);
  ValidateNegotiatedCapabilities (wp_AcceptedCapabilities p) limits.

Definition validatePing (e : Envelope) (limits : Limits) (strict : bool) : res unit :=
  _ ← session e;
  _ ← zeroSeq e;
  _ ← noEnvelopeID e;
  p ← decodePayload (A:=PingPayload) (e_Payload e) strict;
  guard_err (negb (validBoundedProtocolString (pi_PingID p) (MaxIDLength limits) false))
    (bad_request "PING requires a valid ping_id").

Definition validatePong (e : Envelope) (limits : Limits) (strict : bool) : res unit :=
  _ ← session e;
  _ ← zeroSeq e;
  _ ← noEnvelopeID e;
  p ← decodePayload (A:=PongPayload) (e_Payload e) strict;
  guard_err (negb (validBoundedProtocolString (po_PingID p) (MaxIDLength limits) false))
    (bad_request "PONG requires a valid ping_id").

Definition validateSend (e : Envelope) (limits : Limits) (strict : bool) : res unit :=
  _ ← session e;
  _ ← zeroSeq e;
  _ ← guard_err (e_ID e == "") (bad_request "SEND requires id");
  p ← decodePayload (A:=SendPayload) (e_Payload e) strict;
  validContent (sp_Content p).

Definition validateAck (e : Envelope) (limits : Limits) (strict : bool) : res unit :=
  _ ← session e;
  _ ← zeroSeq e;
  _ ← noEnvelopeID e;
  p ← decodePayload (A:=AckPayload) (e_Payload e) strict;
  guard_err (negb (validBoundedProtocolString (ap_RefID p) (MaxIDLength limits) false))
    (bad_request "ACK requires a valid ref_id").

Definition validateEvent (e : Envelope) (limits : Limits) (strict : bool) : res unit :=
  _ ← session e;
  _ ← guard_err ((e_ID e == "") || (e_Seq e =? 0))
        (bad_request "EVENT requires id and positive sequence");
  p ← decodePayload (A:=EventPayload) (e_Payload e) strict;
  _ ← guard_err (negb (validBoundedProtocolString (ep_EventType p) (MaxEventTypeLength limits) true))
        (bad_request "EVENT carries an invalid or oversized event_type");
  validContent (ep_Content p).

Definition validateResume (e : Envelope) (limits : Limits) (strict : bool) : res unit :=
  _ ← session e;
  _ ← zeroSeq e;
  _ ← noEnvelopeID e;
  p ← decodePayload (A:=ResumePayload) (e_Payload e) strict;
  hasLastSeq ← jsonFieldPresent (e_Payload e) "last_seq";
  _ ← guard_err (negb hasLastSeq) (bad_request "RESUME requires explicit last_seq");
  hasStateSync ← jsonFieldPresent (e_Payload e) "state_sync";
  _ ← guard_err (hasStateSync && bool_decide (rp_StateSync p = None))
        (bad_request "RESUME state_sync must not be null");
  match rp_StateSync p with
  | Some sync => validateResumeStateSync sync limits
  | None => Ok tt
  end.

Fixpoint query_loop (namespace : string) (limits : Limits) (seen : gset string) (ids : list string)
  : res unit :=
  match ids with
  | [] => Ok tt
  | objectID :: ids =>
      _ ← ValidateStateIdentity namespace objectID limits;
      _ ← guard_err (bool_decide (objectID ∈ seen))
            (bad_request "STATE_QUERY contains duplicate object_id");
      query_loop namespace limits ({[objectID]} ∪ seen) ids
  end.

Definition validateStateQuery (e : Envelope) (limits : Limits) (strict : bool) : res unit :=
  _ ← session e;
  _ ← zeroSeq e;
  _ ← requireEnvelopeID e;
  p ← decodePayload (A:=StateQueryPayload) (e_Payload e) strict;
  _ ← guard_err ((Z.of_nat (length (sq_ObjectIDs p)) =? 0)
                 || (MaxStateQueryObjects limits <? Z.of_nat (length (sq_ObjectIDs p))))
        (bad_request "STATE_QUERY requires a bounded non-empty object_ids list");
  query_loop (sq_Namespace p) limits ∅ (sq_ObjectIDs p).

Fixpoint snapshot_loop (limits : Limits) (seen : gset (string * string)) (states : list StateObject)
  : res unit :=
  match states with
  | [] => Ok tt
  | object :: states =>
      _ ← ValidateStateObject object limits;
      _ ← guard_err (bool_decide (Identity object ∈ seen))
            (bad_request "STATE_SNAPSHOT contains duplicate object identity");
      snapshot_loop limits ({[Identity object]} ∪ seen) states
  end.

Definition validateStateSnapshot (e : Envelope) (limits : Limits) (strict : bool) : res unit :=
  _ ← session e;
  _ ← zeroSeq e;
  _ ← requireEnvelopeID e;
  _ ← guard_err (MaxStateSnapshotBytes limits <? slen (e_Payload e))
        (bad_request "STATE_SNAPSHOT exceeds byte limit");
  hasStates ← jsonFieldPresentAndNonNull (e_Payload e) "states";
  _ ← guard_err (negb hasStates) (bad_request "STATE_SNAPSHOT requires states");
  p ← decodePayload (A:=StateSnapshotPayload) (e_Payload e) strict;
  _ ← guard_err (MaxStateSnapshotObjects limits <? Z.of_nat (length (ss_States p)))
        (bad_request "STATE_SNAPSHOT exceeds object limit");
  snapshot_loop limits ∅ (ss_States p).

Definition validateStateUpdate (e : Envelope) (limits : Limits) (strict : bool) : res unit :=
  _ ← session e;
  _ ← zeroSeq e;
  _ ← requireEnvelopeID e;
  p ← decodePayload (A:=StateUpdatePayload) (e_Payload e) strict;
  ValidateStateObject (su_State p) limits.

Definition knownErrorCode (code : string) : bool := (BehaviorForErrorCode code).2.

Definition validateError (e : Envelope) (limits : Limits) (strict : bool) : res unit :=
  _ ← zeroSeq e;
  _ ← noEnvelopeID e;
  p ← decodePayload (A:=ErrorPayload) (e_Payload e) strict;
  _ ← guard_err ((er_Code p == "") || (MaxErrorMessageLength limits <? slen (er_Message p)))
        (bad_request "ERROR requires code and bounded message");
  hasRetryable ← jsonFieldPresent (e_Payload e) "retryable";
  _ ← guard_err (negb hasRetryable) (bad_request "ERROR requires explicit retryable");
  let '(behavior, known) := BehaviorForErrorCode (er_Code p) in
  _ ← guard_err (negb known) (bad_request "unknown ERROR code");
  _ ← guard_err (eb_RetryabilityFixed behavior && (er_Retryable p != eb_Retryable behavior))
        (bad_request "ERROR retryable flag conflicts with code");
  guard_err (negb (validBoundedProtocolString (er_RefID p) (MaxIDLength limits) true))
    (bad_request "ERROR carries an invalid ref_id").

Definition ValidateFrame (e : Envelope) (limits : Limits) (strict : bool) : res unit :=
  let limits := normalizeLimits limits in
  _ ← ValidateEnvelope e limits;
  let t := e_Type e in
  if t == FrameHello then validateHello e limits strict
  else if t == FrameWelcome then validateWelcome e limits strict
  else if t == FramePing then validatePing e limits strict
  else if t == FramePong then validatePong e limits strict
  else if t == FrameSend then validateSend e limits strict
  else if t == FrameAck then validateAck e limits strict
  else if t == FrameEvent then validateEvent e limits strict
  else if t == FrameResume then validateResume e limits strict
  else if t == FrameStateQuery then validateStateQuery e limits strict
  else if t == FrameStateSnapshot then validateStateSnapshot e limits strict
  else if t == FrameStateUpdate then validateStateUpdate e limits strict
  else if t == FrameError then validateError e limits strict
  else Err (bad_request "unknown frame type").

Definition validateOutboundFrame (e : Envelope) (limits : Limits) (strict : bool) : res unit :=
  ValidateFrame e (normalizeLimits limits) strict.

(** ** json_codec.go *)

Record JSONCodec := mkJSONCodec { jc_Limits : Limits; jc_Strict : bool }.
Definition NewJSONCodec : JSONCodec := mkJSONCodec DefaultLimits true.
Definition codec_limits (c : JSONCodec) : Limits := normalizeLimits (jc_Limits c).

Definition Encode (c : JSONCodec) (frame : option Envelope) : res string :=
  match frame with
  | None => Err (bad_request "nil frame")
  | Some frame =>
      _ ← validateOutboundFrame frame (codec_limits c) (jc_Strict c);
      match Marshal frame with
      | None => Err (EWrap "encode frame: " (EJson JMarshal))
      | Some b => Ok b
      end
  end.

Definition Decode (c : JSONCodec) (data : string) : res Envelope :=
  _ ← guard_err (slen data =? 0) (bad_request "empty frame");
  _ ← guard_err (MaxFrameSize (codec_limits c) <? slen data) (bad_request "frame exceeds maximum size");
  _ ← (if jc_Strict c then rejectDuplicateJSONFields data ["payload"] else Ok tt);
  match dec_Decode data with
  | Err e => Err (bad_request ("invalid envelope JSON: " +++ err_Error (EJson e)))
  | Ok (v, rest) =>
      match dec_struct (jc_Strict c) zero v with
      | Err e => Err (bad_request ("invalid envelope JSON: " +++ err_Error (EJson e)))
      | Ok frame =>
          _ ← map_err (fun e => bad_request (err_Error e)) (ensureJSONEOF rest);
          _ ← ValidateFrame frame (codec_limits c) (jc_Strict c);
          Ok frame
      end
  end.
End validate.
