(* ===== verification/CodecProps.v ===== *)
(** * Round trips of the codec (json_codec.go)

    What [json.Marshal] prints for a wire structure is decoded to the same
    structure, strictly or not; a frame survives [Encode] and [Decode]. *)

From Stdlib Require Import Ascii String DecimalString DecimalPos.
From S2P Require Import Prelude Utf8 Json JsonText JsonPrint Types Codec Capability State Validate.
Open Scope string_scope.
Open Scope list_scope.
Open Scope go_scope.
Open Scope Z_scope.

(** ** Integers *)

Lemma digits_val_uint u acc :
  digits_val (Zpos acc) (NilEmpty.string_of_uint u) = Some (Zpos (Pos.of_uint_acc u acc)).
Proof.
  revert acc. induction u as [|u IH|u IH|u IH|u IH|u IH|u IH|u IH|u IH|u IH|u IH]; intros acc; [done|..];
    cbn [NilEmpty.string_of_uint digits_val Pos.of_uint_acc]; change (is_digit _) with true; lazy iota;
    rewrite <- IH; f_equal;
    match goal with |- context [byte_of ?a] => let n := eval vm_compute in (byte_of a) in change (byte_of a) with n end; lia.
Qed.

Lemma parse_uint_dec z : 0 ≤ z → parse_uint (Z_dec z) = Some z.
Proof.
  intros Hz. destruct z as [|p|p]; [done| |lia]. unfold Z_dec. cbn [Z.to_int NilZero.string_of_int].
  pose proof (DecimalPos.Unsigned.of_to p) as H. pose proof (to_uint_head p) as H0.
  pose proof (DecimalPos.Unsigned.to_uint_nonnil p) as Hn.
  destruct (Pos.to_uint p) as [|u|u|u|u|u|u|u|u|u|u]; [done|by destruct (H0 u)|..].
  all: cbn [NilZero.string_of_uint parse_uint NilEmpty.string_of_uint digits_val]; change (is_digit _) with true; lazy iota.
  all: cbn in H; injection H as <-; apply (digits_val_uint u).
Qed.

Lemma parse_int_dec z : parse_int (Z_dec z) = Some z.
Proof.
  destruct (Z_lt_le_dec z 0) as [Hz|Hz].
  - destruct z as [|p|p]; [lia..|]. pose proof (parse_uint_dec (Zpos p) ltac:(lia)) as H.
    unfold Z_dec in *. cbn [Z.to_int NilZero.string_of_int] in *. cbn [parse_int].
    change (byte_of _ =? 45) with true. lazy iota. by rewrite H.
  - pose proof (parse_uint_dec z Hz) as H. unfold parse_int.
    destruct (Z_dec z) as [|a t]; [done|]. destruct (Z.eqb_spec (byte_of a) 45) as [E|]; [|done].
    cbn in H. unfold is_digit in H. by rewrite E in H.
Qed.

Lemma dec_uint_dec max old z : 0 ≤ z ≤ max → dec_uint max old (JNumber (Z_dec z)) = Ok z.
Proof. intros Hz. cbn. rewrite parse_uint_dec by lia. by destruct (Z.leb_spec z max); [|lia]. Qed.

Definition is_int64 (z : Z) : Prop := MinInt64 ≤ z ≤ MaxInt64.
Lemma dec_int64_dec old z : is_int64 z → dec_int64 old (JNumber (Z_dec z)) = Ok z.
Proof.
  unfold is_int64. intros Hz. cbn. rewrite parse_int_dec.
  destruct (Z.leb_spec MinInt64 z), (Z.leb_spec z MaxInt64); [done|lia..].
Qed.

(** ** Raw messages and lists *)

Lemma marshal_raw d raw : raw ≠ "" → raw_ok d raw = true → d ≤ maxNestingDepth → json_Marshal (ORaw raw) = Some raw.
Proof.
  intros Hne Hok Hd. pose proof (raw_ok_reads d raw Hok) as [v Hv]. pose proof (vreads_whole _ _ _ Hv Hd) as Ej.
  unfold raw_ok in Hok. apply andb_true_iff in Hok as [Hc _]. bools.
  destruct raw as [|a raw]; [done|]. cbn [json_Marshal]. unfold json_Valid. by rewrite Ej, Hc.
Qed.

Lemma dec_slice_map {A B} (z : A) (dec : A → jvalue → jres A) (f : B → jvalue) (g : B → A) (l : list B) :
  Forall (fun b => dec z (f b) = Ok (g b)) l → dec_slice z dec [] (JArray (map f l)) = Ok (map g l).
Proof.
  cbn. induction 1 as [|b l Hb _ IH]; [done|]. cbn [map dec_elems head default tail]. change (default z None) with z.
  rewrite Hb. cbn [mbind result_mbind]. by rewrite IH.
Qed.

Lemma walk_elements opaque vs :
  Forall (fun v => walkStrictJSONValue opaque v = None) vs → walkStrictJSONValue opaque (JArray vs) = None.
Proof. cbn. induction 1 as [|v vs Hv _ IH]; [done|]. by rewrite Hv. Qed.

Lemma walk_scalar_slice {A} opaque (f : A → jout) l :
  (∀ a, walkStrictJSONValue opaque (out_value (f a)) = None) →
  walkStrictJSONValue opaque (out_value (slice_out f l)) = None.
Proof.
  intros H. destruct l as [|a l]; [done|]. apply walk_elements. cbn [map].
  constructor; [apply H|]. rewrite map_map. apply Forall_map, Forall_true. intros. apply H.
Qed.

(** ** The laws of a wire structure *)

Class WireLaws (A : Type) `{Wire A} := {
  (** The integers are in the range of their Go types, and what the encoder
      omits has its zero value. *)
  wire_typed : A → Prop;
  wire_object : ∀ a, ∃ l, layout a = OObj l;
  wire_decode : ∀ strict d a, wire_typed a → out_ok d (layout a) = true → d ≤ maxNestingDepth →
    dec_struct strict zero (out_value (layout a)) = Ok a;
  wire_strict : ∀ a, walkStrictJSONValue ["content"; "data"] (out_value (layout a)) = None
}.

Ltac field_tests :=
  repeat match goal with
  | |- context [field_is ?a ?b] =>
      let v := eval vm_compute in (field_is a b) in change (field_is a b) with v; lazy iota
  | |- context [str_in ?a ?b] =>
      let v := eval vm_compute in (str_in a b) in change (str_in a b) with v; lazy iota
  end.

(** Decode the members of structure [w] one after the other. *)
Ltac dec_fields w :=
  cbn [layout w];
  repeat (cbn [app omit is_nil map out_value dec_struct dec_members set_member zero w]; field_tests;
          cbn [dec_string dec_bool mbind result_mbind];
          rewrite ?dec_uint_dec, ?dec_int64_dec by done; cbn [mbind result_mbind]).

(** The loop over the members of an object. *)
Fixpoint walk_members (opaque seen : list string) (ms : list (string * string * jvalue)) : option string :=
  match ms with
  | [] => None
  | (key, _, v) :: ms =>
      if str_in key seen then Some key
      else if str_in key opaque then walk_members opaque (key :: seen) ms
      else match walkStrictJSONValue opaque v with
           | Some k => Some k
           | None => walk_members opaque (key :: seen) ms
           end
  end.
Lemma walk_object opaque ms : walkStrictJSONValue opaque (JObject ms) = walk_members opaque [] ms.
Proof.
  cbn [walkStrictJSONValue]. generalize (@nil string). induction ms as [|[[k r] v] ms IH]; intros seen; [done|].
  cbn [walk_members]. destruct (str_in k seen); [done|]. destruct (str_in k opaque); [apply IH|].
  destruct (walkStrictJSONValue opaque v); [done|apply IH].
Qed.
Lemma walk_scalar opaque v :
  match v with JArray _ | JObject _ => False | _ => True end → walkStrictJSONValue opaque v = None.
Proof. by destruct v. Qed.

Ltac walk_fields w :=
  cbn [layout w out_value]; rewrite walk_object;
  repeat (cbn [app omit is_nil map out_value walk_members]; field_tests;
          rewrite ?(walk_scalar _ (JString _)), ?(walk_scalar _ (JNumber _)), ?(walk_scalar _ (JBool _)),
            ?(walk_scalar _ JNull) by exact I).

#[export] Program Instance NegotiatedCapability_laws : WireLaws NegotiatedCapability := {|
  wire_typed a := 0 ≤ nc_Version a ≤ u16max
|}.
Next Obligation. by eexists. Qed.
Next Obligation.
  intros strict d [n v] Ht _ _. dec_fields NegotiatedCapability_wire. reflexivity.
Qed.
Next Obligation. intros [n v]. walk_fields NegotiatedCapability_wire. reflexivity. Qed.

Section lists.
Context `{WireLaws A}.

(** A printed list of structures. *)
Lemma dec_layouts strict d l :
  Forall wire_typed l → forallb (out_ok d) (map layout l) = true → d ≤ maxNestingDepth →
  dec_slice zero (dec_struct strict) [] (JArray (map out_value (map layout l))) = Ok l.
Proof.
  intros Ht Hok Hd. rewrite map_map. rewrite <- (map_id l) at 2. apply dec_slice_map.
  rewrite forallb_forall in Hok. rewrite Forall_forall in Ht |- *. intros a Ha.
  apply (wire_decode strict d); [auto| |done]. apply Hok, in_map. by apply list_elem_of_In.
Qed.

Lemma walk_layouts l : walkStrictJSONValue ["content"; "data"] (JArray (map out_value (map layout l))) = None.
Proof. apply walk_elements. rewrite map_map. apply Forall_map, Forall_true. intros a. apply wire_strict. Qed.
End lists.

Lemma dec_ints l : Forall (fun n => 0 ≤ n ≤ u16max) l →
  dec_slice 0 (dec_uint u16max) [] (out_value (slice_out OInt l)) = Ok l.
Proof.
  intros Hl. destruct l as [|n l]; [done|]. cbn [slice_out out_value]. rewrite map_map.
  rewrite <- (map_id (n :: l)) at 2. apply dec_slice_map. eapply Forall_impl; [exact Hl|].
  intros m Hm. cbn [out_value]. by apply dec_uint_dec.
Qed.

Lemma dec_strings l : dec_slice "" dec_string [] (out_value (slice_out OStr l)) = Ok l.
Proof.
  destruct l as [|n l]; [done|]. cbn [slice_out out_value]. rewrite map_map.
  rewrite <- (map_id (n :: l)) at 2. apply dec_slice_map. by apply Forall_true.
Qed.

#[export] Program Instance CapabilityOffer_laws : WireLaws CapabilityOffer := {|
  wire_typed a := Forall (fun n => 0 ≤ n ≤ u16max) (co_Versions a)
|}.
Next Obligation. by eexists. Qed.
Next Obligation.
  intros strict d [n vs [|]] Ht _ _; cbn in Ht; dec_fields CapabilityOffer_wire;
    cbn [co_Name co_Versions co_Required negb]; rewrite dec_ints by done; dec_fields CapabilityOffer_wire; reflexivity.
Qed.
Next Obligation.
  intros [n vs []]; walk_fields CapabilityOffer_wire; cbn [co_Versions];
    rewrite (walk_scalar_slice _ OInt) by done; reflexivity.
Qed.

(** The list of structures at the front of the goal. *)
Ltac dec_list H :=
  rewrite ?andb_true_iff in H; destruct_and? H;
  match goal with
  | |- context [out_value (layout ?o) :: map out_value (map layout ?l)] =>
      change (out_value (layout o) :: map out_value (map layout l)) with (map out_value (map layout (o :: l)))
  | _ => idtac
  end;
  erewrite dec_layouts by (first [eassumption|lia]).

#[export] Program Instance HelloPayload_laws : WireLaws HelloPayload := {|
  wire_typed a := Forall wire_typed (hp_Capabilities a)
|}.
Next Obligation. by eexists. Qed.
Next Obligation.
  intros strict d [n caps] Ht Hok Hd. cbn [hp_Capabilities] in Ht.
  cbn [layout HelloPayload_wire hp_ClientName hp_Capabilities] in Hok |- *.
  case_bool_decide as Hn; destruct caps as [|o caps]; cbn [is_nil omit app] in *;
    [by subst n| |by dec_fields HelloPayload_wire|].
  all: cbn [out_ok forallb] in Hok; dec_fields HelloPayload_wire; cbn [hp_Capabilities hp_ClientName];
    dec_list Hok; cbn; by subst.
Qed.
Next Obligation.
  intros [n caps]. cbn [layout HelloPayload_wire hp_ClientName hp_Capabilities].
  case_bool_decide; destruct caps as [|o caps]; walk_fields HelloPayload_wire; try done.
  all: change (out_value (layout o) :: map out_value (map layout caps)) with (map out_value (map layout (o :: caps))).
  all: by rewrite walk_layouts.
Qed.

#[export] Program Instance ResumeStateSync_laws : WireLaws ResumeStateSync := {| wire_typed a := True |}.
Next Obligation. by eexists. Qed.
Next Obligation. intros strict d [ns] _ _ _. dec_fields ResumeStateSync_wire. cbn [rss_Namespaces]. by rewrite dec_strings. Qed.
Next Obligation. intros [ns]. walk_fields ResumeStateSync_wire. by rewrite (walk_scalar_slice _ OStr). Qed.

#[export] Program Instance PingPayload_laws : WireLaws PingPayload := {| wire_typed a := is_int64 (pi_ClientTime a) |}.
Next Obligation. by eexists. Qed.
Next Obligation. intros strict d [i t] Ht _ _. by dec_fields PingPayload_wire. Qed.
Next Obligation. intros [i t]. by walk_fields PingPayload_wire. Qed.

#[export] Program Instance PongPayload_laws : WireLaws PongPayload := {|
  wire_typed a := is_int64 (po_ClientTime a) ∧ is_int64 (po_ServerTime a)
|}.
Next Obligation. by eexists. Qed.
Next Obligation. intros strict d [i t u] [Ht Hu] _ _. by dec_fields PongPayload_wire. Qed.
Next Obligation. intros [i t u]. by walk_fields PongPayload_wire. Qed.

#[export] Program Instance AckPayload_laws : WireLaws AckPayload := {| wire_typed a := True |}.
Next Obligation. by eexists. Qed.
Next Obligation. intros strict d [i] _ _ _. by dec_fields AckPayload_wire. Qed.
Next Obligation. intros [i]. by walk_fields AckPayload_wire. Qed.

(** The raw member of a structure is its text. *)
Lemma raw_text d raw : raw ≠ "" → out_ok d (ORaw raw) = true → d ≤ maxNestingDepth →
  default "" (json_Marshal (ORaw raw)) = raw.
Proof.
  intros Hne Hok Hd. rewrite (marshal_raw d); [done|done| |done]. cbn [out_ok] in Hok.
  by rewrite bool_decide_false in Hok.
Qed.

Ltac raw_member H :=
  cbn [out_ok forallb] in H; rewrite ?andb_true_iff in H; destruct_and? H;
  erewrite raw_text by (first [eassumption|lia]).

#[export] Program Instance SendPayload_laws : WireLaws SendPayload := {| wire_typed a := sp_Content a ≠ "" |}.
Next Obligation. by eexists. Qed.
Next Obligation.
  intros strict d [c] Ht Hok Hd. cbn in Ht. cbn [layout SendPayload_wire sp_Content] in Hok |- *.
  dec_fields SendPayload_wire. cbn [out_ok forallb] in Hok. raw_member Hok. done.
Qed.
Next Obligation. intros [c]. by walk_fields SendPayload_wire. Qed.

#[export] Program Instance EventPayload_laws : WireLaws EventPayload := {| wire_typed a := ep_Content a ≠ "" |}.
Next Obligation. by eexists. Qed.
Next Obligation.
  intros strict d [ty c] Ht Hok Hd. cbn [ep_Content] in Ht.
  cbn [layout EventPayload_wire ep_Content ep_EventType] in Hok |- *.
  case_bool_decide; dec_fields EventPayload_wire; cbn [omit app] in Hok; raw_member Hok; cbn; by subst.
Qed.
Next Obligation.
  intros [ty c]. cbn [layout EventPayload_wire ep_EventType]. by case_bool_decide; walk_fields EventPayload_wire.
Qed.

Lemma dec_pointer_layout `{WireLaws A} strict d (a : A) :
  wire_typed a → out_ok d (layout a) = true → d ≤ maxNestingDepth →
  dec_pointer zero (dec_struct strict) None (out_value (layout a)) = Ok (Some a).
Proof.
  intros Ht Hok Hd. pose proof (wire_decode strict d a Ht Hok Hd) as Hdec. destruct (wire_object a) as [l E].
  rewrite E in *. cbn [out_value dec_pointer default] in *. by rewrite Hdec.
Qed.

Ltac dec_ptr H :=
  cbn [app pointer_out out_ok forallb] in H; rewrite ?andb_true_iff in H; destruct_and? H;
  erewrite dec_pointer_layout by (first [eassumption|lia|exact I]).

#[export] Program Instance ResumePayload_laws : WireLaws ResumePayload := {| wire_typed a := is_u64 (rp_LastSeq a) |}.
Next Obligation. by eexists. Qed.
Next Obligation.
  intros strict d [n [sync|]] Ht Hok Hd; [|by dec_fields ResumePayload_wire].
  cbn [rp_LastSeq] in Ht. cbn [layout ResumePayload_wire rp_LastSeq rp_StateSync] in Hok.
  dec_fields ResumePayload_wire. cbn [rp_LastSeq rp_StateSync pointer_out map out_value dec_members set_member ResumePayload_wire].
  field_tests. cbn [rp_LastSeq rp_StateSync]. dec_ptr Hok. done.
Qed.
Next Obligation.
  intros [n [sync|]]; walk_fields ResumePayload_wire; [|done]. cbn [rp_StateSync pointer_out map walk_members].
  field_tests. by rewrite wire_strict.
Qed.

#[export] Program Instance StateQueryPayload_laws : WireLaws StateQueryPayload := {| wire_typed a := True |}.
Next Obligation. by eexists. Qed.
Next Obligation.
  intros strict d [ns ids] _ _ _. dec_fields StateQueryPayload_wire. cbn [sq_ObjectIDs]. by rewrite dec_strings.
Qed.
Next Obligation. intros [ns ids]. walk_fields StateQueryPayload_wire. by rewrite (walk_scalar_slice _ OStr). Qed.

#[export] Program Instance StateObject_laws : WireLaws StateObject := {|
  wire_typed a := is_u64 (so_Version a) ∧ so_Data a ≠ ""
|}.
Next Obligation. by eexists. Qed.
Next Obligation.
  intros strict d [ns i v data] [Hv Hd0] Hok Hd. cbn [so_Version so_Data] in *.
  cbn [layout StateObject_wire so_Namespace so_ObjectID so_Version so_Data] in Hok |- *.
  dec_fields StateObject_wire. raw_member Hok. done.
Qed.
Next Obligation. intros [ns i v data]. by walk_fields StateObject_wire. Qed.

#[export] Program Instance StateSnapshotPayload_laws : WireLaws StateSnapshotPayload := {|
  wire_typed a := Forall wire_typed (ss_States a)
|}.
Next Obligation. by eexists. Qed.
Next Obligation.
  intros strict d [l] Ht Hok Hd. cbn [ss_States] in Ht.
  cbn [layout StateSnapshotPayload_wire ss_States] in Hok |- *. cbn [out_ok forallb] in Hok.
  dec_fields StateSnapshotPayload_wire. cbn [ss_States]. dec_list Hok. done.
Qed.
Next Obligation. intros [l]. walk_fields StateSnapshotPayload_wire. by rewrite walk_layouts. Qed.

#[export] Program Instance StateUpdatePayload_laws : WireLaws StateUpdatePayload := {|
  wire_typed a := wire_typed (su_State a)
|}.
Next Obligation. by eexists. Qed.
Next Obligation.
  intros strict d [o] Ht Hok Hd. cbn [su_State] in Ht.
  cbn [layout StateUpdatePayload_wire su_State] in Hok |- *. cbn [out_ok forallb] in Hok.
  cbn [out_value map dec_struct dec_members set_member StateUpdatePayload_wire]. field_tests.
  rewrite ?andb_true_iff in Hok; destruct_and? Hok. cbn [su_State zero StateUpdatePayload_wire].
  erewrite wire_decode by (first [eassumption|lia]). done.
Qed.
Next Obligation.
  intros [o]. cbn [layout StateUpdatePayload_wire su_State out_value map]. rewrite walk_object. cbn [walk_members].
  field_tests. by rewrite wire_strict.
Qed.

#[export] Program Instance ErrorPayload_laws : WireLaws ErrorPayload := {| wire_typed a := True |}.
Next Obligation. by eexists. Qed.
Next Obligation.
  intros strict d [c m r b] _ _ _. cbn [layout ErrorPayload_wire er_Message er_RefID er_Code er_Retryable].
  repeat case_bool_decide; dec_fields ErrorPayload_wire; cbn; by subst.
Qed.
Next Obligation.
  intros [c m r b]. cbn [layout ErrorPayload_wire er_Message er_RefID er_Code er_Retryable].
  repeat case_bool_decide; by walk_fields ErrorPayload_wire.
Qed.

(** A WELCOME prints the fields of its mode only. *)
#[export] Program Instance WelcomePayload_laws : WireLaws WelcomePayload := {|
  wire_typed a :=
    is_int64 (wp_ServerTime a) ∧ is_u64 (wp_ResumeFrom a) ∧ is_u64 (wp_ReplayTo a)
    ∧ Forall wire_typed (wp_AcceptedCapabilities a)
    ∧ if wp_Mode a == WelcomeModeResumed then wp_AcceptedCapabilities a = []
      else wp_ResumeFrom a = 0 ∧ wp_ReplayTo a = 0 ∧ wp_StateSync a = None
|}.
Next Obligation.
  intros [m t f r s caps]. cbn [layout WelcomePayload_wire]. unfold WelcomePayload_MarshalJSON. cbn [wp_Mode].
  case_bool_decide; by eexists.
Qed.
Next Obligation.
  intros strict d [m t f r s caps] (Ht & Hf & Hr & Hcaps & Hmode) Hok Hd. cbn [wp_Mode wp_ServerTime wp_ResumeFrom wp_ReplayTo wp_StateSync wp_AcceptedCapabilities] in *.
  cbn [layout WelcomePayload_wire] in *. unfold WelcomePayload_MarshalJSON in *.
  cbn [wp_Mode wp_ServerTime wp_ResumeFrom wp_ReplayTo wp_StateSync wp_AcceptedCapabilities] in *.
  case_bool_decide as Hm.
  - subst caps. destruct s as [[ns]|]; cbn [cloneResumeStateSync pointer_out] in *.
    + dec_fields WelcomePayload_wire. cbn [rss_Namespaces] in *.
      match goal with |- context [wp_StateSync ?x] => change (wp_StateSync x) with (@None ResumeStateSync) end.
      dec_ptr Hok. done.
    + by dec_fields WelcomePayload_wire.
  - destruct Hmode as (-> & -> & ->). destruct caps as [|o caps]; [by dec_fields WelcomePayload_wire|].
    cbn [app is_nil omit out_ok forallb] in Hok. dec_fields WelcomePayload_wire.
    match goal with |- context [wp_AcceptedCapabilities ?x] => change (wp_AcceptedCapabilities x) with (@nil NegotiatedCapability) end.
    dec_list Hok. done.
Qed.
Next Obligation.
  intros [m t f r s caps]. cbn [layout WelcomePayload_wire]. unfold WelcomePayload_MarshalJSON.
  cbn [wp_Mode wp_ServerTime wp_ResumeFrom wp_ReplayTo wp_StateSync wp_AcceptedCapabilities]. case_bool_decide.
  - destruct s as [[ns]|]; cbn [cloneResumeStateSync pointer_out]; walk_fields WelcomePayload_wire; [|done].
    by rewrite wire_strict.
  - destruct caps as [|o caps]; walk_fields WelcomePayload_wire; [done|].
    change (out_value (layout o) :: map out_value (map layout caps)) with (map out_value (map layout (o :: caps))).
    by rewrite walk_layouts.
Qed.

(** ** Printed payloads *)

Lemma str_rev_app_eq s t : str_rev_app s t = str_rev s +++ t.
Proof.
  unfold str_rev. revert t. induction s as [|a s IH]; intros t; [done|]. cbn [str_rev_app].
  rewrite IH, (IH (String a "")), str_app_assoc. done.
Qed.
Lemma str_rev_cons a s : str_rev (String a s) = str_rev s +++ String a "".
Proof. unfold str_rev at 1. cbn [str_rev_app]. apply str_rev_app_eq. Qed.
Lemma str_rev_append s t : str_rev (s +++ t) = str_rev t +++ str_rev s.
Proof.
  induction s as [|a s IH]; cbn [String.append].
  - change (str_rev "") with "". by rewrite str_app_nil_r.
  - by rewrite !str_rev_cons, IH, str_app_assoc.
Qed.
Lemma str_rev_involutive s : str_rev (str_rev s) = s.
Proof. induction s as [|a s IH]; [done|]. by rewrite str_rev_cons, str_rev_append, IH. Qed.

Lemma strip_any_suffix ps s r : strip_any ps s = Some r → ∃ p, s = p +++ r.
Proof.
  unfold strip_any. induction ps as [|p ps IH]; cbn; [done|]. destruct (str_strip p s) as [r'|] eqn:E; [|exact IH].
  intros [= <-]. exists p. by apply str_strip_Some.
Qed.
Lemma trim_left_suffix ps f s : ∃ p, s = p +++ trim_left ps f s.
Proof.
  revert s. induction f as [|f IH]; intros s; cbn; [by exists ""|].
  destruct (strip_any ps s) as [r|] eqn:E; [|by exists ""]. apply strip_any_suffix in E as [p ->].
  destruct (IH r) as [q Hq]. exists (p +++ q). by rewrite str_app_assoc, <- Hq.
Qed.

(** An object is not the literal null, whatever surrounds it. *)
Lemma TrimSpace_object s : TrimSpace (opening 123 s) ≠ "null".
Proof.
  unfold TrimSpace. set (ps := map encode_rune space_runes). intros H.
  assert (trim_left ps (String.length (opening 123 s)) (opening 123 s) = opening 123 s) as E by reflexivity.
  rewrite E in H. clear E.
  destruct (trim_left_suffix (map str_rev ps) (String.length (opening 123 s)) (str_rev (opening 123 s))) as [p Hp].
  apply (f_equal str_rev) in Hp. rewrite str_rev_involutive, str_rev_append, H in Hp. discriminate.
Qed.

Section roundtrip.
Context {ST : StdText} `{WireLaws A}.

Lemma layout_text d (a : A) : out_ok d (layout a) = true → d ≤ maxNestingDepth →
  ∃ s, Marshal a = Some (opening 123 s) ∧ vreads d (opening 123 s) (out_value (layout a)).
Proof.
  intros Hok Hd. destruct (marshal_reads _ d Hok Hd) as (t & Ht & Hv). unfold Marshal.
  destruct (wire_object a) as [l E]. rewrite E in *. rewrite json_Marshal_obj in Ht.
  pose proof Ht as Hf. apply fmap_Some in Hf as (ts & _ & ->). eexists. rewrite json_Marshal_obj. split; [exact Ht|exact Hv].
Qed.

(** Marshalling succeeds on readable payloads. *)
Lemma mustPayload_total d (a : A) : out_ok d (layout a) = true → d ≤ maxNestingDepth → Marshal a = Some (mustPayload a).
Proof. intros Hok Hd. unfold mustPayload. by destruct (layout_text d a Hok Hd) as (s & -> & _). Qed.

Lemma decode_printed strict (a : A) :
  wire_typed a → out_ok maxNestingDepth (layout a) = true → decodePayload (mustPayload a) strict = Ok a.
Proof.
  intros Ht Hok. destruct (layout_text maxNestingDepth a Hok ltac:(lia)) as (s & Hm & Hv).
  unfold mustPayload. rewrite Hm. cbn [default]. unfold id, decodePayload.
  rewrite bool_decide_false by apply TrimSpace_object.
  assert (slen (opening 123 s) =? 0 = false) as ->.
  { apply Z.eqb_neq. unfold slen. cbn. lia. }
  cbn [orb guard_err mbind result_mbind].
  pose proof (vreads_decode _ _ _ Hv ltac:(lia)) as Hdec. unfold rejectDuplicateJSONFields.
  rewrite Hdec, wire_strict. cbn [map_err ensureJSONEOF dec_Decode skip_ws].
  rewrite (wire_decode strict maxNestingDepth) by (done || lia). by destruct strict.
Qed.
End roundtrip.

(** ** Frames *)

(** The integers of a frame are in the range of their Go types. *)
Definition frame_typed (f : Envelope) : Prop :=
  0 ≤ e_V f ≤ u16max ∧ is_u64 (e_Seq f) ∧ is_int64 (e_Timestamp f).

Lemma envelope_decode strict d f :
  frame_typed f → out_ok d (layout f) = true → d ≤ maxNestingDepth →
  dec_struct strict zero (out_value (layout f)) = Ok f.
Proof.
  intros (Hv & Hs & Ht) Hok Hd. destruct f as [v ty i sid sq ts p].
  cbn [e_V e_Seq e_Timestamp] in *. cbn [layout Envelope_wire e_V e_Type e_ID e_SessionID e_Seq e_Timestamp e_Payload] in *.
  assert (p = "" ∨ default "" (json_Marshal (ORaw p)) = p) as Hp.
  { destruct (decide (p = "")) as [->|Hp]; [by left|right].
    cbn [out_ok] in Hok. rewrite !forallb_app, !andb_true_iff in Hok. destruct_and! Hok.
    match goal with H : forallb _ (omit (p == "") _ _) = true |- _ => rename H into Hpay end.
    rewrite bool_decide_false in Hpay by done. cbn [omit forallb] in Hpay. rewrite !andb_true_iff in Hpay.
    destruct_and! Hpay. eapply (raw_text (d - 1)); [done|eassumption|lia]. }
  clear Hok Hd. unfold omit.
  repeat (case_bool_decide || match goal with |- context [?x =? 0] => destruct (Z.eqb_spec x 0) end).
  all: dec_fields Envelope_wire; cbn; destruct Hp as [Hp|Hp]; subst; try done.
  all: cbn in Hp; rewrite Hp; done.
Qed.

Lemma envelope_strict f : walkStrictJSONValue ["payload"] (out_value (layout f)) = None.
Proof.
  destruct f as [v ty i sid sq ts p].
  cbn [layout Envelope_wire e_V e_Type e_ID e_SessionID e_Seq e_Timestamp e_Payload]. unfold omit.
  repeat (case_bool_decide || match goal with |- context [?x =? 0] => destruct (Z.eqb_spec x 0) end);
    by walk_fields Envelope_wire.
Qed.

Section frames.
Context {ST : StdText}.

Definition frame_types : list string :=
  [FrameHello; FrameWelcome; FramePing; FramePong; FrameSend; FrameAck; FrameEvent; FrameResume; FrameStateQuery;
   FrameStateSnapshot; FrameStateUpdate; FrameError].

Lemma validBounded_utf8 s n b : validBoundedProtocolString s n b = true → utf8_ValidString s = true.
Proof. unfold validBoundedProtocolString. destruct (utf8_ValidString s); [done|]. by rewrite orb_true_r. Qed.

(** What a valid frame guarantees to the encoder. *)
Lemma valid_frame f limits strict : ValidateFrame f limits strict = Ok tt →
  e_Type f ∈ frame_types ∧ utf8_ValidString (e_ID f) = true ∧ utf8_ValidString (e_SessionID f) = true
  ∧ ∃ t, Marshal f = Some t ∧ slen t ≤ MaxFrameSize (normalizeLimits limits).
Proof.
  unfold ValidateFrame. intros H. apply result_bind_Ok in H as ([] & He & Ht). split_and!.
  - unfold frame_types. rewrite !elem_of_cons. repeat case_bool_decide; try discriminate; tauto.
  - unfold ValidateEnvelope in He. inv_ok. bools. by eapply validBounded_utf8.
  - unfold ValidateEnvelope in He. inv_ok. bools. by eapply validBounded_utf8.
  - unfold ValidateEnvelope in He. rewrite normalizeLimits_idem in He. revert He. generalize (normalizeLimits limits).
    intros L He. inv_ok. destruct (Marshal f) as [t|]; [|done]. inv_ok. bools. by exists t.
Qed.

Lemma ValidateFrame_normalized f limits strict :
  ValidateFrame f (normalizeLimits limits) strict = ValidateFrame f limits strict.
Proof. unfold ValidateFrame. by rewrite normalizeLimits_idem. Qed.

Lemma valid_out_ok f limits strict d :
  ValidateFrame f limits strict = Ok tt → 0 < d → e_Payload f = "" ∨ raw_ok (d - 1) (e_Payload f) = true →
  out_ok d (layout f) = true.
Proof.
  intros (Hty & Hid & Hsid & _)%valid_frame Hd Hp.
  assert (utf8_ValidString (e_Type f) = true) as Htype.
  { revert Hty. generalize (e_Type f). unfold frame_types. intros ty Hty.
    repeat (apply elem_of_cons in Hty as [-> |Hty]; [reflexivity|]). by apply elem_of_nil in Hty. }
  cbn [layout Envelope_wire out_ok]. rewrite !forallb_app, !andb_true_iff. unfold omit.
  split_and!; [lia|..]; repeat case_match; try done; cbn [forallb out_ok fst snd]; rewrite ?Htype, ?Hid, ?Hsid; try done.
  destruct Hp as [-> |Hp]; [done|]. by rewrite Hp, orb_true_r.
Qed.

Lemma decode_encoded c f t :
  frame_typed f → raw_ok (maxNestingDepth - 1) (e_Payload f) = true →
  Encode c (Some f) = Ok t → Decode c t = Ok f.
Proof.
  intros Hty Hraw He. cbn [Encode] in He. apply result_bind_Ok in He as ([] & Hv & He).
  unfold validateOutboundFrame, codec_limits in Hv. rewrite normalizeLimits_idem in Hv.
  destruct (Marshal f) as [b|] eqn:Hm; [|done]. injection He as ->.
  pose proof (valid_frame _ _ _ Hv) as (_ & _ & _ & t' & Hm' & Hlen). rewrite Hm in Hm'. injection Hm' as <-.
  rewrite normalizeLimits_idem in Hlen.
  assert (out_ok maxNestingDepth (layout f) = true) as Hok by (eapply valid_out_ok; [done|done|by right]).
  destruct (marshal_reads _ _ Hok ltac:(lia)) as (u & Hu & Hr). unfold Marshal in Hm. rewrite Hm in Hu. injection Hu as <-.
  pose proof (vreads_decode _ _ _ Hr ltac:(lia)) as Hdec. unfold Decode, rejectDuplicateJSONFields.
  rewrite Hdec, envelope_strict, (envelope_decode (jc_Strict c) maxNestingDepth) by (done || lia).
  destruct Hr as (Hh & _ & _).
  assert (slen t =? 0 = false) as -> by (apply Z.eqb_neq; intros E%slen_zero; by subst).
  unfold codec_limits. rewrite (proj2 (Z.ltb_ge _ _) Hlen), Hv. by destruct (jc_Strict c).
Qed.
End frames.

(** ** The properties *)

(** What a WELCOME keeps of its fields on the wire: those of its mode. *)
Definition mode_fields (a : WelcomePayload) : WelcomePayload :=
  if wp_Mode a == WelcomeModeResumed
  then mkWelcome (wp_Mode a) (wp_ServerTime a) (wp_ResumeFrom a) (wp_ReplayTo a) (wp_StateSync a) []
  else mkWelcome (wp_Mode a) (wp_ServerTime a) 0 0 None (wp_AcceptedCapabilities a).

Lemma layout_mode_fields a : layout (mode_fields a) = layout a.
Proof.
  destruct a as [m t f r s caps]. unfold mode_fields. cbn [layout WelcomePayload_wire].
  unfold WelcomePayload_MarshalJSON. cbn [wp_Mode]. case_bool_decide as H; cbn [wp_Mode];
    case_bool_decide; done.
Qed.

(** A WELCOME with fields of both modes comes back with those of its mode. *)
Lemma welcome_roundtrip {ST : StdText} strict a :
  wire_typed (mode_fields a) → out_ok maxNestingDepth (layout a) = true →
  decodePayload (mustPayload a) strict = Ok (mode_fields a).
Proof.
  intros Ht Hok. replace (mustPayload a) with (mustPayload (mode_fields a)).
  - apply decode_printed; [done|]. by rewrite layout_mode_fields.
  - unfold mustPayload, Marshal. by rewrite layout_mode_fields.
Qed.

(** C29. Payloads round trip.  For every wire structure of the protocol, what
    [mustPayload] prints decodes, strictly or not, to the same structure;
    marshalling does not fail, and the printed payload is already compact, so
    that putting it into a frame does not change it.  The conditions on the
    structure ([wire_typed] and [out_ok]) are these: its strings are valid
    UTF-8; its integers are values of their Go types; its raw JSON members
    (the content of a SEND or an EVENT, the data of a state object) are
    present, in the compact, HTML-escaped form the encoder prints, and within
    the nesting bound; and a WELCOME holds only the fields of its mode (a
    RESUMED one no accepted capabilities, any other one no resume range and no
    state_sync), because MarshalJSON prints no others: [welcome_roundtrip] is
    the statement for a WELCOME that holds more. *)
Theorem payload_roundtrip {ST : StdText} `{WireLaws A} strict (a : A) :
  wire_typed a → out_ok maxNestingDepth (layout a) = true →
  Marshal a = Some (mustPayload a) ∧ decodePayload (mustPayload a) strict = Ok a
  ∧ compact false false (mustPayload a) = mustPayload a.
Proof.
  intros Ht Hok. pose proof (mustPayload_total _ a Hok ltac:(lia)) as Hm. split_and!; [done|by apply decode_printed|].
  by apply (marshal_tidy (layout a)).
Qed.

(** C14. Frames round trip.  Every frame [Encode] accepts is decoded by
    [Decode] to the same frame, in strict and in lenient mode, whatever the
    limits of the codec, provided its payload is in the compact form that
    [mustPayload] produces and nests less deeply than the scanner's bound. *)
Theorem codec_roundtrip {ST : StdText} c f t :
  frame_typed f → raw_ok (maxNestingDepth - 1) (e_Payload f) = true →
  Encode c (Some f) = Ok t → Decode c t = Ok f.
Proof. apply decode_encoded. Qed.

(** ** Concrete instances *)

Definition demo_object : StateObject :=
  mkStateObject "ns" ("a<b" +++ char 10 +++ "c") MaxUint64 (js "{'k':[1,2.5e3,null,'x']}").

Lemma payload_roundtrip_witness :
  decodePayload (ST:=demo_text) (A:=StateSnapshotPayload) (mustPayload (mkStateSnapshot [demo_object])) true
  = Ok (mkStateSnapshot [demo_object]).
Proof.
  apply (payload_roundtrip (ST:=demo_text) true (mkStateSnapshot [demo_object])).
  - constructor; [|constructor]. split; [|discriminate]. split; vm_compute; discriminate.
  - vm_compute. reflexivity.
Defined.

(** A field of the other mode is lost. *)
Example welcome_foreign_field :
  decodePayload (ST:=demo_text) (mustPayload (mkWelcome WelcomeModeNew 7 5 0 None [])) true
  = Ok (mkWelcome WelcomeModeNew 7 0 0 None []).
Proof. vm_compute. reflexivity. Qed.

Definition demo_send : Envelope :=
  mkEnvelope WireVersionV2 FrameSend "m1" "s_1" 0 (-5) (js "{'content':{'text':'hi'}}").

Lemma codec_roundtrip_witness : ∃ t, Encode (ST:=demo_text) NewJSONCodec (Some demo_send) = Ok t
  ∧ Decode (ST:=demo_text) NewJSONCodec t = Ok demo_send.
Proof.
  exists (js "{'v':2,'type':'SEND','id':'m1','session_id':'s_1','timestamp':-5,'payload':{'content':{'text':'hi'}}}").
  assert (Encode (ST:=demo_text) NewJSONCodec (Some demo_send) = Ok
    (js "{'v':2,'type':'SEND','id':'m1','session_id':'s_1','timestamp':-5,'payload':{'content':{'text':'hi'}}}")) as E
    by (vm_compute; reflexivity).
  split; [exact E|]. refine (codec_roundtrip (ST:=demo_text) _ _ _ _ _ E).
  - unfold frame_typed, is_u64, is_int64. cbn. split_and!; discriminate.
  - vm_compute. reflexivity.
Defined.

(** Strict mode compares member names exactly when it looks for duplicates,
    while decoding matches them without regard to case: an Envelope whose
    type is given twice, once in capitals, passes and takes the second. *)
Example strict_case_variants :
  Decode (ST:=demo_text) NewJSONCodec
    (js "{'v':2,'type':'ACK','id':'m1','session_id':'s_1','timestamp':1,'Type':'SEND','payload':{'content':null,'Content':1}}")
  = Ok (mkEnvelope WireVersionV2 FrameSend "m1" "s_1" 0 1 (js "{'content':null,'Content':1}"))
  ∧ decodePayload (ST:=demo_text) (js "{'content':null,'Content':1}") true = Ok (mkSend "1").
Proof. vm_compute. auto. Qed.
