(* ===== verification/Outbound.v ===== *)
(** * The outbound queue and its writer (outbound.go)

    [OutboundQueue] is a FIFO shared by concurrent producers and one reader;
    a one-slot channel [wake] carries the hint that something changed.  The
    queue operations are functions on its state.  Their interleaving is a
    step relation whose atomic steps are the critical sections and channel
    operations of the source: an enqueue or close first updates the queue
    under the mutex and only later signals [wake]; the reader checks the
    queue, and when it finds nothing it waits for [wake] or its context. *)

From Stdlib Require Import Ascii String.
From S2P Require Import Prelude Utf8 Json Types Codec Capability State Validate.
Open Scope string_scope.
Open Scope list_scope.
Open Scope go_scope.
Open Scope Z_scope.

Definition ErrOutboundClosed : string := "kmtproto: outbound queue closed".

Record OutboundQueue := mkQueue {
  oq_frames : list Envelope;
  oq_closed : bool;
  oq_wake : bool
}.

Definition NewOutboundQueue : OutboundQueue := mkQueue [] false false.

(** The critical sections, and the non-blocking send on [wake]. *)
Definition enqueue_locked (q : OutboundQueue) (frames : list Envelope) : res OutboundQueue :=
  if oq_closed q then Err (ENew ErrOutboundClosed)
  else Ok (mkQueue (oq_frames q ++ map copyEnvelope frames) (oq_closed q) (oq_wake q)).
Definition close_locked (q : OutboundQueue) : OutboundQueue :=
  mkQueue (oq_frames q) true (oq_wake q).
Definition signal (q : OutboundQueue) : OutboundQueue :=
  mkQueue (oq_frames q) (oq_closed q) true.

Definition EnqueueBatch (q : OutboundQueue) (frames : list Envelope)
  : OutboundQueue * option goerror :=
  match enqueue_locked q frames with
  | Err e => (q, Some e)
  | Ok q' => (signal q', None)
  end.
Definition Enqueue (q : OutboundQueue) (frame : Envelope) : OutboundQueue * option goerror :=
  EnqueueBatch q [frame].
Definition Queue_Close (q : OutboundQueue) : OutboundQueue := signal (close_locked q).

(** One round of the loop of [Next] under the mutex: a frame, the closed
    error, or nothing yet. *)
Inductive next_result :=
| NextFrame (frame : Envelope)
| NextClosed
| NextWait.

Definition Next (q : OutboundQueue) : next_result * OutboundQueue :=
  match oq_frames q with
  | frame :: rest => (NextFrame frame, mkQueue rest (oq_closed q) (oq_wake q))
  | [] => if oq_closed q then (NextClosed, q) else (NextWait, q)
  end.

(** ** [SingleWriter.Run]

    The codec and the byte sender are the caller's; the sender may fail and
    has a state of its own.  The run ends with an error or blocks on an
    empty open queue ([None]). *)
Section writer.
Context {W : Type}.

Record SingleWriter := mkSingleWriter {
  sw_Queue : option OutboundQueue;
  sw_Codec : option (Envelope → res string);
  sw_Sender : option (string → W → W * option goerror)
}.

Fixpoint writer_loop (encode : Envelope → res string) (send : string → W → W * option goerror)
    (closed : bool) (frames : list Envelope) (w : W) : list Envelope * W * option goerror :=
  match frames with
  | [] => ([], w, if closed then Some (ENew ErrOutboundClosed) else None)
  | frame :: rest =>
      match encode frame with
      | Err e => (rest, w, Some e)
      | Ok data =>
          let '(w', err) := send data w in
          match err with
          | Some e => (rest, w', Some e)
          | None => writer_loop encode send closed rest w'
          end
      end
  end.

Definition SingleWriter_Run (sw : SingleWriter) (w : W) : SingleWriter * W * option goerror :=
  match sw_Queue sw, sw_Codec sw, sw_Sender sw with
  | Some q, Some encode, Some send =>
      let '(rest, w', err) := writer_loop encode send (oq_closed q) (oq_frames q) w in
      (mkSingleWriter (Some (mkQueue rest (oq_closed q) (oq_wake q))) (sw_Codec sw) (sw_Sender sw), w', err)
  | _, _, _ => (sw, w, Some (ENew "kmtproto: incomplete writer configuration"))
  end.

(** One frame at a time, in order: what [Run] hands to the sender is the
    encoding of a prefix of the queue. *)
Lemma writer_loop_spec encode send closed frames w :
  ∃ dn rest, frames = dn ++ rest
  ∧ ∃ sent w1, mapM (fun f => match encode f with Ok d => Some d | Err _ => None end) dn = Some sent
    ∧ foldl (fun w d => (send d w).1) w sent = w1
    ∧ match writer_loop encode send closed frames w with
      | (rem, w', None) => rem = [] ∧ rest = [] ∧ w' = w1 ∧ closed = false
      | (rem, w', Some e) =>
          (rem = [] ∧ rest = [] ∧ w' = w1 ∧ closed = true ∧ e = ENew ErrOutboundClosed)
          ∨ ∃ f, rest = f :: rem
                 ∧ (encode f = Err e ∧ w' = w1
                    ∨ ∃ d, encode f = Ok d ∧ send d w1 = (w', Some e))
      end.
Proof.
  revert w. induction frames as [|f frames IH]; intros w; cbn.
  { exists [], []. split; [done|]. exists [], w. split_and!; [done..|]. destruct closed; auto. left. auto. }
  destruct (encode f) as [d|e] eqn:Ee.
  2:{ exists [], (f :: frames). split; [done|]. exists [], w. split_and!; [done..|].
      right. exists f. auto. }
  destruct (send d w) as [w' [e|]] eqn:Es.
  { exists [], (f :: frames). split; [done|]. exists [], w. split_and!; [done..|].
    right. exists f. split; [done|]. right. eauto. }
  destruct (IH w') as (dn & rest & -> & sent & w1 & Hs & Hf & Hr).
  exists (f :: dn), rest. split; [done|]. exists (d :: sent), w1. cbn. rewrite Ee. cbn.
  split_and!; [by rewrite Hs|by rewrite Es|done].
Qed.
End writer.

(** ** Interleaving *)

Inductive reader := RIdle | RCheck | RWait.

(** [qs_signals] counts the threads between their critical section and the
    send on [wake]; [qs_sent] and [qs_got] record what producers handed over
    and what [Next] returned. *)
Record qsys := mkQsys {
  qs_queue : OutboundQueue;
  qs_signals : nat;
  qs_reader : reader;
  qs_sent : list Envelope;
  qs_got : list Envelope
}.
Definition qs_init : qsys := mkQsys NewOutboundQueue 0 RIdle [] [].

Inductive qstep : qsys → qsys → Prop :=
| q_enqueue q q' n r sent got frames :
    enqueue_locked q frames = Ok q' →
    qstep (mkQsys q n r sent got) (mkQsys q' (S n) r (sent ++ frames) got)
| q_refused q n r sent got frames e :
    enqueue_locked q frames = Err e →
    qstep (mkQsys q n r sent got) (mkQsys q n r sent got)
| q_close q n r sent got :
    qstep (mkQsys q n r sent got) (mkQsys (close_locked q) (S n) r sent got)
| q_signal q n r sent got :
    qstep (mkQsys q (S n) r sent got) (mkQsys (signal q) n r sent got)
| q_call q n sent got :
    qstep (mkQsys q n RIdle sent got) (mkQsys q n RCheck sent got)
| q_next_frame q q' n sent got frame :
    Next q = (NextFrame frame, q') →
    qstep (mkQsys q n RCheck sent got) (mkQsys q' n RIdle sent (got ++ [frame]))
| q_next_closed q q' n sent got :
    Next q = (NextClosed, q') →
    qstep (mkQsys q n RCheck sent got) (mkQsys q' n RIdle sent got)
| q_next_wait q q' n sent got :
    Next q = (NextWait, q') →
    qstep (mkQsys q n RCheck sent got) (mkQsys q' n RWait sent got)
| q_woken fs c n sent got :
    qstep (mkQsys (mkQueue fs c true) n RWait sent got)
          (mkQsys (mkQueue fs c false) n RCheck sent got)
| q_cancelled q n sent got :
    qstep (mkQsys q n RWait sent got) (mkQsys q n RIdle sent got).

Definition qreachable : qsys → Prop := rtc qstep qs_init.

(** What a waiting reader is owed: an empty open queue, or a wake-up that is
    already in the channel or about to be put there. *)
Definition no_lost_wakeup (s : qsys) : Prop :=
  qs_reader s = RWait →
  (oq_frames (qs_queue s) = [] ∧ oq_closed (qs_queue s) = false)
  ∨ oq_wake (qs_queue s) = true ∨ (0 < qs_signals s)%nat.

Definition fifo (s : qsys) : Prop :=
  qs_sent s = qs_got s ++ oq_frames (qs_queue s).

Lemma map_copyEnvelope l : map copyEnvelope l = l.
Proof. induction l; cbn; by rewrite ?copyEnvelope_id, ?IHl. Qed.

Lemma enqueue_locked_Ok q frames q' :
  enqueue_locked q frames = Ok q' ↔
  oq_closed q = false ∧ q' = mkQueue (oq_frames q ++ frames) false (oq_wake q).
Proof.
  unfold enqueue_locked. rewrite map_copyEnvelope.
  destruct q as [fs [] w]; cbn; split.
  - intros [=].
  - intros [[=] _].
  - intros [= <-]. done.
  - intros [_ ->]. done.
Qed.

Lemma Next_cases q :
  match Next q with
  | (NextFrame f, q') => oq_frames q = f :: oq_frames q' ∧ oq_closed q' = oq_closed q
                         ∧ oq_wake q' = oq_wake q
  | (NextClosed, q') => q' = q ∧ oq_frames q = [] ∧ oq_closed q = true
  | (NextWait, q') => q' = q ∧ oq_frames q = [] ∧ oq_closed q = false
  end.
Proof. destruct q as [[|f fs] [] w]; cbn; auto. Qed.

Lemma qstep_fifo s s' : qstep s s' → fifo s → fifo s'.
Proof.
  unfold fifo. intros Hs. destruct Hs; cbn; try done.
  - intros ->. apply enqueue_locked_Ok in H as [_ ->]. cbn. by rewrite app_assoc.
  - intros ->. pose proof (Next_cases q) as Hn. rewrite H in Hn.
    destruct Hn as (-> & _). by rewrite <- app_assoc.
  - intros ->. pose proof (Next_cases q) as Hn. rewrite H in Hn. by destruct Hn as (-> & _).
  - intros ->. pose proof (Next_cases q) as Hn. rewrite H in Hn. by destruct Hn as (-> & _).
Qed.

Lemma qstep_no_lost_wakeup s s' : qstep s s' → no_lost_wakeup s → no_lost_wakeup s'.
Proof.
  unfold no_lost_wakeup. intros Hs. destruct Hs; cbn; intros Hinv Hr; try done; auto with lia.
  pose proof (Next_cases q) as Hn. rewrite H in Hn. destruct Hn as (-> & ?). auto.
Qed.

Lemma qreachable_ind_inv (P : qsys → Prop) :
  P qs_init → (∀ s s', qstep s s' → P s → P s') → ∀ s, qreachable s → P s.
Proof.
  intros H0 Hstep s. unfold qreachable.
  generalize qs_init, H0. induction 2; eauto.
Qed.

(** ** The guarantees of the queue *)

(** C36. However producers, closers and the reader interleave, the frames the
    producers handed over successfully are exactly those already returned to
    the reader followed by those still queued: nothing is lost, duplicated or
    reordered, and a batch stays contiguous. *)
Theorem outbound_fifo s : qreachable s → qs_sent s = qs_got s ++ oq_frames (qs_queue s).
Proof. apply (qreachable_ind_inv fifo); [done|]. intros; by eapply qstep_fifo. Qed.

(** Steps that need neither producers nor the caller: pending signals, the
    wake-up of the reader and its check. *)
Inductive qinternal : qsys → qsys → Prop :=
| qi_signal q n r sent got :
    qinternal (mkQsys q (S n) r sent got) (mkQsys (signal q) n r sent got)
| qi_woken fs c n sent got :
    qinternal (mkQsys (mkQueue fs c true) n RWait sent got) (mkQsys (mkQueue fs c false) n RCheck sent got)
| qi_frame q q' n sent got frame :
    Next q = (NextFrame frame, q') →
    qinternal (mkQsys q n RCheck sent got) (mkQsys q' n RIdle sent (got ++ [frame]))
| qi_closed q q' n sent got :
    Next q = (NextClosed, q') →
    qinternal (mkQsys q n RCheck sent got) (mkQsys q' n RIdle sent got).

(** C37. No wake-up is lost: whenever the reader waits although a frame is
    queued or the queue is closed, the steps already under way (a pending
    signal, the wake-up, the check) are enough to give the reader the first
    frame, or the closed error when there is none. *)
Theorem outbound_no_lost_wakeup s :
  qreachable s → qs_reader s = RWait →
  oq_frames (qs_queue s) ≠ [] ∨ oq_closed (qs_queue s) = true →
  ∃ s', rtc qinternal s s' ∧ qs_reader s' = RIdle
    ∧ qs_got s' = qs_got s ++ take 1 (oq_frames (qs_queue s)).
Proof.
  intros Hs Hr Hne.
  assert (no_lost_wakeup s) as Hinv.
  { clear Hr Hne. revert s Hs. apply qreachable_ind_inv; [by intros [=]|]. intros; by eapply qstep_no_lost_wakeup. }
  destruct s as [[fs c w] n r sent got]. cbn in *. subst r.
  assert (∃ m, rtc qinternal (mkQsys (mkQueue fs c w) n RWait sent got)
                 (mkQsys (mkQueue fs c true) m RWait sent got)) as [m Hm].
  { destruct (Hinv eq_refl) as [[Hf Hc]|[Hw|Hn]]; cbn in *.
    - subst. by destruct Hne.
    - subst w. exists n. done.
    - destruct n as [|n]; [lia|]. exists n. apply rtc_once.
      exact (qi_signal (mkQueue fs c w) n RWait sent got). }
  destruct fs as [|f fs].
  - destruct Hne as [?|Hc]; [done|]. cbn in Hc. subst c.
    exists (mkQsys (mkQueue [] true false) m RIdle sent got). split_and!; [|done|by rewrite app_nil_r].
    eapply (transitivity (R:=rtc qinternal)); [exact Hm|]. eapply rtc_l; [apply qi_woken|]. apply rtc_once.
    by apply (qi_closed (mkQueue [] true false)).
  - exists (mkQsys (mkQueue fs c false) m RIdle sent (got ++ [f])). split_and!; [|done|done].
    eapply (transitivity (R:=rtc qinternal)); [exact Hm|]. eapply rtc_l; [apply qi_woken|]. apply rtc_once.
    by apply (qi_frame (mkQueue (f :: fs) c false)).
Qed.

(** The reader waits, a frame is enqueued, its signal is still pending. *)
Definition demo_qsys : qsys :=
  mkQsys (mkQueue [zeroEnvelope] false false) 1 RWait [zeroEnvelope] [].

Lemma demo_qsys_reachable : qreachable demo_qsys.
Proof.
  eapply rtc_l; [apply q_call|]. eapply rtc_l; [by apply q_next_wait|].
  apply rtc_once.
  by apply (q_enqueue NewOutboundQueue (mkQueue [zeroEnvelope] false false) 0 RWait [] [] [zeroEnvelope]).
Qed.

Lemma outbound_fifo_witness : qs_sent demo_qsys = qs_got demo_qsys ++ oq_frames (qs_queue demo_qsys).
Proof. exact (outbound_fifo demo_qsys demo_qsys_reachable). Defined.

Lemma outbound_no_lost_wakeup_witness :
  ∃ s', rtc qinternal demo_qsys s' ∧ qs_reader s' = RIdle ∧ qs_got s' = [zeroEnvelope].
Proof.
  destruct (outbound_no_lost_wakeup demo_qsys) as (s' & H1 & H2 & H3).
  - exact demo_qsys_reachable.
  - reflexivity.
  - left. discriminate.
  - exists s'. split; [exact H1|]. split; [exact H2|]. rewrite H3. reflexivity.
Defined.
