(* ===== verification/Store.v ===== *)
(** * Protocol-facing stores (store.go)

    The process-local reference implementations: [MemoryDedupStore],
    [MemorySessionRepository] and [MemoryReplayStore].  Each method is a
    function on the store's state; the clock reading a method takes is an
    argument.  *)

From Stdlib Require Import Ascii String.
From S2P Require Import Prelude Utf8 Json Types Codec Capability State.
Open Scope string_scope.
Open Scope list_scope.
Open Scope go_scope.
Open Scope Z_scope.

Definition ErrReplayUnavailable : string := "kmtproto: replay range unavailable".
Definition ErrReplayLimitExceeded : string := "kmtproto: replay range exceeds configured limits".
Definition ErrSequenceExhausted : string := "kmtproto: event sequence exhausted".
Definition ErrSessionExists : string := "kmtproto: session already exists".

Record ReplayLimits := mkReplayLimits { rl_MaxEvents : Z; rl_MaxBytes : Z }.

(** ** Sessions *)

Record SessionState := mkSessionState {
  ss_SessionID : string;
  ss_ExpiresAt : time;
  ss_Capabilities : SessionCapabilities
}.
Definition zeroSessionState : SessionState := mkSessionState "" zeroTime zeroCapabilities.
Definition CapabilityEnabled (s : SessionState) (name : string) : bool :=
  sc_Enabled (ss_Capabilities s) name.
Definition CapabilityVersion (s : SessionState) (name : string) : option Z :=
  sc_Version (ss_Capabilities s) name.

Definition MemorySessionRepository : Type := gmap string SessionState.
Definition NewMemorySessionRepository : gmap string SessionState := ∅.

Definition Session_Create (sessions : gmap string SessionState) (state : SessionState)
  : gmap string SessionState * option goerror :=
  if (ss_SessionID state == "") || (ss_ExpiresAt state =? zeroTime) then
    (sessions, Some (ENew "kmtproto: invalid session state"))
  else
    match sessions !! ss_SessionID state with
    | Some _ => (sessions, Some (ENew ErrSessionExists))
    | None => (<[ss_SessionID state := state]> sessions, None)
    end.

(** [Lookup]: the state of an unexpired session. *)
Definition Session_Lookup (sessions : gmap string SessionState) (sessionID : string) (now : time)
  : option SessionState :=
  match sessions !! sessionID with
  | Some state => if now <? ss_ExpiresAt state then Some state else None
  | None => None
  end.

(** ** Deduplication *)

Record memoryDedupEntry := mkDedupEntry { de_record : DedupRecord; de_expiresAt : time }.
Record MemoryDedupStore := mkDedupStore {
  md_ttl : Duration;
  md_records : gmap string memoryDedupEntry
}.
Definition NewMemoryDedupStore (ttl : Duration) : MemoryDedupStore := mkDedupStore ttl ∅.
Definition DedupRetentionTTL (s : MemoryDedupStore) : Duration := md_ttl s.

Definition dedupKey (sessionID msgID : string) : string := sessionID +++ char 0 +++ msgID.
#[global] Arguments dedupKey : simpl never.

(** [Claim]: the new store, whether the identity was claimed, and the
    record found otherwise. *)
Definition Dedup_Claim (s : MemoryDedupStore) (now : time) (sessionID msgID : string)
    (fingerprint : SendFingerprint) : MemoryDedupStore * (bool * option DedupRecord) :=
  let key := dedupKey sessionID msgID in
  let fresh :=
    (mkDedupStore (md_ttl s)
       (<[key := mkDedupEntry (mkDedupRecord DedupProcessing fingerprint None)
                   (Time_Add now (md_ttl s))]> (md_records s)),
     (true, None)) in
  match md_records s !! key with
  | Some entry =>
      if (dr_State (de_record entry) == DedupProcessing) || (now <? de_expiresAt entry)
      then (s, (false, Some (mkDedupRecord (dr_State (de_record entry)) (dr_Fingerprint (de_record entry))
                               (copyEnvelope <$> dr_Ack (de_record entry)))))
      else fresh
  | None => fresh
  end.

Definition Dedup_Complete (s : MemoryDedupStore) (now : time) (sessionID msgID : string)
    (ack : option Envelope) : MemoryDedupStore * option goerror :=
  match ack with
  | None => (s, Some (ENew "kmtproto: nil ACK"))
  | Some ack =>
      let key := dedupKey sessionID msgID in
      match md_records s !! key with
      | Some entry =>
          if dr_State (de_record entry) != DedupProcessing
          then (s, Some (ENew "kmtproto: message is not claimed"))
          else
            (mkDedupStore (md_ttl s)
               (<[key := mkDedupEntry
                           (mkDedupRecord DedupCompleted (dr_Fingerprint (de_record entry))
                              (Some (copyEnvelope ack)))
                           (Time_Add now (md_ttl s))]> (md_records s)), None)
      | None => (s, Some (ENew "kmtproto: message is not claimed"))
      end
  end.

Definition Dedup_Abort (s : MemoryDedupStore) (sessionID msgID : string) : MemoryDedupStore :=
  let key := dedupKey sessionID msgID in
  match md_records s !! key with
  | Some entry =>
      if dr_State (de_record entry) == DedupProcessing
      then mkDedupStore (md_ttl s) (delete key (md_records s))
      else s
  | None => s
  end.

(** ** Replay *)

Record MemoryReplayStore := mkReplayStore {
  mr_events : gmap string (list Envelope);
  mr_floor : gmap string Z;
  mr_current : gmap string Z;
  mr_ids : gmap string (gset string)
}.
Definition NewMemoryReplayStore : MemoryReplayStore := mkReplayStore ∅ ∅ ∅ ∅.

(** Reading a Go map at an absent key gives the zero value. *)
Definition events_of (s : MemoryReplayStore) (sid : string) : list Envelope :=
  default [] (mr_events s !! sid).
Definition floor_of (s : MemoryReplayStore) (sid : string) : Z := default 0 (mr_floor s !! sid).
Definition current_of (s : MemoryReplayStore) (sid : string) : Z := default 0 (mr_current s !! sid).
Definition ids_of (s : MemoryReplayStore) (sid : string) : gset string :=
  default ∅ (mr_ids s !! sid).

Definition CurrentSeq (s : MemoryReplayStore) (sessionID : string) : Z := current_of s sessionID.

Section replay.
Context {ST : StdText}.

(** The loop over the retained events; [total] is the number of bytes
    already materialized. *)
Fixpoint replay_loop (afterSeq throughSeq maxBytes total : Z) (events : list Envelope)
  : res (list Envelope) :=
  match events with
  | [] => Ok []
  | event :: events =>
      if (afterSeq <? e_Seq event) && (e_Seq event <=? throughSeq) then
        match Marshal event with
        | None => Err (EWrap "kmtproto: encode replay event: " (EJson JMarshal))
        | Some encoded =>
            if maxBytes - total <? slen encoded then Err (ENew ErrReplayLimitExceeded)
            else
              out ← replay_loop afterSeq throughSeq maxBytes (total + slen encoded) events;
              Ok (copyEnvelope event :: out)
        end
      else replay_loop afterSeq throughSeq maxBytes total events
  end.

Definition Replay (s : MemoryReplayStore) (sessionID : string) (afterSeq throughSeq : Z)
    (limits : ReplayLimits) : res (list Envelope) :=
  _ ← guard_err ((rl_MaxEvents limits =? 0) || (rl_MaxBytes limits <=? 0) || (throughSeq <? afterSeq))
        (ENew ErrReplayLimitExceeded);
  _ ← guard_err (rl_MaxEvents limits <? u64 (throughSeq - afterSeq)) (ENew ErrReplayLimitExceeded);
  _ ← guard_err ((0 <? floor_of s sessionID) && (afterSeq <? floor_of s sessionID - 1))
        (ENew ErrReplayUnavailable);
  out ← replay_loop afterSeq throughSeq (rl_MaxBytes limits) 0 (events_of s sessionID);
  _ ← guard_err ((afterSeq <? throughSeq)
                 && negb (Z.of_nat (length out) =? u64 (throughSeq - afterSeq)))
        (ENew ErrReplayUnavailable);
  Ok out.
End replay.

Definition Append (s : MemoryReplayStore) (sessionID eventID eventType content : string)
    (timestamp : Z) : MemoryReplayStore * res Envelope :=
  if (sessionID == "") || (eventID == "") || negb (utf8_ValidString sessionID)
     || negb (utf8_ValidString eventID) || negb (utf8_ValidString eventType)
     || negb (json_Valid content)
  then (s, Err (ENew "kmtproto: invalid event append"))
  else
    let s := mkReplayStore (mr_events s) (mr_floor s) (mr_current s)
               (<[sessionID := ids_of s sessionID]> (mr_ids s)) in
    if bool_decide (eventID ∈ ids_of s sessionID)
    then (s, Err (ENew "kmtproto: duplicate event id"))
    else if current_of s sessionID =? MaxUint64
    then (s, Err (ENew ErrSequenceExhausted))
    else
      let seq := u64 (current_of s sessionID + 1) in
      match Marshal (mkEvent eventType content) with
      | None => (s, Err (EWrap "kmtproto: encode event payload: " (EJson JMarshal)))
      | Some payload =>
          let event := mkEnvelope WireVersionV2 FrameEvent eventID sessionID seq timestamp payload in
          (mkReplayStore
             (<[sessionID := events_of s sessionID ++ [event]]> (mr_events s))
             (mr_floor s)
             (<[sessionID := seq]> (mr_current s))
             (<[sessionID := {[eventID]} ∪ ids_of s sessionID]> (mr_ids s)),
           Ok (copyEnvelope event))
      end.

(** The loop that counts the events to drop. *)
Fixpoint prune_loop (firstAvailableSeq : Z) (events : list Envelope) : list Envelope :=
  match events with
  | event :: rest => if e_Seq event <? firstAvailableSeq then prune_loop firstAvailableSeq rest else events
  | [] => []
  end.

Definition PruneBefore (s : MemoryReplayStore) (sessionID : string) (firstAvailableSeq : Z)
  : MemoryReplayStore :=
  let current := current_of s sessionID in
  let first :=
    if negb (current =? MaxUint64) && (u64 (current + 1) <? firstAvailableSeq)
    then u64 (current + 1) else firstAvailableSeq in
  mkReplayStore
    (<[sessionID := prune_loop first (events_of s sessionID)]> (mr_events s))
    (if floor_of s sessionID <? first then <[sessionID := first]> (mr_floor s) else mr_floor s)
    (mr_current s)
    (mr_ids s).
