(* ===== verification/StoreProps.v ===== *)
(** * What the memory stores guarantee

    The replay store keeps exactly the EVENTs from its floor to its current
    sequence and replays exactly the range asked for; the deduplication store
    gives an identity to one claimant only; sessions are never overwritten. *)

From Stdlib Require Import Ascii String.
From S2P Require Import Prelude Utf8 Json JsonText JsonPrint Types Codec Capability State StateWire Validate Store.
Open Scope string_scope.
Open Scope list_scope.
Open Scope go_scope.
Open Scope Z_scope.

(** ** The replay store *)

(** The first sequence still retained. *)
Definition first_of (s : MemoryReplayStore) (sid : string) : Z := Z.max 1 (floor_of s sid).

Definition session_log_ok (s : MemoryReplayStore) (sid : string) : Prop :=
  is_u64 (current_of s sid)
  ∧ 0 ≤ floor_of s sid ≤ Z.min (current_of s sid + 1) MaxUint64
  ∧ map e_Seq (events_of s sid) = seqZ (first_of s sid) (current_of s sid + 1 - first_of s sid)
  ∧ Forall (fun e => e_Type e = FrameEvent ∧ e_SessionID e = sid ∧ e_ID e ∈ ids_of s sid) (events_of s sid)
  ∧ NoDup (map e_ID (events_of s sid)).

Definition replay_inv (s : MemoryReplayStore) : Prop := ∀ sid, session_log_ok s sid.

Inductive ReplayOp :=
| OpAppend (sessionID eventID eventType content : string) (timestamp : Z)
| OpPruneBefore (sessionID : string) (firstAvailableSeq : Z).

Definition replay_op_typed (op : ReplayOp) : Prop :=
  match op with OpPruneBefore _ n => is_u64 n | _ => True end.

Definition replay_step (s : MemoryReplayStore) (op : ReplayOp) : MemoryReplayStore :=
  match op with
  | OpAppend sid id ty content ts => (Append s sid id ty content ts).1
  | OpPruneBefore sid n => PruneBefore s sid n
  end.

Inductive replay_reachable : MemoryReplayStore → Prop :=
| replay_new : replay_reachable NewMemoryReplayStore
| replay_next s op : replay_reachable s → replay_op_typed op → replay_reachable (replay_step s op).

Lemma replay_inv_new : replay_inv NewMemoryReplayStore.
Proof.
  intros sid. unfold session_log_ok, first_of, events_of, floor_of, current_of, ids_of. cbn.
  rewrite !lookup_empty. cbn. split_and!; try done; constructor.
Qed.

(** What a successful append does to its own session and to the others. *)
Lemma Append_Ok s sid id ty content ts s' e :
  Append s sid id ty content ts = (s', Ok e) →
  current_of s sid ≠ MaxUint64 ∧ id ∉ ids_of s sid
  ∧ e_Type e = FrameEvent ∧ e_SessionID e = sid ∧ e_ID e = id ∧ e_Seq e = u64 (current_of s sid + 1)
  ∧ e_Timestamp e = ts ∧ Marshal (mkEvent ty content) = Some (e_Payload e)
  ∧ events_of s' sid = events_of s sid ++ [e] ∧ floor_of s' sid = floor_of s sid
  ∧ current_of s' sid = u64 (current_of s sid + 1) ∧ ids_of s' sid = {[id]} ∪ ids_of s sid
  ∧ ∀ sid', sid' ≠ sid → events_of s' sid' = events_of s sid' ∧ floor_of s' sid' = floor_of s sid'
       ∧ current_of s' sid' = current_of s sid' ∧ ids_of s' sid' = ids_of s sid'.
Proof.
  unfold Append. destruct (_ || _); [by intros [=]|]. cbn.
  set (s0 := mkReplayStore _ _ _ _).
  assert (ids_of s0 sid = ids_of s sid) as Hids.
  { unfold ids_of at 1. cbn. by rewrite lookup_insert_eq. }
  rewrite Hids. case_bool_decide as Hnew; [by intros [=]|].
  change (current_of s0 sid) with (current_of s sid).
  destruct (Z.eqb_spec (current_of s sid) MaxUint64); [by intros [=]|].
  destruct (Marshal (mkEvent ty content)) as [payload|]; [|by intros [=]].
  rewrite copyEnvelope_id. intros [= <- <-]. cbn.
  unfold events_of, floor_of, current_of, ids_of; cbn. rewrite !lookup_insert_eq; cbn.
  split_and!; try done. intros sid' Hne. rewrite !lookup_insert_ne by congruence. done.
Qed.

(** A failed append changes nothing observable. *)
Lemma Append_Err s sid id ty content ts s' err :
  Append s sid id ty content ts = (s', Err err) →
  ∀ sid', events_of s' sid' = events_of s sid' ∧ floor_of s' sid' = floor_of s sid'
          ∧ current_of s' sid' = current_of s sid' ∧ ids_of s' sid' = ids_of s sid'.
Proof.
  unfold Append. destruct (_ || _); [by intros [= <- _]|]. cbn.
  set (s0 := mkReplayStore _ _ _ _). intros H sid'.
  assert (s' = s0) as ->.
  { destruct (bool_decide _); [by injection H|]. destruct (_ =? _); [by injection H|].
    destruct (Marshal _); [done|by injection H]. }
  split_and!; try done. unfold ids_of; cbn. rewrite lookup_insert. by destruct (decide (sid = sid')) as [->|].
Qed.

Lemma replay_inv_append s sid id ty content ts :
  replay_inv s → replay_inv (Append s sid id ty content ts).1.
Proof.
  intros Hs sid'. specialize (Hs sid') as Hs'. unfold session_log_ok, first_of in *.
  destruct (Append s sid id ty content ts) as [s' [e|err]] eqn:E; cbn.
  2:{ by destruct (Append_Err _ _ _ _ _ _ _ _ E sid') as (-> & -> & -> & ->). }
  destruct (Append_Ok _ _ _ _ _ _ _ _ E)
    as (Hmax & Hnew & Hty & Hsid & Hid & Hseq & _ & _ & He & Hf & Hc & Hi & Hoth).
  destruct (decide (sid' = sid)) as [->|Hne].
  2:{ by destruct (Hoth sid' Hne) as (-> & -> & -> & ->). }
  destruct Hs' as ((Hu0 & Hu1) & (Hf0 & Hf1) & Hlog & Hall & Hnd).
  rewrite u64_small in Hc, Hseq by (unfold is_u64; lia). rewrite He, Hf, Hc, Hi. split_and!.
  - unfold is_u64. lia.
  - lia.
  - lia.
  - rewrite map_app, Hlog. cbn. rewrite Hseq.
    replace (current_of s sid + 1 + 1 - Z.max 1 (floor_of s sid))
      with ((current_of s sid + 1 - Z.max 1 (floor_of s sid)) + 1) by lia.
    rewrite seqZ_snoc by lia. do 2 f_equal. lia.
  - apply Forall_app. split.
    + eapply Forall_impl; [done|]. intros x (? & ? & ?). set_solver.
    + repeat constructor; [done|done|set_solver].
  - rewrite map_app. apply NoDup_app. split_and!; [done| |apply NoDup_singleton].
    intros x Hx. cbn. rewrite list_elem_of_singleton, Hid. intros ->.
    apply list_elem_of_fmap in Hx as (y & Hy & Hin). rewrite Forall_forall in Hall.
    destruct (Hall y Hin) as (_ & _ & ?). rewrite <- Hy in H. done.
Qed.

Lemma prune_loop_spec n first len evs :
  map e_Seq evs = seqZ first len → 0 ≤ len →
  ∃ k, prune_loop n evs = drop k evs
       ∧ map e_Seq (prune_loop n evs)
         = seqZ (Z.max first (Z.min n (first + len))) (first + len - Z.max first (Z.min n (first + len))).
Proof.
  revert first len. induction evs as [|e evs IH]; intros first len H Hlen; cbn.
  { exists 0%nat. split; [done|]. cbn. apply (f_equal length) in H. cbn in H.
    rewrite length_seqZ in H. symmetry. apply length_zero_iff_nil. rewrite length_seqZ. lia. }
  assert (0 < len) by (apply (f_equal length) in H; rewrite length_seqZ in H; cbn in H; lia).
  rewrite seqZ_cons in H by lia. injection H as He Hs.
  destruct (Z.ltb_spec (e_Seq e) n) as [Hlt|Hge].
  - destruct (IH (Z.succ first) (Z.pred len) Hs ltac:(lia)) as (k & Hk & Hm).
    exists (S k). split; [done|]. rewrite Hm. f_equal; lia.
  - exists 0%nat. split; [done|].
    replace (Z.max first (Z.min n (first + len))) with first by lia.
    replace (first + len - first) with len by lia. cbn. rewrite seqZ_cons by lia. by f_equal.
Qed.

Lemma replay_inv_prune s sid n : replay_inv s → is_u64 n → replay_inv (PruneBefore s sid n).
Proof.
  intros Hs Hn sid'. specialize (Hs sid') as Hs'. unfold is_u64 in Hn.
  destruct (decide (sid' = sid)) as [->|Hne].
  2:{ unfold session_log_ok, first_of, events_of, floor_of, current_of, ids_of, PruneBefore in *. cbn.
      rewrite lookup_insert_ne by congruence. destruct (_ <? _); [|done].
      by rewrite lookup_insert_ne by congruence. }
  destruct Hs' as ((Hu0 & Hu1) & (Hf0 & Hf1) & Hlog & Hall & Hnd).
  unfold PruneBefore. set (cur := current_of s sid) in *. set (fl := floor_of s sid) in *.
  set (m := if negb (cur =? MaxUint64) && (u64 (cur + 1) <? n) then u64 (cur + 1) else n).
  assert (0 ≤ m ≤ Z.min (cur + 1) MaxUint64) as Hm.
  { unfold m. destruct (Z.eqb_spec cur MaxUint64); cbn; [lia|].
    rewrite u64_small by (unfold is_u64; lia). destruct (Z.ltb_spec (cur + 1) n); lia. }
  clearbody m. unfold session_log_ok, first_of in *.
  set (s' := mkReplayStore _ _ _ _).
  assert (current_of s' sid = cur ∧ ids_of s' sid = ids_of s sid
          ∧ events_of s' sid = prune_loop m (events_of s sid) ∧ floor_of s' sid = Z.max fl m)
    as (-> & -> & -> & ->).
  { unfold s', events_of, floor_of. cbn. rewrite lookup_insert_eq. split_and!; try done.
    fold (floor_of s sid) fl. destruct (Z.ltb_spec fl m); cbn.
    - rewrite lookup_insert_eq. cbn. lia.
    - change (default 0 (mr_floor s !! sid)) with fl. lia. }
  destruct (prune_loop_spec m _ _ _ Hlog ltac:(lia)) as (k & Hk & Hseq).
  split_and!; [unfold is_u64; lia|lia|lia| | |].
  - rewrite Hseq. fold fl. f_equal; lia.
  - rewrite Hk. by apply Forall_drop.
  - rewrite Hk. change (map e_ID (drop k ?l)) with (e_ID <$> drop k l). rewrite fmap_drop.
    eapply sublist_NoDup; [exact Hnd|apply sublist_drop].
Qed.

Lemma replay_reachable_inv s : replay_reachable s → replay_inv s.
Proof.
  induction 1 as [|s op _ IH Ht]; [apply replay_inv_new|]. destruct op; cbn.
  - by apply replay_inv_append.
  - by apply replay_inv_prune.
Qed.

(** ** Replay *)

Definition in_window (after through : Z) (e : Envelope) : bool :=
  (after <? e_Seq e) && (e_Seq e <=? through).
Definition window (after through : Z) (events : list Envelope) : list Envelope :=
  List.filter (in_window after through) events.

Section replay_spec.
Context {ST : StdText}.

Lemma replay_loop_Ok after through maxb total events out :
  total ≤ maxb →
  replay_loop after through maxb total events = Ok out ↔
  out = window after through events
  ∧ ∃ texts, mapM Marshal (window after through events) = Some texts ∧ total + texts_len texts ≤ maxb.
Proof.
  revert total out. induction events as [|e events IH]; intros total out Hle; cbn [replay_loop].
  { cbn. split; [intros [= <-]|by intros [-> _]]. split; [done|]. exists []. cbn. split; [done|lia]. }
  change ((after <? e_Seq e) && (e_Seq e <=? through)) with (in_window after through e).
  destruct (in_window after through e) eqn:Ew.
  2:{ rewrite IH by done. unfold window. cbn [List.filter]. by rewrite Ew. }
  unfold window. cbn [List.filter]. rewrite Ew. fold (window after through events). cbn [mapM].
  destruct (Marshal e) as [t|] eqn:Em; cbn.
  2:{ split; [done|]. intros (_ & texts & [=] & _). }
  pose proof (slen_nonneg t). destruct (Z.ltb_spec (maxb - total) (slen t)) as [Hbig|Hfit].
  { split; [done|]. intros (_ & texts & Hm & Hsum).
    destruct (mapM Marshal (window after through events)) as [ts|]; [|done]. injection Hm as <-.
    rewrite texts_len_cons in Hsum. pose proof (texts_len_nonneg ts). lia. }
  rewrite copyEnvelope_id, result_bind_Ok. setoid_rewrite (IH (total + slen t)); [|lia]. split.
  - intros (o & (-> & ts & Hts & Hsum) & [= <-]). split; [done|]. rewrite Hts.
    eexists. split; [done|]. rewrite texts_len_cons. lia.
  - intros (-> & texts & Hm & Hsum). eexists. split; [|done]. split; [done|].
    destruct (mapM Marshal (window after through events)) as [ts|]; [|done]. injection Hm as <-.
    exists ts. split; [done|]. rewrite texts_len_cons in Hsum. lia.
Qed.

Lemma window_seqs after through events first len :
  map e_Seq events = seqZ first len → 0 ≤ len →
  map e_Seq (window after through events)
  = seqZ (Z.max first (after + 1)) (Z.min (first + len) (through + 1) - Z.max first (after + 1)).
Proof.
  unfold window. revert first len. induction events as [|e events IH]; intros first len H Hlen; cbn.
  { apply (f_equal length) in H. cbn in H. rewrite length_seqZ in H. symmetry.
    apply length_zero_iff_nil. rewrite length_seqZ. lia. }
  assert (0 < len) by (apply (f_equal length) in H; rewrite length_seqZ in H; cbn in H; lia).
  rewrite seqZ_cons in H by lia. injection H as He Hs.
  specialize (IH (Z.succ first) (Z.pred len) Hs ltac:(lia)).
  unfold in_window at 1. rewrite He.
  destruct (Z.ltb_spec after first), (Z.leb_spec first through); cbn.
  - rewrite He, IH. rewrite (seqZ_cons (Z.max first (after + 1))) by lia. f_equal; [lia|]. f_equal; lia.
  - rewrite IH. rewrite !seqZ_nil by lia. done.
  - rewrite IH. f_equal; lia.
  - rewrite IH. rewrite !seqZ_nil by lia. done.
Qed.

(** When a replay succeeds, and what it returns. *)
Lemma Replay_Ok s sid after through limits out :
  session_log_ok s sid → is_u64 after → is_u64 through → 0 ≤ rl_MaxEvents limits →
  Replay s sid after through limits = Ok out ↔
  0 < rl_MaxEvents limits ∧ 0 < rl_MaxBytes limits ∧ after ≤ through
  ∧ through - after ≤ rl_MaxEvents limits
  ∧ first_of s sid - 1 ≤ after ∧ (after < through → through ≤ current_of s sid)
  ∧ out = window after through (events_of s sid)
  ∧ ∃ texts, mapM Marshal out = Some texts ∧ texts_len texts ≤ rl_MaxBytes limits.
Proof.
  intros ((Hu0 & Hu1) & (Hf0 & Hf1) & Hlog & _) [Ha0 Ha1] [Ht0 Ht1] HM.
  set (first := first_of s sid) in *. set (cur := current_of s sid) in *.
  assert (first = Z.max 1 (floor_of s sid)) as Hfirst by done.
  pose proof (window_seqs after through _ _ _ Hlog ltac:(lia)) as Hwin.
  apply (f_equal (fun l => Z.of_nat (length l))) in Hwin.
  rewrite length_map, length_seqZ in Hwin. split.
  - intros H. unfold Replay in H. inv_ok.
    apply orb_false_iff in H0 as [[H0a H0b]%orb_false_iff H0c]. bools.
    apply replay_loop_Ok in H3 as (-> & texts & Htexts & Hsum); [|lia].
    rewrite u64_small in H1 by (unfold is_u64; lia).
    assert (first - 1 ≤ after).
    { apply andb_false_iff in H2 as [H2|H2]; bools; lia. }
    split_and!; try done; try lia.
    + intros Hlt. apply andb_false_iff in H4 as [H4|H4]; bools; [lia|].
      rewrite u64_small in H4 by (unfold is_u64; lia). lia.
    + eauto.
  - intros (H1 & H2 & H3 & H4 & H5 & H6 & -> & texts & Htexts & Hsum). unfold Replay.
    rewrite (proj2 (Z.eqb_neq (rl_MaxEvents limits) 0)), (proj2 (Z.leb_gt (rl_MaxBytes limits) 0)),
      (proj2 (Z.ltb_ge through after)) by lia. cbn.
    rewrite u64_small by (unfold is_u64; lia).
    rewrite (proj2 (Z.ltb_ge (rl_MaxEvents limits) _)) by lia. cbn.
    assert ((0 <? floor_of s sid) && (after <? floor_of s sid - 1) = false) as ->.
    { apply andb_false_iff. destruct (Z.ltb_spec 0 (floor_of s sid)); [right|by left].
      apply Z.ltb_ge. lia. }
    cbn. rewrite (proj2 (replay_loop_Ok after through (rl_MaxBytes limits) 0 (events_of s sid)
      (window after through (events_of s sid)) ltac:(lia))); [|eauto].
    cbn. destruct (Z.ltb_spec after through); cbn; [|done].
    rewrite (proj2 (Z.eqb_eq _ _)) by lia. done.
Qed.
End replay_spec.

(** ** The guarantees of the replay store *)

(** C28. In every reachable replay store, Replay succeeds exactly when the
    limits are positive, the range (afterSeq, throughSeq] is no larger than
    they allow, it is completely retained (nothing of it pruned or not yet
    appended; an empty range must not start below the floor either), and its
    encoding fits the byte limit; it then returns the retained EVENTs of that
    Session with exactly those sequences, in order. *)
Theorem replay_exact {ST : StdText} s sid after through limits out :
  replay_reachable s → is_u64 after → is_u64 through → is_u64 (rl_MaxEvents limits) →
  Replay s sid after through limits = Ok out ↔
  0 < rl_MaxEvents limits ∧ 0 < rl_MaxBytes limits ∧ after ≤ through
  ∧ through - after ≤ rl_MaxEvents limits
  ∧ first_of s sid - 1 ≤ after ∧ (after < through → through ≤ CurrentSeq s sid)
  ∧ map e_Seq out = seqZ (after + 1) (through - after) ∧ out = window after through (events_of s sid)
  ∧ Forall (fun e => e_Type e = FrameEvent ∧ e_SessionID e = sid) out
  ∧ ∃ texts, mapM Marshal out = Some texts ∧ texts_len texts ≤ rl_MaxBytes limits.
Proof.
  intros Hs Ha Ht [HM _]. pose proof (replay_reachable_inv _ Hs sid) as Hok.
  rewrite Replay_Ok by done. destruct Hok as ((Hu0 & Hu1) & Hf & Hlog & Hall & _).
  split; [|naive_solver]. intros (H1 & H2 & H3 & H4 & H5 & H6 & -> & H8). split_and!; try done.
  - rewrite (window_seqs _ _ _ _ _ Hlog) by (unfold first_of in *; lia).
    destruct (decide (after = through)) as [->|]; [rewrite !seqZ_nil by lia; done|].
    specialize (H6 ltac:(lia)). f_equal; lia.
  - unfold window. apply Forall_forall. intros e [He _]%list_elem_of_In%filter_In.
    rewrite Forall_forall in Hall. destruct (Hall e) as (? & ? & _); [|done]. by apply list_elem_of_In.
Qed.

(** Append then replay: an appended EVENT takes the next sequence, the
    stream before it is untouched, and a replay from just before it returns
    exactly that EVENT, whenever the limits allow one EVENT of its size. *)
Theorem append_replay_roundtrip {ST : StdText} s sid id ty content ts s' e limits t :
  replay_reachable s → Append s sid id ty content ts = (s', Ok e) →
  is_u64 (rl_MaxEvents limits) → 0 < rl_MaxEvents limits → Marshal e = Some t → slen t ≤ rl_MaxBytes limits →
  0 < rl_MaxBytes limits →
  e_Seq e = CurrentSeq s sid + 1 ∧ CurrentSeq s' sid = e_Seq e
  ∧ events_of s' sid = events_of s sid ++ [e]
  ∧ Replay s' sid (CurrentSeq s sid) (CurrentSeq s' sid) limits = Ok [e].
Proof.
  intros Hs Happ Hu HM Ht Hfit HB. pose proof (replay_reachable_inv _ Hs sid) as Hok.
  pose proof (replay_inv_append s sid id ty content ts (replay_reachable_inv _ Hs) sid) as Hok'.
  rewrite Happ in Hok'. cbn in Hok'.
  destruct (Append_Ok _ _ _ _ _ _ _ _ Happ)
    as (Hmax & _ & _ & _ & _ & Hseq & _ & _ & He & Hf & Hc & _).
  destruct Hok as ((Hu0 & Hu1) & (Hf0 & Hf1) & Hlog & _).
  rewrite u64_small in Hseq, Hc by (unfold is_u64; lia).
  unfold CurrentSeq. rewrite Hc. split_and!; try done.
  apply Replay_Ok; [done|unfold is_u64; lia..|apply Hu|].
  assert (window (current_of s sid) (current_of s sid + 1) (events_of s' sid) = [e]) as Hw.
  { rewrite He. unfold window. rewrite List.filter_app. cbn.
    assert (List.filter (in_window (current_of s sid) (current_of s sid + 1)) (events_of s sid) = []) as ->.
    { apply (fmap_nil_inv e_Seq). change (e_Seq <$> ?l) with (map e_Seq l).
      change (List.filter (in_window ?a ?b) ?l) with (window a b l).
      rewrite (window_seqs _ _ _ _ _ Hlog) by (unfold first_of; lia). apply seqZ_nil. lia. }
    unfold in_window. rewrite Hseq, (proj2 (Z.ltb_lt _ _)), (proj2 (Z.leb_le _ _)) by lia. done. }
  unfold first_of. rewrite Hf, Hc, Hw. split_and!; try lia; [done|].
  exists [t]. cbn. rewrite Ht. split; [done|]. cbn. lia.
Qed.

Definition demo_replay : MemoryReplayStore :=
  (Append (Append NewMemoryReplayStore "s1" "e1" "t" (js "{'a': 1}") 5).1 "s1" "e2" "t" "null" 6).1.
Definition demo_limits : ReplayLimits := mkReplayLimits 10 1000.

Lemma demo_replay_reachable : replay_reachable demo_replay.
Proof.
  exact (replay_next _ (OpAppend "s1" "e2" "t" "null" 6)
    (replay_next _ (OpAppend "s1" "e1" "t" (js "{'a': 1}") 5) replay_new I) I).
Qed.

Lemma replay_exact_witness :
  ∃ out, Replay demo_replay "s1" 0 2 demo_limits = Ok out ∧ map e_Seq out = [1; 2].
Proof.
  destruct (Replay demo_replay "s1" 0 2 demo_limits) as [out|] eqn:E;
    [|vm_compute in E; discriminate].
  exists out. split; [reflexivity|].
  apply (replay_exact (ST:=demo_text) demo_replay "s1" 0 2 demo_limits out) in E as (_ & _ & _ & _ & _ & _ & H & _).
  - rewrite H. reflexivity.
  - exact demo_replay_reachable.
  - vm_compute. split; congruence.
  - vm_compute. split; congruence.
  - vm_compute. split; congruence.
Defined.

Lemma append_replay_roundtrip_witness :
  ∃ e, (Append demo_replay "s1" "e3" "t" "true" 7).2 = Ok e
       ∧ Replay (Append demo_replay "s1" "e3" "t" "true" 7).1 "s1" 2 3 demo_limits = Ok [e].
Proof.
  destruct (Append demo_replay "s1" "e3" "t" "true" 7) as [s' [e|]] eqn:E; [|vm_compute in E; discriminate].
  assert (CurrentSeq demo_replay "s1" = 2) as H2 by (vm_compute; reflexivity).
  destruct (Marshal e) as [t|] eqn:Et.
  - exists e. split; [reflexivity|].
    destruct (append_replay_roundtrip (ST:=demo_text) demo_replay "s1" "e3" "t" "true" 7 s' e demo_limits t)
      as (H & H' & _ & Hr).
    + exact demo_replay_reachable.
    + exact E.
    + vm_compute. split; congruence.
    + vm_compute. reflexivity.
    + exact Et.
    + vm_compute in E. injection E as <- <-. vm_compute in Et. injection Et as <-. vm_compute. congruence.
    + vm_compute. reflexivity.
    + rewrite H', H, H2 in Hr. exact Hr.
  - vm_compute in E. injection E as <- <-. vm_compute in Et. discriminate.
Defined.

(** ** The deduplication store *)

Definition nul_free (s : string) : Prop := str_forall (fun a => negb (byte_of a =? 0)) s = true.

Lemma nul_free_app s t : nul_free s → nul_free t → nul_free (s +++ t).
Proof. unfold nul_free. rewrite str_forall_app. by intros -> ->. Qed.

(** Validation refuses a NUL, like every control character. *)
Lemma valid_runes_nul_free s :
  utf8_ValidString s = true → existsb IsControl (range_runes s) = false → nul_free s.
Proof.
  unfold utf8_ValidString, range_runes. induction s as [s IH] using str_len_ind. intros Hv Hc.
  destruct s as [|a r]; [done|]. destruct (starts_encoding a r) eqn:E; [|rewrite segs_bad in Hv by done; discriminate].
  destruct (segs_good a r E) as (u & bs & t & Es & He & Hsegs & Hlen). rewrite Hsegs in Hv, Hc. cbn in Hv, Hc.
  apply orb_false_iff in Hc as [Hu Hc]. rewrite Es. apply nul_free_app; [|by apply IH].
  destruct (Z.le_gt_cases 0x80 u) as [Hhigh|Hlow].
  - eapply str_forall_impl; [|by eapply encoding_high]. intros b Hb. unfold high in Hb. lia.
  - destruct (encoding_ascii u bs He Hlow) as [-> H0]. unfold nul_free. cbn [str_forall]. rewrite byte_of_chr by lia.
    unfold IsControl, in_range in Hu. lia.
Qed.

Lemma frame_ids_nul_free {ST : StdText} f limits :
  ValidateEnvelope f limits = Ok tt → nul_free (e_SessionID f) ∧ nul_free (e_ID f).
Proof.
  assert (∀ s n b, validBoundedProtocolString s n b = true → nul_free s) as Hs.
  { intros s n b. unfold validBoundedProtocolString. destruct (_ || _) eqn:E; [done|]. intros Hc%negb_true_iff.
    apply orb_false_iff in E as [_ E]. apply valid_runes_nul_free; [by apply negb_false_iff|done]. }
  unfold ValidateEnvelope. intros H. do 3 apply result_bind_Ok in H as (_ & _ & H).
  apply result_bind_Ok in H as ([] & Hid & H). apply result_bind_Ok in H as ([] & Hsid & _). inv_ok. bools. eauto.
Qed.

Lemma dedupKey_inj s1 m1 s2 m2 :
  nul_free s1 → nul_free s2 → dedupKey s1 m1 = dedupKey s2 m2 → s1 = s2 ∧ m1 = m2.
Proof.
  unfold nul_free, dedupKey. revert s2. induction s1 as [|a s1 IH]; intros [|b s2]; cbn.
  - intros _ _ [= ->]. done.
  - intros _ Hb [= <- _]. done.
  - intros Ha _ [= -> _]. done.
  - intros [_ H1]%andb_true_iff [_ H2]%andb_true_iff [= -> H]. destruct (IH s2 H1 H2 H). by subst.
Qed.

Inductive DedupOp :=
| DClaim (now : time) (sessionID msgID : string) (fingerprint : SendFingerprint)
| DComplete (now : time) (sessionID msgID : string) (ack : option Envelope)
| DAbort (sessionID msgID : string).

Definition op_identity (op : DedupOp) : string * string :=
  match op with DClaim _ s m _ | DComplete _ s m _ | DAbort s m => (s, m) end.

(** Two identities share a record of the store exactly when their keys
    (session id, NUL, message id) are the same text. *)
Definition same_record (op : DedupOp) (id : string * string) : Prop :=
  dedupKey (op_identity op).1 (op_identity op).2 = dedupKey id.1 id.2.

#[export] Instance same_record_dec op id : Decision (same_record op id) := ltac:(unfold same_record; apply _).

(** For session ids without NUL ([frame_ids_nul_free]: those of all valid
    frames) that is equality of the identities. *)
Lemma same_record_identity op id :
  nul_free id.1 → nul_free (op_identity op).1 → same_record op id → op_identity op = id.
Proof. intros Hid Hop [H1 H2]%dedupKey_inj; [|done..]. by apply injective_projections. Qed.

Definition dedup_step (s : MemoryDedupStore) (op : DedupOp)
  : MemoryDedupStore * option (bool * option DedupRecord) :=
  match op with
  | DClaim now sid mid fp => let '(s', r) := Dedup_Claim s now sid mid fp in (s', Some r)
  | DComplete now sid mid ack => ((Dedup_Complete s now sid mid ack).1, None)
  | DAbort sid mid => (Dedup_Abort s sid mid, None)
  end.

(** The answers that Claims of one record get in a run. *)
Fixpoint claim_answers (id : string * string) (s : MemoryDedupStore) (ops : list DedupOp)
  : list (bool * option DedupRecord) :=
  match ops with
  | [] => []
  | op :: ops =>
      let '(s', r) := dedup_step s op in
      match r with
      | Some answer => if bool_decide (same_record op id) then [answer] else []
      | None => []
      end ++ claim_answers id s' ops
  end.

Definition entry_of (s : MemoryDedupStore) (id : string * string) : option memoryDedupEntry :=
  md_records s !! dedupKey id.1 id.2.

(** An operation on one record does not touch the others. *)
Lemma dedup_other s op id :
  ¬ same_record op id →
  entry_of (dedup_step s op).1 id = entry_of s id ∧ md_ttl (dedup_step s op).1 = md_ttl s.
Proof.
  unfold same_record. intros Hk. unfold entry_of.
  destruct op as [now sid mid fp|now sid mid ack|sid mid]; cbn in *.
  - unfold Dedup_Claim. destruct (md_records s !! dedupKey sid mid) as [entry|]; cbn.
    + destruct (_ || _); cbn; [done|]. by rewrite lookup_insert_ne.
    + by rewrite lookup_insert_ne.
  - unfold Dedup_Complete. destruct ack as [ack|]; [|done].
    destruct (md_records s !! dedupKey sid mid) as [entry|]; [|done].
    destruct (_ != _); [done|]. cbn. by rewrite lookup_insert_ne.
  - unfold Dedup_Abort. destruct (md_records s !! dedupKey sid mid) as [entry|]; [|done].
    destruct (_ == _); [|done]. cbn. by rewrite lookup_delete_ne.
Qed.

(** Operations that respect the retention horizon [T] of a record: its
    claims come before [T], its completion keeps it at least until [T], and
    nobody aborts it.  Operations on other records are not restricted. *)
Definition op_within (T : time) (ttl : Duration) (id : string * string) (op : DedupOp) : Prop :=
  same_record op id →
  match op with
  | DClaim now _ _ _ => now < T
  | DComplete now _ _ _ => T ≤ Time_Add now ttl
  | DAbort _ _ => False
  end.

(** Claim looks at an identity only through its key. *)
Lemma Dedup_Claim_key s now sid mid sid' mid' fp :
  dedupKey sid mid = dedupKey sid' mid' → Dedup_Claim s now sid mid fp = Dedup_Claim s now sid' mid' fp.
Proof. unfold Dedup_Claim. by intros ->. Qed.

(** The record is claimed with [fp], and not forgotten before [T]. *)
Definition owned (T : time) (id : string * string) (fp : SendFingerprint) (s : MemoryDedupStore) : Prop :=
  ∃ entry, entry_of s id = Some entry ∧ dr_Fingerprint (de_record entry) = fp
           ∧ (dr_State (de_record entry) = DedupProcessing ∨ T ≤ de_expiresAt entry).

Lemma owned_claim T id fp s now fp' :
  owned T id fp s → now < T →
  ∃ r, Dedup_Claim s now id.1 id.2 fp' = (s, (false, Some r)) ∧ dr_Fingerprint r = fp.
Proof.
  intros (entry & He & Hfp & Hlive) Hnow. unfold entry_of in He. unfold Dedup_Claim. rewrite He.
  assert ((dr_State (de_record entry) == DedupProcessing) || (now <? de_expiresAt entry) = true) as ->.
  { apply orb_true_iff. destruct Hlive as [->|]; [by left|right; apply Z.ltb_lt; lia]. }
  eexists. split; [done|]. done.
Qed.

Lemma owned_step T id fp s op :
  owned T id fp s → op_within T (md_ttl s) id op →
  owned T id fp (dedup_step s op).1 ∧ md_ttl (dedup_step s op).1 = md_ttl s
  ∧ (same_record op id → ∀ answer, (dedup_step s op).2 = Some answer →
       answer.1 = false ∧ ∃ r, answer.2 = Some r ∧ dr_Fingerprint r = fp).
Proof.
  intros Hown Hwithin. destruct (decide (same_record op id)) as [E|Hne].
  2:{ destruct (dedup_other s op id Hne) as [H1 H2].
      split_and!; [|done|done]. unfold owned. by rewrite H1. }
  specialize (Hwithin E). unfold same_record in E.
  destruct op as [now sid mid fp'|now sid mid ack|sid mid]; cbn in *.
  - destruct (owned_claim T id fp s now fp' Hown Hwithin) as (r & Hc & Hr).
    rewrite (Dedup_Claim_key _ _ _ _ _ _ _ E), Hc. cbn. split_and!; [done..|]. intros _ answer [= <-]. cbn. eauto.
  - destruct Hown as (entry & He & Hfp & Hlive). unfold entry_of in He. rewrite <- E in He.
    unfold Dedup_Complete. destruct ack as [ack|]; [|by split_and!; [exists entry; unfold entry_of; rewrite <- E|done|]].
    rewrite He. case_bool_decide as Hst; cbn;
      [|by split_and!; [exists entry; unfold entry_of; rewrite <- E|done|]].
    split_and!; [|done|done]. unfold owned, entry_of. cbn. rewrite E, lookup_insert_eq.
    eexists. split; [done|]. cbn. auto.
  - done.
Qed.

Lemma claim_owned T s now sid mid fp :
  (Dedup_Claim s now sid mid fp).2.1 = true →
  owned T (sid, mid) fp (Dedup_Claim s now sid mid fp).1 ∧ md_ttl (Dedup_Claim s now sid mid fp).1 = md_ttl s.
Proof.
  unfold Dedup_Claim, owned, entry_of. cbn.
  destruct (md_records s !! dedupKey sid mid) as [entry|]; [destruct (_ || _); [done|]|];
    intros _; cbn; rewrite lookup_insert_eq; (split; [|done]); eexists; split; auto.
Qed.

Lemma owned_answers T id fp ops s :
  owned T id fp s → Forall (op_within T (md_ttl s) id) ops →
  Forall (fun answer => answer.1 = false ∧ ∃ r, answer.2 = Some r ∧ dr_Fingerprint r = fp)
    (claim_answers id s ops).
Proof.
  revert s. induction ops as [|op ops IH]; intros s Hown Hops; cbn; [constructor|].
  apply Forall_cons in Hops as [Hop Hops].
  destruct (owned_step T id fp s op Hown Hop) as (Hown' & Httl & Hans).
  destruct (dedup_step s op) as [s1 r]. cbn in *. apply Forall_app. split; [|apply IH; by rewrite ?Httl].
  destruct r as [answer|]; [|constructor]. case_bool_decide; [|constructor].
  repeat constructor; by apply Hans.
Qed.

(** C27. One owner per message: once a Claim of an identity has succeeded, then
    as long as the claims of its record fall inside the retention horizon,
    its completion is kept at least that long and nobody aborts it, every
    further Claim of the record is refused and reports the fingerprint of
    the owner, whatever happens to other records in between (they are not
    restricted in any way).  Identities share a record exactly when their
    keys, session id + NUL + message id, are the same text: operations under
    another identity with that key count as operations on the record.  The
    last part says when there is no such identity: if neither session id
    contains a NUL, which holds of every valid frame ([frame_ids_nul_free]),
    an operation on the record is one of the identity itself. *)
Theorem dedup_single_owner s now sid mid fp T ops :
  (Dedup_Claim s now sid mid fp).2.1 = true →
  Forall (op_within T (md_ttl s) (sid, mid)) ops →
  Forall (fun answer => answer.1 = false ∧ ∃ r, answer.2 = Some r ∧ dr_Fingerprint r = fp)
    (claim_answers (sid, mid) (Dedup_Claim s now sid mid fp).1 ops)
  ∧ ∀ op, nul_free sid → nul_free (op_identity op).1 →
      same_record op (sid, mid) ↔ op_identity op = (sid, mid).
Proof.
  intros Hclaim Hops. destruct (claim_owned T _ _ _ _ _ Hclaim) as [Hown Httl]. split.
  - eapply owned_answers; [exact Hown|]. by rewrite Httl.
  - intros op Hsid Hop. split; [by apply same_record_identity|]. unfold same_record. by intros ->.
Qed.

(** The keys of two identities do coincide when a session id contains a NUL:
    an Abort under one of them then frees the claim made under the other. *)
Definition nul : string := String (chr 0) "".

Example dedup_key_collision :
  let claimed := (Dedup_Claim (NewMemoryDedupStore (10 * Second)) 1 ("a" +++ nul +++ "b") "c" "f1").1 in
  (Dedup_Claim claimed 2 "a" ("b" +++ nul +++ "c") "f2").2.1 = false
  ∧ (Dedup_Claim (Dedup_Abort claimed "a" ("b" +++ nul +++ "c")) 2 ("a" +++ nul +++ "b") "c" "f1").2.1 = true.
Proof. vm_compute. done. Qed.

(** A completed message always gets the same answer: until the retention
    of its record ends, every Claim of it is refused and returns the very ACK
    it was completed with, whatever other calls (aborts and further
    completions included) are made. *)
Theorem dedup_same_ack s now sid mid ack s' entry ops :
  Dedup_Complete s now sid mid (Some ack) = (s', None) →
  entry_of s (sid, mid) = Some entry →
  Forall (fun op =>
    match op with
    | DClaim now' _ _ _ => same_record op (sid, mid) → now' < Time_Add now (md_ttl s)
    | _ => True
    end) ops →
  Forall (fun answer => answer = (false, Some (mkDedupRecord DedupCompleted
            (dr_Fingerprint (de_record entry)) (Some ack))))
    (claim_answers (sid, mid) s' ops).
Proof.
  intros Hcomp Hentry Hops.
  set (fp := dr_Fingerprint (de_record entry)). set (T := Time_Add now (md_ttl s)) in *.
  assert (entry_of s' (sid, mid) = Some (mkDedupEntry (mkDedupRecord DedupCompleted fp (Some ack)) T)) as He.
  { unfold Dedup_Complete in Hcomp. unfold entry_of in *. cbn in *. rewrite Hentry in Hcomp.
    destruct (_ != _); [done|]. injection Hcomp as <-. cbn. by rewrite lookup_insert_eq, copyEnvelope_id. }
  clear Hcomp Hentry. revert s' He. induction ops as [|op ops IH]; intros s' He; cbn; [constructor|].
  apply Forall_cons in Hops as [Hnow Hops].
  assert (entry_of (dedup_step s' op).1 (sid, mid)
          = Some (mkDedupEntry (mkDedupRecord DedupCompleted fp (Some ack)) T)
          ∧ (same_record op (sid, mid) → ∀ answer, (dedup_step s' op).2 = Some answer →
               answer = (false, Some (mkDedupRecord DedupCompleted fp (Some ack))))) as [He' Hans].
  { destruct (decide (same_record op (sid, mid))) as [E|Hne].
    2:{ destruct (dedup_other s' op (sid, mid) Hne) as [-> _]. done. }
    unfold entry_of, same_record in *. cbn in He.
    destruct op as [now' sid' mid' fp'|now' sid' mid' ack'|sid' mid']; cbn in *.
    - rewrite (Dedup_Claim_key _ _ _ _ _ _ _ E). unfold Dedup_Claim. rewrite He. cbn.
      rewrite (proj2 (Z.ltb_lt _ _)) by (by apply Hnow).
      cbn. split; [done|]. intros _ answer [= <-]. by rewrite copyEnvelope_id.
    - unfold Dedup_Complete. destruct ack'; [|done]. rewrite E, He. done.
    - unfold Dedup_Abort. rewrite E, He. done. }
  destruct (dedup_step s' op) as [s1 r]. cbn in *. apply Forall_app. split; [|by apply IH].
  destruct r as [answer|]; [|constructor]. case_bool_decide; [|constructor].
  repeat constructor; by apply Hans.
Qed.

Definition demo_dedup : MemoryDedupStore := NewMemoryDedupStore (10 * Second).
Definition demo_ack : Envelope := mkEnvelope WireVersionV2 FrameAck "" "s1" 0 3 (js "{'ref_id':'m1'}").
Definition demo_dedup_ops : list DedupOp :=
  [DClaim 2 "s1" "m1" "f7"; DComplete 3 "s1" "m1" (Some demo_ack); DClaim 4 "s1" "m2" "f8";
   DClaim 5 "s1" "m1" "f9"].

Lemma dedup_single_owner_witness :
  Forall (fun answer => answer.1 = false ∧ ∃ r, answer.2 = Some r ∧ dr_Fingerprint r = "f7")
    (claim_answers ("s1", "m1") (Dedup_Claim demo_dedup 1 "s1" "m1" "f7").1 demo_dedup_ops).
Proof.
  apply (dedup_single_owner demo_dedup 1 "s1" "m1" "f7" (10 * Second)).
  - vm_compute. reflexivity.
  - repeat constructor; vm_compute; congruence.
Defined.

Lemma dedup_same_ack_witness :
  Forall (fun answer => answer = (false, Some (mkDedupRecord DedupCompleted "f7" (Some demo_ack))))
    (claim_answers ("s1", "m1")
       (Dedup_Complete (Dedup_Claim demo_dedup 1 "s1" "m1" "f7").1 3 "s1" "m1" (Some demo_ack)).1
       [DAbort "s1" "m1"; DClaim 5 "s1" "m1" "f9"]).
Proof.
  apply (dedup_same_ack (Dedup_Claim demo_dedup 1 "s1" "m1" "f7").1 3 "s1" "m1" demo_ack _
    (mkDedupEntry (mkDedupRecord DedupProcessing "f7" None) (Time_Add 1 (10 * Second)))).
  - vm_compute. reflexivity.
  - vm_compute. reflexivity.
  - repeat constructor; vm_compute; congruence.
Defined.

(** ** Sessions *)

(** A session is created once and never altered: creating an existing id
    fails, and through any later creations a lookup returns the state it was
    created with, exactly until its expiry. *)
Theorem session_immutable sessions state sessions' states now :
  Session_Create sessions state = (sessions', None) →
  let final := foldl (fun ss st => (Session_Create ss st).1) sessions' states in
  Session_Lookup final (ss_SessionID state) now
  = (if now <? ss_ExpiresAt state then Some state else None)
  ∧ ∀ other, ss_SessionID other = ss_SessionID state → (Session_Create final other).2 ≠ None.
Proof.
  intros Hc final.
  assert (∀ m st, m !! ss_SessionID state = Some state →
            (Session_Create m st).1 !! ss_SessionID state = Some state) as Hkeep.
  { intros m st Hm. unfold Session_Create. destruct (_ || _); [done|].
    destruct (m !! ss_SessionID st) eqn:E; [done|]. cbn.
    rewrite lookup_insert_ne; [done|]. intros Heq. congruence. }
  assert (final !! ss_SessionID state = Some state) as Hf.
  { assert (sessions' !! ss_SessionID state = Some state) as H0.
    { unfold Session_Create in Hc. destruct (_ || _); [done|].
      destruct (sessions !! _); [done|]. injection Hc as <-. apply lookup_insert_eq. }
    unfold final. clear final Hc. revert sessions' H0.
    induction states as [|st states IH]; intros m H0; cbn; auto. }
  split; [unfold Session_Lookup; by rewrite Hf|].
  intros other Hid. unfold Session_Create. rewrite Hid, Hf. by destruct (_ || _).
Qed.

Lemma session_immutable_witness :
  Session_Lookup (Session_Create ∅ (mkSessionState "s1" 100 zeroCapabilities)).1 "s1" 99
  = Some (mkSessionState "s1" 100 zeroCapabilities).
Proof.
  destruct (session_immutable ∅ (mkSessionState "s1" 100 zeroCapabilities)
    (Session_Create ∅ (mkSessionState "s1" 100 zeroCapabilities)).1 [] 99) as [H _].
  - vm_compute. reflexivity.
  - exact H.
Defined.
