(* ===== verification/Client.v ===== *)
(** * The client state machine (client.go)

    [ClientProtocol] and every method of it.  A method holds the mutex for
    its whole body, so each is one atomic transition: a function from the
    state before to the state after and what it returns.  The clock reading
    a method takes before locking is its argument [now]. *)

From Stdlib Require Import Ascii String.
From S2P Require Import Prelude Utf8 Json Types Codec Capability State Validate.
Open Scope string_scope.
Open Scope list_scope.
Open Scope go_scope.
Open Scope Z_scope.

(** ** Helpers of client.go *)

(** [sortStrings]: insertion sort by adjacent exchanges, in place. *)
Fixpoint sort_inner (j : nat) (values : list string) : list string :=
  match j with
  | O => values
  | S j' =>
      match values !! j, values !! j' with
      | Some a, Some b =>
          if a <s b then sort_inner j' (<[j := b]> (<[j' := a]> values)) else values
      | _, _ => values
      end
  end.
Fixpoint sort_outer (n i : nat) (values : list string) : list string :=
  match n with
  | O => values
  | S n => sort_outer n (S i) (sort_inner i values)
  end.
Definition sortStrings (values : list string) : list string :=
  sort_outer (length values - 1) 1 values.

Fixpoint equalStrings (ls rs : list string) : bool :=
  match ls, rs with
  | [], [] => true
  | x :: ls, y :: rs => (x == y) && equalStrings ls rs
  | _, _ => false
  end.

Definition replayEventBytes (frame : Envelope) : Z :=
  slen (e_ID frame) + slen (e_SessionID frame) + slen (e_Payload frame) + 32.
Definition stateObjectBytes (object : StateObject) : Z :=
  slen (so_Namespace object) + slen (so_ObjectID object) + slen (so_Data object) + 8.
Definition cloneStateQueryPayload (p : StateQueryPayload) : StateQueryPayload :=
  mkStateQuery (sq_Namespace p) (sq_ObjectIDs p).

(** ** Configuration and state *)

Record ClientConfig := mkClientConfig {
  cc_Limits : Limits;
  cc_Capabilities : list CapabilityOffer;
  cc_HeartbeatTimeout : Duration;
  cc_DisconnectGrace : Duration;
  cc_StrictValidation : bool;
  cc_MaxReplayEvents : Z;
  cc_MaxReplayBytes : Z;
  cc_EventIdentityWindow : Z;
  cc_MaxStateObjects : Z;
  cc_MaxStateBytes : Z
}.

Definition DefaultClientConfig : ClientConfig :=
  mkClientConfig DefaultLimits [] (20 * Second) (10 * Second) true DefaultMaxReplayEvents
    DefaultMaxReplayBytes DefaultEventIdentityWindow DefaultMaxStateCacheObjects
    DefaultMaxStateCacheBytes.

Record PendingPing := mkPendingPing {
  pp_ID : string;
  pp_SentAt : time;
  pp_Generation : ConnectionGeneration
}.

Record ClientProtocol := mkClient {
  c_config : ClientConfig;
  c_state : ConnectionState;
  c_generation : ConnectionGeneration;
  c_sessionID : string;
  c_lastSeq : Z;
  c_eventIDs : gmap Z string;
  c_outbox : gmap string Envelope;
  c_pendingPing : option PendingPing;
  c_suspectAt : time;
  c_capabilities : SessionCapabilities;
  c_stateObjects : gmap (string * string) StateObject;
  c_stateBytes : Z;
  c_stateQueries : gmap string StateQueryPayload;
  c_replayTo : Z;
  c_replayBuffer : list Envelope;
  c_replayBytes : Z;
  c_resumeStateNamespaces : list string;
  c_resumeEventsComplete : bool;
  c_gapResume : bool
}.
#[export] Instance ClientProtocol_eta : Eta ClientProtocol := fun c =>
  mkClient (c_config c) (c_state c) (c_generation c) (c_sessionID c) (c_lastSeq c)
    (c_eventIDs c) (c_outbox c) (c_pendingPing c) (c_suspectAt c) (c_capabilities c)
    (c_stateObjects c) (c_stateBytes c) (c_stateQueries c) (c_replayTo c) (c_replayBuffer c)
    (c_replayBytes c) (c_resumeStateNamespaces c) (c_resumeEventsComplete c) (c_gapResume c).

(** Early return with an error, leaving the given state behind. *)
Definition or_return {S A B} (c : S) (r : res A) (k : A → S * res B) : S * res B :=
  match r with Ok a => k a | Err e => (c, Err e) end.
Notation "'let?' x := r 'at' c 'in' k" := (or_return c r (fun x => k))
  (at level 10, x name, k at level 200) : go_scope.

Section client.
Context {ST : StdText}.

Definition NewClientProtocol (config : ClientConfig) : res ClientProtocol :=
  let limits := normalizeLimits (cc_Limits config) in
  _ ← validateLimits limits;
  offers ← map_err (EWrap "kmtproto: invalid client capabilities: ")
             (validateAndCopyCapabilityOffers (cc_Capabilities config) limits);
  _ ← map_err (EWrap "kmtproto: invalid client capabilities: ")
        (validateImplementedCapabilityOffers offers);
  let config := mkClientConfig limits offers (cc_HeartbeatTimeout config) (cc_DisconnectGrace config)
    (cc_StrictValidation config)
    (or_default (cc_MaxReplayEvents config) DefaultMaxReplayEvents)
    (or_default (cc_MaxReplayBytes config) DefaultMaxReplayBytes)
    (or_default (cc_EventIdentityWindow config) DefaultEventIdentityWindow)
    (or_default (cc_MaxStateObjects config) DefaultMaxStateCacheObjects)
    (or_default (cc_MaxStateBytes config) DefaultMaxStateCacheBytes) in
  _ ← guard_err ((cc_HeartbeatTimeout config <=? 0) || (cc_DisconnectGrace config <=? 0))
        (ENew "kmtproto: heartbeat durations must be positive");
  _ ← guard_err ((cc_MaxReplayBytes config <? 0) || (cc_MaxStateObjects config <? 0)
                 || (cc_MaxStateBytes config <? 0))
        (ENew "kmtproto: replay and State limits must be positive");
  Ok (mkClient config StateDisconnected 0 "" 0 ∅ ∅ None zeroTime zeroCapabilities ∅ 0 ∅ 0 [] 0 []
        false false).

(** ** Observers *)

Definition Client_State (c : ClientProtocol) : ConnectionState := c_state c.
Definition Client_Generation (c : ClientProtocol) : ConnectionGeneration := c_generation c.
Definition Client_SessionID (c : ClientProtocol) : string := c_sessionID c.
Definition Client_LastSeq (c : ClientProtocol) : Z := c_lastSeq c.
Definition Capabilities (c : ClientProtocol) : list NegotiatedCapability :=
  sc_List (c_capabilities c).
Definition Client_CapabilityEnabled (c : ClientProtocol) (name : string) : bool :=
  sc_Enabled (c_capabilities c) name.
Definition Client_CapabilityVersion (c : ClientProtocol) (name : string) : option Z :=
  sc_Version (c_capabilities c) name.
Definition StateObject_of (c : ClientProtocol) (namespace objectID : string) : option StateObject :=
  cloneStateObject <$> c_stateObjects c !! (namespace, objectID).

(** ** Internal transitions *)

(** The assignments of [resetConnectionTransientLocked], together with the
    state, namespaces and gap flag its callers assign before or after it. *)
Definition resetTo (c : ClientProtocol) (state : ConnectionState) (namespaces : list string)
    (gap : bool) : ClientProtocol :=
  {| c_config := c_config c; c_state := state; c_generation := c_generation c;
     c_sessionID := c_sessionID c; c_lastSeq := c_lastSeq c; c_eventIDs := c_eventIDs c;
     c_outbox := c_outbox c; c_pendingPing := None; c_suspectAt := zeroTime;
     c_capabilities := c_capabilities c; c_stateObjects := c_stateObjects c;
     c_stateBytes := c_stateBytes c; c_stateQueries := ∅; c_replayTo := 0;
     c_replayBuffer := []; c_replayBytes := 0; c_resumeStateNamespaces := namespaces;
     c_resumeEventsComplete := false; c_gapResume := gap |}.

Definition resetConnectionTransientLocked (c : ClientProtocol) : ClientProtocol :=
  resetTo c (c_state c) [] false.
(** [c.state = StateDisconnected] followed by the reset. *)
Definition disconnectLocked (c : ClientProtocol) : ClientProtocol :=
  resetTo c StateDisconnected [] false.
(** The reset followed by [c.state = StateReady]. *)
Definition readyLocked (c : ClientProtocol) : ClientProtocol := resetTo c StateReady [] false.

Definition beginRecoveryLocked (c : ClientProtocol) (namespaces : list string) (gap : bool)
  : ClientProtocol := resetTo c StateResuming namespaces gap.

Definition resumeFrameLocked (c : ClientProtocol) (namespaces : list string) (now : time) : Envelope :=
  let sync := if 0 <? Z.of_nat (length namespaces) then Some (mkResumeStateSync namespaces) else None in
  mkEnvelope WireVersionV2 FrameResume "" (c_sessionID c) 0 (UnixMilli now)
    (mustPayload (mkResume (c_lastSeq c) sync)).

Definition rememberEventLocked (c : ClientProtocol) (seq : Z) (eventID : string) : ClientProtocol :=
  let ids := <[seq := eventID]> (c_eventIDs c) in
  let window := cc_EventIdentityWindow (c_config c) in
  c <| c_eventIDs := if window <? seq then delete (seq - window) ids else ids |>.

Definition stopReplayLocked (c : ClientProtocol) (reason : string) : ClientProtocol * list Action :=
  (disconnectLocked c,
   [ProtocolErrorAction (mkError ErrorSyncRequired reason "" false);
    FullSyncRequiredAction (c_sessionID c);
    CloseConnectionAction reason]).

Definition stopStateResumeLocked (c : ClientProtocol) (reason : string)
  : ClientProtocol * list Action :=
  (disconnectLocked c,
   [ProtocolErrorAction (mkError ErrorStateSyncRequired reason "" false);
    FullSyncRequiredAction (c_sessionID c);
    CloseConnectionAction reason]).

Definition handleIncomingFailureLocked (c : ClientProtocol) (err : goerror)
  : ClientProtocol * res (list Action) :=
  if c_state c != StateResuming then (c, Err err)
  else
    let reason := "resume failed: " +++ err_Error err in
    let '(c', actions) :=
      if 0 <? Z.of_nat (length (c_resumeStateNamespaces c))
      then stopStateResumeLocked c reason else stopReplayLocked c reason in
    (c', Ok actions).

Definition abandonSessionLocked (c : ClientProtocol) : ClientProtocol :=
  {| c_config := c_config c; c_state := StateDisconnected; c_generation := c_generation c;
     c_sessionID := EmptyString; c_lastSeq := 0; c_eventIDs := ∅; c_outbox := ∅; c_pendingPing := None;
     c_suspectAt := zeroTime; c_capabilities := zeroCapabilities; c_stateObjects := ∅;
     c_stateBytes := 0; c_stateQueries := ∅; c_replayTo := 0; c_replayBuffer := [];
     c_replayBytes := 0; c_resumeStateNamespaces := []; c_resumeEventsComplete := false;
     c_gapResume := false |}.

(** The delivery loop shared by the two ways a replay completes. *)
Definition deliverReplay (c : ClientProtocol) : ClientProtocol * list Action :=
  foldl (fun '(c, actions) event =>
           (rememberEventLocked (c <| c_lastSeq := e_Seq event |>) (e_Seq event) (e_ID event),
            actions ++ [DeliverEventAction (copyEnvelope event)]))
    (c, []) (c_replayBuffer c).

Fixpoint apply_loop (config : ClientConfig) (next : gmap (string * string) StateObject)
    (nextBytes : Z) (objects : list StateObject)
  : res (gmap (string * string) StateObject * Z * list Action) :=
  match objects with
  | [] => Ok (next, nextBytes, [])
  | incoming :: objects =>
      let identity := Identity incoming in
      let current := next !! identity in
      match ApplyStateObject current incoming (cc_Limits config) with
      | (_, _, Some err) =>
          if errors_Is err ErrStateStale || errors_Is err ErrStateConflict
          then Err (newProtocolErrorWithCause ErrorInvalidStateVersion
                      "State version is stale or conflicting" err)
          else Err err
      | (committed, result, None) =>
          if bool_decide (result = Some StateApplyDuplicate) then
            apply_loop config next nextBytes objects
          else
            _ ← guard_err (bool_decide (current = None)
                           && (cc_MaxStateObjects config <? Z.of_nat (size next) + 1))
                  (NewProtocolError ErrorSyncRequired "State cache exceeds configured object limit");
            let nextBytes := nextBytes - (match current with Some o => stateObjectBytes o | None => 0 end)
                             + stateObjectBytes committed in
            _ ← guard_err (cc_MaxStateBytes config <? nextBytes)
                  (NewProtocolError ErrorSyncRequired "State cache exceeds configured byte limit");
            '(next, nextBytes, actions) ←
              apply_loop config (<[identity := committed]> next) nextBytes objects;
            Ok (next, nextBytes,
                StateChangedAction (cloneStateObject committed) (default StateApplyApplied result)
                  :: actions)
      end
  end.

Definition applyStateObjectsLocked (c : ClientProtocol) (objects : list StateObject)
  : ClientProtocol * res (list Action) :=
  let? r := apply_loop (c_config c) (c_stateObjects c) (c_stateBytes c) objects at c in
  let '(next, nextBytes, actions) := r in
  (c <| c_stateObjects := next |> <| c_stateBytes := nextBytes |>, Ok actions).

(** The assignments of [handleWelcomeLocked] for a new Session and for the
    fixed bounds of a replay. *)
Definition establishSession (c : ClientProtocol) (sessionID : string)
    (capabilities : SessionCapabilities) : ClientProtocol :=
  {| c_config := c_config c; c_state := StateReady; c_generation := c_generation c;
     c_sessionID := sessionID; c_lastSeq := c_lastSeq c; c_eventIDs := c_eventIDs c;
     c_outbox := c_outbox c; c_pendingPing := c_pendingPing c; c_suspectAt := c_suspectAt c;
     c_capabilities := capabilities; c_stateObjects := c_stateObjects c;
     c_stateBytes := c_stateBytes c; c_stateQueries := c_stateQueries c;
     c_replayTo := c_replayTo c; c_replayBuffer := c_replayBuffer c;
     c_replayBytes := c_replayBytes c; c_resumeStateNamespaces := c_resumeStateNamespaces c;
     c_resumeEventsComplete := c_resumeEventsComplete c; c_gapResume := c_gapResume c |}.
Definition fixReplayBounds (c : ClientProtocol) (replayTo : Z) : ClientProtocol :=
  {| c_config := c_config c; c_state := c_state c; c_generation := c_generation c;
     c_sessionID := c_sessionID c; c_lastSeq := c_lastSeq c; c_eventIDs := c_eventIDs c;
     c_outbox := c_outbox c; c_pendingPing := c_pendingPing c; c_suspectAt := c_suspectAt c;
     c_capabilities := c_capabilities c; c_stateObjects := c_stateObjects c;
     c_stateBytes := c_stateBytes c; c_stateQueries := c_stateQueries c;
     c_replayTo := replayTo; c_replayBuffer := []; c_replayBytes := 0;
     c_resumeStateNamespaces := c_resumeStateNamespaces c;
     c_resumeEventsComplete := replayTo =? c_lastSeq c; c_gapResume := false |}.

(** ** Connection lifecycle *)

Definition BeginConnect (c : ClientProtocol) : ClientProtocol * ConnectionGeneration :=
  let c := c <| c_generation := u64 (c_generation c + 1) |> in
  let c := resetTo c StateConnecting [] false in
  (c, c_generation c).

Definition TransportConnected (c : ClientProtocol) (generation : ConnectionGeneration)
  : ClientProtocol * res unit :=
  if negb (generation =? c_generation c) then (c, Err ErrStaleConnection)
  else if c_state c != StateConnecting then (c, Err ErrInvalidState)
  else (c <| c_state := StateConnected |>, Ok tt).

Definition StartSession (c : ClientProtocol) (generation : ConnectionGeneration) (clientName : string)
  : ClientProtocol * res (list Action) :=
  if negb (generation =? c_generation c) then (c, Err ErrStaleConnection)
  else if (c_state c != StateConnected) || (c_sessionID c != "") then (c, Err ErrInvalidState)
  else
    let frame := mkEnvelope WireVersionV2 FrameHello "" "" 0 0
      (mustPayload (mkHello clientName (cloneCapabilityOffers (cc_Capabilities (c_config c))))) in
    let? _ := validateOutboundFrame frame (cc_Limits (c_config c)) (cc_StrictValidation (c_config c)) at c in
    (c <| c_state := StateHandshaking |>, Ok [SendFrameAction frame]).

Definition startResumeLocked (c : ClientProtocol) (generation : ConnectionGeneration)
    (namespaces : list string) (now : time) : ClientProtocol * res (list Action) :=
  if negb (generation =? c_generation c) then (c, Err ErrStaleConnection)
  else if (c_state c != StateConnected) || (c_sessionID c == "") then (c, Err ErrInvalidState)
  else
    let frame := resumeFrameLocked c namespaces now in
    let? _ := validateOutboundFrame frame (cc_Limits (c_config c)) (cc_StrictValidation (c_config c)) at c in
    (beginRecoveryLocked c namespaces false, Ok [SendFrameAction frame]).

Definition Resume (c : ClientProtocol) (generation : ConnectionGeneration) (now : time)
  : ClientProtocol * res (list Action) :=
  startResumeLocked c generation [] now.

Definition ResumeWithState (c : ClientProtocol) (generation : ConnectionGeneration)
    (namespaces : list string) (now : time) : ClientProtocol * res (list Action) :=
  if negb (generation =? c_generation c) then (c, Err ErrStaleConnection)
  else if negb (stateSyncEnabled (c_capabilities c)) then
    (c, Err (NewProtocolError ErrorProtocolViolation
               "state-sync capability version 1 was not negotiated"))
  else
    let canonical := sortStrings namespaces in
    let? _ := validateResumeStateSync (mkResumeStateSync canonical) (cc_Limits (c_config c)) at c in
    startResumeLocked c generation canonical now.

Definition Disconnect (c : ClientProtocol) (generation : ConnectionGeneration)
  : ClientProtocol * res unit :=
  if negb (generation =? c_generation c) then (c, Err ErrStaleConnection)
  else (disconnectLocked c, Ok tt).

(** ** Application requests *)

Definition QueryState (c : ClientProtocol) (queryID namespace : string) (objectIDs : list string)
    (now : time) : ClientProtocol * res (list Action) :=
  if (c_state c != StateReady) || (c_sessionID c == "") then (c, Err ErrInvalidState)
  else if negb (stateSyncEnabled (c_capabilities c)) then
    (c, Err (NewProtocolError ErrorProtocolViolation
               "state-sync capability version 1 was not negotiated"))
  else
    let payload := mkStateQuery namespace (sortStrings objectIDs) in
    let frame := mkEnvelope WireVersionV2 FrameStateQuery queryID (c_sessionID c) 0 (UnixMilli now)
      (mustPayload payload) in
    let? _ := validateOutboundFrame frame (cc_Limits (c_config c)) (cc_StrictValidation (c_config c)) at c in
    match c_stateQueries c !! queryID with
    | Some _ => (c, Err (NewProtocolError ErrorProtocolViolation "duplicate pending STATE_QUERY id"))
    | None =>
        (c <| c_stateQueries := <[queryID := cloneStateQueryPayload payload]> (c_stateQueries c) |>,
         Ok [SendFrameAction frame])
    end.

Definition EnqueueSend (c : ClientProtocol) (messageID content : string) (now : time)
  : ClientProtocol * res (list Action) :=
  let limits := cc_Limits (c_config c) in
  if (c_state c != StateReady) || (c_sessionID c == "") then (c, Err ErrInvalidState)
  else if (messageID == "") || (MaxIDLength limits <? slen messageID) || negb (json_Valid content)
  then (c, Err (bad_request "invalid SEND id or content"))
  else if MaxPayloadSize limits <? slen content
  then (c, Err (bad_request "SEND content exceeds maximum payload size"))
  else
    match c_outbox c !! messageID with
    | Some _ => (c, Err (NewProtocolError ErrorProtocolViolation "duplicate local message id"))
    | None =>
        let frame := mkEnvelope WireVersionV2 FrameSend messageID (c_sessionID c) 0 (UnixMilli now)
          (mustPayload (mkSend content)) in
        let? _ := validateOutboundFrame frame limits (cc_StrictValidation (c_config c)) at c in
        (c <| c_outbox := <[messageID := copyEnvelope frame]> (c_outbox c) |>,
         Ok [SendFrameAction frame])
    end.

(** The keys of the outbox come in map order; sorting makes the result
    independent of it. *)
Definition RetryPending (c : ClientProtocol) : res (list Action) :=
  if c_state c != StateReady then Err ErrInvalidState
  else
    let ids := sortStrings (map fst (map_to_list (c_outbox c))) in
    Ok (map (fun id => SendFrameAction (copyEnvelope (default zeroEnvelope (c_outbox c !! id)))) ids).

Definition SendPing (c : ClientProtocol) (generation : ConnectionGeneration) (pingID : string)
    (now : time) : ClientProtocol * res (list Action) :=
  if negb (generation =? c_generation c) then (c, Err ErrStaleConnection)
  else if (c_state c != StateReady) || bool_decide (is_Some (c_pendingPing c)) || (pingID == "")
  then (c, Err ErrInvalidState)
  else
    let frame := mkEnvelope WireVersionV2 FramePing "" (c_sessionID c) 0 (UnixMilli now)
      (mustPayload (mkPing pingID (UnixMilli now))) in
    let? _ := validateOutboundFrame frame (cc_Limits (c_config c)) (cc_StrictValidation (c_config c)) at c in
    (c <| c_pendingPing := Some (mkPendingPing pingID now generation) |>, Ok [SendFrameAction frame]).

Definition CheckHeartbeat (c : ClientProtocol) (generation : ConnectionGeneration) (now : time)
  : ClientProtocol * res (list Action) :=
  if negb (generation =? c_generation c) then (c, Err ErrStaleConnection)
  else
    match c_pendingPing c with
    | None => (c, Ok [])
    | Some ping =>
        if (c_state c == StateReady)
           && (cc_HeartbeatTimeout (c_config c) <=? Time_Sub now (pp_SentAt ping))
        then (c <| c_state := StateSuspect |> <| c_suspectAt := now |>, Ok [])
        else if (c_state c == StateSuspect)
                && (cc_DisconnectGrace (c_config c) <=? Time_Sub now (c_suspectAt c))
        then (disconnectLocked c,
              Ok [CloseConnectionAction "heartbeat timeout"])
        else (c, Ok [])
    end.

(** ** Incoming frames *)

Definition violation (message : string) : goerror := NewProtocolError ErrorProtocolViolation message.

Definition handleWelcomeLocked (c : ClientProtocol) (frame : Envelope)
  : ClientProtocol * res (list Action) :=
  let config := c_config c in
  let? payload := decodePayload (A:=WelcomePayload) (e_Payload frame) (cc_StrictValidation config) at c in
  match c_state c with
  | StateHandshaking =>
      if (wp_Mode payload != WelcomeModeNew) || (e_SessionID frame == "")
      then (c, Err (violation "expected NEW WELCOME"))
      else
        let? _ := validateNegotiatedAgainstOffers (cc_Capabilities config)
                    (wp_AcceptedCapabilities payload) (cc_Limits config) at c in
        let? capabilities := NewSessionCapabilities (wp_AcceptedCapabilities payload) (cc_Limits config) at c in
        let c := establishSession c (e_SessionID frame) capabilities in
        (c, Ok [SessionReadyAction (c_sessionID c)])
  | StateResuming =>
      if (wp_Mode payload != WelcomeModeResumed) || (e_SessionID frame != c_sessionID c)
         || negb (wp_ResumeFrom payload =? u64 (c_lastSeq c + 1)) || (wp_ReplayTo payload <? c_lastSeq c)
      then (c, Err (violation "invalid resume acknowledgement"))
      else if (Z.of_nat (length (c_resumeStateNamespaces c)) =? 0)
              && bool_decide (is_Some (wp_StateSync payload))
      then (c, Err (violation "unexpected resume state_sync acknowledgement"))
      else if negb (Z.of_nat (length (c_resumeStateNamespaces c)) =? 0)
              && match wp_StateSync payload with
                 | None => true
                 | Some sync => negb (equalStrings (rss_Namespaces sync) (c_resumeStateNamespaces c))
                 end
      then (c, Err (violation "resume state_sync acknowledgement mismatch"))
      else
        let c := fixReplayBounds c (wp_ReplayTo payload) in
        if cc_MaxReplayEvents config <? u64 (c_replayTo c - c_lastSeq c) then
          let '(c, actions) := stopReplayLocked c "replay exceeds configured event limit" in
          (c, Ok actions)
        else if c_replayTo c =? c_lastSeq c then
          if 0 <? Z.of_nat (length (c_resumeStateNamespaces c)) then (c, Ok [])
          else
            let c := readyLocked c in
            (c, Ok [SessionReadyAction (c_sessionID c)])
        else (c, Ok [])
  | _ => (c, Err ErrInvalidState)
  end.

Definition handlePongLocked (c : ClientProtocol) (generation : ConnectionGeneration) (frame : Envelope)
  : ClientProtocol * res (list Action) :=
  if (c_state c != StateReady) && (c_state c != StateSuspect) then (c, Err ErrInvalidState)
  else
    let? payload := decodePayload (A:=PongPayload) (e_Payload frame) (cc_StrictValidation (c_config c)) at c in
    match c_pendingPing c with
    | None => (c, Ok [])
    | Some ping =>
        if (po_PingID payload != pp_ID ping) || negb (generation =? pp_Generation ping)
        then (c, Ok [])
        else
          let c := c <| c_pendingPing := None |> <| c_suspectAt := zeroTime |> in
          (if c_state c == StateSuspect then c <| c_state := StateReady |> else c, Ok [])
    end.

Definition handleAckLocked (c : ClientProtocol) (frame : Envelope)
  : ClientProtocol * res (list Action) :=
  if (c_state c != StateReady) && (c_state c != StateSuspect) then (c, Err ErrInvalidState)
  else
    let? payload := decodePayload (A:=AckPayload) (e_Payload frame) (cc_StrictValidation (c_config c)) at c in
    match c_outbox c !! ap_RefID payload with
    | None => (c, Ok [])
    | Some _ =>
        (c <| c_outbox := delete (ap_RefID payload) (c_outbox c) |>,
         Ok [AckedAction (ap_RefID payload)])
    end.

(** The RESUMING part of [handleEventLocked]. *)
Definition handleReplayEvent (c : ClientProtocol) (frame : Envelope)
  : ClientProtocol * res (list Action) :=
  if c_replayTo c =? 0 then
    if c_gapResume c then (c, Ok [])
    else (c, Err (violation "EVENT arrived before RESUMED WELCOME"))
  else
    let expected := u64 (c_lastSeq c + Z.of_nat (length (c_replayBuffer c)) + 1) in
    if negb (e_Seq frame =? expected) || (c_replayTo c <? e_Seq frame)
    then (c, Err (violation "invalid replay sequence"))
    else
      let frameBytes := replayEventBytes frame in
      if (cc_MaxReplayEvents (c_config c) <? Z.of_nat (length (c_replayBuffer c)) + 1)
         || (cc_MaxReplayBytes (c_config c) - c_replayBytes c <? frameBytes)
      then
        let '(c, actions) := stopReplayLocked c "replay exceeds configured memory limit" in
        (c, Ok actions)
      else
        let c := c <| c_replayBuffer := c_replayBuffer c ++ [copyEnvelope frame] |>
                   <| c_replayBytes := c_replayBytes c + frameBytes |> in
        if negb (e_Seq frame =? c_replayTo c) then (c, Ok [])
        else if 0 <? Z.of_nat (length (c_resumeStateNamespaces c))
        then (c <| c_resumeEventsComplete := true |>, Ok [])
        else
          let '(c, actions) := deliverReplay c in
          let c := readyLocked c in
          (c, Ok (actions ++ [SessionReadyAction (c_sessionID c)])).

Definition handleEventLocked (c : ClientProtocol) (frame : Envelope) (now : time)
  : ClientProtocol * res (list Action) :=
  if (c_state c != StateReady) && (c_state c != StateResuming) then (c, Err ErrInvalidState)
  else if e_Seq frame <=? c_lastSeq c then
    match c_eventIDs c !! e_Seq frame with
    | Some knownID => if knownID == e_ID frame then (c, Ok []) else (c, Err ErrProtocolConflict)
    | None => (c, Err ErrIdentityExpired)
    end
  else if c_state c == StateResuming then handleReplayEvent c frame
  else if u64 (c_lastSeq c + 1) <? e_Seq frame then
    let resume := resumeFrameLocked c [] now in
    let? _ := validateOutboundFrame resume (cc_Limits (c_config c)) (cc_StrictValidation (c_config c)) at c in
    (beginRecoveryLocked c [] true, Ok [SendFrameAction resume])
  else
    (rememberEventLocked (c <| c_lastSeq := e_Seq frame |>) (e_Seq frame) (e_ID frame),
     Ok [DeliverEventAction (copyEnvelope frame)]).

Definition handleResumeStateSnapshotLocked (c : ClientProtocol) (frame : Envelope)
  : ClientProtocol * res (list Action) :=
  if negb (stateSyncEnabled (c_capabilities c))
     || (Z.of_nat (length (c_resumeStateNamespaces c)) =? 0)
  then (c, Err (violation "unexpected resume STATE_SNAPSHOT"))
  else if negb (c_resumeEventsComplete c)
  then (c, Err (violation "resume STATE_SNAPSHOT arrived before EVENT replay completed"))
  else
    let? payload := decodePayload (A:=StateSnapshotPayload) (e_Payload frame)
                      (cc_StrictValidation (c_config c)) at c in
    if existsb (fun object => negb (str_in (so_Namespace object) (c_resumeStateNamespaces c)))
         (ss_States payload)
    then (c, Err (violation "resume STATE_SNAPSHOT returned an unrequested namespace"))
    else
      match applyStateObjectsLocked c (ss_States payload) with
      | (c', Err _) =>
          let '(c', actions) := stopStateResumeLocked c' "State snapshot conflicts with retained State" in
          (c', Ok actions)
      | (c', Ok stateActions) =>
          let '(c', actions) := deliverReplay c' in
          let c' := readyLocked c' in
          (c', Ok (actions ++ stateActions ++ [SessionReadyAction (c_sessionID c')]))
      end.

Definition handleStateSnapshotLocked (c : ClientProtocol) (frame : Envelope)
  : ClientProtocol * res (list Action) :=
  if c_state c == StateResuming then handleResumeStateSnapshotLocked c frame
  else if c_state c != StateReady then (c, Err ErrInvalidState)
  else if negb (stateSyncEnabled (c_capabilities c))
  then (c, Err (violation "STATE_SNAPSHOT requires state-sync capability version 1"))
  else
    match c_stateQueries c !! e_ID frame with
    | None => (c, Err (violation "STATE_SNAPSHOT does not match a pending query"))
    | Some query =>
        let? payload := decodePayload (A:=StateSnapshotPayload) (e_Payload frame)
                          (cc_StrictValidation (c_config c)) at c in
        let? _ :=
          foldr (fun object acc =>
                   _ ← guard_err (so_Namespace object != sq_Namespace query)
                         (violation "STATE_SNAPSHOT returned another namespace");
                   _ ← guard_err (negb (str_in (so_ObjectID object) (sq_ObjectIDs query)))
                         (violation "STATE_SNAPSHOT returned an unrequested object");
                   acc) (Ok tt) (ss_States payload) at c in
        match applyStateObjectsLocked c (ss_States payload) with
        | (c', Err e) => (c', Err e)
        | (c', Ok actions) =>
            (c' <| c_stateQueries := delete (e_ID frame) (c_stateQueries c') |>, Ok actions)
        end
    end.

Definition handleStateUpdateLocked (c : ClientProtocol) (frame : Envelope)
  : ClientProtocol * res (list Action) :=
  if c_state c != StateReady then (c, Err ErrInvalidState)
  else if negb (stateSyncEnabled (c_capabilities c))
  then (c, Err (violation "STATE_UPDATE requires state-sync capability version 1"))
  else
    let? payload := decodePayload (A:=StateUpdatePayload) (e_Payload frame)
                      (cc_StrictValidation (c_config c)) at c in
    applyStateObjectsLocked c [su_State payload].

Definition handleErrorLocked (c : ClientProtocol) (frame : Envelope)
  : ClientProtocol * res (list Action) :=
  match decodePayload (A:=ErrorPayload) (e_Payload frame) (cc_StrictValidation (c_config c)) with
  | Err _ =>
      (disconnectLocked c,
       Ok [CloseConnectionAction "invalid ERROR frame"])
  | Ok payload =>
      let c := if er_RefID payload != ""
               then c <| c_stateQueries := delete (er_RefID payload) (c_stateQueries c) |> else c in
      let '(behavior, _) := BehaviorForErrorCode (er_Code payload) in
      let wasResuming := c_state c == StateResuming in
      let stateRecovery := 0 <? Z.of_nat (length (c_resumeStateNamespaces c)) in
      let sessionID := c_sessionID c in
      let fullSync := eb_FullSyncRequired behavior || eb_AbandonSession behavior
                      || (stateRecovery && (er_Code payload == ErrorStateSyncRequired)) in
      let actions := ProtocolErrorAction payload
        :: (if wasResuming && fullSync then [FullSyncRequiredAction sessionID] else []) in
      let needClose := eb_CloseConnection behavior || (wasResuming && negb fullSync) in
      let c := if wasResuming
               then disconnectLocked c else c in
      let c := if eb_AbandonSession behavior then abandonSessionLocked c else c in
      if needClose
      then (disconnectLocked c,
            Ok (actions ++ [CloseConnectionAction (er_Code payload)]))
      else (c, Ok actions)
  end.

Definition HandleIncoming (c : ClientProtocol) (generation : ConnectionGeneration) (frame : Envelope)
    (now : time) : ClientProtocol * res (list Action) :=
  if negb (generation =? c_generation c) then (c, Err ErrStaleConnection)
  else
    match ValidateFrame frame (cc_Limits (c_config c)) (cc_StrictValidation (c_config c)) with
    | Err err =>
        if e_Type frame == FrameError then
          (disconnectLocked c,
           Ok [CloseConnectionAction "invalid ERROR frame"])
        else handleIncomingFailureLocked c err
    | Ok _ =>
        let t := e_Type frame in
        if (t == FrameError) && (e_SessionID frame != "") && (e_SessionID frame != c_sessionID c)
        then handleIncomingFailureLocked c (violation "ERROR belongs to another session")
        else if (t != FrameWelcome) && (t != FrameError) && (e_SessionID frame != c_sessionID c)
        then handleIncomingFailureLocked c (violation "frame belongs to another session")
        else
          let '(c', r) :=
            if t == FrameWelcome then handleWelcomeLocked c frame
            else if t == FramePong then handlePongLocked c generation frame
            else if t == FrameAck then handleAckLocked c frame
            else if t == FrameEvent then handleEventLocked c frame now
            else if t == FrameStateSnapshot then handleStateSnapshotLocked c frame
            else if t == FrameStateUpdate then handleStateUpdateLocked c frame
            else if t == FrameError then handleErrorLocked c frame
            else (c, Err (violation "unexpected server frame type")) in
          match r with
          | Err err => handleIncomingFailureLocked c' err
          | Ok actions => (c', Ok actions)
          end
    end.
End client.
