(* ===== verification/SortStrings.v ===== *)
(** * The in-place sort of client.go

    [sortStrings] sorts message, object and namespace identifiers before they
    go on the wire.  The exchange loops are related to insertion into a sorted
    prefix; the result is the sorted permutation of the input. *)

From Stdlib Require Import Ascii String.
From S2P Require Import Prelude Utf8 Json Types Codec Capability State Validate Client SortedLists.
Open Scope list_scope.
Open Scope go_scope.

(** One run of the inner loop moves the element at the end of the prefix to
    the place where everything after it in the prefix is larger. *)
Lemma sort_inner_spec pre x suf :
  ∃ l1 l2, pre = l1 ++ l2 ∧ sort_inner (length pre) (pre ++ x :: suf) = l1 ++ x :: l2 ++ suf
           ∧ Forall (str_lt x) l2 ∧ ∀ y, last l1 = Some y → str_le y x.
Proof.
  revert suf. induction pre as [|b pre IH] using rev_ind; intros suf.
  { exists [], []. split_and!; [done..|constructor|done]. }
  rewrite length_app, Nat.add_1_r. cbn [sort_inner].
  assert (((pre ++ [b]) ++ x :: suf) !! S (length pre) = Some x) as ->.
  { rewrite lookup_app_r by (rewrite length_app; cbn; lia).
    rewrite length_app. replace (_ - _)%nat with 0%nat by (cbn; lia). done. }
  assert (((pre ++ [b]) ++ x :: suf) !! length pre = Some b) as ->.
  { rewrite <- app_assoc, lookup_app_r, Nat.sub_diag by lia. done. }
  destruct (x <s b) eqn:Hlt.
  - assert (<[S (length pre):=b]> (<[length pre:=x]> ((pre ++ [b]) ++ x :: suf))
            = pre ++ x :: b :: suf) as ->.
    { rewrite <- app_assoc. cbn.
      rewrite (insert_app_r_alt pre _ (length pre)), Nat.sub_diag by lia. cbn.
      rewrite (insert_app_r_alt pre _ (S (length pre))) by lia.
      replace (S (length pre) - length pre)%nat with 1%nat by lia. done. }
    destruct (IH (b :: suf)) as (l1 & l2 & Hpre & -> & Hall & Hlast).
    exists l1, (l2 ++ [b]). split_and!; [|by rewrite <- app_assoc| |done].
    + by rewrite Hpre at 1; rewrite <- app_assoc.
    + apply Forall_app. auto.
  - exists (pre ++ [b]), []. split_and!; [by rewrite app_nil_r|done|constructor|].
    intros y. rewrite last_snoc. intros [= <-]. done.
Qed.

Lemma sorted_last_le l x :
  StronglySorted str_le l → (∀ y, last l = Some y → str_le y x) → Forall (λ y, str_le y x) l.
Proof.
  induction l as [|z l _] using rev_ind; [constructor|]. rewrite last_snoc. intros Hs Hl.
  specialize (Hl z eq_refl). apply Forall_app. split; [|by repeat constructor].
  apply Forall_forall. intros y Hy.
  trans z; [|done]. eapply (StronglySorted_app_1_elem_of _ l [z]); [done|done|by left].
Qed.

Lemma StronglySorted_insert l1 x l2 :
  StronglySorted str_le (l1 ++ l2) → Forall (λ y, str_le y x) l1 → Forall (str_lt x) l2 →
  StronglySorted str_le (l1 ++ x :: l2).
Proof.
  induction l1 as [|y l1 IH]; cbn; intros Hs H1 H2.
  - constructor; [done|]. eapply Forall_impl; [done|]. intros z Hz.
    apply str_le_lt_or_eq. by left.
  - apply StronglySorted_inv in Hs as [Hs Hy]. inversion_clear H1.
    constructor; [auto|]. apply Forall_app in Hy as [? ?].
    apply Forall_app. split; [done|]. by constructor.
Qed.

(** The prefix of length [i] is sorted when the outer loop reaches [i]. *)
Lemma sort_outer_spec n pre suf :
  length suf = n → StronglySorted str_le pre →
  StronglySorted str_le (sort_outer n (length pre) (pre ++ suf))
  ∧ sort_outer n (length pre) (pre ++ suf) ≡ₚ pre ++ suf.
Proof.
  revert pre suf. induction n as [|n IH]; intros pre suf Hlen Hs; cbn.
  { destruct suf; [|done]. by rewrite app_nil_r. }
  destruct suf as [|x suf]; [done|]. injection Hlen as Hlen.
  destruct (sort_inner_spec pre x suf) as (l1 & l2 & Hpre & -> & Hall & Hlast).
  assert (StronglySorted str_le l1) as Hs1 by (rewrite Hpre in Hs; by eapply StronglySorted_app_1_l).
  assert (S (length pre) = length (l1 ++ x :: l2)) as ->.
  { rewrite Hpre, !length_app. cbn. lia. }
  assert (l1 ++ x :: l2 ++ suf = (l1 ++ x :: l2) ++ suf) as -> by (by rewrite <- app_assoc).
  destruct (IH (l1 ++ x :: l2) suf Hlen) as [Hsorted Hperm].
  { apply StronglySorted_insert; [by rewrite <- Hpre|by apply sorted_last_le|done]. }
  split; [done|]. rewrite Hperm, Hpre, <- !app_assoc. cbn.
  apply Permutation_app_head, Permutation_middle.
Qed.

Lemma sortStrings_spec values :
  StronglySorted str_le (sortStrings values) ∧ sortStrings values ≡ₚ values.
Proof.
  unfold sortStrings. destruct values as [|x values].
  { cbn. split; [constructor|done]. }
  apply (sort_outer_spec _ [x] values); [cbn; lia|repeat constructor].
Qed.
