(* ===== verification/Program.v ===== *)
(** * Server code as programs

    The server calls injected collaborators and takes locks, and several
    handlers run at once.  A handler is therefore a program: a tree of
    effects, one per collaborator call or critical section, whose answers are
    supplied from outside.  [exec] runs a program against a world that
    answers; [traces] are its possible sequences of effects and answers,
    whatever the collaborators do.  A collaborator may panic; [recover] is
    Go's deferred [recover()]. *)

From Stdlib Require Import Ascii String.
From S2P Require Import Prelude Utf8 Json Types Codec Capability State Validate Outbound Store.
Open Scope string_scope.
Open Scope list_scope.
Open Scope go_scope.
Open Scope Z_scope.

(** ** Shared server state: flights of SENDs in progress

    [map[string]*sendFlight]: the map holds pointers into a heap. *)

Record sendFlight := mkFlight {
  sf_done : bool;
  sf_fingerprint : SendFingerprint;
  sf_callbackActive : bool;
  sf_ack : option Envelope
}.
#[export] Instance sendFlight_eta : Eta sendFlight := fun f =>
  mkFlight (sf_done f) (sf_fingerprint f) (sf_callbackActive f) (sf_ack f).

Record Flights := mkFlights {
  fl_map : gmap string nat;
  fl_heap : gmap nat sendFlight;
  fl_next : nat
}.
Definition noFlights : Flights := mkFlights ∅ ∅ 0.

Definition flight_alter (F : Flights) (flight : nat) (f : sendFlight → sendFlight) : Flights :=
  mkFlights (fl_map F) (alter f flight (fl_heap F)) (fl_next F).

(** [acquireFlight]: flight, leader, conflict, callbackActive. *)
Definition acquireFlight (key : string) (fingerprint : SendFingerprint) (F : Flights)
  : Flights * (nat * bool * bool * bool) :=
  match fl_map F !! key with
  | Some existing =>
      match fl_heap F !! existing with
      | Some f => (F, (existing, false, sf_fingerprint f != fingerprint, sf_callbackActive f))
      | None => (F, (existing, false, true, false))
      end
  | None =>
      let flight := fl_next F in
      (mkFlights (<[key := flight]> (fl_map F)) (<[flight := mkFlight false fingerprint false None]> (fl_heap F))
         (S flight), (flight, true, false, false))
  end.

Definition finishFlight (key : string) (flight : nat) (F : Flights) : Flights :=
  if fl_map F !! key == Some flight
  then flight_alter (mkFlights (delete key (fl_map F)) (fl_heap F) (fl_next F)) flight
         (fun f => f <| sf_done := true |>)
  else F.

(** The first critical section of [invokeSendCallback]; [false] when the
    flight is gone or its callback is active. *)
Definition beginSendCallback (key : string) (flight : nat) (F : Flights) : Flights * bool :=
  if (fl_map F !! key != Some flight) || default false (sf_callbackActive <$> fl_heap F !! flight)
  then (F, false)
  else (flight_alter F flight (fun f => f <| sf_callbackActive := true |>), true).
Definition endSendCallback (flight : nat) (F : Flights) : Flights :=
  flight_alter F flight (fun f => f <| sf_callbackActive := false |>).

Definition setFlightACK (flight : nat) (ack : Envelope) (F : Flights) : Flights :=
  flight_alter F flight (fun f => f <| sf_ack := Some (copyEnvelope ack) |>).
Definition flightACK (flight : nat) (F : Flights) : option Envelope :=
  f ← fl_heap F !! flight; copyEnvelope <$> sf_ack f.

(** ** Effects *)

(** What a collaborator returns: a value, an error, or a panic. *)
Inductive cb (A : Type) :=
| CRet (a : A)
| CFail (e : goerror)
| CPanic (msg : string).
Arguments CRet {A} a.
Arguments CFail {A} e.
Arguments CPanic {A} msg.

Inductive eff : Type → Type :=
(** [Clock], [NewSessionID], [NewFrameID] *)
| ENow : eff time
| ENewSessionID : eff (cb string)
| ENewFrameID : eff (cb string)
(** [SessionRepository] *)
| ESessionCreate (state : SessionState) : eff (cb unit)
| ESessionLookup (sessionID : string) (now : time) : eff (cb (option SessionState))
(** [ServerSessionStore] *)
| EClaim (sessionID msgID : string) (fp : SendFingerprint) : eff (cb (bool * option DedupRecord))
| EComplete (sessionID msgID : string) (ack : Envelope) : eff (cb unit)
(** [ReplayStore] and [EventAppender] *)
| ECurrentSeq (sessionID : string) : eff (cb Z)
| EReplay (sessionID : string) (afterSeq throughSeq : Z) (limits : ReplayLimits) : eff (cb (list Envelope))
| EAppend (sessionID eventID eventType content : string) (timestamp : Z) : eff (cb Envelope)
(** [ApplicationHandler], [StateStore], [StateSnapshotProvider], [FailureInjector] *)
| EHandleSend (idempotencyKey payload : string) : eff (cb unit)
| EStateGet (namespace objectID : string) : eff (cb (option StateObject))
| ESnapshot (namespaces : list string) (limits : StateSnapshotLimits) : eff (cb (list StateObject))
| EFail (point : string) : eff (cb unit)
(** the critical sections under [flightMu], and waiting for [flight.done] or
    the context *)
| EAcquireFlight (key : string) (fingerprint : SendFingerprint) : eff (nat * bool * bool * bool)
| EFinishFlight (key : string) (flight : nat) : eff unit
| EBeginSendCallback (key : string) (flight : nat) : eff bool
| EEndSendCallback (flight : nat) : eff unit
| ESetFlightACK (flight : nat) (ack : Envelope) : eff unit
| EFlightACK (flight : nat) : eff (option Envelope)
| EWaitFlight (flight : nat) : eff (option goerror)
(** entering and leaving the Session's stream lane, and the lane's
    [callbackActive] flag *)
| EStreamEnter (sessionID : string) : eff (option goerror)
| EStreamLeave (sessionID : string) : eff unit
| EStreamCallback (sessionID : string) (active : bool) : eff bool
(** [EnqueueBatch] and [Close] of the connection's outbound queue *)
| EEnqueueBatch (frames : list Envelope) : eff (option goerror)
| ECloseOutbound : eff unit.

(** ** Programs *)

Inductive prog (A : Type) : Type :=
| PRet (a : A)
| PVis {X : Type} (e : eff X) (k : X → prog A).
Arguments PRet {A} a.
Arguments PVis {A X} e k.

Fixpoint pbind {A B} (f : A → prog B) (p : prog A) : prog B :=
  match p with
  | PRet a => f a
  | PVis e k => PVis e (fun x => pbind f (k x))
  end.

(** A Go computation returns or panics. *)
Inductive outcome (A : Type) :=
| Normal (a : A)
| Panicked (msg : string).
Arguments Normal {A} a.
Arguments Panicked {A} msg.

Definition go (A : Type) : Type := prog (outcome A).
#[export] Instance go_ret : MRet go := fun A a => PRet (Normal a).
#[export] Instance go_bind : MBind go := fun A B f p =>
  pbind (fun o => match o with Normal a => f a | Panicked m => PRet (Panicked m) end) p.

(** One effect, and one call of a collaborator. *)
Definition perform {X} (e : eff X) : go X := PVis e (fun x => PRet (Normal x)).
Definition answer {A} (c : cb A) : outcome (res A) :=
  match c with
  | CRet a => Normal (Ok a)
  | CFail e => Normal (Err e)
  | CPanic m => Panicked m
  end.
Definition call {A} (e : eff (cb A)) : go (res A) := PVis e (fun c => PRet (answer c)).

(** Deferred code that always runs, and [recover()]. *)
Definition finally {A} (p : go A) (cleanup : go unit) : go A :=
  pbind (fun o => pbind (fun o' => match o' with Normal _ => PRet o | Panicked m => PRet (Panicked m) end)
                    cleanup) p.
Definition recover {A} (p : go A) (handler : string → A) : go A :=
  pbind (fun o => match o with Normal a => PRet (Normal a) | Panicked m => PRet (Normal (handler m)) end) p.

(** ** Traces *)

Inductive event : Type :=
| Ev {X : Type} (e : eff X) (x : X).

(** [traces p t a]: with the answers recorded in [t], [p] performs exactly
    the effects of [t] and returns [a]. *)
Fixpoint traces {A} (p : prog A) (t : list event) (a : A) : Prop :=
  match p with
  | PRet b => t = [] ∧ a = b
  | PVis e k => ∃ x t', t = Ev e x :: t' ∧ traces (k x) t' a
  end.

(** ** Running a program

    A world answers every effect; [None] when an answer never comes.  A run
    gives the final world, the trace and the result. *)
Definition world (S : Type) : Type := ∀ X, eff X → S → option (S * X).

Fixpoint exec {S A} (w : world S) (p : prog A) (s : S) : option (S * list event * A) :=
  match p with
  | PRet a => Some (s, [], a)
  | PVis e k =>
      '(s', x) ← w _ e s;
      '(s'', t, a) ← exec w (k x) s';
      Some (s'', Ev e x :: t, a)
  end.

(** A run in a world is one of the traces. *)
Lemma exec_traces {S A} (w : world S) (p : prog A) s s' t a :
  exec w p s = Some (s', t, a) → traces p t a.
Proof.
  revert s t. induction p as [b|X e k IH]; intros s t; cbn.
  - by intros [= <- <- <-].
  - destruct (w X e s) as [[s1 x]|]; [|done]. cbn.
    destruct (exec w (k x) s1) as [[[s2 t'] a']|] eqn:E; [|done]. cbn. intros [= <- <- <-]. eauto.
Qed.

(** ** Monitors

    A monitor watches the effects of a program and may reject one.
    [holds m p s Q]: from monitor state [s], whatever the answers, no effect
    of [p] is rejected and the final state and result satisfy [Q]. *)
Definition monitor (M : Type) : Type := ∀ X, eff X → X → M → option M.

Fixpoint holds {M A} (m : monitor M) (p : prog A) (s : M) (Q : M → A → Prop) : Prop :=
  match p with
  | PRet a => Q s a
  | PVis e k => ∀ x, match m _ e x s with Some s' => holds m (k x) s' Q | None => False end
  end.

Definition watch {M} (m : monitor M) (ev : event) (s : M) : option M :=
  match ev with Ev e x => m _ e x s end.
Fixpoint watch_all {M} (m : monitor M) (t : list event) (s : M) : option M :=
  match t with
  | [] => Some s
  | ev :: t' => s' ← watch m ev s; watch_all m t' s'
  end.

Lemma holds_traces {M A} (m : monitor M) (p : prog A) s Q t a :
  holds m p s Q → traces p t a → ∃ s', watch_all m t s = Some s' ∧ Q s' a.
Proof.
  revert s t. induction p as [b|X e k IH]; intros s t; cbn.
  - intros HQ [-> ->]. by exists s.
  - intros Hh (x & t' & -> & Ht). specialize (Hh x). cbn.
    destruct (m X e x s) as [s1|]; [|done]. cbn. eauto.
Qed.

Lemma holds_mono {M A} (m : monitor M) (p : prog A) s (Q Q' : M → A → Prop) :
  (∀ s' a, Q s' a → Q' s' a) → holds m p s Q → holds m p s Q'.
Proof.
  intros HQ. revert s. induction p as [b|X e k IH]; intros s; cbn; [auto|].
  intros Hh x. specialize (Hh x). destruct (m X e x s); [|done]. by apply IH.
Qed.

Lemma holds_pbind {M A B} (m : monitor M) (f : A → prog B) p s Q :
  holds m (pbind f p) s Q ↔ holds m p s (fun s' a => holds m (f a) s' Q).
Proof.
  revert s. induction p as [b|X e k IH]; intros s; cbn; [done|].
  split; intros Hh x; specialize (Hh x); destruct (m X e x s); try done; by apply IH.
Qed.

(** Rules for the program constructors. *)
Section rules.
Context {M : Type} (m : monitor M).

Lemma holds_bind {A B} (p : go A) (f : A → go B) s (Q : M → outcome B → Prop) :
  holds m p s (fun s' o => match o with
                           | Normal a => holds m (f a) s' Q
                           | Panicked msg => Q s' (Panicked msg)
                           end) →
  holds m (p ≫= f) s Q.
Proof.
  intros H. unfold mbind, go_bind. apply holds_pbind. eapply holds_mono; [|exact H].
  by intros s' [a|msg].
Qed.

Lemma holds_perform {X} (e : eff X) s (Q : M → outcome X → Prop) :
  (∀ x, match m _ e x s with Some s' => Q s' (Normal x) | None => False end) → holds m (perform e) s Q.
Proof. done. Qed.

Lemma holds_call {X} (e : eff (cb X)) s (Q : M → outcome (res X) → Prop) :
  (∀ x, match m _ e x s with Some s' => Q s' (answer x) | None => False end) → holds m (call e) s Q.
Proof. done. Qed.

Lemma holds_mret {A} (a : A) s (Q : M → outcome A → Prop) : Q s (Normal a) → holds m (mret a : go A) s Q.
Proof. done. Qed.

Lemma holds_recover {A} (p : go A) h s (Q : M → outcome A → Prop) :
  holds m p s (fun s' o => Q s' (match o with Normal a => Normal a | Panicked msg => Normal (h msg) end)) →
  holds m (recover p h) s Q.
Proof. intros H. apply holds_pbind. eapply holds_mono; [|exact H]. by intros s' [a|msg]. Qed.

Lemma holds_finally {A} (p : go A) cleanup s (Q : M → outcome A → Prop) :
  holds m p s (fun s' o => holds m cleanup s' (fun s'' o' =>
    Q s'' (match o' with Normal _ => o | Panicked msg => Panicked msg end))) →
  holds m (finally p cleanup) s Q.
Proof.
  intros H. apply holds_pbind. eapply holds_mono; [|exact H]. cbn. intros s' o Ho.
  apply holds_pbind. eapply holds_mono; [|exact Ho]. by intros s'' [u|msg].
Qed.
End rules.

(** One step of a proof about a program: apply the rule of its head, or split
    on what it branches on. *)
Ltac hstep :=
  lazymatch goal with
  | |- holds _ (mbind _ _) _ _ => apply holds_bind
  | |- holds _ (perform _) _ _ => apply holds_perform; intros ?
  | |- holds _ (call _) _ _ => apply holds_call; intros ?
  | |- holds _ (mret _) _ _ => apply holds_mret
  | |- holds _ (recover _ _) _ _ => apply holds_recover
  | |- holds _ (finally _ _) _ _ => apply holds_finally
  | |- holds _ (match ?x with _ => _ end) _ _ => destruct x eqn:?
  end.
