(* ===== verification/StoreInterface.v ===== *)
(** * The deduplication store as an interface (store.go)

    The server knows its deduplication store as a [ServerSessionStore].  The
    class has the methods as relations, because an implementation behind a
    network need not be a function, and the view by which the contract is
    stated: the record of an identity, and until when it is retained.  The
    contract is the comment of the interface, and leaves an implementation
    two freedoms a process-local one does not need: a call that reports an
    error may have taken effect, and completed records whose retention is
    over may disappear.  [MemoryDedupStore] is an instance. *)

From Stdlib Require Import Ascii String.
From S2P Require Import Prelude Types Codec State Store Program.
Open Scope string_scope.
Open Scope list_scope.
Open Scope go_scope.
Open Scope Z_scope.

Class ServerSessionStore (D : Type) := {
  store_Claim : D → time → string → string → SendFingerprint → D → cb (bool * option DedupRecord) → Prop;
  store_Complete : D → time → string → string → Envelope → D → cb unit → Prop;
  store_Abort : D → string → string → D → cb unit → Prop;
  retention : D → Duration;
  record_of : D → string → option (DedupRecord * time)
}.

(** What may happen at any time to a record that no call is about: it stays,
    or it is completed and expires. *)
Definition kept (now : time) (old new : option (DedupRecord * time)) : Prop :=
  new = old ∨ new = None ∧ ∃ rec until, old = Some (rec, until) ∧ dr_State rec = DedupCompleted ∧ until ≤ now.

(** An identity that can be claimed: no record, or one that has expired. *)
Definition claimable (now : time) (old : option (DedupRecord * time)) : Prop :=
  ∀ rec until, old = Some (rec, until) → dr_State rec = DedupCompleted ∧ until ≤ now.

Definition claimed_by (fp : SendFingerprint) (new : option (DedupRecord * time)) : Prop :=
  ∃ until, new = Some (mkDedupRecord DedupProcessing fp None, until).

(** A completed record keeps the fingerprint of the claim, holds the ACK, and
    is retained for [ttl]. *)
Definition completed_by (now : time) (ttl : Duration) (ack : Envelope) (old new : option (DedupRecord * time)) : Prop :=
  ∃ rec until until', old = Some (rec, until) ∧ dr_State rec = DedupProcessing
    ∧ new = Some (mkDedupRecord DedupCompleted (dr_Fingerprint rec) (Some ack), until') ∧ now + ttl ≤ until'.

Class SessionStoreLaws (D : Type) `{ServerSessionStore D} : Prop := {
  claim_retention d now sid mid fp d' x : store_Claim d now sid mid fp d' x → retention d' = retention d;
  claim_frame d now sid mid fp d' x k : store_Claim d now sid mid fp d' x → k ≠ dedupKey sid mid →
    kept now (record_of d k) (record_of d' k);
  claim_effect d now sid mid fp d' x : store_Claim d now sid mid fp d' x →
    let old := record_of d (dedupKey sid mid) in let new := record_of d' (dedupKey sid mid) in
    match x with
    | CRet (true, _) => claimable now old ∧ claimed_by fp new
    | CRet (false, r) => new = old ∧ ∃ rec until, old = Some (rec, until) ∧ r = Some rec
    | _ => kept now old new ∨ claimable now old ∧ claimed_by fp new
    end;
  complete_retention d now sid mid ack d' x : store_Complete d now sid mid ack d' x → retention d' = retention d;
  complete_frame d now sid mid ack d' x k : store_Complete d now sid mid ack d' x → k ≠ dedupKey sid mid →
    kept now (record_of d k) (record_of d' k);
  complete_effect d now sid mid ack d' x : store_Complete d now sid mid ack d' x →
    let old := record_of d (dedupKey sid mid) in let new := record_of d' (dedupKey sid mid) in
    match x with
    | CRet _ => completed_by now (retention d) ack old new
    | _ => kept now old new ∨ completed_by now (retention d) ack old new
    end;
  abort_frame d sid mid d' x k : store_Abort d sid mid d' x →
    record_of d' k = record_of d k
    ∨ k = dedupKey sid mid ∧ record_of d' k = None
      ∧ ∃ rec until, record_of d k = Some (rec, until) ∧ dr_State rec = DedupProcessing
}.

(** ** The memory store keeps the contract *)

#[export] Instance memory_store : ServerSessionStore MemoryDedupStore := {
  store_Claim d now sid mid fp d' x :=
    d' = (Dedup_Claim d now sid mid fp).1 ∧ x = CRet (Dedup_Claim d now sid mid fp).2;
  store_Complete d now sid mid ack d' x :=
    d' = (Dedup_Complete d now sid mid (Some ack)).1
    ∧ x = match (Dedup_Complete d now sid mid (Some ack)).2 with None => CRet tt | Some e => CFail e end;
  store_Abort d sid mid d' x := d' = Dedup_Abort d sid mid ∧ x = CRet tt;
  retention := DedupRetentionTTL;
  record_of d k := (fun entry => (de_record entry, de_expiresAt entry)) <$> md_records d !! k
}.

Lemma Claim_other d now sid mid fp k : k ≠ dedupKey sid mid →
  md_records (Dedup_Claim d now sid mid fp).1 !! k = md_records d !! k.
Proof.
  intros Hk. unfold Dedup_Claim. destruct (md_records d !! dedupKey sid mid); [destruct (_ || _)|]; cbn;
    try done; by rewrite lookup_insert_ne.
Qed.

Lemma Complete_other d now sid mid ack k : k ≠ dedupKey sid mid →
  md_records (Dedup_Complete d now sid mid ack).1 !! k = md_records d !! k.
Proof.
  intros Hk. unfold Dedup_Complete. destruct ack; [|done].
  destruct (md_records d !! dedupKey sid mid); [destruct (_ != _)|]; cbn; try done; by rewrite lookup_insert_ne.
Qed.

#[export] Instance memory_store_laws : SessionStoreLaws MemoryDedupStore.
Proof.
  split; cbn [store_Claim store_Complete store_Abort retention record_of memory_store].
  - intros d now sid mid fp d' x [-> _]. unfold Dedup_Claim. by destruct (_ !! _); [destruct (_ || _)|].
  - intros d now sid mid fp d' x k [-> _] Hk. left. by rewrite Claim_other.
  - intros d now sid mid fp d' x [-> ->]. cbn zeta. unfold Dedup_Claim.
    destruct (md_records d !! dedupKey sid mid) as [[[st fp' ack] exp]|] eqn:E; cbn [de_record dr_State de_expiresAt].
    + case_bool_decide as Hst; cbn [orb]; [|destruct (Z.ltb_spec now exp)]; cbn; rewrite ?E, ?lookup_insert_eq; cbn.
      1,2: split; [done|]; eexists _, _; split; [done|]; destruct ack; cbn; by rewrite ?copyEnvelope_id.
      split; [|by eexists]. intros rec until [= <- <-]. split; [|done]. by destruct st.
    + cbn. rewrite lookup_insert_eq. cbn. split; [done|by eexists].
  - intros d now sid mid ack d' x [-> _]. unfold Dedup_Complete. by destruct (_ !! _); [destruct (_ != _)|].
  - intros d now sid mid ack d' x k [-> _] Hk. left. by rewrite Complete_other.
  - intros d now sid mid ack d' x [-> ->]. cbn zeta. unfold Dedup_Complete.
    destruct (md_records d !! dedupKey sid mid) as [[[st fp' ack'] exp]|] eqn:E; cbn [de_record dr_State].
    + destruct st; [change (DedupProcessing != DedupProcessing) with false
                   |change (DedupCompleted != DedupProcessing) with true]; cbn; [|rewrite E; left; by left].
      rewrite lookup_insert_eq.
      eexists _, _, _. split_and!; [done|done|cbn; by rewrite copyEnvelope_id|]. unfold DedupRetentionTTL, Time_Add. lia.
    + cbn. rewrite E. left. by left.
  - intros d sid mid d' x k [-> _]. unfold Dedup_Abort. destruct (md_records d !! dedupKey sid mid) as [[rec exp]|] eqn:E;
      [|by left]. cbn [de_record]. case_bool_decide; [|by left]. cbn.
    destruct (decide (k = dedupKey sid mid)) as [->|Hk].
    + right. rewrite lookup_delete_eq, E. split_and!; [done|done|]. by eexists _, _.
    + left. by rewrite lookup_delete_ne.
Qed.
