(* ===== verification/EventStore.v ===== *)
(** * The event stores as interfaces (store.go)

    The server knows its streams as a [ReplayStore], which reads them, and an
    [EventAppender], which extends them.  The classes have the methods as
    relations, so that a store may be remote.  Their contract is stated
    against an abstract specification, the journal: for each Session the
    list of all EVENTs ever appended to it.  A store may forget old EVENTs,
    the journal does not; [represents] relates the two.  The laws are the
    comments of the interfaces, and leave a store these freedoms: an append
    that reports an error may have taken effect, a read may fail, and other
    users of the store may append at any time.  [MemoryReplayStore] is an
    instance of both. *)

From Stdlib Require Import Ascii String.
From S2P Require Import Prelude SortedLists Utf8 Json Types Codec State Validate Store StoreProps Program.
Open Scope string_scope.
Open Scope list_scope.
Open Scope go_scope.
Open Scope Z_scope.

(** ** The journal *)

Definition journal : Type := string → list Envelope.

(** A stream: the EVENTs of one Session, numbered from 1. *)
Definition stream_ok (sid : string) (events : list Envelope) : Prop :=
  map e_Seq events = seqZ 1 (Z.of_nat (length events))
  ∧ Forall (fun e => e_Type e = FrameEvent ∧ e_SessionID e = sid) events.
Definition journal_ok (J : journal) : Prop := ∀ sid, stream_ok sid (J sid).

(** EVENTs are only ever added, at the end. *)
Definition extends (J J' : journal) : Prop := ∀ sid, J sid `prefix_of` J' sid.
#[export] Instance extends_preorder : PreOrder extends.
Proof.
  split; [intros J sid; reflexivity|]. intros J1 J2 J3 H1 H2 sid. etrans; [apply H1|apply H2].
Qed.

Definition journaled (J J' : journal) (sid : string) (event : Envelope) : Prop :=
  ∀ sid', J' sid' = if decide (sid' = sid) then J sid ++ [event] else J sid'.

Lemma journaled_extends J J' sid event : journaled J J' sid event → extends J J'.
Proof. intros H sid'. rewrite H. case_decide as E; [subst; by eexists|reflexivity]. Qed.

(** ** The interfaces *)

Class ReplayStore (D : Type) := {
  store_CurrentSeq : D → string → cb Z → Prop;
  store_Replay : D → string → Z → Z → ReplayLimits → cb (list Envelope) → Prop
}.
Class EventAppender (D : Type) := {
  store_Append : D → string → string → string → string → Z → D → cb Envelope → Prop
}.

(** What else may happen to the store, and the journal it stands for. *)
Class Journaled (D : Type) := {
  store_other : D → D → Prop;
  represents : D → journal → Prop
}.

(** What an appended EVENT is: the request, at the next position. *)
Definition requested (J : journal) (sid eid ety content : string) (ts : Z) (ev : Envelope) : Prop :=
  e_Type ev = FrameEvent ∧ e_SessionID ev = sid ∧ e_ID ev = eid ∧ e_Timestamp ev = ts
  ∧ e_Seq ev = Z.of_nat (length (J sid)) + 1 ∧ Marshal (mkEvent ety content) = Some (e_Payload ev).

Class EventStoreLaws (D : Type) `{ReplayStore D, EventAppender D, Journaled D} : Prop := {
  represents_ok d J : represents d J → journal_ok J;
  current_mark d J sid n : represents d J → store_CurrentSeq d sid (CRet n) → n = Z.of_nat (length (J sid)) ∧ is_u64 n;
  replay_original d J sid after through limits events :
    represents d J → store_Replay d sid after through limits (CRet events) →
    events `sublist_of` J sid ∧ ∃ first, map e_Seq events = seqZ first (Z.of_nat (length events));
  replay_limits d J sid after through limits events :
    represents d J → store_Replay d sid after through limits (CRet events) → 0 ≤ rl_MaxEvents limits →
    Z.of_nat (length events) ≤ rl_MaxEvents limits
    ∧ ∃ texts, mapM Marshal events = Some texts ∧ texts_len texts ≤ rl_MaxBytes limits;
  append_next d J sid eid ety content ts d' x :
    represents d J → store_Append d sid eid ety content ts d' x →
    ∃ J', represents d' J' ∧
      match x with
      | CRet ev => requested J sid eid ety content ts ev ∧ journaled J J' sid ev
      | _ => J' = J ∨ ∃ ev, requested J sid eid ety content ts ev ∧ journaled J J' sid ev
      end;
  other_extends d J d' : represents d J → store_other d d' → ∃ J', represents d' J' ∧ extends J J'
}.

(** ** The memory store keeps the contract *)

(** The retained EVENTs are the last ones of the stream. *)
Definition retains (s : MemoryReplayStore) (J : journal) (sid : string) : Prop :=
  Z.of_nat (length (J sid)) = current_of s sid ∧ events_of s sid `suffix_of` J sid.

#[export] Instance memory_replay : ReplayStore MemoryReplayStore := {
  store_CurrentSeq s sid x := x = CRet (CurrentSeq s sid);
  store_Replay s sid after through limits x :=
    x = match Replay s sid after through limits with Ok events => CRet events | Err e => CFail e end
}.
#[export] Instance memory_appender : EventAppender MemoryReplayStore := {
  store_Append s sid eid ety content ts s' x :=
    s' = (Append s sid eid ety content ts).1
    ∧ x = match (Append s sid eid ety content ts).2 with Ok event => CRet event | Err e => CFail e end
}.
#[export] Instance memory_journaled : Journaled MemoryReplayStore := {
  store_other s s' := ∃ op, replay_op_typed op ∧ s' = replay_step s op;
  represents s J := replay_inv s ∧ journal_ok J ∧ ∀ sid, retains s J sid
}.

Lemma retains_same s s' J J' sid :
  events_of s' sid = events_of s sid → current_of s' sid = current_of s sid → J' sid = J sid →
  retains s J sid → retains s' J' sid.
Proof. unfold retains. by intros -> -> ->. Qed.

Lemma stream_ok_snoc sid l e :
  stream_ok sid l → e_Type e = FrameEvent → e_SessionID e = sid → e_Seq e = Z.of_nat (length l) + 1 →
  stream_ok sid (l ++ [e]).
Proof.
  intros [Hs Hall] Ht Hid Hseq. split.
  - rewrite map_app, Hs, length_app, Nat2Z.inj_add, seqZ_app by lia. f_equal. cbn. by rewrite Hseq, Z.add_comm.
  - apply Forall_app. split; [done|]. by repeat constructor.
Qed.

Lemma memory_append s J sid eid ety content ts s' r :
  represents s J → Append s sid eid ety content ts = (s', r) →
  ∃ J', represents s' J' ∧ match r with
                           | Ok ev => requested J sid eid ety content ts ev ∧ journaled J J' sid ev
                           | Err _ => J' = J
                           end.
Proof.
  intros (Hinv & HJ & Hret) E. pose proof (replay_inv_append s sid eid ety content ts Hinv) as Hinv'. rewrite E in Hinv'.
  cbn in Hinv'. destruct r as [ev|err].
  - apply Append_Ok in E as (Hmax & _ & Hty & Hsid & Hid & Hseq & Hts & Hp & Hev & _ & Hcur & _ & Hoth).
    destruct (Hret sid) as [Hlen Hsuf]. destruct (Hinv sid) as ((Hc0 & Hc1) & _).
    rewrite u64_small in Hseq, Hcur by (unfold is_u64; lia).
    set (J' := fun sid' => if decide (sid' = sid) then J sid ++ [ev] else J sid').
    assert (journaled J J' sid ev) as HJ' by done.
    exists J'. split; [split_and!; [done| |]|].
    + intros sid'. unfold J'. case_decide as D; [subst sid'|apply HJ]. apply stream_ok_snoc; [apply HJ|done|done|lia].
    + intros sid'. destruct (decide (sid' = sid)) as [->|Hne].
      * unfold retains, J'. rewrite decide_True, Hev, Hcur, length_app by done. cbn. split; [lia|].
        destruct Hsuf as [l ->]. exists l. by rewrite app_assoc.
      * destruct (Hoth sid' Hne) as (He & _ & Hcu & _). apply (retains_same s _ J); [done|done| |apply Hret].
        unfold J'. by rewrite decide_False.
    + split; [|done]. repeat split; try done. lia.
  - pose proof (Append_Err _ _ _ _ _ _ _ _ E) as Hsame. exists J. split; [|done]. split_and!; [done|done|].
    intros sid'. destruct (Hsame sid') as (He & _ & Hcu & _). by apply (retains_same s _ J).
Qed.

Lemma prune_retains s sid n J sid' : retains s J sid' → retains (PruneBefore s sid n) J sid'.
Proof.
  unfold retains. intros [Hl Hs]. split; [exact Hl|]. unfold events_of, PruneBefore. cbn.
  destruct (decide (sid = sid')) as [->|Hne]; [|rewrite lookup_insert_ne by done; exact Hs].
  rewrite lookup_insert_eq. cbn. etrans; [|exact Hs]. generalize (events_of s sid'). intros l.
  lazymatch goal with |- context [prune_loop ?m] => generalize m end. intros m. induction l as [|e l IH]; [done|]. cbn.
  destruct (_ <? _); [|done]. etrans; [exact IH|]. by exists [e].
Qed.

Lemma window_empty after through l : through ≤ after → window after through l = [].
Proof.
  intros H. unfold window. induction l as [|e l IH]; [done|]. cbn. unfold in_window at 1.
  destruct (Z.ltb_spec after (e_Seq e)), (Z.leb_spec (e_Seq e) through); cbn; done || lia.
Qed.

Lemma sublist_window after through l : window after through l `sublist_of` l.
Proof. unfold window. induction l as [|e l IH]; [constructor|]. cbn. case_match; by constructor. Qed.

Lemma seqZ_to_nat a n : seqZ a n = seqZ a (Z.of_nat (Z.to_nat n)).
Proof. destruct (decide (0 ≤ n)); [by rewrite Z2Nat.id|]. rewrite !seqZ_nil; [done|lia|lia]. Qed.

Lemma Replay_window s sid after through limits events :
  Replay s sid after through limits = Ok events →
  events = window after through (events_of s sid)
  ∧ (0 ≤ rl_MaxEvents limits → Z.of_nat (length events) ≤ rl_MaxEvents limits)
  ∧ ∃ texts, mapM Marshal events = Some texts ∧ texts_len texts ≤ rl_MaxBytes limits.
Proof.
  unfold Replay. intros H. inv_ok. bools.
  match goal with Hl : replay_loop _ _ _ _ _ = Ok _ |- _ => apply replay_loop_Ok in Hl as (-> & texts & Ht & Hb) end; [|lia].
  split_and!; [done|intros Hpos|exists texts; split; [done|lia]].
  match goal with Hn : (after <? through) && _ = false |- _ => rename Hn into Hall end.
  destruct (Z.ltb_spec after through); cbn in Hall; bools; [lia|].
  rewrite window_empty by lia. cbn. lia.
Qed.

#[export] Instance memory_event_laws : EventStoreLaws MemoryReplayStore.
Proof.
  split; cbn [store_CurrentSeq store_Replay store_Append store_other memory_replay memory_appender memory_journaled].
  - intros s J (_ & HJ & _). exact HJ.
  - intros s J sid n (Hinv & _ & Hret) [= ->]. destruct (Hret sid) as [Hl _], (Hinv sid) as [Hu _]. split; [|done].
    symmetry. exact Hl.
  - intros s J sid after through limits events (Hinv & _ & Hret) Hx.
    destruct (Replay s sid after through limits) as [evs|] eqn:E; [|done]. injection Hx as ->.
    apply Replay_window in E as (-> & _). destruct (Hret sid) as [_ Hsuf], (Hinv sid) as (Hu & Hf & Hseqs & _). split.
    + destruct Hsuf as [l ->]. etrans; [apply sublist_window|by apply sublist_inserts_l].
    + eexists. rewrite (window_seqs _ _ _ _ _ Hseqs) by (unfold first_of, is_u64 in *; lia).
      rewrite <- (length_map e_Seq), (window_seqs _ _ _ _ _ Hseqs), length_seqZ by (unfold first_of, is_u64 in *; lia).
      apply seqZ_to_nat.
  - intros s J sid after through limits events _ Hx Hpos.
    destruct (Replay s sid after through limits) as [evs|] eqn:E; [|done]. injection Hx as ->.
    apply Replay_window in E as (_ & Hn & Hb). auto.
  - intros s J sid eid ety content ts s' x HR [-> ->].
    destruct (Append s sid eid ety content ts) as [s' r] eqn:E. cbn.
    destruct (memory_append _ _ _ _ _ _ _ _ _ HR E) as (J' & HR' & Hr). exists J'. split; [exact HR'|].
    destruct r; [exact Hr|by left].
  - intros s J s' HR (op & Ht & ->). destruct op as [sid eid ety content ts|sid n]; cbn [replay_step].
    + destruct (Append s sid eid ety content ts) as [s' r] eqn:E. cbn.
      destruct (memory_append _ _ _ _ _ _ _ _ _ HR E) as (J' & HR' & Hr). exists J'. split; [exact HR'|].
      destruct r as [ev|]; [eapply journaled_extends, Hr|by subst].
    + exists J. split; [|reflexivity]. destruct HR as (Hinv & HJ & Hret). split_and!; [by apply replay_inv_prune|done|].
      intros sid'. by apply prune_retains.
Qed.

(** The empty store stands for the empty journal. *)
Lemma memory_represents_new : represents NewMemoryReplayStore (fun _ => []).
Proof.
  split_and!; [apply replay_inv_new|intros sid; split; [done|constructor]|]. intros sid. by split.
Qed.
