(* ===== verification/SessionStore.v ===== *)
(** * The session repository as an interface (store.go)

    The server keeps the metadata of its Sessions in a [SessionRepository].
    The contract is stated against an abstract specification: the Sessions
    ever created, by identifier.  [Create] is atomic and never replaces one;
    what is kept for a Session, its capabilities above all, never changes; a
    [Lookup] returns it until it expires.  Identifiers of expired Sessions are
    not used again.  [MemorySessionRepository] is an instance. *)

From Stdlib Require Import Ascii String.
From S2P Require Import Prelude Types Codec Capability State Store Program.
Open Scope string_scope.
Open Scope list_scope.
Open Scope go_scope.
Open Scope Z_scope.

Definition registry : Type := string → option SessionState.

Definition registered (R R' : registry) (state : SessionState) : Prop :=
  ∀ sid, R' sid = if decide (sid = ss_SessionID state) then Some state else R sid.

(** Sessions are only ever added. *)
Definition keeps (R R' : registry) : Prop := ∀ sid state, R sid = Some state → R' sid = Some state.
#[export] Instance keeps_preorder : PreOrder keeps.
Proof. split; [by intros R sid state|]. intros R1 R2 R3 H1 H2 sid state H. by apply H2, H1. Qed.

Lemma registered_keeps R R' state : R (ss_SessionID state) = None → registered R R' state → keeps R R'.
Proof. intros Hn Hr sid st Hs. rewrite Hr. case_decide as E; [|done]. subst. congruence. Qed.

Class SessionRepository (D : Type) := {
  repo_Create : D → SessionState → D → cb unit → Prop;
  repo_Lookup : D → string → time → cb (option SessionState) → Prop
}.
(** What else may happen to the repository, and the Sessions it stands for. *)
Class Registered (D : Type) := {
  repo_other : D → D → Prop;
  records : D → registry → Prop
}.

Class SessionRepositoryLaws (D : Type) `{SessionRepository D, Registered D} : Prop := {
  create_once d R state d' x : records d R → repo_Create d state d' x →
    ∃ R', records d' R' ∧
      match x with
      | CRet _ => R (ss_SessionID state) = None ∧ registered R R' state
      | _ => R' = R ∨ R (ss_SessionID state) = None ∧ registered R R' state
      end;
  lookup_known d R sid now state : records d R → repo_Lookup d sid now (CRet (Some state)) →
    R sid = Some state ∧ now < ss_ExpiresAt state;
  lookup_expired d R sid now state : records d R → repo_Lookup d sid now (CRet None) →
    R sid = Some state → ss_ExpiresAt state ≤ now;
  repo_other_keeps d R d' : records d R → repo_other d d' → ∃ R', records d' R' ∧ keeps R R'
}.

(** ** The memory repository keeps the contract *)

#[export] Instance memory_repository : SessionRepository (gmap string SessionState) := {
  repo_Create d state d' x :=
    d' = (Session_Create d state).1 ∧ x = match (Session_Create d state).2 with None => CRet tt | Some e => CFail e end;
  repo_Lookup d sid now x := x = CRet (Session_Lookup d sid now)
}.
#[export] Instance memory_registered : Registered (gmap string SessionState) := {
  repo_other d d' := ∃ state, d' = (Session_Create d state).1;
  records d R := ∀ sid, R sid = d !! sid
}.

Lemma Session_Create_cases d state :
  (∃ e, Session_Create d state = (d, Some e))
  ∨ d !! ss_SessionID state = None ∧ Session_Create d state = (<[ss_SessionID state := state]> d, None).
Proof.
  unfold Session_Create. destruct (_ || _); [left; eauto|]. destruct (d !! ss_SessionID state); [left; eauto|by right].
Qed.

Lemma memory_registers d R state : records d R →
  registered R (fun sid => <[ss_SessionID state := state]> d !! sid) state.
Proof.
  intros HR sid. cbn. rewrite lookup_insert, (HR sid). destruct (decide (ss_SessionID state = sid)), (decide (sid = ss_SessionID state));
    congruence.
Qed.

#[export] Instance memory_repository_laws : SessionRepositoryLaws (gmap string SessionState).
Proof.
  split; cbn [repo_Create repo_Lookup repo_other memory_repository memory_registered].
  - intros d R state d' x HR [-> ->]. destruct (Session_Create_cases d state) as [[e ->]|[Hn ->]]; cbn.
    + exists R. split; [done|by left].
    + eexists. split; [by intros sid|]. split; [by rewrite HR|]. by apply memory_registers.
  - intros d R sid now state HR [= Hl]. unfold Session_Lookup in Hl. rewrite (HR sid). destruct (d !! sid) as [st|]; [|done].
    destruct (Z.ltb_spec now (ss_ExpiresAt st)); [|done]. by injection Hl as ->.
  - intros d R sid now state HR [= Hl] Hs. rewrite (HR sid) in Hs. unfold Session_Lookup in Hl. rewrite Hs in Hl.
    by destruct (Z.ltb_spec now (ss_ExpiresAt state)).
  - intros d R d' HR [state ->]. destruct (Session_Create_cases d state) as [[e ->]|[Hn ->]]; cbn.
    + by exists R.
    + eexists. split; [by intros sid|]. eapply registered_keeps; [by rewrite HR|by apply memory_registers].
Qed.

Lemma memory_records (d : gmap string SessionState) : records d (fun sid => d !! sid).
Proof. by intros sid. Qed.
