(* ===== verification/StateStore.v ===== *)
(** * The State stores as interfaces (store.go)

    The server reads State from a [StateStore], one object at a time, and
    from a [StateSnapshotProvider], a namespace at a time; the application
    writes it with [Apply].  The contract is stated against an abstract
    specification, the archive: for each identity the objects committed to
    it, oldest first.  [Apply] is atomic and follows [ApplyStateObject]; reads
    return what is current.  An [Apply] that reports an error may have taken
    effect, and any read may fail.  A store that keeps its objects in a list
    is an instance. *)

From Stdlib Require Import Ascii String.
From S2P Require Import Prelude Utf8 Json Types Codec Capability State Program.
Open Scope string_scope.
Open Scope list_scope.
Open Scope go_scope.
Open Scope Z_scope.

(** ** The archive *)

Definition archive : Type := string * string → list StateObject.

Definition newer (a b : StateObject) : Prop := so_Version a < so_Version b.
Definition history_ok (id : string * string) (l : list StateObject) : Prop :=
  Forall (fun o => Identity o = id) l ∧ StronglySorted newer l.
Definition archive_ok (A : archive) : Prop := ∀ id, history_ok id (A id).

Definition current (A : archive) (id : string * string) : option StateObject := last (A id).

(** The object was committed at some time. *)
Definition archived (A : archive) (o : StateObject) : Prop := o ∈ A (Identity o).

(** Objects are only ever added, at the end. *)
Definition grown (A A' : archive) : Prop := ∀ id, A id `prefix_of` A' id.
#[export] Instance grown_preorder : PreOrder grown.
Proof. split; [intros A id; reflexivity|]. intros A1 A2 A3 H1 H2 id. etrans; [apply H1|apply H2]. Qed.

Definition commits (A A' : archive) (o : StateObject) : Prop :=
  ∀ id, A' id = if decide (id = Identity o) then A id ++ [o] else A id.

Lemma commits_grown A A' o : commits A A' o → grown A A'.
Proof. intros H id. rewrite H. case_decide; [by eexists|reflexivity]. Qed.

Lemma commits_archived A A' o : commits A A' o → archived A' o.
Proof. intros H. unfold archived. rewrite H, decide_True by done. set_solver. Qed.

Lemma commits_only A A' o x : commits A A' o → archived A' x → archived A x ∨ x = o.
Proof. intros H. unfold archived. rewrite H. case_decide; [|by left]. intros [|Hx]%elem_of_app; set_solver. Qed.

Lemma grown_archived A A' o : grown A A' → archived A o → archived A' o.
Proof. intros Hg. unfold archived. destruct (Hg (Identity o)) as [l ->]. set_solver. Qed.

Lemma current_archived A id o : archive_ok A → current A id = Some o → archived A o ∧ Identity o = id.
Proof.
  intros HA Hc. assert (o ∈ A id) as Hin by by apply last_Some_elem_of in Hc.
  destruct (HA id) as [Hall _]. rewrite Forall_forall in Hall. unfold archived. by rewrite (Hall o Hin).
Qed.

(** The current object is the newest. *)
Lemma sorted_last l o x : StronglySorted newer l → last l = Some o → x ∈ l → x = o ∨ newer x o.
Proof.
  intros Hs Hl Hx. apply last_Some in Hl as [l' ->]. apply elem_of_app in Hx as [Hx|Hx]; [|left; set_solver]. right.
  induction l' as [|y l' IH]; [by apply elem_of_nil in Hx|]. cbn in Hs. apply StronglySorted_inv in Hs as [Hs Hall].
  apply elem_of_cons in Hx as [->|Hx]; [|by apply IH]. rewrite Forall_forall in Hall. apply Hall. set_solver.
Qed.

Lemma archived_current A o : archive_ok A → archived A o → ∃ cur, current A (Identity o) = Some cur ∧ (o = cur ∨ newer o cur).
Proof.
  intros HA Ho. destruct (HA (Identity o)) as [_ Hs]. unfold current, archived in *.
  destruct (last (A (Identity o))) as [cur|] eqn:E; [|apply last_None in E; rewrite E in Ho; by apply elem_of_nil in Ho].
  exists cur. split; [done|by eapply sorted_last].
Qed.

(** An identity and a version name one object. *)
Lemma sorted_version l a b : StronglySorted newer l → a ∈ l → b ∈ l → so_Version a = so_Version b → a = b.
Proof.
  intros Hs. induction Hs as [|x l _ IH Hall]; [by intros ?%elem_of_nil|]. rewrite Forall_forall in Hall. unfold newer in *.
  intros [->|Ha]%elem_of_cons [->|Hb]%elem_of_cons Hv; [done| | |by apply IH].
  - specialize (Hall b Hb). lia.
  - specialize (Hall a Ha). lia.
Qed.

Lemma archived_version A a b :
  archive_ok A → archived A a → archived A b → Identity a = Identity b → so_Version a = so_Version b → a = b.
Proof. intros HA Ha Hb Hid. unfold archived in *. rewrite Hid in Ha. eapply sorted_version; [apply HA|done|done]. Qed.

(** ** The interfaces *)

Class StateStore (D : Type) := {
  states_Get : D → string → string → cb (option StateObject) → Prop;
  states_Apply : D → StateObject → D → StateObject * option StateApplyResult * option goerror → Prop
}.
Class StateSnapshotProvider (D : Type) := {
  states_Snapshot : D → list string → StateSnapshotLimits → cb (list StateObject) → Prop
}.
(** The limits a store validates with, and the archive it stands for. *)
Class Archived (D : Type) := {
  states_limits : Limits;
  stands : D → archive → Prop
}.

Class StateStoreLaws {ST : StdText} (D : Type) `{StateStore D, StateSnapshotProvider D, Archived D} : Prop := {
  stands_ok d A : stands d A → archive_ok A;
  get_current d A ns id r : stands d A → states_Get d ns id (CRet r) → r = current A (ns, id);
  snapshot_current d A nss limits states : stands d A → states_Snapshot d nss limits (CRet states) →
    ∀ o, o ∈ states ↔ so_Namespace o ∈ nss ∧ current A (Identity o) = Some o;
  apply_merges d A incoming d' committed result err :
    stands d A → states_Apply d incoming d' (committed, result, err) →
    ∃ A', stands d' A' ∧
      let merged := ApplyStateObject (current A (Identity incoming)) incoming states_limits in
      match err with
      | None => merged = (committed, result, None)
                ∧ if bool_decide (result = Some StateApplyApplied) then commits A A' committed else A' = A
      | Some _ => A' = A ∨ merged = (incoming, Some StateApplyApplied, None) ∧ commits A A' incoming
      end
}.

Section laws.
Context {ST : StdText} {D : Type} `{!StateStore D, !StateSnapshotProvider D, !Archived D, !StateStoreLaws D}.

(** What an [Apply] makes of the archive. *)
Lemma apply_archive d A incoming d' committed result err :
  stands d A → states_Apply d incoming d' (committed, result, err) →
  ∃ A', stands d' A' ∧ grown A A' ∧ (∀ x, archived A' x → archived A x ∨ x = incoming)
    ∧ (err = None → archived A' committed).
Proof.
  intros HA Ha. destruct (apply_merges _ _ _ _ _ _ _ HA Ha) as (A' & HA' & Hm). exists A'. split; [done|].
  cbv zeta in Hm. destruct err as [e|].
  - destruct Hm as [->|[_ Hc]]; [split_and!; [reflexivity|by left|done]|].
    split_and!; [by eapply commits_grown|intros x; by apply commits_only|done].
  - destruct Hm as [Hm Hc]. apply ApplyStateObject_ok in Hm as [_ [(-> & -> & _)|(-> & cur & Hcur & -> & _)]].
    + rewrite bool_decide_true in Hc by done.
      split_and!; [by eapply commits_grown|intros x; by apply commits_only|intros _; by eapply commits_archived].
    + rewrite bool_decide_false in Hc by done. subst A'. split_and!; [reflexivity|by left|]. intros _.
      by eapply current_archived in Hcur as [? _]; [|by eapply stands_ok].
Qed.
End laws.

(** ** A store that keeps its objects in a list *)

Section list_store.
Context {ST : StdText}.

Definition list_Get (d : list StateObject) (id : string * string) : option StateObject :=
  List.find (fun o => bool_decide (Identity o = id)) d.
Definition list_Snapshot (d : list StateObject) (nss : list string) : list StateObject :=
  List.filter (fun o => str_in (so_Namespace o) nss) d.
Definition list_Apply (d : list StateObject) (incoming : StateObject)
  : list StateObject * (StateObject * option StateApplyResult * option goerror) :=
  let merged := ApplyStateObject (list_Get d (Identity incoming)) incoming DefaultLimits in
  (match merged with
   | (committed, Some StateApplyApplied, None) =>
       List.filter (fun o => negb (bool_decide (Identity o = Identity incoming))) d ++ [committed]
   | _ => d
   end, merged).

#[export] Instance list_states : StateStore (list StateObject) := {
  states_Get d ns id x := x = CRet (list_Get d (ns, id));
  states_Apply d incoming d' r := list_Apply d incoming = (d', r)
}.
#[export] Instance list_snapshots : StateSnapshotProvider (list StateObject) := {
  states_Snapshot d nss limits x := x = CRet (list_Snapshot d nss)
}.
#[export] Instance list_archived : Archived (list StateObject) := {
  states_limits := DefaultLimits;
  stands d A := archive_ok A ∧ NoDup (map Identity d) ∧ ∀ id, current A id = list_Get d id
}.

Lemma list_Get_elem d id o :
  NoDup (map Identity d) → list_Get d id = Some o ↔ o ∈ d ∧ Identity o = id.
Proof.
  intros Hnd. unfold list_Get. split.
  - intros [Hin Hb]%find_some. by bools; rewrite list_elem_of_In.
  - intros [Hin Hid]. induction d as [|x d IH]; [by apply elem_of_nil in Hin|]. cbn in Hnd |- *. apply NoDup_cons in Hnd as [Hx Hnd].
    apply elem_of_cons in Hin as [->|Hin]; [by rewrite bool_decide_true|]. rewrite bool_decide_false; [by apply IH|].
    intros E. apply Hx. rewrite E, <- Hid. change (map Identity d) with (Identity <$> d). by apply list_elem_of_fmap_2.
Qed.

Definition list_put (d : list StateObject) (o : StateObject) : list StateObject :=
  List.filter (fun x => negb (bool_decide (Identity x = Identity o))) d ++ [o].

Lemma list_put_elem d o x : x ∈ list_put d o ↔ x = o ∨ x ∈ d ∧ Identity x ≠ Identity o.
Proof.
  unfold list_put. rewrite elem_of_app, list_elem_of_singleton, list_elem_of_In, filter_In, <- list_elem_of_In, negb_true_iff,
    bool_decide_eq_false. tauto.
Qed.

Lemma list_put_NoDup d o : NoDup (map Identity d) → NoDup (map Identity (list_put d o)).
Proof.
  intros Hnd. unfold list_put. rewrite map_app. apply NoDup_app. split_and!; [|intros id|by apply NoDup_singleton].
  - induction d as [|x d IH]; [constructor|]. cbn in Hnd |- *. apply NoDup_cons in Hnd as [Hx Hnd].
    destruct (negb _); [|by apply IH]. cbn. apply NoDup_cons. split; [|by apply IH].
    intros (y & Hy & Hin%list_elem_of_In)%list_elem_of_fmap. apply filter_In in Hin as [Hin%list_elem_of_In _]. apply Hx.
    rewrite Hy. by apply list_elem_of_fmap_2.
  - intros (y & -> & Hin%list_elem_of_In)%list_elem_of_fmap. apply filter_In in Hin as [_ Hn%negb_true_iff%bool_decide_eq_false].
    cbn. intros E%list_elem_of_singleton. done.
Qed.

Lemma list_put_Get d o id :
  NoDup (map Identity d) → list_Get (list_put d o) id = if decide (id = Identity o) then Some o else list_Get d id.
Proof.
  intros Hnd. apply option_eq. intros x. rewrite list_Get_elem, list_put_elem by by apply list_put_NoDup. case_decide as E.
  - subst id. split; [by intros [[->|[_ ?]] ?]|intros [= ->]; auto].
  - rewrite list_Get_elem by done. split; [intros [[->|[? _]] ?]; [congruence|done]|]. intros [Hx Hid].
    split; [right|done]. split; [done|]. congruence.
Qed.

Lemma commit_ok A o :
  archive_ok A → (∀ cur, current A (Identity o) = Some cur → newer cur o) →
  archive_ok (fun id => if decide (id = Identity o) then A id ++ [o] else A id).
Proof.
  intros HA Hcur id. case_decide as E; [|apply HA]. subst id. destruct (HA (Identity o)) as [Hall Hs].
  split; [apply Forall_app; split; [done|by constructor]|].
  unfold current in Hcur. revert Hs Hcur. clear. intros Hs. generalize (A (Identity o)), Hs. clear. intros l Hs Hlast.
  assert (∀ x, x ∈ l → newer x o) as Hnew.
  { intros x Hx. destruct (last l) as [cur|] eqn:El; [|apply last_None in El; subst; by apply elem_of_nil in Hx].
    specialize (Hlast cur eq_refl). destruct (sorted_last _ _ _ Hs El Hx) as [->|]; [done|]. unfold newer in *. lia. }
  clear Hlast. induction Hs as [|x l Hs IH Hall]; cbn; [repeat constructor|]. constructor; [apply IH; set_solver|].
  apply Forall_app. split; [done|]. constructor; [|constructor]. apply Hnew. set_solver.
Qed.

#[export] Instance list_store_laws : StateStoreLaws (list StateObject).
Proof.
  split; cbn [states_Get states_Apply states_Snapshot states_limits stands list_states list_snapshots list_archived].
  - by intros d A (HA & _).
  - intros d A ns id r (_ & _ & Hc) [= ->]. by rewrite Hc.
  - intros d A nss limits states (_ & Hnd & Hc) [= ->] o. unfold list_Snapshot.
    rewrite list_elem_of_In, filter_In, <- list_elem_of_In, Hc, list_Get_elem, str_in_elem by done. naive_solver.
  - intros d A incoming d' committed result err (HA & Hnd & Hc) Ha. unfold list_Apply in Ha. cbv zeta. rewrite Hc.
    destruct (ApplyStateObject _ _ _) as [[co re] er] eqn:Hm. injection Ha as <- <- <- <-.
    destruct er as [e|]; [exists A; destruct re as [[]|]; split; [done|by left|done|by left|done|by left|done|by left|done|by left]|].
    pose proof (ApplyStateObject_ok _ _ _ _ _ Hm) as [_ [(-> & -> & Hnew)|(-> & _)]]; [|exists A; by rewrite bool_decide_false].
    rewrite bool_decide_true by done. eexists. split; [|split; [done|by intros id]].
    fold (list_put d incoming). split_and!; [|by apply list_put_NoDup|].
    + apply commit_ok; [done|]. intros cur Hcur. rewrite Hc in Hcur. by apply Hnew.
    + intros id. rewrite list_put_Get by done. unfold current. case_decide; [by rewrite last_snoc|apply Hc].
Qed.

(** A new archive: every object is the first of its identity. *)
Lemma list_stands d : NoDup (map Identity d) → stands d (fun id => option_list (list_Get d id)).
Proof.
  intros Hnd. split_and!; [|done|].
  - intros id. destruct (list_Get d id) as [o|] eqn:E; cbn; [|split; constructor].
    apply list_Get_elem in E as [_ E]; [|done]. split; repeat constructor. done.
  - intros id. unfold current. by destruct (list_Get d id).
Qed.
End list_store.
