(* ===== verification/Server.v ===== *)
(** * The server frame processor (server.go)

    [NewServerProtocol], [processFrame] and every handler, as programs over
    the collaborators' effects.  Nil-ness of optional collaborators is part
    of the configuration. *)

From Stdlib Require Import Ascii String.
From S2P Require Import Prelude Utf8 Json Types Codec Capability State Validate Outbound Store Client Sha256 Program.
Open Scope string_scope.
Open Scope list_scope.
Open Scope go_scope.
Open Scope Z_scope.

Definition FailAfterClaim : string := "after_claim".
Definition FailAfterApplication : string := "after_application".
Definition FailAfterComplete : string := "after_complete".

(** ** Configuration *)

Record ServerConfig := mkServerConfig {
  sv_Limits : Limits;
  sv_Capabilities : option CapabilityRegistry;
  sv_StateStore : bool;
  sv_StateSnapshots : bool;
  sv_SessionResumeTTL : Duration;
  sv_ReplayTTL : Duration;
  sv_DedupTTL : Duration;
  sv_ClientRetryTTL : Duration;
  sv_StrictValidation : bool;
  sv_MaxReplayEvents : Z;
  sv_MaxReplayBytes : Z;
  sv_FailureInjector : bool
}.

(** Which of the required collaborators are given, and the retention the
    deduplication store reports, if it does. *)
Record ServerDependencies := mkServerDependencies {
  sd_Sessions : bool;
  sd_Dedup : bool;
  sd_DedupRetention : option Duration;
  sd_Replay : bool;
  sd_Appender : bool;
  sd_Application : bool
}.

Definition DefaultServerConfig : ServerConfig :=
  mkServerConfig DefaultLimits None false false (24 * Hour) (24 * Hour) (24 * Hour) Hour true
    DefaultMaxReplayEvents DefaultMaxReplayBytes false.

Definition NewServerProtocol (config : ServerConfig) (deps : ServerDependencies) : res ServerConfig :=
  let limits := normalizeLimits (sv_Limits config) in
  _ ← validateLimits limits;
  let registry := default emptyCapabilityRegistry (sv_Capabilities config) in
  _ ← map_err (EWrap "kmtproto: invalid server capabilities: ") (registry_validate (Some registry) limits);
  _ ← map_err (EWrap "kmtproto: invalid server capabilities: ")
        (validateImplementedCapabilityRegistry (Some registry));
  let config := mkServerConfig limits (Some registry) (sv_StateStore config) (sv_StateSnapshots config)
    (sv_SessionResumeTTL config) (sv_ReplayTTL config) (sv_DedupTTL config) (sv_ClientRetryTTL config)
    (sv_StrictValidation config) (or_default (sv_MaxReplayEvents config) DefaultMaxReplayEvents)
    (or_default (sv_MaxReplayBytes config) DefaultMaxReplayBytes) (sv_FailureInjector config) in
  _ ← guard_err (sv_MaxReplayBytes config <? 0) (ENew "kmtproto: MaxReplayBytes must be positive");
  _ ← guard_err ((sv_SessionResumeTTL config <=? 0) || (sv_ReplayTTL config <=? 0)
                 || (sv_DedupTTL config <=? 0) || (sv_ClientRetryTTL config <=? 0))
        (ENew "kmtproto: TTL values must be positive");
  _ ← guard_err ((sv_DedupTTL config <? sv_ClientRetryTTL config)
                 || (sv_DedupTTL config <? sv_SessionResumeTTL config))
        (ENew "kmtproto: DedupTTL must cover ClientRetryTTL and SessionResumeTTL");
  _ ← guard_err (sv_ReplayTTL config <? sv_SessionResumeTTL config)
        (ENew "kmtproto: ReplayTTL must cover SessionResumeTTL");
  _ ← guard_err (negb (sd_Sessions deps)) (ENew "kmtproto: ServerDependencies.Sessions is required");
  _ ← guard_err (negb (sd_Dedup deps)) (ENew "kmtproto: ServerDependencies.Dedup is required");
  _ ← guard_err (negb (sd_Replay deps)) (ENew "kmtproto: ServerDependencies.Replay is required");
  _ ← guard_err (negb (sd_Appender deps)) (ENew "kmtproto: ServerDependencies.Appender is required");
  _ ← guard_err (negb (sd_Application deps)) (ENew "kmtproto: ServerDependencies.Application is required");
  _ ← guard_err (match sd_DedupRetention deps with
                 | Some retention => (retention <? sv_ClientRetryTTL config)
                                     || (retention <? sv_SessionResumeTTL config)
                 | None => false
                 end)
        (ENew "kmtproto: dedup store retention must cover ClientRetryTTL and SessionResumeTTL");
  Ok config.

(** ** Results *)

Record serverHandleResult := mkHandleResult {
  hr_readySessionID : string;
  hr_capabilities : SessionCapabilities;
  hr_close : bool;
  hr_abandonSession : bool
}.
Definition zeroResult : serverHandleResult := mkHandleResult "" zeroCapabilities false false.
Definition closeResult : serverHandleResult := mkHandleResult "" zeroCapabilities true false.
Definition abandonResult : serverHandleResult := mkHandleResult "" zeroCapabilities false true.

Definition hres : Type := serverHandleResult * option goerror.

(** [return result, err] after a call that gives only the error. *)
Definition with_result (r : serverHandleResult) (p : go (option goerror)) : go hres :=
  e ← p; mret (r, e).

Definition ErrStreamCallbackActive : goerror := ENew "kmtproto: session stream callback is active".

(** ** Error frames *)

(** The loop that moves [cut] back to the start of a rune. *)
Fixpoint rune_cut (value : string) (cut : nat) : nat :=
  match cut with
  | O => O
  | S cut' =>
      match String.get cut value with
      | Some b => if RuneStart b then cut else rune_cut value cut'
      | None => cut
      end
  end.
Definition truncateUTF8 (value : string) (limit : Z) : string :=
  if limit <=? 0 then ""
  else if slen value <=? limit then value
  else str_take (rune_cut value (Z.to_nat limit)) value.

Section server.
Context {ST : StdText}.
Variable c : ServerConfig.

Definition errorFrameAt (sessionID refID code message : string) (retryable : bool) (timestamp : Z) : Envelope :=
  let limits := sv_Limits c in
  let sessionID := if (MaxSessionIDLength limits <? slen sessionID) || negb (utf8_ValidString sessionID)
                   then "" else sessionID in
  let refID := if (MaxIDLength limits <? slen refID) || negb (utf8_ValidString refID) then "" else refID in
  let message := truncateUTF8 message (MaxErrorMessageLength limits) in
  mkEnvelope WireVersionV2 FrameError "" sessionID 0 timestamp (mustPayload (mkError code message refID retryable)).

Definition errorFrame (sessionID refID code message : string) (retryable : bool) : go Envelope :=
  now ← perform ENow;
  mret (errorFrameAt sessionID refID code message retryable (UnixMilli now)).

Definition validateOut (frame : Envelope) : res unit :=
  validateOutboundFrame frame (sv_Limits c) (sv_StrictValidation c).

Definition enqueueFrame (frame : Envelope) : go (option goerror) :=
  match validateOut frame with
  | Err e => mret (Some e)
  | Ok _ => perform (EEnqueueBatch [frame])
  end.

Definition closeOutbound : go unit := perform ECloseOutbound.

Definition enqueueErrorAt (sessionID refID code message : string) (retryable : bool) (timestamp : Z)
  : go (option goerror) :=
  err ← enqueueFrame (errorFrameAt sessionID refID code message retryable timestamp);
  match err with
  | Some e => mret (Some e)
  | None =>
      let '(behavior, known) := BehaviorForErrorCode code in
      if known && eb_CloseConnection behavior
      then _ ← closeOutbound; mret None
      else mret None
  end.

Definition enqueueError (sessionID refID code message : string) (retryable : bool) : go (option goerror) :=
  now ← perform ENow;
  enqueueErrorAt sessionID refID code message retryable (UnixMilli now).

(** ** Stream lanes: one stream operation of a Session at a time *)

(** A panic of the operation becomes its error. *)
Definition invokeStreamRequest {A} (failed : goerror → A) (fn : go A) : go A :=
  recover fn (fun msg => failed (ENew ("kmtproto: stream operation panicked: " +++ msg))).

Definition runStream {A} (sessionID : string) (failed : goerror → A) (body : go A) : go A :=
  entered ← perform (EStreamEnter sessionID);
  match entered with
  | Some e => mret (failed e)
  | None =>
      out ← invokeStreamRequest failed body;
      _ ← perform (EStreamLeave sessionID);
      mret out
  end.

(** [lane.invokeCallback]: a collaborator call with [callbackActive] set. *)
Definition lane_call {A} (sessionID : string) (e : eff (cb A)) : go (res A) :=
  active ← perform (EStreamCallback sessionID true);
  if (active : bool) then mret (Err ErrStreamCallbackActive)
  else finally (call e) (_ ← perform (EStreamCallback sessionID false); mret tt).

(** ** HELLO and PING *)

Definition handleHello (frame : Envelope) : go hres :=
  match decodePayload (A:=HelloPayload) (e_Payload frame) (sv_StrictValidation c) with
  | Err e => mret (zeroResult, Some e)
  | Ok hello =>
      match Negotiate (sv_Capabilities c) (hp_Capabilities hello) (sv_Limits c) with
      | Err err =>
          match errors_As err with
          | Some pe =>
              with_result (mkHandleResult "" zeroCapabilities (pe_Close pe) false)
                (enqueueError "" (e_ID frame) (pe_Code pe) (pe_Message pe) (pe_Retryable pe))
          | None => mret (zeroResult, Some err)
          end
      | Ok accepted =>
          id ← call ENewSessionID;
          match id with
          | Err _ | Ok EmptyString =>
              with_result zeroResult
                (enqueueError "" (e_ID frame) ErrorInternal "cannot create session" true)
          | Ok sessionID =>
              if (MaxSessionIDLength (sv_Limits c) <? slen sessionID) || negb (utf8_ValidString sessionID)
              then mret (zeroResult, Some (ENew "kmtproto: generated session id exceeds limit"))
              else
                t1 ← perform ENow;
                t2 ← perform ENow;
                let welcome := mkEnvelope WireVersionV2 FrameWelcome "" sessionID 0 (UnixMilli t1)
                  (mustPayload (mkWelcome WelcomeModeNew (UnixMilli t2) 0 0 None (sc_List accepted))) in
                match validateOut welcome with
                | Err e => mret (zeroResult, Some e)
                | Ok _ =>
                    t3 ← perform ENow;
                    let state := mkSessionState sessionID (Time_Add t3 (sv_SessionResumeTTL c)) accepted in
                    created ← call (ESessionCreate state);
                    match created with
                    | Err e =>
                        if errors_Is e ErrSessionExists
                        then with_result zeroResult
                               (enqueueError "" (e_ID frame) ErrorInternal
                                  "cannot allocate a unique session" true)
                        else mret (zeroResult, Some e)
                    | Ok _ =>
                        err ← enqueueFrame welcome;
                        match err with
                        | Some e => mret (zeroResult, Some e)
                        | None => mret (mkHandleResult sessionID accepted false false, None)
                        end
                    end
                end
          end
      end
  end.

Definition handlePing (frame : Envelope) : go hres :=
  now ← perform ENow;
  looked ← call (ESessionLookup (e_SessionID frame) now);
  match looked with
  | Err e => mret (zeroResult, Some e)
  | Ok None =>
      with_result abandonResult
        (enqueueError (e_SessionID frame) "" ErrorInvalidSession "session expired or unknown" false)
  | Ok (Some _) =>
      match decodePayload (A:=PingPayload) (e_Payload frame) (sv_StrictValidation c) with
      | Err e => mret (zeroResult, Some e)
      | Ok ping =>
          t1 ← perform ENow;
          t2 ← perform ENow;
          with_result zeroResult
            (enqueueFrame (mkEnvelope WireVersionV2 FramePong "" (e_SessionID frame) 0 (UnixMilli t1)
               (mustPayload (mkPong (pi_PingID ping) (pi_ClientTime ping) (UnixMilli t2)))))
      end
  end.

(** ** SEND *)

Definition validateStoredACK (ack : Envelope) (sessionID messageID : string) : res unit :=
  _ ← map_err (EWrap "kmtproto: dedup store returned invalid ACK: ") (validateOut ack);
  _ ← guard_err ((e_Type ack != FrameAck) || (e_SessionID ack != sessionID))
        (ENew "kmtproto: dedup store returned ACK for another SEND");
  payload ← map_err (EWrap "kmtproto: dedup store returned invalid ACK payload: ")
              (decodePayload (A:=AckPayload) (e_Payload ack) (sv_StrictValidation c));
  guard_err (ap_RefID payload != messageID) (ENew "kmtproto: dedup store returned ACK for another SEND").

Definition inject (point : string) : go (res unit) :=
  if sv_FailureInjector c then call (EFail point) else mret (Ok tt).

Definition invokeSendCallback {A} (key : string) (flight : nat) (fn : go (res A)) : go (res A) :=
  started ← perform (EBeginSendCallback key flight);
  if negb started then mret (Err (ENew "kmtproto: SEND flight callback is already active"))
  else
    out ← recover fn (fun msg => Err (ENew ("kmtproto: SEND dependency callback panicked: " +++ msg)));
    _ ← perform (EEndSendCallback flight);
    mret out.

(** A validated stored ACK goes out; otherwise its defect is the error. *)
Definition enqueueStoredACK (ack : Envelope) (frame : Envelope) : go (option goerror) :=
  match validateStoredACK ack (e_SessionID frame) (e_ID frame) with
  | Err e => mret (Some e)
  | Ok _ => enqueueFrame ack
  end.

Definition waitForOriginal (flight : nat) (frame : Envelope) (timestamp : Z) : go (option goerror) :=
  waited ← perform (EWaitFlight flight);
  match waited with
  | Some e => mret (Some e)
  | None =>
      ack ← perform (EFlightACK flight);
      match ack with
      | Some ack => enqueueStoredACK ack frame
      | None => enqueueErrorAt (e_SessionID frame) (e_ID frame) ErrorInternal
                  "original SEND did not complete; retry" true timestamp
      end
  end.

(** [handleSend] in three parts: after the claim, the leader, and the entry. *)
Definition sendClaimed (frame : Envelope) (content key : string) (flight : nat) (timestamp : Z)
  : go (option goerror) :=
  injected ← invokeSendCallback key flight (inject FailAfterClaim);
  match injected with
  | Err e => mret (Some e)
  | Ok _ =>
  applied ← invokeSendCallback key flight (call (EHandleSend (e_ID frame) content));
  match applied with
  | Err _ => enqueueErrorAt (e_SessionID frame) (e_ID frame) ErrorInternal "application rejected SEND"
               true timestamp
  | Ok _ =>
  injected ← invokeSendCallback key flight (inject FailAfterApplication);
  match injected with
  | Err e => mret (Some e)
  | Ok _ =>
  let ack := mkEnvelope WireVersionV2 FrameAck "" (e_SessionID frame) 0 timestamp
               (mustPayload (mkAck (e_ID frame))) in
  match validateOut ack with
  | Err e => mret (Some e)
  | Ok _ =>
  completed ← invokeSendCallback key flight (call (EComplete (e_SessionID frame) (e_ID frame) ack));
  match completed with
  | Err e => mret (Some e)
  | Ok _ =>
  _ ← perform (ESetFlightACK flight ack);
  injected ← invokeSendCallback key flight (inject FailAfterComplete);
  match injected with
  | Err e => mret (Some e)
  | Ok _ => enqueueFrame ack
  end end end end end end.

Definition sendLeader (frame : Envelope) (content : string) (fingerprint : SendFingerprint) (key : string)
    (flight : nat) (now : time) (timestamp : Z) : go hres :=
  looked ← invokeSendCallback key flight (call (ESessionLookup (e_SessionID frame) now));
  match looked with
  | Err e => mret (zeroResult, Some e)
  | Ok None =>
      with_result abandonResult
        (enqueueErrorAt (e_SessionID frame) (e_ID frame) ErrorInvalidSession "session expired or unknown"
           false timestamp)
  | Ok (Some _) =>
      claim ← invokeSendCallback key flight (call (EClaim (e_SessionID frame) (e_ID frame) fingerprint));
      match claim with
      | Err e => mret (zeroResult, Some e)
      | Ok (true, _) => with_result zeroResult (sendClaimed frame content key flight timestamp)
      | Ok (false, existing) =>
          if match existing with Some r => dr_Fingerprint r != fingerprint | None => false end
          then with_result zeroResult
                 (enqueueErrorAt (e_SessionID frame) (e_ID frame) ErrorBadRequest
                    "SEND id was reused with different content" false timestamp)
          else
            match existing with
            | Some (mkDedupRecord DedupCompleted _ (Some ack)) =>
                match validateStoredACK ack (e_SessionID frame) (e_ID frame) with
                | Err e => mret (zeroResult, Some e)
                | Ok _ =>
                    _ ← perform (ESetFlightACK flight ack);
                    with_result zeroResult (enqueueFrame ack)
                end
            | _ => with_result zeroResult
                     (enqueueErrorAt (e_SessionID frame) (e_ID frame) ErrorInternal
                        "SEND is still processing; retry with the same id" true timestamp)
            end
      end
  end.

Definition handleSend (frame : Envelope) : go hres :=
  now ← perform ENow;
  let timestamp := UnixMilli now in
  match decodePayload (A:=SendPayload) (e_Payload frame) (sv_StrictValidation c) with
  | Err e => mret (zeroResult, Some e)
  | Ok payload =>
      let content := sp_Content payload in
      let fingerprint := Sum256 content in
      let key := dedupKey (e_SessionID frame) (e_ID frame) in
      acquired ← perform (EAcquireFlight key fingerprint);
      let '(flight, leader, conflict, callbackActive) := acquired in
      if (conflict : bool) then
        with_result zeroResult
          (enqueueErrorAt (e_SessionID frame) (e_ID frame) ErrorBadRequest
             "SEND id was reused with different content" false timestamp)
      else if negb leader then
        if (callbackActive : bool) then
          ack ← perform (EFlightACK flight);
          with_result zeroResult
            match ack with
            | Some ack => enqueueStoredACK ack frame
            | None => enqueueErrorAt (e_SessionID frame) (e_ID frame) ErrorInternal
                        "SEND callback is active; retry with the same id" true timestamp
            end
        else with_result zeroResult (waitForOriginal flight frame timestamp)
      else
        finally (sendLeader frame content fingerprint key flight now timestamp)
          (perform (EFinishFlight key flight))
  end.
End server.
