(* ===== verification/ServerStream.v ===== *)
(** * Stream operations of the server (server.go)

    RESUME, STATE_QUERY and the two publishing entry points run on the
    Session's lane, where their collaborator calls are made one at a time. *)

From Stdlib Require Import Ascii String.
From S2P Require Import Prelude Utf8 Json Types Codec Capability State Validate Outbound Store Client Sha256 Program Server.
Open Scope string_scope.
Open Scope list_scope.
Open Scope go_scope.
Open Scope Z_scope.

(** The order of [sort.Slice] in [buildResumeStateSnapshot]. *)
Definition object_ltb (a b : StateObject) : bool :=
  if so_Namespace a != so_Namespace b then so_Namespace a <s so_Namespace b
  else so_ObjectID a <s so_ObjectID b.
Definition object_le (a b : StateObject) : Prop := object_ltb b a = false.
#[export] Instance object_le_dec : RelDecision object_le := fun a b => decide (object_ltb b a = false).

Section stream.
Context {ST : StdText}.
Variable c : ServerConfig.

(** ** Snapshots *)

Definition stateSnapshotLimits (frame : Envelope) : res StateSnapshotLimits :=
  let probe := (copyEnvelope frame) <| e_Payload := "{}" |> in
  match Marshal probe with
  | None => Err (EJson JMarshal)
  | Some encoded =>
      let overhead := slen encoded - slen (e_Payload probe) in
      let maxBytes := minInt (MaxStateSnapshotBytes (sv_Limits c)) (MaxPayloadSize (sv_Limits c)) in
      let maxBytes := minInt maxBytes (MaxFrameSize (sv_Limits c) - overhead) in
      if maxBytes <=? 0 then Err (ENew ErrStateSnapshotLimitExceeded)
      else Ok (mkSnapshotLimits (MaxStateSnapshotObjects (sv_Limits c)) maxBytes)
  end.

(** The loop over the provider's objects. *)
Fixpoint provided_loop (allowed : list string) (seen : gset (string * string)) (states : list StateObject)
  : res unit :=
  match states with
  | [] => Ok tt
  | object :: rest =>
      _ ← ValidateStateObject object (sv_Limits c);
      _ ← guard_err (negb (str_in (so_Namespace object) allowed))
            (ENew "kmtproto: State snapshot returned an unrequested namespace");
      _ ← guard_err (bool_decide (Identity object ∈ seen))
            (ENew "kmtproto: State snapshot returned a duplicate identity");
      provided_loop allowed ({[Identity object]} ∪ seen) rest
  end.

(** What follows the provider's answer in [buildResumeStateSnapshot]. *)
Definition assembleSnapshot (snapshot : Envelope) (snapshotLimits : StateSnapshotLimits)
    (namespaces : list string) (states : list StateObject) : res Envelope :=
  _ ← guard_err (sl_MaxObjects snapshotLimits <? Z.of_nat (length states))
        (ENew ErrStateSnapshotLimitExceeded);
  _ ← provided_loop namespaces ∅ states;
  let copyStates := merge_sort object_le (map cloneStateObject states) in
  accumulator ← newStateSnapshotAccumulator (sv_Limits c) snapshotLimits;
  accumulator ← accumulate accumulator copyStates;
  payload ← accumulator_Payload accumulator;
  let snapshot := snapshot <| e_Payload := payload |> in
  _ ← validateOut c snapshot;
  Ok snapshot.

Definition buildResumeStateSnapshot (sessionID frameID : string) (timestamp : Z) (namespaces : list string)
  : go (res Envelope) :=
  let snapshot := mkEnvelope WireVersionV2 FrameStateSnapshot frameID sessionID 0 timestamp "" in
  match stateSnapshotLimits snapshot with
  | Err e => mret (Err e)
  | Ok snapshotLimits =>
      states ← lane_call sessionID (ESnapshot namespaces snapshotLimits);
      mret (states ≫= assembleSnapshot snapshot snapshotLimits namespaces)
  end.

(** ** RESUME *)

(** The loop that checks the replayed events: the sequence after the last
    one, or the message of the ERROR to send. *)
Fixpoint check_replayed (sessionID : string) (expectedSeq : Z) (events : list Envelope)
  : result string Z :=
  match events with
  | [] => Ok expectedSeq
  | event :: rest =>
      match validateOut c event with
      | Err _ => Err "replay store returned an invalid EVENT"
      | Ok _ =>
          if (e_Type event != FrameEvent) || (e_SessionID event != sessionID) || negb (e_Seq event =? expectedSeq)
          then Err "replay store returned a non-contiguous event range"
          else check_replayed sessionID (u64 (expectedSeq + 1)) rest
      end
  end.

(** The snapshot a RESUME asked for, if it did. *)
Definition resumeSnapshot (sid : string) (resume : ResumePayload) (stateSnapshotID : string) (timestamp : Z)
  : go (res (option Envelope)) :=
  match rp_StateSync resume with
  | Some sync =>
      built ← buildResumeStateSnapshot sid stateSnapshotID timestamp (rss_Namespaces sync);
      mret (match built with Ok snapshot => Ok (Some snapshot) | Err e => Err e end)
  | None => mret (Ok None)
  end.

(** The batch and its enqueueing. *)
Definition resumeWelcome (sid : string) (resume : ResumePayload) (timestamp replayTo : Z) : Envelope :=
  mkEnvelope WireVersionV2 FrameWelcome "" sid 0 timestamp
    (mustPayload (mkWelcome WelcomeModeResumed timestamp (u64 (rp_LastSeq resume + 1)) replayTo
                    (cloneResumeStateSync (rp_StateSync resume)) [])).
Definition resumeBatch (sid : string) (resume : ResumePayload) (state : SessionState) (timestamp replayTo : Z)
    (events : list Envelope) (stateSnapshot : option Envelope) : go hres :=
  let result := mkHandleResult "" (ss_Capabilities state) false false in
  let welcome := resumeWelcome sid resume timestamp replayTo in
  match validateOut c welcome with
  | Err e => mret (result, Some e)
  | Ok _ =>
      err ← perform (EEnqueueBatch (welcome :: events ++ option_list stateSnapshot));
      match err with
      | Some e => mret (result, Some e)
      | None => mret (mkHandleResult sid (ss_Capabilities state) false false, None)
      end
  end.

(** The stream operation of [handleResume].  [closed] is [result] with
    the flag the source sets before it reports some of the errors. *)
Definition resumeStream (frame : Envelope) (resume : ResumePayload) (state : SessionState)
    (stateSnapshotID : string) (timestamp : Z) : go hres :=
  let sid := e_SessionID frame in
  let result := mkHandleResult "" (ss_Capabilities state) false false in
  let closed := mkHandleResult "" (ss_Capabilities state) true false in
  let fail r code message retryable :=
    with_result r (enqueueErrorAt c sid "" code message retryable timestamp) in
  current ← lane_call sid (ECurrentSeq sid);
  match current with
  | Err _ => fail closed ErrorInternal "replay high-water could not be read" true
  | Ok current =>
  let replayTo := u64 current in
  if replayTo <? rp_LastSeq resume then
    fail closed ErrorProtocolViolation "last_seq is ahead of server stream" false
  else if rp_LastSeq resume =? MaxUint64 then
    fail result ErrorSyncRequired "event sequence is exhausted" false
  else if sv_MaxReplayEvents c <? u64 (replayTo - rp_LastSeq resume) then
    fail result ErrorSyncRequired "replay exceeds configured event limit" false
  else
  replayed ← lane_call sid (EReplay sid (rp_LastSeq resume) replayTo
                              (mkReplayLimits (sv_MaxReplayEvents c) (sv_MaxReplayBytes c)));
  match replayed with
  | Err e =>
      if errors_Is e ErrReplayLimitExceeded then
        fail result ErrorSyncRequired "replay exceeds configured byte limit" false
      else if errors_Is e ErrReplayUnavailable then
        fail result ErrorSyncRequired "replay window no longer covers last_seq" false
      else fail closed ErrorInternal "replay could not be produced" true
  | Ok events =>
  match check_replayed sid (u64 (rp_LastSeq resume + 1)) events with
  | Err message => fail closed ErrorInternal message true
  | Ok expectedSeq =>
  if negb (expectedSeq =? u64 (replayTo + 1)) then
    fail closed ErrorInternal "replay store returned an incomplete event range" true
  else
  stateSnapshot ← resumeSnapshot sid resume stateSnapshotID timestamp;
  match stateSnapshot with
  | Err _ => fail closed ErrorStateUnavailable "State snapshot could not be produced" true
  | Ok stateSnapshot => resumeBatch sid resume state timestamp replayTo events stateSnapshot
  end end end end.

Definition handleResume (frame : Envelope) : go hres :=
  now ← perform ENow;
  let timestamp := UnixMilli now in
  let sid := e_SessionID frame in
  let close code message retryable :=
    with_result closeResult (enqueueErrorAt c sid "" code message retryable timestamp) in
  match decodePayload (A:=ResumePayload) (e_Payload frame) (sv_StrictValidation c) with
  | Err e => mret (zeroResult, Some e)
  | Ok resume =>
  looked ← call (ESessionLookup sid now);
  match looked with
  | Err e => mret (zeroResult, Some e)
  | Ok None =>
      with_result abandonResult
        (enqueueErrorAt c sid "" ErrorInvalidSession "session expired or unknown" false timestamp)
  | Ok (Some state) =>
  let stream id :=
    runStream sid (fun e => (mkHandleResult "" (ss_Capabilities state) false false, Some e))
      (resumeStream frame resume state id timestamp) in
  match rp_StateSync resume with
  | None => stream ""
  | Some _ =>
      if negb (stateSyncEnabled (ss_Capabilities state)) then
        close ErrorUnsupportedFeature "RESUME requires state-sync capability version 1" false
      else if negb (sv_StateSnapshots c) then
        close ErrorStateUnavailable "State snapshot provider is unavailable" true
      else
        id ← call ENewFrameID;
        match id with
        | Err _ | Ok EmptyString =>
            close ErrorStateUnavailable "State snapshot identity could not be produced" true
        | Ok id => stream id
        end
  end end end.

(** ** STATE_QUERY *)

(** How the loop over the requested objects ends early. *)
Inductive query_stop :=
| QLimit
| QFail (e : goerror).

Fixpoint query_objects (sid namespace : string) (a : stateSnapshotAccumulator) (objectIDs : list string)
  : go (result query_stop stateSnapshotAccumulator) :=
  match objectIDs with
  | [] => mret (Ok a)
  | objectID :: rest =>
      got ← lane_call sid (EStateGet namespace objectID);
      match got with
      | Err e => mret (Err (QFail e))
      | Ok None => query_objects sid namespace a rest
      | Ok (Some object) =>
          if (so_Namespace object != namespace) || (so_ObjectID object != objectID) then
            mret (Err (QFail (ENew "kmtproto: StateStore returned the wrong object identity")))
          else
            match ValidateStateObject object (sv_Limits c) with
            | Err e => mret (Err (QFail (EWrap "kmtproto: StateStore returned invalid State: " e)))
            | Ok _ =>
                match accumulator_Add a object with
                | Err e => mret (Err (if errors_Is e ErrStateSnapshotLimitExceeded then QLimit else QFail e))
                | Ok a' => query_objects sid namespace a' rest
                end
            end
      end
  end.

Definition queryStream (frame : Envelope) (now : time) : go hres :=
  let sid := e_SessionID frame in
  let timestamp := UnixMilli now in
  let fail r code message retryable :=
    with_result r (enqueueErrorAt c sid (e_ID frame) code message retryable timestamp) in
  let limit := fail zeroResult ErrorBadRequest "State snapshot exceeds configured limit; split the query" false in
  looked ← lane_call sid (ESessionLookup sid now);
  match looked with
  | Err e => mret (zeroResult, Some e)
  | Ok None => fail abandonResult ErrorInvalidSession "session expired or unknown" false
  | Ok (Some session) =>
  if negb (stateSyncEnabled (ss_Capabilities session)) then
    fail closeResult ErrorProtocolViolation "STATE_QUERY requires state-sync capability version 1" false
  else if negb (sv_StateStore c) then fail zeroResult ErrorInternal "State store is unavailable" true
  else
  match decodePayload (A:=StateQueryPayload) (e_Payload frame) (sv_StrictValidation c) with
  | Err e => mret (zeroResult, Some e)
  | Ok query =>
  let snapshot := mkEnvelope WireVersionV2 FrameStateSnapshot (e_ID frame) sid 0 timestamp "" in
  match snapshotLimits ← stateSnapshotLimits snapshot;
        newStateSnapshotAccumulator (sv_Limits c) snapshotLimits with
  | Err e => mret (zeroResult, Some e)
  | Ok accumulator =>
  collected ← query_objects sid (sq_Namespace query) accumulator (sortStrings (sq_ObjectIDs query));
  match collected with
  | Err QLimit => limit
  | Err (QFail e) => mret (zeroResult, Some e)
  | Ok accumulator =>
  match accumulator_Payload accumulator with
  | Err e => if errors_Is e ErrStateSnapshotLimitExceeded then limit else mret (zeroResult, Some e)
  | Ok payload => with_result zeroResult (enqueueFrame c (snapshot <| e_Payload := payload |>))
  end end end end end.

Definition handleStateQuery (frame : Envelope) : go hres :=
  now ← perform ENow;
  runStream (e_SessionID frame) (fun e => (zeroResult, Some e)) (queryStream frame now).

(** ** Publishing.  [outbound] is false for a nil queue. *)

Definition publishEventStream (sessionID eventID eventType content : string) (now : time)
  : go (option goerror) :=
  looked ← lane_call sessionID (ESessionLookup sessionID now);
  match looked with
  | Err e => mret (Some e)
  | Ok None => mret (Some (NewProtocolError ErrorInvalidSession "session is not resumable"))
  | Ok (Some _) =>
  appended ← lane_call sessionID (EAppend sessionID eventID eventType content (UnixMilli now));
  match appended with
  | Err e => mret (Some e)
  | Ok event =>
  match validateOut c event with
  | Err e => mret (Some (EWrap "kmtproto: EventAppender returned invalid EVENT: " e))
  | Ok _ =>
  match decodePayload (A:=EventPayload) (e_Payload event) (sv_StrictValidation c) with
  | Err e => mret (Some (EWrap "kmtproto: EventAppender returned invalid EVENT payload: " e))
  | Ok payload =>
  if (e_Type event != FrameEvent) || (e_SessionID event != sessionID) || (e_ID event != eventID)
     || (ep_EventType payload != eventType) || (ep_Content payload != content)
  then mret (Some (ENew "kmtproto: EventAppender returned an EVENT that does not match the append request"))
  else enqueueFrame c event
  end end end end.

Definition PublishEvent (sessionID eventID eventType content : string) (outbound : bool)
  : go (option goerror) :=
  if negb outbound || (sessionID == "") || (eventID == "") || negb (json_Valid content)
     || negb (utf8_ValidString eventID)
  then mret (Some (NewProtocolError ErrorBadRequest "invalid event publication"))
  else if (MaxIDLength (sv_Limits c) <? slen eventID) || (MaxSessionIDLength (sv_Limits c) <? slen sessionID)
          || (MaxPayloadSize (sv_Limits c) <? slen content)
  then mret (Some (NewProtocolError ErrorBadRequest "event publication exceeds protocol limits"))
  else
    now ← perform ENow;
    let probe := mkEnvelope WireVersionV2 FrameEvent eventID sessionID MaxUint64 (UnixMilli now)
                   (mustPayload (mkEvent eventType content)) in
    match validateOut c probe with
    | Err e => mret (Some e)
    | Ok _ => runStream sessionID Some (publishEventStream sessionID eventID eventType content now)
    end.

Definition publishUpdateStream (sessionID updateID : string) (object : StateObject) (now : time)
  : go (option goerror) :=
  looked ← lane_call sessionID (ESessionLookup sessionID now);
  match looked with
  | Err e => mret (Some e)
  | Ok None => mret (Some (NewProtocolError ErrorInvalidSession "session expired or unknown"))
  | Ok (Some session) =>
  if negb (stateSyncEnabled (ss_Capabilities session))
  then mret (Some (NewProtocolError ErrorProtocolViolation "STATE_UPDATE requires state-sync capability version 1"))
  else enqueueFrame c (mkEnvelope WireVersionV2 FrameStateUpdate updateID sessionID 0 (UnixMilli now)
                         (mustPayload (mkStateUpdate (cloneStateObject object))))
  end.

Definition PublishStateUpdate (sessionID updateID : string) (object : StateObject) (outbound : bool)
  : go (option goerror) :=
  if negb outbound then mret (Some (ENew "kmtproto: nil outbound queue"))
  else
    match ValidateStateObject object (sv_Limits c) with
    | Err e => mret (Some e)
    | Ok _ =>
        now ← perform ENow;
        runStream sessionID Some (publishUpdateStream sessionID updateID object now)
    end.

(** ** Dispatch.  [outbound] is false for a nil queue. *)

Definition processFrame (frame : Envelope) (outbound : bool) : go hres :=
  if negb outbound then mret (zeroResult, Some (ENew "kmtproto: nil outbound queue"))
  else
  match ValidateFrame frame (sv_Limits c) (sv_StrictValidation c) with
  | Err err =>
      if e_Type frame == FrameError then _ ← closeOutbound; mret (closeResult, None)
      else
        match errors_As err with
        | Some pe =>
            _ ← enqueueError c (e_SessionID frame) (e_ID frame) (pe_Code pe) (pe_Message pe) (pe_Retryable pe);
            let behavior := (BehaviorForErrorCode (pe_Code pe)).1 in
            mret (mkHandleResult "" zeroCapabilities (pe_Close pe || eb_CloseConnection behavior) false, None)
        | None => mret (zeroResult, Some err)
        end
  | Ok _ =>
      if e_Type frame == FrameHello then handleHello c frame
      else if e_Type frame == FramePing then handlePing c frame
      else if e_Type frame == FrameSend then handleSend c frame
      else if e_Type frame == FrameStateQuery then handleStateQuery frame
      else if e_Type frame == FrameResume then handleResume frame
      else if e_Type frame == FrameError then _ ← closeOutbound; mret (closeResult, None)
      else with_result closeResult
             (enqueueError c (e_SessionID frame) (e_ID frame) ErrorProtocolViolation
                "unexpected client frame type" false)
  end.

Definition ProcessFrame (frame : Envelope) (outbound : bool) : go (option goerror) :=
  r ← processFrame frame outbound; mret r.2.

(** [invokeServerProcess]: a panic closes the queue and the connection. *)
Definition invokeServerProcess (frame : Envelope) : go hres :=
  pbind (fun o => match o with
                  | Normal r => PRet (Normal r)
                  | Panicked msg =>
                      _ ← closeOutbound;
                      mret (closeResult, Some (ENew ("kmtproto: server dependency panicked: " +++ msg)))
                  end) (processFrame frame true).
End stream.
