(* ===== verification/MemoryServer.v ===== *)
(** * The server over the in-memory stores

    The world of a server built from the reference stores of store.go, one
    thread at a time: a clock that stands still, a list of identifiers to
    generate, State objects by identity, an application that accepts, and
    the outbound queue of the connection. *)

From Stdlib Require Import Ascii String.
From S2P Require Import Prelude Utf8 Json Types Codec Capability State Validate Outbound Store Client Sha256 Program Server ServerStream.
Open Scope string_scope.
Open Scope list_scope.
Open Scope go_scope.
Open Scope Z_scope.

Record memory := mkMemory {
  mm_now : time;
  mm_ids : list string;
  mm_sessions : gmap string SessionState;
  mm_dedup : MemoryDedupStore;
  mm_replay : MemoryReplayStore;
  mm_states : list StateObject;
  mm_flights : Flights;
  mm_outbound : OutboundQueue;
  mm_handled : list (string * string)
}.
#[export] Instance memory_eta : Eta memory := fun m =>
  mkMemory (mm_now m) (mm_ids m) (mm_sessions m) (mm_dedup m) (mm_replay m) (mm_states m) (mm_flights m)
    (mm_outbound m) (mm_handled m).

Definition new_memory (now : time) (ids : list string) (states : list StateObject) : memory :=
  mkMemory now ids ∅ (NewMemoryDedupStore (24 * Hour)) NewMemoryReplayStore states noFlights NewOutboundQueue [].

Definition of_res {A} (r : res A) : cb A := match r with Ok a => CRet a | Err e => CFail e end.
Definition of_err (e : option goerror) : cb unit := match e with None => CRet tt | Some e => CFail e end.
Definition next_id (m : memory) : option (memory * cb string) :=
  match mm_ids m with
  | id :: ids => Some (m <| mm_ids := ids |>, CRet id)
  | [] => Some (m, CFail (ENew "no more identifiers"))
  end.

Section world.
Context {ST : StdText}.

Definition memory_world : world memory := fun X e =>
  match e in eff X return memory → option (memory * X) with
  | ENow => fun m => Some (m, mm_now m)
  | ENewSessionID => next_id
  | ENewFrameID => next_id
  | ESessionCreate state => fun m =>
      let '(sessions, err) := Session_Create (mm_sessions m) state in
      Some (m <| mm_sessions := sessions |>, of_err err)
  | ESessionLookup sid now => fun m => Some (m, CRet (Session_Lookup (mm_sessions m) sid now))
  | EClaim sid mid fp => fun m =>
      let '(d, r) := Dedup_Claim (mm_dedup m) (mm_now m) sid mid fp in Some (m <| mm_dedup := d |>, CRet r)
  | EComplete sid mid ack => fun m =>
      let '(d, err) := Dedup_Complete (mm_dedup m) (mm_now m) sid mid (Some ack) in
      Some (m <| mm_dedup := d |>, of_err err)
  | ECurrentSeq sid => fun m => Some (m, CRet (CurrentSeq (mm_replay m) sid))
  | EReplay sid after through limits => fun m =>
      Some (m, of_res (Replay (mm_replay m) sid after through limits))
  | EAppend sid eid ety content ts => fun m =>
      let '(store, r) := Append (mm_replay m) sid eid ety content ts in
      Some (m <| mm_replay := store |>, of_res r)
  | EHandleSend id payload => fun m => Some (m <| mm_handled := mm_handled m ++ [(id, payload)] |>, CRet tt)
  | EStateGet ns id => fun m =>
      Some (m, CRet (List.find (fun o => bool_decide (Identity o = (ns, id))) (mm_states m)))
  | ESnapshot nss _ => fun m =>
      Some (m, CRet (List.filter (fun o => str_in (so_Namespace o) nss) (mm_states m)))
  | EFail _ => fun m => Some (m, CRet tt)
  | EAcquireFlight key fp => fun m =>
      let '(F, x) := acquireFlight key fp (mm_flights m) in Some (m <| mm_flights := F |>, x)
  | EFinishFlight key f => fun m => Some (m <| mm_flights := finishFlight key f (mm_flights m) |>, tt)
  | EBeginSendCallback key f => fun m =>
      let '(F, x) := beginSendCallback key f (mm_flights m) in Some (m <| mm_flights := F |>, x)
  | EEndSendCallback f => fun m => Some (m <| mm_flights := endSendCallback f (mm_flights m) |>, tt)
  | ESetFlightACK f ack => fun m => Some (m <| mm_flights := setFlightACK f ack (mm_flights m) |>, tt)
  | EFlightACK f => fun m => Some (m, flightACK f (mm_flights m))
  | EWaitFlight _ => fun _ => None
  | EStreamEnter _ => fun m => Some (m, None)
  | EStreamLeave _ => fun m => Some (m, tt)
  | EStreamCallback _ _ => fun m => Some (m, false)
  | EEnqueueBatch frames => fun m =>
      let '(q, err) := EnqueueBatch (mm_outbound m) frames in Some (m <| mm_outbound := q |>, err)
  | ECloseOutbound => fun m => Some (m <| mm_outbound := Queue_Close (mm_outbound m) |>, tt)
  end.

(** Run one handler, and a list of inbound frames. *)
Definition run_memory {A} (p : go A) (m : memory) : memory * option (outcome A) :=
  match exec memory_world p m with
  | Some (m', _, o) => (m', Some o)
  | None => (m, None)
  end.
Definition memory_trace {A} (p : go A) (m : memory) : list event :=
  match exec memory_world p m with Some (_, t, _) => t | None => [] end.
Definition process_all (c : ServerConfig) (frames : list Envelope) (m : memory) : memory :=
  foldl (fun m frame => (run_memory (invokeServerProcess c frame) m).1) m frames.

Lemma memory_trace_traces {A} (p : go A) m o :
  (run_memory p m).2 = Some o → traces p (memory_trace p m) o.
Proof.
  unfold run_memory, memory_trace. destruct (exec memory_world p m) as [[[m1 t] o']|] eqn:E; [|done].
  intros [= <-]. by eapply exec_traces.
Qed.
End world.

(** ** A scenario: a Session with state-sync and three events *)

Section demo.
#[local] Existing Instance demo_text.

Definition demo_server : ServerConfig :=
  match NewServerProtocol
          (mkServerConfig DefaultLimits (Some (mkRegistry {[CapabilityStateSync := [CapabilityStateSyncVersion]]}))
             true true (24 * Hour) (24 * Hour) (24 * Hour) Hour true 0 0 false)
          (mkServerDependencies true true (Some (24 * Hour)) true true true) with
  | Ok c => c
  | Err _ => DefaultServerConfig
  end.
Definition demo_in (type id sid payload : string) : Envelope :=
  mkEnvelope WireVersionV2 type id sid 0 1000 (js payload).
Definition demo_hello : Envelope :=
  demo_in FrameHello "h1" ""
    "{'client_name':'c','capabilities':[{'name':'state-sync','versions':[1],'required':true}]}".
Definition demo_objects : list StateObject :=
  [mkStateObject "room" "b" 1 (js "{'n':2}"); mkStateObject "room" "a" 4 (js "{'n':1}");
   mkStateObject "user" "u" 1 (js "{}")].
Definition demo_memory : memory :=
  let m := process_all demo_server [demo_hello] (new_memory 5000000000 ["s1"; "snap1"] demo_objects) in
  foldl (fun m id => (run_memory (PublishEvent demo_server "s1" id "t" (js "{'n':1}") true) m).1) m
    ["e1"; "e2"; "e3"].
Definition demo_resume : Envelope :=
  demo_in FrameResume "" "s1" "{'last_seq':1,'state_sync':{'namespaces':['room']}}".
End demo.
