(* ===== verification/Runs.v ===== *)
(** * Running the server over the memory stores

    [runs w p s s' a]: in world [w], program [p] goes from [s] to [s'] and
    returns [a]: it neither waits for ever nor gets stuck.  The rules follow
    the program constructors.  With them: a RESUME the stores can serve is
    served. *)

From Stdlib Require Import Ascii String.
From S2P Require Import Prelude SortedLists Utf8 Json Types Codec Capability State Validate Outbound Store StoreProps Client Sha256 Program Server ServerStream MemoryServer.
Open Scope string_scope.
Open Scope list_scope.
Open Scope go_scope.
Open Scope Z_scope.

Definition runs {S A} (w : world S) (p : prog A) (s s' : S) (a : A) : Prop :=
  ∃ t, exec w p s = Some (s', t, a).

(** ** Rules *)

Section rules.
Context {S : Type} (w : world S).

Lemma runs_ret {A} (a : A) s : runs w (PRet a) s s a.
Proof. by exists []. Qed.

Lemma runs_mret {A} (a : A) s : runs w (mret a : go A) s s (Normal a).
Proof. by exists []. Qed.

Lemma runs_pbind {A B} (f : A → prog B) p s s1 s2 a b :
  runs w p s s1 a → runs w (f a) s1 s2 b → runs w (pbind f p) s s2 b.
Proof.
  intros [t Ht] Hf. revert s t Ht. induction p as [a'|X e k IH]; intros s t; cbn.
  - by intros [= -> _ ->].
  - destruct (w X e s) as [[s' x]|] eqn:Ew; [|done]. cbn.
    destruct (exec w (k x) s') as [[[s'' t'] a']|] eqn:Ek; [|done]. cbn. intros [= -> <- ->].
    destruct (IH x s' t' Ek) as [t2 Ht2]. exists (Ev e x :: t2). cbn. rewrite Ew. cbn. by rewrite Ht2.
Qed.

Lemma runs_bind {A B} (p : go A) (f : A → go B) s s1 s2 a o :
  runs w p s s1 (Normal a) → runs w (f a) s1 s2 o → runs w (p ≫= f) s s2 o.
Proof. intros Hp Hf. eapply runs_pbind; [exact Hp|exact Hf]. Qed.

Lemma runs_perform {X} (e : eff X) s s' x : w X e s = Some (s', x) → runs w (perform e) s s' (Normal x).
Proof. intros He. exists [Ev e x]. cbn. by rewrite He. Qed.

Lemma runs_call {A} (e : eff (cb A)) s s' a :
  w _ e s = Some (s', CRet a) → runs w (call e) s s' (Normal (Ok a)).
Proof. intros He. exists [Ev e (CRet a)]. cbn. by rewrite He. Qed.

Lemma runs_recover {A} (p : go A) h s s' a : runs w p s s' (Normal a) → runs w (recover p h) s s' (Normal a).
Proof. intros Hp. eapply runs_pbind; [exact Hp|apply runs_ret]. Qed.

Lemma runs_finally {A} (p : go A) cleanup s s1 s2 o u :
  runs w p s s1 o → runs w cleanup s1 s2 (Normal u) → runs w (finally p cleanup) s s2 o.
Proof. intros Hp Hc. eapply runs_pbind; [exact Hp|]. eapply runs_pbind; [exact Hc|apply runs_ret]. Qed.

End rules.

(** ** Streams over the memory stores *)

Section memory.
Context {ST : StdText}.

Lemma runs_lane_call {A} sid (e : eff (cb A)) m m' a :
  memory_world _ e m = Some (m', CRet a) → runs memory_world (lane_call sid e) m m' (Normal (Ok a)).
Proof.
  intros He. unfold lane_call. eapply runs_bind; [by apply runs_perform|]. cbn match.
  eapply runs_finally; [by apply runs_call|].
  eapply runs_bind; [by apply runs_perform|apply runs_mret].
Qed.

Lemma runs_stream {A} sid failed (body : go A) m m' a :
  runs memory_world body m m' (Normal a) → runs memory_world (runStream sid failed body) m m' (Normal a).
Proof.
  intros Hb. unfold runStream, invokeStreamRequest. eapply runs_bind; [by apply runs_perform|]. cbn match.
  eapply runs_bind; [by apply runs_recover|]. eapply runs_bind; [by apply runs_perform|]. apply runs_mret.
Qed.

Variable c : ServerConfig.

(** A frame that passes validation is dispatched. *)
Lemma runs_dispatch frame m m' r :
  runs memory_world (processFrame c frame true) m m' (Normal r) →
  runs memory_world (invokeServerProcess c frame) m m' (Normal r).
Proof. intros Hr. apply (runs_pbind _ _ _ _ m' _ (Normal r)); [exact Hr|apply runs_ret]. Qed.

Lemma runs_resume_frame frame m m' r :
  ValidateFrame frame (sv_Limits c) (sv_StrictValidation c) = Ok tt → e_Type frame = FrameResume →
  runs memory_world (handleResume c frame) m m' (Normal r) →
  runs memory_world (invokeServerProcess c frame) m m' (Normal r).
Proof.
  intros Hv Hty Hr. apply runs_dispatch. unfold processFrame. cbn [negb]. rewrite Hv, Hty.
  rewrite !(bool_decide_false (FrameResume = _)), (bool_decide_true (FrameResume = FrameResume)) by done. exact Hr.
Qed.

Lemma runs_send_frame frame m m' r :
  ValidateFrame frame (sv_Limits c) (sv_StrictValidation c) = Ok tt → e_Type frame = FrameSend →
  runs memory_world (handleSend c frame) m m' (Normal r) →
  runs memory_world (invokeServerProcess c frame) m m' (Normal r).
Proof.
  intros Hv Hty Hr. apply runs_dispatch. unfold processFrame. cbn [negb]. rewrite Hv, Hty.
  rewrite !(bool_decide_false (FrameSend = _)), (bool_decide_true (FrameSend = FrameSend)) by done. exact Hr.
Qed.

(** A contiguous range of valid EVENTs passes the check of the replay. *)
Lemma check_replayed_complete sid events start len :
  map e_Seq events = seqZ start len → 0 ≤ start → 0 ≤ len → start + len ≤ MaxUint64 + 1 →
  Forall (fun e => validateOut c e = Ok tt ∧ e_Type e = FrameEvent ∧ e_SessionID e = sid) events →
  check_replayed c sid (u64 start) events = Ok (u64 (start + len)).
Proof.
  revert start len. induction events as [|e events IH]; intros start len Hseq Hs Hl Hmax Hall.
  { apply (f_equal length) in Hseq. rewrite length_seqZ in Hseq. cbn in *. do 2 f_equal. lia. }
  apply Forall_cons in Hall as [(Hv & Hty & Hsid) Hall].
  assert (0 < len) as Hlen by (apply (f_equal length) in Hseq; rewrite length_seqZ in Hseq; cbn in Hseq; lia).
  rewrite seqZ_cons in Hseq by lia. injection Hseq as He Hrest. cbn [check_replayed].
  rewrite Hv, Hty, Hsid, He, !(u64_small start), Z.eqb_refl, !bool_decide_true by (done || unfold is_u64; lia).
  cbn [negb orb]. replace (start + len) with (Z.succ start + Z.pred len) by lia.
  replace (start + 1) with (Z.succ start) by lia. apply IH; done || lia.
Qed.

(** What a served RESUME finds in the stores: the live Session, a stream that
    retains what the client misses, within the limits, and an open queue. *)
Record can_resume (m : memory) (sid : string) (after : Z) (state : SessionState) : Prop := {
  cr_session : Session_Lookup (mm_sessions m) sid (mm_now m) = Some state;
  cr_store : replay_reachable (mm_replay m);
  cr_after : first_of (mm_replay m) sid - 1 ≤ after ≤ CurrentSeq (mm_replay m) sid;
  cr_last : after < MaxUint64;
  cr_events : CurrentSeq (mm_replay m) sid - after ≤ sv_MaxReplayEvents c;
  cr_limits : 0 < sv_MaxReplayEvents c ∧ 0 < sv_MaxReplayBytes c;
  cr_bytes : ∃ texts, mapM Marshal (window after (CurrentSeq (mm_replay m) sid) (events_of (mm_replay m) sid)) = Some texts
                      ∧ texts_len texts ≤ sv_MaxReplayBytes c;
  cr_valid : Forall (fun e => validateOut c e = Ok tt)
               (window after (CurrentSeq (mm_replay m) sid) (events_of (mm_replay m) sid));
  cr_welcome : validateOut c (resumeWelcome sid (mkResume after None) (UnixMilli (mm_now m)) (CurrentSeq (mm_replay m) sid))
               = Ok tt;
  cr_queue : oq_closed (mm_outbound m) = false
}.

(** The batch of a served RESUME. *)
Definition served (m : memory) (sid : string) (after : Z) : list Envelope :=
  resumeWelcome sid (mkResume after None) (UnixMilli (mm_now m)) (CurrentSeq (mm_replay m) sid)
  :: window after (CurrentSeq (mm_replay m) sid) (events_of (mm_replay m) sid).

Lemma resume_served m frame after state :
  decodePayload (e_Payload frame) (sv_StrictValidation c) = Ok (mkResume after None) →
  can_resume m (e_SessionID frame) after state →
  runs memory_world (handleResume c frame) m
    (m <| mm_outbound := (EnqueueBatch (mm_outbound m) (served m (e_SessionID frame) after)).1 |>)
    (Normal (mkHandleResult (e_SessionID frame) (ss_Capabilities state) false false, None)).
Proof.
  intros Hdec [Hses Hstore Hafter Hlast Hev [Hl1 Hl2] Hbytes Hvalid Hw Hq].
  set (sid := e_SessionID frame) in *. set (cur := CurrentSeq (mm_replay m) sid) in *.
  pose proof (replay_reachable_inv _ Hstore sid) as Hlog. pose proof Hlog as (Hcur & [Hfl _] & Hseqs & Htypes & _).
  change (current_of (mm_replay m) sid) with cur in *. unfold first_of in Hafter, Hseqs.
  assert (is_u64 after) as Hua by (unfold is_u64 in *; lia).
  assert (u64 cur = cur) as Hcur64 by (by apply u64_small).
  unfold handleResume. eapply runs_bind; [by apply runs_perform|]. rewrite Hdec.
  eapply runs_bind; [by apply runs_call|]. fold sid. rewrite Hses. cbn [rp_StateSync]. apply runs_stream.
  unfold resumeStream. eapply runs_bind; [by apply runs_lane_call|]. fold sid cur. cbn [rp_LastSeq]. rewrite Hcur64.
  rewrite (proj2 (Z.ltb_ge cur after)), (proj2 (Z.eqb_neq after MaxUint64)) by lia.
  rewrite u64_small by (unfold is_u64 in *; lia). rewrite (proj2 (Z.ltb_ge (sv_MaxReplayEvents c) _)) by lia.
  assert (Replay (mm_replay m) sid after cur (mkReplayLimits (sv_MaxReplayEvents c) (sv_MaxReplayBytes c))
          = Ok (window after cur (events_of (mm_replay m) sid))) as Hrep.
  { apply Replay_Ok; [done..|cbn; lia|]. unfold first_of. cbn. split_and!; try lia; done. }
  eapply runs_bind; [apply runs_lane_call; cbn; by rewrite Hrep|]. cbn match.
  rewrite (check_replayed_complete sid _ (after + 1) (cur - after)).
  - replace (after + 1 + (cur - after)) with (cur + 1) by lia. rewrite Z.eqb_refl. cbn [negb].
    eapply runs_bind; [apply runs_mret|]. cbn match. unfold resumeBatch. fold cur. rewrite Hw.
    cbn [option_list]. rewrite app_nil_r. unfold served. fold cur.
    eapply runs_bind; [apply runs_perform; cbn; unfold EnqueueBatch, enqueue_locked; by rewrite Hq|].
    cbn match. unfold EnqueueBatch, enqueue_locked. rewrite Hq. apply runs_mret.
  - rewrite (window_seqs _ _ _ _ _ Hseqs) by lia. destruct (decide (after = cur)) as [->|].
    + rewrite !seqZ_nil by lia. done.
    + f_equal; lia.
  - unfold is_u64 in *. lia.
  - lia.
  - unfold is_u64 in *. lia.
  - apply Forall_forall. intros e He. rewrite Forall_forall in Hvalid, Htypes.
    split; [by apply Hvalid|]. apply list_elem_of_In, filter_In in He as [He _].
    destruct (Htypes e) as (? & ? & _); [by apply list_elem_of_In|done].
Qed.
End memory.
