(* ===== verification/ServerRules.v ===== *)
(** * Proof rules for the server's helpers

    One rule per helper of server.go, for any monitor. *)

From Stdlib Require Import Ascii String.
From S2P Require Import Prelude Utf8 Json Types Codec Capability State Validate Outbound Store Client Sha256 Program Server ServerStream.
Open Scope string_scope.
Open Scope list_scope.
Open Scope go_scope.
Open Scope Z_scope.

Section rules.
Context {ST : StdText} (c : ServerConfig) {M : Type} (m : monitor M).

(** The monitor accepts one effect with any answer, and [Q] holds after it. *)
Definition accepts {X} (e : eff X) (s : M) (Q : M → X → Prop) : Prop :=
  ∀ x, match m _ e x s with Some s' => Q s' x | None => False end.

(** The monitor accepts ERROR frames and closing the queue. *)
Definition reports (s : M) (Q : M → option goerror → Prop) : Prop :=
  ∀ f, e_Type f = FrameError →
  accepts (EEnqueueBatch [f]) s (fun s' x => m _ ECloseOutbound tt s' = Some s' ∧ Q s' x).

Lemma holds_with_result r p s (Q : M → outcome hres → Prop) :
  holds m p s (fun s' o => match o with
                           | Normal e => Q s' (Normal (r, e))
                           | Panicked msg => Q s' (Panicked msg)
                           end) →
  holds m (with_result r p) s Q.
Proof. intros H. unfold with_result. hstep. eapply holds_mono; [|exact H]. by intros s' [e|msg]. Qed.

Lemma holds_enqueueFrame s f (Q : M → outcome (option goerror) → Prop) :
  (∀ e, validateOut c f = Err e → Q s (Normal (Some e))) →
  (validateOut c f = Ok tt → accepts (EEnqueueBatch [f]) s (fun s' x => Q s' (Normal x))) →
  holds m (enqueueFrame c f) s Q.
Proof.
  intros He Hok. unfold enqueueFrame. destruct (validateOut c f) as [[]|e]; hstep; [by apply Hok|auto].
Qed.

Lemma holds_enqueueErrorAt s sid ref code msg r ts (Q : M → outcome (option goerror) → Prop) :
  (∀ e, Q s (Normal (Some e))) → reports s (fun s' x => Q s' (Normal x)) →
  holds m (enqueueErrorAt c sid ref code msg r ts) s Q.
Proof.
  intros He Hr. unfold enqueueErrorAt. hstep. apply holds_enqueueFrame; [intros e _; hstep; auto|].
  intros _ x. specialize (Hr (errorFrameAt c sid ref code msg r ts) eq_refl x).
  destruct (m _ _ x s) as [s'|]; [|done]. destruct Hr as [Hc Hq].
  destruct x as [e|]; repeat hstep; auto.
  unfold closeOutbound. hstep. destruct x. rewrite Hc. hstep. done.
Qed.

Lemma holds_enqueueError s sid ref code msg r (Q : M → outcome (option goerror) → Prop) :
  accepts ENow s (fun s' _ => (∀ e, Q s' (Normal (Some e))) ∧ reports s' (fun s'' x => Q s'' (Normal x))) →
  holds m (enqueueError c sid ref code msg r) s Q.
Proof.
  intros H. unfold enqueueError. do 2 hstep. specialize (H x). destruct (m _ ENow x s); [|done].
  destruct H. by apply holds_enqueueErrorAt.
Qed.

(** A lane callback and a stream operation, when the monitor ignores the
    lane's own effects. *)
Definition ignores {X} (e : eff X) (s : M) : Prop := ∀ x, m _ e x s = Some s.

Lemma holds_lane_call {A} sid (e : eff (cb A)) s (Q : M → outcome (res A) → Prop) :
  ignores (EStreamCallback sid true) s → (∀ s', ignores (EStreamCallback sid false) s') →
  Q s (Normal (Err ErrStreamCallbackActive)) → accepts e s (fun s' x => Q s' (answer x)) →
  holds m (lane_call sid e) s Q.
Proof.
  intros Hb He Hact Hacc. unfold lane_call. do 2 hstep. rewrite Hb. destruct x; hstep; [done|].
  hstep. specialize (Hacc x). destruct (m _ e x s) as [s'|]; [|done]. do 2 hstep.
  rewrite He. by hstep.
Qed.

Lemma holds_runStream {A} sid failed (body : go A) s (Q : M → outcome A → Prop) :
  ignores (EStreamEnter sid) s → (∀ s', ignores (EStreamLeave sid) s') →
  (∀ e, Q s (Normal (failed e))) →
  holds m body s (fun s' o => match o with
                              | Normal a => Q s' (Normal a)
                              | Panicked msg => ∀ e, Q s' (Normal (failed e))
                              end) →
  holds m (runStream sid failed body) s Q.
Proof.
  intros Hi Hl Hf Hb. unfold runStream, invokeStreamRequest. do 2 hstep. rewrite Hi. destruct x as [e|]; hstep; [auto|].
  hstep. eapply holds_mono; [|exact Hb]. intros s' [a|msg] Ho; do 2 hstep; rewrite Hl; hstep; auto.
Qed.

Lemma holds_invokeSendCallback {A} key fl (fn : go (res A)) s (Q : M → outcome (res A) → Prop) :
  ignores (EBeginSendCallback key fl) s → (∀ s', ignores (EEndSendCallback fl) s') →
  (∀ e, Q s (Normal (Err e))) →
  holds m fn s (fun s' o => match o with
                            | Normal a => Q s' (Normal a)
                            | Panicked _ => ∀ e, Q s' (Normal (Err e))
                            end) →
  holds m (invokeSendCallback key fl fn) s Q.
Proof.
  intros Hb He Hf Hp. unfold invokeSendCallback. do 2 hstep. rewrite Hb. destruct x; cbn [negb]; hstep; [|auto].
  hstep. eapply holds_mono; [|exact Hp]. intros s' [a|msg] Ho; do 2 hstep; rewrite He; hstep; auto.
Qed.

Lemma holds_inject point s (Q : M → outcome (res unit) → Prop) :
  ignores (EFail point) s → (∀ o, Q s o) → holds m (inject c point) s Q.
Proof. intros Hi HQ. unfold inject. hstep; hstep; [rewrite Hi|]; auto. Qed.
End rules.
#[global] Arguments accepts {M} m {X} e s Q /.
#[global] Arguments ignores {M} m {X} e s /.
