(* ===== verification/SendMonitor.v ===== *)
(** * What a server thread may do with a SEND

    The monitor of one inbound frame: which effects its handler may perform
    after which answers.  [processFrame] obeys it whatever the collaborators
    answer. *)

From Stdlib Require Import Ascii String.
From S2P Require Import Prelude Utf8 Json Types Codec Capability State Validate Outbound Store Client Sha256 Program Server ServerStream ServerRules.
Open Scope string_scope.
Open Scope list_scope.
Open Scope go_scope.
Open Scope Z_scope.

(** The progress of a thread that claimed the SEND: the application not yet
    invoked, or invoked and the claim not yet completed. *)
Inductive claim := NoClaim | Claimed | Invoked.
#[export] Instance claim_eq_dec : EqDecision claim.
Proof. solve_decision. Defined.

(** The flight the thread acquired without conflict, its claim, and whether
    it knows that the application has accepted the SEND. *)
Record send_mon := mkMon {
  sm_flight : option nat;
  sm_claim : claim;
  sm_applied : bool
}.
Definition sm_init : send_mon := mkMon None NoClaim false.

Section monitor.
Context {ST : StdText}.
Variable c : ServerConfig.
Variable frame : Envelope.

Definition send_key : string := dedupKey (e_SessionID frame) (e_ID frame).

(** The content the handler decodes from the frame. *)
Definition send_content : option string :=
  match decodePayload (A:=SendPayload) (e_Payload frame) (sv_StrictValidation c) with
  | Ok p => Some (sp_Content p)
  | Err _ => None
  end.

(** [f] acknowledges this frame: the ACK the handler builds, or a stored one
    that decodes to the same identity. *)
Definition acks (f : Envelope) : bool :=
  (e_Type f == FrameAck) && (e_SessionID f == e_SessionID frame)
  && ((e_Payload f == mustPayload (mkAck (e_ID frame)))
      || match decodePayload (A:=AckPayload) (e_Payload f) (sv_StrictValidation c) with
         | Ok p => ap_RefID p == e_ID frame
         | Err _ => false
         end).

(** The fingerprint of that content. *)
Definition send_print : option SendFingerprint := Sum256 <$> send_content.

Definition send_monitor : monitor send_mon := fun X e =>
  match e in eff X return X → send_mon → option send_mon with
  | EAcquireFlight k fp => fun x s =>
      if (k == send_key) && (Some fp == send_print)
      then Some (if (x.1.2 : bool) then s else mkMon (Some x.1.1.1) (sm_claim s) (sm_applied s)) else None
  | EClaim sid mid fp => fun x s =>
      if (sid == e_SessionID frame) && (mid == e_ID frame) && (Some fp == send_print) && (sm_claim s == NoClaim)
      then
        match x with
        | CRet (true, _) => Some (mkMon (sm_flight s) Claimed (sm_applied s))
        | CRet (false, Some (mkDedupRecord DedupCompleted fp' (Some _))) =>
            Some (if fp' == fp then mkMon (sm_flight s) (sm_claim s) true else s)
        | _ => Some s
        end
      else None
  | EHandleSend id content => fun x s =>
      if (sm_claim s == Claimed) && (id == e_ID frame) && (Some content == send_content)
      then Some (mkMon (sm_flight s) Invoked (match x with CRet _ => true | _ => sm_applied s end)) else None
  | EComplete sid mid ack => fun x s =>
      if sm_applied s && (sm_claim s == Invoked) && (sid == e_SessionID frame) && (mid == e_ID frame)
      then Some (mkMon (sm_flight s) NoClaim (sm_applied s)) else None
  | ESetFlightACK f ack => fun x s =>
      if sm_applied s && (sm_flight s == Some f) then Some s else None
  | EFlightACK f => fun x s =>
      if sm_flight s == Some f
      then Some (match x with Some _ => mkMon (sm_flight s) (sm_claim s) true | None => s end) else None
  | EEnqueueBatch frames => fun x s =>
      if forallb (fun f => (e_Type f != FrameAck) || (sm_applied s && acks f)) frames then Some s else None
  | _ => fun _ s => Some s
  end.
End monitor.

(** ** The helpers under this monitor *)

Section obeys.
Context {ST : StdText}.
Variable c : ServerConfig.
Variable frame : Envelope.
Notation mon := (send_monitor c frame).

Lemma mon_send s f x : e_Type f ≠ FrameAck → mon _ (EEnqueueBatch [f]) x s = Some s.
Proof. intros H. cbn. by rewrite bool_decide_false. Qed.

Lemma mon_reports s (Q : send_mon → option goerror → Prop) : (∀ e, Q s e) → reports mon s Q.
Proof. intros HQ f Hf x. rewrite mon_send by (rewrite Hf; done). cbn. auto. Qed.

Lemma mon_ack s f x : sm_applied s = true → acks c frame f = true → mon _ (EEnqueueBatch [f]) x s = Some s.
Proof. intros Ha Hf. cbn. rewrite Ha, Hf. by rewrite orb_true_r. Qed.

Lemma obeys_error s r sid ref code msg b ts (Q : send_mon → outcome hres → Prop) :
  (∀ e, Q s (Normal (r, e))) →
  holds mon (with_result r (enqueueErrorAt c sid ref code msg b ts)) s Q.
Proof. intros HQ. apply holds_with_result, holds_enqueueErrorAt; [auto|]. apply mon_reports. auto. Qed.

Lemma obeys_error_now s r sid ref code msg b (Q : send_mon → outcome hres → Prop) :
  (∀ e, Q s (Normal (r, e))) →
  holds mon (with_result r (enqueueError c sid ref code msg b)) s Q.
Proof.
  intros HQ. apply holds_with_result, holds_enqueueError. intros x. cbn. split; [auto|].
  apply mon_reports. auto.
Qed.

Lemma obeys_lane_call {A} sid (e : eff (cb A)) s (Q : send_mon → outcome (res A) → Prop) :
  (∀ x, mon _ e x s = Some s) → (∀ o, Q s o) → holds mon (lane_call sid e) s Q.
Proof.
  intros He HQ. apply holds_lane_call; [done..|auto|]. intros x. rewrite He. auto.
Qed.

Lemma obeys_callback {A} key fl (e : eff (cb A)) s (Q : send_mon → outcome (res A) → Prop) :
  (∀ x, mon _ e x s = Some s) → (∀ r, Q s (Normal r)) →
  holds mon (invokeSendCallback key fl (call e)) s Q.
Proof.
  intros He HQ. apply holds_invokeSendCallback; [done..|auto|]. hstep. rewrite He. destruct x; cbn; auto.
Qed.

Lemma obeys_inject key fl point s (Q : send_mon → outcome (res unit) → Prop) :
  (∀ r, Q s (Normal r)) → holds mon (invokeSendCallback key fl (inject c point)) s Q.
Proof.
  intros HQ. apply holds_invokeSendCallback; [done..|auto|]. apply holds_inject; [done|].
  intros [r|msg]; auto.
Qed.

Lemma obeys_frame s r f (Q : send_mon → outcome hres → Prop) :
  e_Type f ≠ FrameAck → (∀ e, Q s (Normal (r, e))) → holds mon (with_result r (enqueueFrame c f)) s Q.
Proof.
  intros Hf HQ. apply holds_with_result, holds_enqueueFrame; [auto|]. intros _ x.
  rewrite mon_send by done. auto.
Qed.

Definition any {A} (s : send_mon) (o : outcome A) : Prop := True.

(** The programs that only report, look up and enqueue. *)
Ltac obey :=
  lazymatch goal with
  | |- holds _ (with_result _ (enqueueErrorAt _ _ _ _ _ _ _)) _ _ => apply obeys_error; intros ?
  | |- holds _ (with_result _ (enqueueError _ _ _ _ _ _)) _ _ => apply obeys_error_now; intros ?
  | |- holds _ (with_result _ (enqueueFrame _ _)) _ _ => apply obeys_frame; [discriminate|intros ?]
  | |- holds _ (enqueueFrame _ _) _ _ =>
      apply holds_enqueueFrame; [intros ? ?|intros _ ?; rewrite mon_send by discriminate]
  | |- holds _ (lane_call _ _) _ _ => apply obeys_lane_call; [reflexivity|intros []]
  | |- holds _ (runStream _ _ _) _ _ => apply holds_runStream; [intros ?; reflexivity|intros ? ?; reflexivity|intros ?|]
  | |- holds _ _ _ _ => hstep; cbn [send_monitor answer]
  | |- any _ _ => exact I
  | |- match ?x with _ => _ end => destruct x
  | |- match ?x with _ => _ end _ _ => destruct x
  | |- ∀ _, _ => intros ?
  end.

Lemma obeys_hello s : holds mon (handleHello c frame) s any.
Proof. unfold handleHello. repeat obey. Qed.

Lemma obeys_ping s : holds mon (handlePing c frame) s any.
Proof. unfold handlePing. repeat obey. Qed.

Lemma obeys_query_objects sid ns a ids s :
  holds mon (query_objects c sid ns a ids) s (fun s' _ => s' = s).
Proof.
  revert a. induction ids as [|id ids IH]; intros a; cbn [query_objects]; [by hstep|].
  hstep. obey; [|done]. repeat hstep; try done; apply IH.
Qed.

Lemma obeys_query s : holds mon (handleStateQuery c frame) s any.
Proof.
  unfold handleStateQuery, queryStream. do 2 obey. obey. obey. repeat obey.
  all: match goal with |- holds _ (query_objects _ _ _ _ _) _ _ =>
    eapply holds_mono; [|apply obeys_query_objects]; intros s' [o|msg] -> end.
  all: repeat obey.
Qed.

Lemma obeys_snapshot sid id ts ns s (Q : send_mon → outcome (res Envelope) → Prop) :
  (∀ e, Q s (Normal (Err e))) → (∀ msg, Q s (Panicked msg)) →
  (∀ f, e_Type f = FrameStateSnapshot → Q s (Normal (Ok f))) →
  holds mon (buildResumeStateSnapshot c sid id ts ns) s Q.
Proof.
  intros He Hp Hok. unfold buildResumeStateSnapshot. hstep; [|hstep; auto]. hstep. obey; [|auto].
  hstep. destruct a0 as [states|e]; cbn; [|auto].
  destruct (assembleSnapshot _ _ _ _ _) as [f|e] eqn:Ea; [|auto]. apply Hok.
  unfold assembleSnapshot in Ea.
  repeat (apply result_bind_Ok in Ea as (? & _ & Ea)). by injection Ea as <-.
Qed.

Lemma check_replayed_types sid n evs r :
  check_replayed c sid n evs = Ok r → Forall (fun f => e_Type f = FrameEvent) evs.
Proof.
  revert n. induction evs as [|ev evs IH]; intros n; cbn; [constructor|].
  destruct (validateOut c ev); [|done].
  case_bool_decide as Ht; [|done]. case_bool_decide; [|done]. destruct (_ =? _); [|done]. cbn.
  constructor; eauto.
Qed.

Lemma mon_batch s fs x : Forall (fun f => e_Type f ≠ FrameAck) fs → mon _ (EEnqueueBatch fs) x s = Some s.
Proof.
  intros H. cbn. replace (forallb _ fs) with true; [done|]. symmetry. apply forallb_forall.
  intros f Hf. eapply Forall_forall in H; [|by apply list_elem_of_In]. by rewrite bool_decide_false.
Qed.

(** The batch of a RESUME: WELCOME, EVENTs and at most a snapshot. *)
Lemma mon_resume_batch s sid n evs r snap w x :
  check_replayed c sid n evs = Ok r → e_Type w = FrameWelcome →
  (∀ f, snap = Some f → e_Type f = FrameStateSnapshot) →
  mon _ (EEnqueueBatch (w :: evs ++ option_list snap)) x s = Some s.
Proof.
  intros Hc Hw Hs. apply mon_batch. constructor; [by rewrite Hw|]. apply Forall_app. split.
  - eapply Forall_impl; [by eapply check_replayed_types|]. by intros f ->.
  - destruct snap as [f|]; repeat constructor. by rewrite (Hs f eq_refl).
Qed.

Lemma obeys_resumeSnapshot sid resume id ts s (Q : send_mon → outcome (res (option Envelope)) → Prop) :
  (∀ e, Q s (Normal (Err e))) → (∀ msg, Q s (Panicked msg)) →
  (∀ snap, (∀ f, snap = Some f → e_Type f = FrameStateSnapshot) → Q s (Normal (Ok snap))) →
  holds mon (resumeSnapshot c sid resume id ts) s Q.
Proof.
  intros He Hp Hok. unfold resumeSnapshot. destruct (rp_StateSync resume); hstep; [|by apply Hok].
  apply obeys_snapshot; [intros e; hstep; auto|auto|]. intros f Hf. hstep. apply Hok. congruence.
Qed.

Lemma obeys_resumeStream resume state id ts s :
  holds mon (resumeStream c frame resume state id ts) s any.
Proof.
  unfold resumeStream. repeat first
    [ lazymatch goal with |- holds _ (resumeSnapshot _ _ _ _ _) _ _ => apply obeys_resumeSnapshot; intros end
    | lazymatch goal with |- holds _ (resumeBatch _ _ _ _ _ _ _ _) _ _ => unfold resumeBatch end
    | lazymatch goal with |- holds _ (perform (EEnqueueBatch _)) _ _ =>
        hstep; erewrite mon_resume_batch by done end
    | obey ].
Qed.

Lemma obeys_ack s f (Q : send_mon → outcome (option goerror) → Prop) :
  sm_applied s = true → acks c frame f = true → (∀ e, Q s (Normal e)) → holds mon (enqueueFrame c f) s Q.
Proof.
  intros Ha Hf HQ. apply holds_enqueueFrame; [auto|]. intros _ x. by rewrite mon_ack.
Qed.

Lemma stored_acks f : validateStoredACK c f (e_SessionID frame) (e_ID frame) = Ok tt → acks c frame f = true.
Proof.
  unfold validateStoredACK, acks. intros H.
  apply result_bind_Ok in H as (? & _ & H). apply result_bind_Ok in H as (? & Hg & H).
  apply result_bind_Ok in H as (p & Hp & H). apply map_err_Ok in Hp. rewrite Hp.
  apply guard_err_Ok in Hg, H. revert Hg H.
  case_bool_decide; [|done]. case_bool_decide; [|done]. intros _. case_bool_decide; [|done]. intros _.
  by rewrite orb_true_r.
Qed.

Lemma obeys_stored s f (Q : send_mon → outcome (option goerror) → Prop) :
  sm_applied s = true → (∀ e, Q s (Normal e)) → holds mon (enqueueStoredACK c f frame) s Q.
Proof.
  intros Ha HQ. unfold enqueueStoredACK.
  destruct (validateStoredACK c f _ _) as [[]|e] eqn:Hv; [|hstep; auto].
  apply obeys_ack; [done|by apply stored_acks|done].
Qed.

Lemma obeys_report s sid ref code msg b ts : holds mon (enqueueErrorAt c sid ref code msg b ts) s any.
Proof. apply holds_enqueueErrorAt; [done|]. by apply mon_reports. Qed.

Lemma obeys_claimed content fl ts s :
  send_content c frame = Some content → s = mkMon (Some fl) Claimed (sm_applied s) →
  holds mon (sendClaimed c frame content (send_key frame) fl ts) s any.
Proof.
  intros Hc Hs. unfold sendClaimed. hstep. apply obeys_inject. intros [[]|e]; [|by hstep].
  hstep. apply holds_invokeSendCallback; [done..|intros e; apply obeys_report|].
  hstep. rewrite Hs. cbn [send_monitor sm_claim sm_flight andb]. unfold send_print; rewrite Hc, !bool_decide_true by done. cbn [andb].
  destruct x as [[]|e|msg]; cbn [answer]; [|apply obeys_report|intros e; apply obeys_report].
  hstep. apply obeys_inject. intros [[]|e]; [|by hstep].
  destruct (validateOut c _) as [[]|e] eqn:Hv; [|by hstep].
  hstep. apply holds_invokeSendCallback; [done..|by intros; hstep|]. hstep.
  cbn [send_monitor sm_claim sm_flight sm_applied andb]. rewrite !bool_decide_true by done. cbn [andb].
  destruct x as [[]|e|msg]; cbn [answer]; [|by hstep|by intros; hstep]. do 2 hstep. cbn [send_monitor sm_applied sm_flight andb].
  rewrite bool_decide_true by done. hstep. apply obeys_inject. intros [[]|e]; [|by hstep].
  apply obeys_ack; [done| |done]. unfold acks. cbn. by rewrite !bool_decide_true.
Qed.

Lemma obeys_leader content fl now ts s :
  send_content c frame = Some content → s = mkMon (Some fl) NoClaim false →
  holds mon (sendLeader c frame content (Sum256 content) (send_key frame) fl now ts) s any.
Proof.
  intros Hc Hs. unfold sendLeader. hstep. apply obeys_callback; [done|].
  intros [[st|]|e]; [|repeat obey..]. hstep.
  apply holds_invokeSendCallback; [done..|intros e; repeat obey|]. hstep. rewrite Hs.
  cbn [send_monitor sm_flight sm_claim sm_applied]. unfold send_print; rewrite Hc, !bool_decide_true by done. cbn [andb].
  destruct x as [[[] rec]|e|msg]; cbn [answer]; [| |repeat obey..].
  { apply holds_with_result. eapply holds_mono; [|by apply obeys_claimed]. by intros s' []. }
  destruct rec as [[[] fp [ack|]]|]; lazy iota beta; [repeat obey..| |repeat obey|repeat obey].
  case_bool_decide as Hfp; cbn [negb]; [|repeat obey]. cbn in Hfp.
  rewrite (bool_decide_true (fp = _)) by done. hstep; [|repeat obey].
  do 2 hstep. cbn [send_monitor sm_applied sm_flight andb]. rewrite bool_decide_true by done.
  apply holds_with_result, obeys_ack; [done|apply stored_acks; by destruct a|done].
Qed.

Lemma obeys_send : holds mon (handleSend c frame) sm_init any.
Proof.
  unfold handleSend. do 2 hstep. cbn [send_monitor].
  destruct (decodePayload (e_Payload frame) _) as [p|e] eqn:Hp; [|by hstep].
  assert (send_content c frame = Some (sp_Content p)) as Hc by (unfold send_content; by rewrite Hp).
  do 2 hstep. cbn [send_monitor]. unfold send_print; rewrite Hc, !bool_decide_true by done. cbn [andb].
  destruct x0 as [[[fl lead] conf] act]. cbn [fst snd]. destruct conf; [repeat obey|].
  destruct lead; cbn [negb].
  { hstep. eapply holds_mono; [|by apply obeys_leader]. intros s' o _. hstep. exact I. }
  destruct act.
  - do 2 hstep. cbn [send_monitor sm_flight]. rewrite bool_decide_true by done.
    destruct x0 as [ack|]; [|repeat obey]. apply holds_with_result. by apply obeys_stored.
  - apply holds_with_result. unfold waitForOriginal. do 2 hstep. cbn [send_monitor].
    destruct x0 as [e|]; [by hstep|]. do 2 hstep. cbn [send_monitor sm_flight].
    rewrite bool_decide_true by done. destruct x0 as [ack|]; [by apply obeys_stored|].
    eapply holds_mono; [|apply obeys_report]. by intros s' [].
Qed.

Lemma obeys_resume s : holds mon (handleResume c frame) s any.
Proof.
  unfold handleResume. repeat first
    [ lazymatch goal with |- holds _ (resumeStream _ _ _ _ _ _) _ _ =>
        eapply holds_mono; [|apply obeys_resumeStream]; intros ? [] _; [exact I|intros ?; exact I] end
    | obey ].
Qed.

(** Every frame, whatever the collaborators answer. *)
Lemma obeys_process outbound : holds mon (processFrame c frame outbound) sm_init any.
Proof.
  unfold processFrame. destruct outbound; cbn [negb]; [|by hstep].
  destruct (ValidateFrame _ _ _) as [u|err].
  - repeat case_bool_decide.
    + apply obeys_hello.
    + apply obeys_ping.
    + apply obeys_send.
    + apply obeys_query.
    + apply obeys_resume.
    + unfold closeOutbound. by repeat obey.
    + repeat obey.
  - case_bool_decide; [unfold closeOutbound; by repeat obey|].
    destruct (errors_As err); [|by hstep]. hstep. apply holds_enqueueError. intros x. cbn [send_monitor].
    split; [by intros; hstep|]. apply mon_reports. intros e. by hstep.
Qed.

Lemma obeys_invoke : holds mon (invokeServerProcess c frame) sm_init any.
Proof.
  unfold invokeServerProcess. apply holds_pbind. eapply holds_mono; [|apply obeys_process].
  intros s' [r|msg] _; [exact I|]. unfold closeOutbound. by repeat obey.
Qed.
End obeys.
