(* ===== verification/StreamProps.v ===== *)
(** * What the stream operations put on the wire

    An observer records the answers a stream operation got and the batches it
    enqueued; the theorems relate the two, whatever the collaborators do. *)

From Stdlib Require Import Ascii String.
From S2P Require Import Prelude SortedLists Utf8 Json Types Codec Capability State StateProps Validate Outbound Store Client SortStrings Sha256 Program Server ServerStream MemoryServer ServerRules.
Open Scope string_scope.
Open Scope list_scope.
Open Scope go_scope.
Open Scope Z_scope.

(** Batches accepted by the queue, the answers of the stores, and every
    request made to the appender, answered or not. *)
Record obs := mkObs {
  ob_batches : list (list Envelope);
  ob_current : option Z;
  ob_replayed : option (list Envelope);
  ob_provided : option (list string * list StateObject);
  ob_found : list StateObject;
  ob_asked : list (string * string * string * string * Z);
  ob_appended : list Envelope;
  ob_created : option SessionState
}.
#[export] Instance obs_eta : Eta obs := fun o =>
  mkObs (ob_batches o) (ob_current o) (ob_replayed o) (ob_provided o) (ob_found o) (ob_asked o)
    (ob_appended o) (ob_created o).
Definition obs_init : obs := mkObs [] None None None [] [] [] None.

Definition observer : monitor obs := fun X e =>
  match e in eff X return X → obs → option obs with
  | EEnqueueBatch frames => fun x o =>
      Some (match x with None => o <| ob_batches := ob_batches o ++ [frames] |> | Some _ => o end)
  | ECurrentSeq _ => fun x o => Some (match x with CRet n => o <| ob_current := Some (u64 n) |> | _ => o end)
  | EReplay _ _ _ _ => fun x o => Some (match x with CRet l => o <| ob_replayed := Some l |> | _ => o end)
  | ESnapshot nss _ => fun x o => Some (match x with CRet l => o <| ob_provided := Some (nss, l) |> | _ => o end)
  | EStateGet _ _ => fun x o =>
      Some (match x with CRet (Some obj) => o <| ob_found := ob_found o ++ [obj] |> | _ => o end)
  | EAppend sid eid ety content ts => fun x o =>
      let o := o <| ob_asked := ob_asked o ++ [(sid, eid, ety, content, ts)] |> in
      Some (match x with CRet ev => o <| ob_appended := ob_appended o ++ [ev] |> | _ => o end)
  | ESessionCreate state => fun x o => Some (match x with CRet _ => o <| ob_created := Some state |> | _ => o end)
  | _ => fun _ o => Some o
  end.

Definition observed (t : list event) : obs := default obs_init (watch_all observer t obs_init).

(** To prove something of what every run observes, prove [holds]. *)
Lemma observed_by {A} (p : prog A) (Q : obs → A → Prop) t a :
  holds observer p obs_init Q → traces p t a → Q (observed t) a.
Proof.
  intros H Ht. destruct (holds_traces _ _ _ _ _ _ H Ht) as (o & Hw & HQ). unfold observed. by rewrite Hw.
Qed.

(** Nothing went out, or a single ERROR. *)
Definition only_error (batches : list (list Envelope)) : Prop :=
  batches = [] ∨ ∃ f, batches = [[f]] ∧ e_Type f = FrameError.

(** ** Snapshots *)

Definition object_lt (a b : StateObject) : Prop := object_ltb a b = true.

Lemma object_lt_spec a b :
  object_lt a b ↔ str_lt (so_Namespace a) (so_Namespace b)
                  ∨ so_Namespace a = so_Namespace b ∧ str_lt (so_ObjectID a) (so_ObjectID b).
Proof.
  unfold object_lt, object_ltb. case_bool_decide as E; cbn.
  - rewrite E. split; [by right|]. intros [H|[_ H]]; [by apply str_lt_irrefl in H|done].
  - split; [by left|]. by intros [H|[H _]].
Qed.

Lemma object_trichotomy a b : object_lt a b ∨ Identity a = Identity b ∨ object_lt b a.
Proof.
  rewrite !object_lt_spec. unfold Identity.
  destruct (str_trichotomy (so_Namespace a) (so_Namespace b)) as [?|[->|?]]; [by auto| |by auto].
  destruct (str_trichotomy (so_ObjectID a) (so_ObjectID b)) as [?|[->|?]]; auto.
Qed.

Lemma object_lt_trans a b d : object_lt a b → object_lt b d → object_lt a d.
Proof.
  rewrite !object_lt_spec. intros [?|[E1 ?]] [?|[E2 ?]];
    [left; by eapply str_lt_trans|left; by rewrite <- E2|left; by rewrite E1|].
  right. split; [congruence|]. by eapply str_lt_trans.
Qed.

Lemma object_lt_irrefl a : ¬ object_lt a a.
Proof. rewrite object_lt_spec. intros [H|[_ H]]; by apply str_lt_irrefl in H. Qed.

Lemma object_le_spec a b : object_le a b ↔ object_lt a b ∨ Identity a = Identity b.
Proof.
  unfold object_le. split.
  - intros H. destruct (object_trichotomy a b) as [?|[?|Hl]]; auto. unfold object_lt in Hl. congruence.
  - intros H. destruct (object_ltb b a) eqn:E; [|done]. exfalso. destruct H as [H|H].
    + eapply object_lt_irrefl, object_lt_trans; eauto.
    + injection H as H1 H2. unfold object_ltb in E. rewrite H1, H2, bool_decide_true in E by done. cbn in E.
      by rewrite str_ltb_irrefl in E.
Qed.

#[export] Instance object_le_total : Total object_le.
Proof. intros a b. rewrite !object_le_spec. destruct (object_trichotomy a b) as [?|[?|?]]; auto. Qed.
Lemma object_lt_identity a b d : Identity a = Identity b → (object_lt a d ↔ object_lt b d) ∧ (object_lt d a ↔ object_lt d b).
Proof. intros [= E1 E2]. rewrite !object_lt_spec. by rewrite E1, E2. Qed.
#[export] Instance object_le_trans : Transitive object_le.
Proof.
  intros a b d. rewrite !object_le_spec. intros [H1|H1] [H2|H2].
  - left. by eapply object_lt_trans.
  - left. by apply (object_lt_identity b d a H2).
  - left. by apply (object_lt_identity a b d H1).
  - right. congruence.
Qed.

(** Sorting objects with distinct identities sorts them strictly. *)
Lemma object_sort_strict l :
  NoDup (map Identity l) → StronglySorted object_lt (merge_sort object_le l).
Proof.
  intros Hnd. assert (NoDup (map Identity (merge_sort object_le l))) as Hnd'.
  { by rewrite (Permutation_map Identity (merge_sort_Permutation object_le l)). }
  pose proof (StronglySorted_merge_sort object_le l) as Hs. revert Hnd' Hs.
  generalize (merge_sort object_le l). clear. intros l Hnd Hs.
  induction Hs as [|x l Hs IH Hx]; constructor; cbn in Hnd; apply NoDup_cons in Hnd as [Hx' Hnd]; [auto|].
  rewrite Forall_forall in Hx |- *. intros y Hy. destruct (proj1 (object_le_spec x y) (Hx y Hy)) as [|E]; [done|].
  exfalso. apply Hx'. rewrite E. apply list_elem_of_fmap. eauto.
Qed.

Section snapshots.
Context {ST : StdText}.
Variable c : ServerConfig.

Lemma provided_loop_ok allowed seen states :
  provided_loop c allowed seen states = Ok tt →
  Forall (fun o => ValidateStateObject o (sv_Limits c) = Ok tt ∧ so_Namespace o ∈ allowed) states
  ∧ NoDup (map Identity states) ∧ Forall (fun o => Identity o ∉ seen) states.
Proof.
  revert seen. induction states as [|o states IH]; intros seen H; cbn in H; [repeat constructor|].
  inv_ok. apply IH in H as (H12 & H13 & H14). bools. split_and!.
  - constructor; [|done]. split; [done|by apply str_in_elem].
  - cbn. constructor; [|done]. intros (o' & E & Hin)%list_elem_of_fmap. rewrite Forall_forall in H14.
    apply (H14 o' Hin). rewrite <- E. set_solver.
  - constructor; [done|]. eapply Forall_impl; [exact H14|]. set_solver.
Qed.

(** A resume snapshot is canonical: when one is assembled from the
    provider's answer, it carries exactly the provider's objects, each valid
    and of a requested namespace, in strictly increasing order of namespace
    and object identity, within the object and byte limits; so it does not
    depend on the order of the provider's answer. *)
Lemma assembleSnapshot_canonical snapshot limits namespaces states f :
  assembleSnapshot c snapshot limits namespaces states = Ok f →
  ∃ objects, Marshal (mkStateSnapshot objects) = Some (e_Payload f)
    ∧ objects ≡ₚ states ∧ StronglySorted object_lt objects
    ∧ Forall (fun o => ValidateStateObject o (sv_Limits c) = Ok tt ∧ so_Namespace o ∈ namespaces) objects
    ∧ Z.of_nat (length objects) ≤ sl_MaxObjects limits ∧ slen (e_Payload f) ≤ sl_MaxBytes limits
    ∧ f = snapshot <| e_Payload := e_Payload f |>.
Proof.
  unfold assembleSnapshot. intros H. inv_ok.
  assert (map cloneStateObject states = states) as Hcl.
  { rewrite <- (map_id states) at 2. apply map_ext. apply cloneStateObject_id. }
  rewrite Hcl in *. apply provided_loop_ok in H1 as (Hv & Hnd & _). bools.
  exists (merge_sort object_le states).
  pose proof (merge_sort_Permutation object_le states) as Hp.
  eapply accumulate_ok in H3 as (_ & Hs & Hl); [|eassumption].
  unfold accumulator_Payload in H4. rewrite Hs, Hl in H4.
  destruct (Marshal _) as [p|] eqn:Em; [|done]. inv_ok. bools. cbn.
  split_and!; [done|done|by apply object_sort_strict|by rewrite Hp|by rewrite Hp|done|done].
Qed.

Lemma assembleSnapshot_valid snapshot limits namespaces states f :
  assembleSnapshot c snapshot limits namespaces states = Ok f → validateOut c f = Ok tt.
Proof.
  unfold assembleSnapshot. intros H. do 5 (apply result_bind_Ok in H as (? & _ & H)).
  by apply result_bind_Ok in H as ([] & Hv & [= <-]).
Qed.
End snapshots.

(** ** RESUME *)

Section resume.
Context {ST : StdText}.
Variable c : ServerConfig.

Lemma decodePayload_Resume_u64 raw strict p :
  decodePayload (A:=ResumePayload) raw strict = Ok p → is_u64 (rp_LastSeq p).
Proof.
  apply (decodePayload_inv (fun p => is_u64 (rp_LastSeq p))); [done|].
  intros strict' a k raw' v a' Hm H. cbn in Hm.
  repeat match type of Hm with (if ?b then _ else _) = _ => destruct b end; try done;
    injection Hm as Hm; inv_ok; cbn; try done. by eapply dec_uint_range.
Qed.

Lemma validateOut_event f : validateOut c f = Ok tt → e_Type f = FrameEvent → e_Seq f ≠ 0.
Proof.
  unfold validateOut, validateOutboundFrame, ValidateFrame. intros H Ht. rewrite Ht in H.
  repeat rewrite bool_decide_false in H by done. rewrite (bool_decide_true (FrameEvent = FrameEvent)) in H by done.
  unfold validateEvent in H. inv_ok. bools. done.
Qed.

(** The checked events are numbered from [n] without a gap. *)
Lemma check_replayed_ok sid n events m :
  check_replayed c sid n events = Ok m → is_u64 n →
  Forall (fun f => e_Type f = FrameEvent ∧ e_SessionID f = sid ∧ validateOut c f = Ok tt) events
  ∧ map e_Seq events = seqZ n (Z.of_nat (length events)) ∧ m = u64 (n + Z.of_nat (length events))
  ∧ (events = [] ∨ 0 < n ∧ n + Z.of_nat (length events) ≤ 2 ^ 64).
Proof.
  revert n. induction events as [|f events IH]; intros n H Hn; cbn in H.
  { injection H as <-. cbn. rewrite Z.add_0_r, u64_small by done. auto. }
  destruct (validateOut c f) as [[]|] eqn:Hv; [|done].
  destruct (_ || _) eqn:Hg in H; [done|]. bools. subst.
  pose proof (validateOut_event f Hv ltac:(done)) as Hne.
  apply IH in H as (Hall & Hseq & -> & Hlen); [|apply u64_range].
  unfold is_u64, MaxUint64 in Hn. cbn [length map]. rewrite Nat2Z.inj_succ.
  assert (u64 (e_Seq f + 1) = e_Seq f + 1 ∨ e_Seq f + 1 = 2 ^ 64 ∧ u64 (e_Seq f + 1) = 0) as Hcase.
  { destruct (Z.eq_dec (e_Seq f + 1) (2 ^ 64)) as [E|E].
    - right. split; [done|]. by rewrite E.
    - left. apply u64_small. unfold is_u64, MaxUint64. lia. }
  destruct Hcase as [E|[E1 E2]].
  - rewrite E in *. split_and!; [by constructor| |f_equal; lia|destruct Hlen as [->|]; cbn in *; lia].
    rewrite Hseq. rewrite (seqZ_cons (e_Seq f)) by lia. by rewrite Z.pred_succ.
  - destruct Hlen as [->|]; [|lia]. cbn in *. rewrite E2. split_and!; [by constructor| | |lia].
    + rewrite seqZ_cons by lia. done.
    + by replace (e_Seq f + _) with (2 ^ 64) by lia.
Qed.

(** Two counts that agree modulo 2^64 from a common start agree. *)
Lemma u64_window a n m :
  u64 (a + n) = u64 m → 0 < a + n ≤ 2 ^ 64 → 0 < m ≤ 2 ^ 64 → n = m - a.
Proof.
  unfold u64. intros E Hn Hm.
  destruct (Z.eq_dec (a + n) (2 ^ 64)) as [E1|E1], (Z.eq_dec m (2 ^ 64)) as [E2|E2]; [lia| | |].
  - rewrite E1, Z_mod_same_full, Z.mod_small in E by lia. lia.
  - rewrite E2, Z_mod_same_full, Z.mod_small in E by lia. lia.
  - rewrite !Z.mod_small in E by lia. lia.
Qed.

(** What a successful RESUME leaves behind. *)
Definition resumed (frame : Envelope) (o : obs) (r : serverHandleResult) (err : option goerror) : Prop :=
  ∃ resume timestamp replayTo events snap,
  decodePayload (A:=ResumePayload) (e_Payload frame) (sv_StrictValidation c) = Ok resume
  ∧ err = None ∧ hr_readySessionID r = e_SessionID frame ∧ hr_close r = false ∧ hr_abandonSession r = false
  ∧ ob_current o = Some replayTo ∧ ob_replayed o = Some events
  ∧ ob_batches o = [resumeWelcome (e_SessionID frame) resume timestamp replayTo :: events ++ option_list snap]
  ∧ validateOut c (resumeWelcome (e_SessionID frame) resume timestamp replayTo) = Ok tt
  ∧ is_u64 replayTo
  ∧ rp_LastSeq resume ≤ replayTo ∧ replayTo - rp_LastSeq resume ≤ sv_MaxReplayEvents c
  ∧ map e_Seq events = seqZ (rp_LastSeq resume + 1) (replayTo - rp_LastSeq resume)
  ∧ Forall (fun f => e_Type f = FrameEvent ∧ e_SessionID f = e_SessionID frame ∧ validateOut c f = Ok tt) events
  ∧ match rp_StateSync resume, snap with
    | None, None => True
    | Some sync, Some f =>
        ∃ id limits states, ob_provided o = Some (rss_Namespaces sync, states)
        ∧ assembleSnapshot c (mkEnvelope WireVersionV2 FrameStateSnapshot id (e_SessionID frame) 0 timestamp "")
            limits (rss_Namespaces sync) states = Ok f
    | _, _ => False
    end.

Definition resume_post (frame : Envelope) (o : obs) (out : outcome hres) : Prop :=
  match out with
  | Panicked _ => ob_batches o = []
  | Normal (r, err) =>
      hr_readySessionID r = "" ∧ only_error (ob_batches o) ∨ resumed frame o r err
  end.

(** Every failing branch reports at most one ERROR. *)
Lemma obs_report o r sid ref code msg b ts (Q : obs → outcome hres → Prop) :
  ob_batches o = [] → (∀ o' e, only_error (ob_batches o') → Q o' (Normal (r, e))) →
  holds observer (with_result r (enqueueErrorAt c sid ref code msg b ts)) o Q.
Proof.
  intros Ho HQ. apply holds_with_result, holds_enqueueErrorAt.
  - intros e. apply HQ. by left.
  - intros f Hf x. cbn. split; [done|]. apply HQ. destruct x; cbn; rewrite Ho; [by left|]. right. eauto.
Qed.

Lemma resume_batch_holds frame resume state ts replayTo events snap o :
  ob_batches o = [] →
  (∀ r, validateOut c (resumeWelcome (e_SessionID frame) resume ts replayTo) = Ok tt →
     hr_readySessionID r = e_SessionID frame → hr_close r = false → hr_abandonSession r = false →
     resumed frame (o <| ob_batches := [resumeWelcome (e_SessionID frame) resume ts replayTo
                                        :: events ++ option_list snap] |>) r None) →
  holds observer (resumeBatch c (e_SessionID frame) resume state ts replayTo events snap) o (resume_post frame).
Proof.
  intros Ho Hok. unfold resumeBatch. destruct (validateOut c _) as [[]|e] eqn:Hv; [|hstep; left; rewrite Ho; split; [done|by left]].
  do 2 hstep. cbn [observer]. destruct x; hstep.
  - left. split; [done|]. rewrite Ho. by left.
  - right. rewrite Ho. by apply Hok.
Qed.

(** A lane callback under the observer: the flag is not observed. *)
Lemma obs_lane_call {A} sid (e : eff (cb A)) o (Q : obs → outcome (res A) → Prop) :
  (∀ err, Q o (Normal (Err err))) →
  (∀ x, match observer _ e x o with Some o' => Q o' (answer x) | None => False end) →
  holds observer (lane_call sid e) o Q.
Proof. intros He Hx. apply holds_lane_call; [done|done|auto|]. exact Hx. Qed.

Lemma resumeSnapshot_holds sid resume id ts o (Q : obs → outcome (res (option Envelope)) → Prop) :
  ob_batches o = [] →
  (∀ o' e, ob_batches o' = [] → Q o' (Normal (Err e))) →
  (∀ o' msg, ob_batches o' = [] → Q o' (Panicked msg)) →
  (rp_StateSync resume = None → Q o (Normal (Ok None))) →
  (∀ sync limits states f, rp_StateSync resume = Some sync →
     assembleSnapshot c (mkEnvelope WireVersionV2 FrameStateSnapshot id sid 0 ts "") limits
       (rss_Namespaces sync) states = Ok f →
     Q (o <| ob_provided := Some (rss_Namespaces sync, states) |>) (Normal (Ok (Some f)))) →
  holds observer (resumeSnapshot c sid resume id ts) o Q.
Proof.
  intros Ho He Hp Hnone Hsome. unfold resumeSnapshot.
  destruct (rp_StateSync resume) as [sync|]; [|hstep; auto]. hstep. unfold buildResumeStateSnapshot.
  destruct (stateSnapshotLimits c _) as [limits|e]; [|do 2 hstep; auto]. hstep.
  apply obs_lane_call; [intros e; do 2 hstep; cbn; auto|].
  intros [states|e|msg]; cbn [observer answer]; [|do 2 hstep; cbn; auto|auto]. do 2 hstep. cbn.
  destruct (assembleSnapshot _ _ _ _ _) as [f|e] eqn:Ea; [|apply He; done]. by eapply Hsome.
Qed.

Ltac fails := apply obs_report; [done|intros ? ? ?; left; split; [reflexivity|assumption]].

Lemma resumeStream_holds frame resume state id ts o :
  ob_batches o = [] →
  decodePayload (A:=ResumePayload) (e_Payload frame) (sv_StrictValidation c) = Ok resume →
  holds observer (resumeStream c frame resume state id ts) o (resume_post frame).
Proof.
  intros Ho Hdec. pose proof (decodePayload_Resume_u64 _ _ _ Hdec) as Hlast.
  unfold resumeStream. hstep. apply obs_lane_call; [intros e; fails|].
  intros [current|e|msg]; cbn [observer answer]; [|fails|exact Ho].
  destruct (Z.ltb_spec (u64 current) (rp_LastSeq resume)) as [|Hle]; [fails|].
  destruct (Z.eqb_spec (rp_LastSeq resume) MaxUint64) as [|Hmax]; [fails|].
  destruct (Z.ltb_spec (sv_MaxReplayEvents c) (u64 (u64 current - rp_LastSeq resume))) as [|Hn]; [fails|].
  pose proof (u64_range current) as Hcur. set (replayTo := u64 current) in *. clearbody replayTo. clear current.
  unfold is_u64 in *. rewrite u64_small in Hn by (unfold is_u64; lia).
  hstep. apply obs_lane_call; [intros e; repeat hstep; fails|].
  intros [events|e|msg]; cbn [observer answer]; [|repeat hstep; fails|exact Ho].
  destruct (check_replayed c _ _ events) as [expected|message] eqn:Hc; [|fails].
  apply check_replayed_ok in Hc as (Hall & Hseq & -> & Hlen); [|apply u64_range].
  rewrite (u64_small (rp_LastSeq resume + 1)) in Hseq, Hlen |- * by (unfold is_u64, MaxUint64 in *; lia).
  destruct (Z.eqb_spec (u64 (rp_LastSeq resume + 1 + Z.of_nat (length events))) (u64 (replayTo + 1))) as [Heq|];
    cbn [negb]; [|fails].
  assert (Z.of_nat (length events) = replayTo - rp_LastSeq resume) as Hcount.
  { rewrite (u64_window (rp_LastSeq resume + 1) (Z.of_nat (length events)) (replayTo + 1) Heq); [lia|..];
      unfold MaxUint64 in *; [destruct Hlen as [->|]; cbn [length]|]; lia. }
  hstep. apply resumeSnapshot_holds; [done|intros o' e Ho'; fails|done|intros Hnone|intros sync lim states f Hsync Hf].
  - apply resume_batch_holds; [done|]. intros r Hw Hr1 Hr2 Hr3.
    exists resume, ts, replayTo, events, None. cbn. rewrite Hnone, <- Hcount. split_and!; try done; lia.
  - apply resume_batch_holds; [done|]. intros r Hw Hr1 Hr2 Hr3.
    exists resume, ts, replayTo, events, (Some f). cbn. rewrite Hsync, <- Hcount. split_and!; try done; try lia. eauto.
Qed.

Lemma handleResume_holds frame : holds observer (handleResume c frame) obs_init (resume_post frame).
Proof.
  unfold handleResume. do 2 hstep. cbn [observer].
  destruct (decodePayload (A:=ResumePayload) _ _) as [resume|e] eqn:Hdec; [|hstep; left; split; [done|by left]].
  do 2 hstep. cbn [observer]. destruct x0 as [[state|]|e|msg]; cbn [answer].
  2:{ fails. }
  2:{ hstep. left. split; [done|by left]. }
  2:{ done. }
  assert (∀ id, holds observer
            (runStream (e_SessionID frame)
               (fun e => (mkHandleResult "" (ss_Capabilities state) false false, Some e))
               (resumeStream c frame resume state id (UnixMilli x))) obs_init (resume_post frame)) as Hstream.
  { intros id. apply holds_runStream; [done|done|intros e; left; split; [done|by left]|].
    eapply holds_mono; [|by apply resumeStream_holds].
    intros o' [[r err]|msg] Hpost; [exact Hpost|]. intros e. left. split; [done|]. by left. }
  destruct (rp_StateSync resume); [|apply Hstream].
  hstep; [fails|]. hstep; [fails|]. do 2 hstep. cbn [observer].
  destruct x0 as [[|a s]|e|msg]; cbn [answer]; [fails|apply Hstream|fails|done].
Qed.
End resume.

Section exact.
Context {ST : StdText}.

(** C5. RESUME is exact and atomic.  Whatever the stores, the provider and
    the clock answer, a RESUME ends in one of two ways.  Either the
    connection is not made ready and nothing but at most one ERROR was
    enqueued; or a single batch was enqueued: the WELCOME announcing the
    client's position and the server's high-water mark, then every EVENT
    after that position up to the mark, each valid, of this Session and in
    sequence without a gap or a repetition, then exactly when the client
    asked for State the snapshot built from the provider's answer.  A
    sequence number never wraps around. *)
Theorem resume_exact c frame t out :
  traces (handleResume c frame) t out → resume_post c frame (observed t) out.
Proof. apply observed_by, handleResume_holds. Qed.
End exact.

Section exact_witness.
#[local] Existing Instance demo_text.

Lemma resume_exact_witness :
  let t := memory_trace (handleResume demo_server demo_resume) demo_memory in
  resume_post demo_server demo_resume (observed t)
    (Normal (mkHandleResult "s1" (mkSessionCapabilities [mkNegotiated "state-sync" 1] {["state-sync" := 1]}) false false, None))
  ∧ length <$> ob_batches (observed t) = [4%nat].
Proof.
  split.
  - apply resume_exact. apply memory_trace_traces. vm_compute. reflexivity.
  - vm_compute. reflexivity.
Defined.
End exact_witness.

(** ** STATE_QUERY, publishing and HELLO *)

Section others.
Context {ST : StdText}.
Variable c : ServerConfig.

Definition found_ok (namespace : string) (ids : list string) (objs : list StateObject) : Prop :=
  Forall (fun ob => ValidateStateObject ob (sv_Limits c) = Ok tt ∧ so_Namespace ob = namespace) objs
  ∧ sublist (map so_ObjectID objs) ids.

Lemma query_objects_holds sid ns ids a o (Q : obs → outcome (result query_stop stateSnapshotAccumulator) → Prop) :
  (∀ objs a', accumulate a objs = Ok a' → found_ok ns ids objs →
     Q (o <| ob_found := ob_found o ++ objs |>) (Normal (Ok a'))) →
  (∀ o' e, ob_batches o' = ob_batches o → Q o' (Normal (Err e))) →
  (∀ o' msg, ob_batches o' = ob_batches o → Q o' (Panicked msg)) →
  holds observer (query_objects c sid ns a ids) o Q.
Proof.
  revert a o Q. induction ids as [|id ids IH]; intros a o Q Hok Herr Hp; cbn [query_objects].
  { hstep. replace o with (o <| ob_found := ob_found o ++ [] |>); [|destruct o; cbn; by rewrite app_nil_r].
    apply Hok; [done|]. split; constructor. }
  hstep. apply obs_lane_call; [intros e; hstep; by apply Herr|].
  intros [[object|]|e|msg]; cbn [observer answer].
  - destruct (_ || _) eqn:Hid; [hstep; by apply Herr|]. bools. subst.
    destruct (ValidateStateObject object _) as [[]|e] eqn:Hv; [|hstep; by apply Herr].
    destruct (accumulator_Add a object) as [a1|e] eqn:Ha; [|hstep; by apply Herr].
    apply IH; [|exact Herr|exact Hp]. intros objs a' Hacc [Hall Hsub].
    specialize (Hok (object :: objs) a'). cbn in Hok |- *. rewrite <- app_assoc. apply Hok.
    + by rewrite Ha.
    + split; [by constructor|]. by constructor.
  - apply IH; [|exact Herr|exact Hp]. intros objs a' Hacc [Hall Hsub]. apply Hok; [done|].
    split; [done|]. by constructor.
  - hstep. by apply Herr.
  - by apply Hp.
Qed.

Definition queried (frame : Envelope) (o : obs) (err : option goerror) : Prop :=
  ∃ query f,
  decodePayload (A:=StateQueryPayload) (e_Payload frame) (sv_StrictValidation c) = Ok query
  ∧ err = None ∧ ob_batches o = [[f]]
  ∧ e_Type f = FrameStateSnapshot ∧ e_ID f = e_ID frame ∧ e_SessionID f = e_SessionID frame
  ∧ Marshal (mkStateSnapshot (ob_found o)) = Some (e_Payload f)
  ∧ found_ok (sq_Namespace query) (sortStrings (sq_ObjectIDs query)) (ob_found o).

Definition query_post (frame : Envelope) (o : obs) (out : outcome hres) : Prop :=
  match out with
  | Panicked _ => False
  | Normal (r, err) => hr_readySessionID r = "" ∧ (only_error (ob_batches o) ∨ queried frame o err)
  end.

Ltac reported := apply obs_report; [done|intros ? ? ?; split; [reflexivity|left; assumption]].
Ltac errored := hstep; split; [reflexivity|left; by left].

Lemma handleStateQuery_holds frame : holds observer (handleStateQuery c frame) obs_init (query_post frame).
Proof.
  unfold handleStateQuery. do 2 hstep. cbn [observer].
  apply holds_runStream; [done|done|intros e; split; [done|left; by left]|].
  eapply (holds_mono _ _ _ (fun o out => match out with
                                          | Normal r => query_post frame o (Normal r)
                                          | Panicked _ => ob_batches o = []
                                          end)).
  { intros o [[r err]|msg] H; [exact H|]. intros e. split; [done|]. left. by left. }
  unfold queryStream. hstep. apply obs_lane_call; [intros e; errored|].
  intros [[session|]|e|msg]; cbn [observer answer]; [|reported|errored|done].
  hstep; [reported|]. hstep; [reported|].
  destruct (decodePayload _ _) as [query|e] eqn:Hdec; [|errored].
  destruct (_ ≫= _) as [a0|e] eqn:Hnew; [|errored].
  apply result_bind_Ok in Hnew as (limits & _ & Hnew).
  hstep. apply query_objects_holds.
  - intros objs a Hacc Hfound. eapply accumulate_ok in Hacc as (_ & Hs & _); [|exact Hnew].
    destruct (accumulator_Payload a) as [payload|e] eqn:Hp; [|hstep; [reported|errored]].
    unfold accumulator_Payload in Hp. rewrite Hs in Hp.
    destruct (Marshal _) as [p|] eqn:Em in Hp; [|discriminate Hp]. inv_ok.
    apply holds_with_result, holds_enqueueFrame; [intros e _; split; [done|left; by left]|].
    intros _ [e|]; cbn [observer query_post]; (split; [reflexivity|]); [left; by left|right].
    exists query. eexists. split_and!; [exact Hdec|reflexivity..|exact Em|exact Hfound].
  - intros o' [|e] Ho.
    + apply obs_report; [exact Ho|]. intros ? ? ?. split; [reflexivity|left; assumption].
    + hstep. split; [reflexivity|left; left; exact Ho].
  - intros o' msg Ho. exact Ho.
Qed.

(** The appender was asked once, for this very EVENT. *)
Definition asked_once (sid eid ety content : string) (o : obs) : Prop :=
  ∃ now, ob_asked o = [(sid, eid, ety, content, UnixMilli now)].

(** Publishing: nothing goes out unless the appender's own EVENT, checked
    against the request, does; and the appender is never asked twice. *)
Definition publish_post (sid eid ety content : string) (o : obs) (out : outcome (option goerror)) : Prop :=
  match out with
  | Panicked _ => False
  | Normal (Some _) => ob_batches o = [] ∧ (ob_asked o = [] ∨ asked_once sid eid ety content o)
  | Normal None =>
      asked_once sid eid ety content o
      ∧ ∃ ev payload, ob_appended o = [ev] ∧ ob_batches o = [[ev]]
      ∧ e_Type ev = FrameEvent ∧ e_SessionID ev = sid ∧ e_ID ev = eid ∧ validateOut c ev = Ok tt
      ∧ decodePayload (A:=EventPayload) (e_Payload ev) (sv_StrictValidation c) = Ok payload
      ∧ ep_EventType payload = ety ∧ ep_Content payload = content
  end.

Lemma PublishEvent_holds sid eid ety content outbound :
  holds observer (PublishEvent c sid eid ety content outbound) obs_init (publish_post sid eid ety content).
Proof.
  assert (∀ e, publish_post sid eid ety content obs_init (Normal (Some e))) as H0 by (split; auto).
  unfold PublishEvent. hstep; [hstep; apply H0|]. hstep; [hstep; apply H0|]. do 2 hstep. cbn [observer].
  hstep; [|hstep; apply H0]. apply holds_runStream; [done|done|apply H0|].
  set (post := fun o => ob_batches o = [] ∧ (ob_asked o = [] ∨ asked_once sid eid ety content o)).
  assert (post obs_init) as P0 by (split; auto).
  eapply (holds_mono _ _ _ (fun o out => match out with
                                          | Normal r => publish_post sid eid ety content o (Normal r)
                                          | Panicked _ => post o
                                          end)).
  { intros o [r|msg] H; [exact H|intros e; exact H]. }
  unfold publishEventStream. hstep. apply obs_lane_call; [intros e; hstep; exact P0|].
  intros [[session|]|e|msg]; cbn [observer answer]; [|hstep; exact P0|hstep; exact P0|exact P0].
  hstep. apply obs_lane_call; [intros e; hstep; exact P0|].
  intros ans. set (o1 := obs_init <| ob_asked := [(sid, eid, ety, content, UnixMilli x)] |>).
  assert (asked_once sid eid ety content o1) as A1 by (by exists x).
  assert (post o1) as P1 by (split; auto).
  destruct ans as [ev|e|msg]; cbn [observer answer]; [|hstep; exact P1|exact P1].
  assert (post (o1 <| ob_appended := [ev] |>)) as P2 by (split; [done|right; by exists x]).
  destruct (validateOut c ev) as [[]|e] eqn:Hv; [|hstep; exact P2].
  destruct (decodePayload _ _) as [payload|e] eqn:Hdec; [|hstep; exact P2].
  hstep; [hstep; exact P2|]. bools. subst.
  apply holds_enqueueFrame; [intros e _; exact P2|]. intros _ [e|]; cbn [observer publish_post]; [exact P2|].
  split; [by exists x|].
  exists ev, payload. split_and!; [reflexivity|reflexivity|assumption|reflexivity|reflexivity|exact Hv|exact Hdec|reflexivity|reflexivity].
Qed.

(** HELLO: the Session exists, with the negotiated capabilities, before its
    WELCOME goes out. *)
Definition hello_post (frame : Envelope) (o : obs) (out : outcome hres) : Prop :=
  match out with
  | Panicked _ => ob_batches o = []
  | Normal (r, err) =>
      hr_readySessionID r = "" ∧ (only_error (ob_batches o))
      ∨ ∃ hello accepted expires t1 t2 welcome,
          decodePayload (A:=HelloPayload) (e_Payload frame) (sv_StrictValidation c) = Ok hello
          ∧ Negotiate (sv_Capabilities c) (hp_Capabilities hello) (sv_Limits c) = Ok accepted
          ∧ r = mkHandleResult (hr_readySessionID r) accepted false false ∧ err = None
          ∧ hr_readySessionID r ≠ ""
          ∧ ob_created o = Some (mkSessionState (hr_readySessionID r) expires accepted)
          ∧ ob_batches o = [[welcome]]
          ∧ welcome = mkEnvelope WireVersionV2 FrameWelcome "" (hr_readySessionID r) 0 t1
                        (mustPayload (mkWelcome WelcomeModeNew t2 0 0 None (sc_List accepted)))
          ∧ validateOut c welcome = Ok tt
  end.

Lemma obs_report_now o r sid ref code msg b (Q : obs → outcome hres → Prop) :
  ob_batches o = [] → (∀ o' e, only_error (ob_batches o') → Q o' (Normal (r, e))) →
  holds observer (with_result r (enqueueError c sid ref code msg b)) o Q.
Proof.
  intros Ho HQ. apply holds_with_result, holds_enqueueError. intros x. cbn [observer]. split.
  - intros e. apply HQ. by left.
  - intros f Hf y. cbn. split; [done|]. apply HQ. destruct y; cbn; rewrite Ho; [by left|]. right. eauto.
Qed.

Lemma handleHello_holds frame : holds observer (handleHello c frame) obs_init (hello_post frame).
Proof.
  assert (∀ r sid ref code msg b o, hr_readySessionID r = "" → ob_batches o = [] →
    holds observer (with_result r (enqueueError c sid ref code msg b)) o (hello_post frame)) as Hrep.
  { intros r sid ref code msg b o Hr Ho. apply obs_report_now; [done|]. by left. }
  assert (∀ r e, hr_readySessionID r = "" → hello_post frame obs_init (Normal (r, Some e))) as Herr.
  { intros r e Hr. left. split; [done|]. by left. }
  unfold handleHello. destruct (decodePayload _ _) as [hello|e] eqn:Hdec; [|hstep; by apply Herr].
  destruct (Negotiate _ _ _) as [accepted|err] eqn:Hneg.
  2:{ hstep; [by apply Hrep|hstep; by apply Herr]. }
  do 2 hstep. cbn [observer]. destruct x as [[|a sid]|e|msg]; cbn [answer]; [by apply Hrep| |by apply Hrep|done].
  hstep; [hstep; by apply Herr|]. do 2 hstep. cbn [observer]. do 2 hstep. cbn [observer].
  hstep; [|hstep; by apply Herr]. do 2 hstep. cbn [observer]. do 2 hstep. cbn [observer].
  destruct x2 as [[]|e|msg]; cbn [answer]; [|hstep; [by apply Hrep|hstep; by apply Herr]|done].
  hstep. apply holds_enqueueFrame; [intros e _; hstep; left; split; [done|by left]|].
  intros Hvalid [e|]; cbn [observer]; hstep; [left; split; [done|by left]|]. right.
  exists hello, accepted, (Time_Add x1 (sv_SessionResumeTTL c)), (UnixMilli x), (UnixMilli x0). eexists.
  by split_and!.
Qed.
End others.

Section others_exact.
Context {ST : StdText}.

(** C31. A STATE_QUERY is answered exactly.  Whatever the State store answers,
    the handler never panics and either reports at most one ERROR, or
    enqueues one STATE_SNAPSHOT under the query's identity carrying exactly
    the objects the store returned, each valid and of the queried namespace,
    for distinct positions of the queried identities in sorted order. *)
Theorem state_query_exact c frame t out :
  traces (handleStateQuery c frame) t out → query_post c frame (observed t) out.
Proof. apply observed_by, handleStateQuery_holds. Qed.

(** C32. PublishEvent enqueues what was appended.  It never panics, and on no
    path, a failing or panicking appender included, is the appender called
    more than once, or for anything but the EVENT to publish (session,
    identity, type, content, a clock reading).  When it reports success the
    appender was called exactly once and the EVENT it returned, valid and
    matching the request in session, identity, type and content, is the one
    frame enqueued; when it reports an error nothing was enqueued. *)
Theorem publish_event_exact c sid eid ety content outbound t out :
  traces (PublishEvent c sid eid ety content outbound) t out →
  publish_post c sid eid ety content (observed t) out.
Proof. apply observed_by, PublishEvent_holds. Qed.

(** HELLO creates the Session it announces.  Either the connection is not
    made ready and at most one ERROR was enqueued, or the Session was created
    with exactly the capabilities negotiated from the client's offers, the
    one frame enqueued is its WELCOME announcing these capabilities, and the
    result carries the same session and capabilities. *)
Theorem hello_exact c frame t out :
  traces (handleHello c frame) t out → hello_post c frame (observed t) out.
Proof. apply observed_by, handleHello_holds. Qed.
End others_exact.

Section others_witness.
#[local] Existing Instance demo_text.

Definition demo_query : Envelope :=
  demo_in FrameStateQuery "q1" "s1" "{'namespace':'room','object_ids':['b','zz','a']}".
Definition demo_capabilities : SessionCapabilities :=
  mkSessionCapabilities [mkNegotiated "state-sync" 1] {["state-sync" := 1]}.

Lemma state_query_exact_witness :
  let t := memory_trace (handleStateQuery demo_server demo_query) demo_memory in
  query_post demo_server demo_query (observed t) (Normal (zeroResult, None))
  ∧ map so_ObjectID (ob_found (observed t)) = ["a"; "b"].
Proof.
  split.
  - apply state_query_exact. apply memory_trace_traces. vm_compute. reflexivity.
  - vm_compute. reflexivity.
Defined.

Lemma publish_event_exact_witness :
  let t := memory_trace (PublishEvent demo_server "s1" "e4" "t" (js "{'n':4}") true) demo_memory in
  publish_post demo_server "s1" "e4" "t" (js "{'n':4}") (observed t) (Normal None).
Proof.
  apply (publish_event_exact demo_server "s1" "e4" "t" (js "{'n':4}") true).
  apply memory_trace_traces. vm_compute. reflexivity.
Defined.

Definition demo_empty : memory := new_memory 5000000000 ["s9"] [].

Lemma hello_exact_witness :
  let t := memory_trace (handleHello demo_server demo_hello) demo_empty in
  hello_post demo_server demo_hello (observed t)
    (Normal (mkHandleResult "s9" demo_capabilities false false, None)).
Proof. apply hello_exact. apply memory_trace_traces. vm_compute. reflexivity. Defined.

(** Over the in-memory replay store, publishing content with insignificant
    white space appends the EVENT and then reports a mismatch: the store keeps
    the compact form, which differs from the bytes of the request.  The EVENT
    is in the log and will be replayed, but was not enqueued. *)
Theorem publish_event_spacing :
  let '(m, out) := run_memory (PublishEvent demo_server "s1" "e4" "t" (js "{ 'n': 4 }") true) demo_memory in
  out = Some (Normal (Some (ENew
          "kmtproto: EventAppender returned an EVENT that does not match the append request")))
  ∧ CurrentSeq (mm_replay m) "s1" = 4 ∧ mm_outbound m = mm_outbound demo_memory.
Proof. vm_compute. auto. Qed.
End others_witness.

Section lost_reply.
#[local] Existing Instance demo_text.

(** An inbound frame whose identifier holds a control character is invalid.
    The ERROR that answers it repeats the identifier as its ref_id, fails
    the server's own outbound validation, and is dropped: the client gets no
    answer, the caller no error. *)
Definition demo_control : Envelope := demo_in FramePing ("p" +++ char 10) "s1" "{}".

Theorem error_reply_lost :
  let '(m, out) := run_memory (invokeServerProcess demo_server demo_control) demo_memory in
  (∃ e, ValidateFrame demo_control (sv_Limits demo_server) true = Err e)
  ∧ out = Some (Normal (zeroResult, None)) ∧ mm_outbound m = mm_outbound demo_memory.
Proof. vm_compute. eauto. Qed.
End lost_reply.
