(* ===== verification/ServerWire.v ===== *)
(** * What the server may put on the wire

    A policy says which frames may be handed to the outbound queue, given what
    the collaborators have answered so far.  Every call of the server respects
    a policy that admits the frames the handlers build for themselves, the
    EVENTs the stores answered, the WELCOMEs of created and of resumed
    Sessions, and State objects that were read or are published; so a property
    of outgoing frames needs only these cases. *)

From Stdlib Require Import Ascii String.
From S2P Require Import Prelude Utf8 Json Types Codec Capability State Validate Outbound Store Client Sha256 Program Server ServerStream ServerRules StreamProps.
Open Scope string_scope.
Open Scope list_scope.
Open Scope go_scope.
Open Scope Z_scope.

(** The calls of the server that may enqueue frames. *)
Inductive ServerCall :=
| CallProcess (frame : Envelope)
| CallPublishEvent (sessionID eventID eventType content : string)
| CallPublishStateUpdate (sessionID updateID : string) (object : StateObject).

(** The frames a run hands to the outbound queue. *)
Definition handed (t : list event) : list Envelope :=
  concat (map (fun ev => match ev with Ev (EEnqueueBatch frames) _ => frames | _ => [] end) t).

Section policy.
Context {ST : StdText} (c : ServerConfig).

Definition server_call (call : ServerCall) : go (option goerror) :=
  match call with
  | CallProcess frame => r ← invokeServerProcess c frame; mret r.2
  | CallPublishEvent sid eid ety content => PublishEvent c sid eid ety content true
  | CallPublishStateUpdate sid uid object => PublishStateUpdate c sid uid object true
  end.

Definition valid_out (f : Envelope) : bool := match validateOut c f with Ok _ => true | Err _ => false end.

Lemma valid_out_Ok f u : validateOut c f = Ok u → valid_out f = true.
Proof. unfold valid_out. by intros ->. Qed.

(** Frames that carry no EVENT, no Session and no State. *)
Definition plain_type (type : string) : bool :=
  (type != FrameEvent) && (type != FrameWelcome) && (type != FrameStateSnapshot) && (type != FrameStateUpdate).
Definition plain (f : Envelope) : Prop := valid_out f = true ∧ plain_type (e_Type f) = true.

Lemma plain_type_ne type t : plain_type type = true → plain_type t = false → type ≠ t.
Proof. intros H1 H2 ->. congruence. Qed.

(** Snapshots and updates of these State objects. *)
Definition snapshot_of (objects : list StateObject) (f : Envelope) : Prop :=
  valid_out f = true ∧ e_Type f = FrameStateSnapshot ∧ Marshal (mkStateSnapshot objects) = Some (e_Payload f)
  ∧ Forall (fun o => ValidateStateObject o (sv_Limits c) = Ok tt) objects.
Definition update_of (object : StateObject) (f : Envelope) : Prop :=
  valid_out f = true ∧ e_Type f = FrameStateUpdate ∧ e_Payload f = mustPayload (mkStateUpdate object)
  ∧ ValidateStateObject object (sv_Limits c) = Ok tt.

Definition new_welcome (sid : string) (t1 t2 : Z) (l : list NegotiatedCapability) : Envelope :=
  mkEnvelope WireVersionV2 FrameWelcome "" sid 0 t1 (mustPayload (mkWelcome WelcomeModeNew t2 0 0 None l)).

(** An inbound frame of a type, validated and decoded. *)
Definition received `{Wire P} (type : string) (frame : Envelope) (payload : P) : Prop :=
  ValidateFrame frame (sv_Limits c) (sv_StrictValidation c) = Ok tt ∧ e_Type frame = type
  ∧ decodePayload (e_Payload frame) (sv_StrictValidation c) = Ok payload.

(** Knowledge, how an answer adds to it, and the frames that may go. *)
Class WirePolicy (K : Type) := {
  below : K → K → Prop;
  learn : ∀ X, eff X → X → K → K;
  may_go : K → Envelope → bool;
  (** the State objects known to be committed *)
  committed : K → StateObject → Prop;
  below_preorder :: PreOrder below;
  learn_more X (e : eff X) x k : below k (learn X e x k);
  learn_lane sid b x k : learn _ (EStreamCallback sid b) x k = k;
  may_go_more k k' f : below k k' → may_go k f = true → may_go k' f = true;
  may_go_plain k f : plain f → may_go k f = true;
  may_go_replayed k sid after through limits events f :
    f ∈ events → valid_out f = true → e_Type f = FrameEvent → may_go (learn _ (EReplay sid after through limits) (CRet events) k) f = true;
  may_go_appended k sid eid ety content ts f :
    valid_out f = true → e_Type f = FrameEvent → may_go (learn _ (EAppend sid eid ety content ts) (CRet f) k) f = true;
  may_go_created k frame hello accepted sid expires t1 t2 :
    received FrameHello frame hello → Negotiate (sv_Capabilities c) (hp_Capabilities hello) (sv_Limits c) = Ok accepted →
    valid_out (new_welcome sid t1 t2 (sc_List accepted)) = true →
    may_go (learn _ (ESessionCreate (mkSessionState sid expires accepted)) (CRet tt) k) (new_welcome sid t1 t2 (sc_List accepted)) = true;
  may_go_resumed k frame resume ts mark :
    received FrameResume frame resume → is_u64 mark → valid_out (resumeWelcome (e_SessionID frame) resume ts mark) = true →
    may_go k (resumeWelcome (e_SessionID frame) resume ts mark) = true;
  committed_more k k' o : below k k' → committed k o → committed k' o;
  committed_get k ns id o : committed (learn _ (EStateGet ns id) (CRet (Some o)) k) o;
  committed_snapshot k ns limits states o : o ∈ states → committed (learn _ (ESnapshot ns limits) (CRet states) k) o;
  may_go_snapshot k objects f : snapshot_of objects f → Forall (committed k) objects → may_go k f = true;
  may_go_update k object f : update_of object f → committed k object → may_go k f = true
}.

Context {K : Type} `{!WirePolicy K}.

Definition wire_monitor : monitor K := fun X e x k =>
  match e with
  | EEnqueueBatch frames => if forallb (may_go k) frames then Some k else None
  | _ => Some (learn X e x k)
  end.

Definition more {A} (k k' : K) (o : A) : Prop := below k k'.
Definition safe {A} (p : prog A) : Prop := ∀ k, holds wire_monitor p k (more k).
Definition harmless {X} (e : eff X) : Prop := ∀ x k, wire_monitor _ e x k = Some (learn X e x k).

Lemma more_refl {A} k (o : A) : more k k o.
Proof. unfold more. reflexivity. Qed.
#[local] Hint Resolve more_refl : core.

(** A program that is safe as it is, where more is known already. *)
Lemma safe_mono {A} (p : prog A) k0 k (Q : K → A → Prop) :
  safe p → below k0 k → (∀ k' a, below k0 k' → Q k' a) → holds wire_monitor p k Q.
Proof. intros Hp Hk HQ. eapply holds_mono; [|apply Hp]. intros k' a Hk'. apply HQ. by etrans. Qed.

Lemma safe_from {A} (p : prog A) k k0 : safe p → below k0 k → holds wire_monitor p k (more k0).
Proof. intros Hp Hk. by eapply safe_mono. Qed.

Lemma safe_bind {A B} (p : go A) (f : A → go B) : safe p → (∀ a, safe (f a)) → safe (p ≫= f).
Proof.
  intros Hp Hf k. apply holds_bind. eapply safe_mono; [exact Hp|reflexivity|]. intros k' [a|msg] Hk; [|exact Hk].
  by apply safe_from.
Qed.

Lemma safe_perform {X} (e : eff X) : harmless e → safe (perform e).
Proof. intros He k. apply holds_perform. intros x. rewrite He. apply learn_more. Qed.

Lemma safe_call {A} (e : eff (cb A)) : harmless e → safe (call e).
Proof. intros He k. apply holds_call. intros x. rewrite He. apply learn_more. Qed.

Lemma safe_mret {A} (a : A) : safe (mret a : go A).
Proof. intros k. apply more_refl. Qed.

Lemma safe_recover {A} (p : go A) h : safe p → safe (recover p h).
Proof. intros Hp k. apply holds_recover. eapply safe_mono; [exact Hp|reflexivity|]. done. Qed.

Lemma safe_finally {A} (p : go A) q : safe p → safe q → safe (finally p q).
Proof.
  intros Hp Hq k. apply holds_finally. eapply safe_mono; [exact Hp|reflexivity|]. intros k' o Hk.
  eapply safe_mono; [exact Hq|exact Hk|]. done.
Qed.

Lemma safe_with_result r p : safe p → safe (with_result r p).
Proof. intros Hp. unfold with_result. apply safe_bind; [done|]. intros a. apply safe_mret. Qed.

(** A validated frame that may go. *)
Lemma holds_outgoing f k k0 :
  (valid_out f = true → may_go k f = true) → below k0 k → holds wire_monitor (enqueueFrame c f) k (more k0).
Proof.
  intros Hf Hk. apply holds_enqueueFrame; [done|]. intros Hv x. cbn. by rewrite (Hf (valid_out_Ok _ _ Hv)).
Qed.

Lemma safe_enqueueFrame f : plain_type (e_Type f) = true → safe (enqueueFrame c f).
Proof. intros Hp k. apply holds_outgoing; [|reflexivity]. intros Hv. by apply may_go_plain. Qed.

Lemma stored_ack_type ack sid mid u : validateStoredACK c ack sid mid = Ok u → e_Type ack = FrameAck.
Proof. unfold validateStoredACK. intros Hv. inv_ok. by bools. Qed.

Lemma safe_stored_ack ack sid mid u : validateStoredACK c ack sid mid = Ok u → safe (enqueueFrame c ack).
Proof. intros Hv%stored_ack_type. apply safe_enqueueFrame. by rewrite Hv. Qed.

(** The structure of a program, and the helpers that are safe as they are. *)
Create HintDb safe.
#[local] Hint Resolve safe_mret : safe.
Ltac harmless := intros ? ?; reflexivity.
Ltac safe_step :=
  lazymatch goal with
  | |- safe (mbind _ _) => apply safe_bind; [|intros ?]
  | |- safe (perform _) => apply safe_perform; harmless
  | |- safe (call _) => apply safe_call; harmless
  | |- safe (recover _ _) => apply safe_recover
  | |- safe (finally _ _) => apply safe_finally
  | |- safe (with_result _ _) => apply safe_with_result
  | |- safe (match ?x with _ => _ end) => destruct x eqn:?
  | |- safe (enqueueFrame _ _) => first [apply safe_enqueueFrame; reflexivity | by eapply safe_stored_ack]
  | |- safe _ => solve [auto with safe]
  end.
Ltac safe := repeat safe_step.

Lemma safe_enqueueErrorAt sid ref code msg b ts : safe (enqueueErrorAt c sid ref code msg b ts).
Proof. unfold enqueueErrorAt, closeOutbound. safe. Qed.
#[local] Hint Resolve safe_enqueueErrorAt : safe.

Lemma safe_enqueueError sid ref code msg b : safe (enqueueError c sid ref code msg b).
Proof. unfold enqueueError. safe. Qed.

Lemma safe_lane_call {A} sid (e : eff (cb A)) : harmless e → safe (lane_call sid e).
Proof. intros He. unfold lane_call. safe_step; [safe|]. safe_step; [safe|]. safe_step; [by apply safe_call|safe]. Qed.

Lemma safe_runStream {A} sid failed (body : go A) : safe body → safe (runStream sid failed body).
Proof. intros Hb. unfold runStream, invokeStreamRequest. safe; try done. Qed.

Lemma safe_invokeSendCallback {A} key fl (fn : go (res A)) : safe fn → safe (invokeSendCallback key fl fn).
Proof. intros Hf. unfold invokeSendCallback. safe; try done. Qed.

Lemma safe_inject point : safe (inject c point).
Proof. unfold inject. safe. Qed.

Ltac safe_helper :=
  lazymatch goal with
  | |- safe (lane_call _ _) => apply safe_lane_call; harmless
  | |- safe (runStream _ _ _) => apply safe_runStream
  | |- safe (invokeSendCallback _ _ _) => apply safe_invokeSendCallback
  | |- safe (inject _ _) => apply safe_inject
  | |- safe (enqueueError _ _ _ _ _ _) => apply safe_enqueueError
  | |- safe _ => safe_step
  end.
Tactic Notation "safe_helpers" := repeat safe_helper.

(** ** The handlers *)

Lemma safe_ping frame : safe (handlePing c frame).
Proof. unfold handlePing. safe_helpers. Qed.

Lemma safe_stored ack frame : safe (enqueueStoredACK c ack frame).
Proof. unfold enqueueStoredACK. safe. Qed.
#[local] Hint Resolve safe_stored : safe.

Lemma safe_send frame : safe (handleSend c frame).
Proof. unfold handleSend, waitForOriginal, sendLeader, sendClaimed. safe_helpers. Qed.

(** The State objects of a snapshot under construction. *)
Definition sendable (k : K) (objects : list StateObject) : Prop :=
  Forall (committed k) objects ∧ Forall (fun o => ValidateStateObject o (sv_Limits c) = Ok tt) objects.

Lemma sendable_more k k' objects : below k k' → sendable k objects → sendable k' objects.
Proof. intros Hk [Hc Hv]. split; [|done]. eapply Forall_impl; [exact Hc|]. intros o. by apply committed_more. Qed.

Lemma may_go_sendable k objects f :
  sendable k objects → valid_out f = true → e_Type f = FrameStateSnapshot →
  Marshal (mkStateSnapshot objects) = Some (e_Payload f) → may_go k f = true.
Proof. intros [Hc Hv] Hf Ht Hm. by apply (may_go_snapshot k objects). Qed.

Lemma holds_query_objects sid ns a ids k :
  sendable k (ac_states a) →
  holds wire_monitor (query_objects c sid ns a ids) k (fun k' o => below k k' ∧
    match o with Normal (Ok a') => sendable k' (ac_states a') | _ => True end).
Proof.
  revert a k. induction ids as [|id ids IH]; intros a k Ha; cbn [query_objects]; [by split|].
  assert (∀ (r : result query_stop stateSnapshotAccumulator) k', below k k' → (∀ a', r ≠ Ok a') →
    holds wire_monitor (mret r : go _) k' (fun k' o => below k k' ∧
      match o with Normal (Ok a') => sendable k' (ac_states a') | _ => True end)) as Hstop.
  { intros r k' Hk Hr. split; [done|]. destruct r as [a'|]; [by destruct (Hr a')|done]. }
  assert (∀ a' k', below k k' → sendable k' (ac_states a') →
    holds wire_monitor (query_objects c sid ns a' ids) k' (fun k'' o => below k k'' ∧
      match o with Normal (Ok a') => sendable k'' (ac_states a') | _ => True end)) as Hrest.
  { intros a' k' Hk Ha'. eapply holds_mono; [|by apply IH]. intros k'' o [Hk' Ho]. split; [by etrans|done]. }
  apply holds_bind, holds_lane_call.
  - intros x. cbn. by rewrite learn_lane.
  - intros k' x. cbn. by rewrite learn_lane.
  - by apply Hstop.
  - intros x. cbn [wire_monitor]. set (k1 := learn _ _ x k). assert (below k k1) as Hk by apply learn_more.
    destruct x as [[object|]|e|msg]; cbn [answer]; [|by apply Hrest; [|by eapply sendable_more]|by apply Hstop|by split].
    repeat (lazymatch goal with |- holds _ (match ?x with _ => _ end) _ _ => destruct x eqn:? end; try by apply Hstop).
    apply Hrest; [done|]. match goal with H : accumulator_Add _ _ = Ok _ |- _ => apply accumulator_Add_states in H as -> end.
    destruct (sendable_more _ _ _ Hk Ha) as [Hc Hv]. split; (apply Forall_app; split; [done|]; constructor; [|done]).
    + apply committed_get.
    + match goal with H : ValidateStateObject _ _ = Ok ?u |- _ => by destruct u end.
Qed.

Lemma safe_query frame : safe (handleStateQuery c frame).
Proof.
  unfold handleStateQuery, queryStream. safe_helper; [safe_helpers|]. safe_helper. safe_helper; [safe_helpers|].
  repeat (lazymatch goal with |- safe (match ?x with _ => _ end) => destruct x eqn:? end; try solve [safe_helpers]).
  intros k. apply holds_bind. eapply holds_mono; [|apply holds_query_objects].
  - intros k' [[a'|[|e]]|msg] [Hk Ha]; [|apply safe_from; [safe_helpers|done]..|exact Hk].
    destruct (accumulator_Payload a') as [payload|e] eqn:Hp; [|apply safe_from; [|done]; safe_helpers].
    unfold with_result. apply holds_bind. eapply holds_mono; [|apply holds_outgoing; [|exact Hk]].
    + intros k'' [r|msg] Hk''; exact Hk''.
    + intros Hv. eapply may_go_sendable; [exact Ha|done|done|]. by apply accumulator_Payload_Marshal in Hp.
  - match goal with H : _ ≫= _ = Ok _ |- _ => apply result_bind_Ok in H as (? & _ & H); apply accumulator_new_states in H as -> end.
    by split.
Qed.

Lemma safe_hello frame :
  ValidateFrame frame (sv_Limits c) (sv_StrictValidation c) = Ok tt → e_Type frame = FrameHello → safe (handleHello c frame).
Proof.
  intros Hv Hty. unfold handleHello. destruct (decodePayload _ _) as [hello|e] eqn:Hdec; [|safe].
  destruct (Negotiate _ _ _) as [accepted|err] eqn:Hneg; [|safe_helpers].
  safe_step; [safe|]. destruct a as [[|ch sid]|e]; [safe_helpers| |safe_helpers]. cbv zeta. set (id := String ch sid) in *.
  safe_step; [safe|]. safe_step; [safe|]. safe_step; [safe|]. fold (new_welcome id (UnixMilli a) (UnixMilli a0) (sc_List accepted)).
  safe_step; [|safe]. safe_step; [safe|]. intros k. apply holds_bind, holds_call. intros x. cbn [wire_monitor].
  destruct x as [[]|e|msg]; cbn [answer]; [|apply safe_from; [safe_helpers|apply learn_more]|apply learn_more].
  apply holds_bind. eapply holds_mono; [|apply holds_outgoing; [|apply learn_more]].
  - intros k' [[e|]|msg] Hk; [apply safe_from; [safe|exact Hk]..|exact Hk].
  - intros Hw. by eapply may_go_created.
Qed.

(** The batch of a RESUME: each part may go by the time it is handed over. *)
Lemma holds_resumeBatch frame resume state ts mark events snap n r k k0 :
  received FrameResume frame resume → check_replayed c (e_SessionID frame) n events = Ok r →
  (∀ f, f ∈ events → valid_out f = true → e_Type f = FrameEvent → may_go k f = true) →
  (∀ f, snap = Some f → may_go k f = true) → is_u64 mark → below k0 k →
  holds wire_monitor (resumeBatch c (e_SessionID frame) resume state ts mark events snap) k (more k0).
Proof.
  intros Hr Hc Hev Hs Hm Hk. unfold resumeBatch. destruct (validateOut c _) as [u|e] eqn:Hw; [|by apply safe_from; [safe|]].
  apply holds_bind, holds_perform. intros x. cbn [wire_monitor forallb].
  rewrite (may_go_resumed k frame resume ts mark Hr Hm (valid_out_Ok _ _ Hw)), forallb_app. cbn [andb].
  assert (forallb (may_go k) events = true) as ->.
  { apply forallb_forall. intros f Hf%list_elem_of_In.
    enough (valid_out f = true ∧ e_Type f = FrameEvent) as [Hv Ht] by by apply Hev. clear Hev Hs. revert n Hc f Hf.
    induction events as [|ev events IH]; intros n Hc f Hf; [by apply elem_of_nil in Hf|]. cbn in Hc.
    destruct (validateOut c ev) as [v|] eqn:Hv; [|done]. destruct (_ || _) eqn:Hg in Hc; [done|]. bools.
    apply elem_of_cons in Hf as [->|Hf]; [split; [by eapply valid_out_Ok|done]|by eapply IH]. }
  assert (forallb (may_go k) (option_list snap) = true) as ->.
  { destruct snap as [f|]; [|done]. cbn. by rewrite (Hs f eq_refl). }
  cbn [andb]. apply safe_from; [safe|done].
Qed.

Lemma snapshot_may_go snapshot limits ns states f k :
  assembleSnapshot c snapshot limits ns states = Ok f → e_Type snapshot = FrameStateSnapshot →
  (∀ o, o ∈ states → committed k o) → may_go k f = true.
Proof.
  intros H Hty Hc. pose proof (assembleSnapshot_canonical _ _ _ _ _ _ H) as (objects & Hm & Hp & _ & Hv & _ & _ & Hf).
  apply (may_go_sendable k objects); [|by eapply valid_out_Ok, assembleSnapshot_valid|by rewrite Hf|done].
  split; [|eapply Forall_impl; [exact Hv|by intros o [? _]]]. apply Forall_forall. intros o Ho. apply Hc. by rewrite <- Hp.
Qed.

Lemma holds_resumeSnapshot sid resume id ts k :
  holds wire_monitor (resumeSnapshot c sid resume id ts) k (fun k' o => below k k' ∧
    match o with Normal (Ok (Some f)) => may_go k' f = true | _ => True end).
Proof.
  assert (∀ o : outcome (res (option Envelope)), match o with Normal (Ok (Some f)) => False | _ => True end →
    below k k ∧ match o with Normal (Ok (Some f)) => may_go k f = true | _ => True end) as Hret.
  { intros [[[f|]|e]|msg] Ho; by split. }
  unfold resumeSnapshot. destruct (rp_StateSync resume) as [sync|]; [|by apply Hret]. apply holds_bind.
  unfold buildResumeStateSnapshot. destruct (stateSnapshotLimits c _) as [lim|e]; [|by apply Hret].
  apply holds_bind, holds_lane_call.
  - intros x. cbn. by rewrite learn_lane.
  - intros k' x. cbn. by rewrite learn_lane.
  - by split.
  - intros x. cbn [wire_monitor]. destruct x as [states|e|msg]; cbn [answer]; [|split; [apply learn_more|done]..].
    cbn. split; [apply learn_more|]. destruct (assembleSnapshot _ _ _ _ _) eqn:E; [|done].
    eapply snapshot_may_go; [exact E|done|]. intros o Ho. by apply committed_snapshot.
Qed.

(** A lane callback whose answer is learned. *)
Lemma holds_learned {A B} sid (e : eff (cb A)) (f : res A → go B) k :
  harmless e → (∀ err, safe (f (Err err))) →
  (∀ a, holds wire_monitor (f (Ok a)) (learn _ e (CRet a) k) (more k)) →
  holds wire_monitor (lane_call sid e ≫= f) k (more k).
Proof.
  intros Hh He Hf. apply holds_bind, holds_lane_call.
  - intros x. cbn. by rewrite learn_lane.
  - intros k' x. cbn. by rewrite learn_lane.
  - by apply safe_from.
  - intros x. rewrite Hh. destruct x as [a|err|msg]; cbn [answer]; [apply Hf|apply safe_from; [apply He|]|]; apply learn_more.
Qed.

Lemma safe_resumeStream frame resume state id ts :
  received FrameResume frame resume → safe (resumeStream c frame resume state id ts).
Proof.
  intros Hr. unfold resumeStream. safe_helper; [safe_helpers|]. destruct a as [current|e]; [|safe_helpers].
  repeat (lazymatch goal with |- safe (if _ then _ else _) => case_match; [solve [safe_helpers]|] end).
  intros k. apply holds_learned; [harmless|intros e; safe_helpers|]. intros events. set (k1 := learn _ _ _ k).
  assert (below k k1) as Hk1 by apply learn_more.
  destruct (check_replayed c _ _ events) as [expected|message] eqn:Hc; [|apply safe_from; [safe_helpers|done]].
  destruct (negb _); [apply safe_from; [safe_helpers|done]|].
  apply holds_bind. eapply holds_mono; [|apply holds_resumeSnapshot]. intros k' [[snap|e]|msg] [Hk Hs].
  - eapply holds_resumeBatch; [exact Hr|exact Hc| |by intros f ->|apply u64_range|by etrans].
    intros f Hf Hv Ht. eapply may_go_more; [exact Hk|]. by apply may_go_replayed.
  - apply safe_from; [safe_helpers|by etrans].
  - unfold more. by etrans.
Qed.

Lemma safe_resume frame :
  ValidateFrame frame (sv_Limits c) (sv_StrictValidation c) = Ok tt → e_Type frame = FrameResume → safe (handleResume c frame).
Proof.
  intros Hv Hty. unfold handleResume. safe_helper; [safe_helpers|].
  destruct (decodePayload _ _) as [resume|e] eqn:Hdec; [|safe]. assert (received FrameResume frame resume) as Hr by done.
  pose proof (fun state id ts => safe_resumeStream frame resume state id ts Hr). safe_helpers.
Qed.

Lemma safe_process frame outbound : safe (processFrame c frame outbound).
Proof.
  unfold processFrame, closeOutbound. destruct (negb outbound); [safe|].
  destruct (ValidateFrame _ _ _) as [[]|e] eqn:Hv; [|safe_helpers]. case_bool_decide; [by apply safe_hello|].
  case_bool_decide; [apply safe_ping|]. case_bool_decide; [apply safe_send|]. case_bool_decide; [apply safe_query|].
  case_bool_decide; [by apply safe_resume|]. safe_helpers.
Qed.

Lemma safe_invoke frame : safe (invokeServerProcess c frame).
Proof.
  intros k. unfold invokeServerProcess. apply holds_pbind. eapply safe_mono; [apply safe_process|reflexivity|].
  intros k' [r|msg] Hk; [exact Hk|]. apply safe_from; [|exact Hk]. unfold closeOutbound. safe.
Qed.

Lemma safe_publishStream sid eid ety content now : safe (publishEventStream c sid eid ety content now).
Proof.
  unfold publishEventStream. safe_helper; [safe_helpers|]. destruct a as [[session|]|e]; [|safe_helpers..].
  intros k. apply holds_learned; [harmless|intros e; safe|]. intros event.
  repeat (lazymatch goal with
          | |- holds _ (match ?x with _ => _ end) _ _ =>
              destruct x eqn:?; try (apply safe_from; [solve [safe]|apply learn_more])
          end).
  bools. apply holds_outgoing; [|apply learn_more]. intros Hv. by apply may_go_appended.
Qed.
#[local] Hint Resolve safe_publishStream : safe.

(** An update may go when its object is committed; this is the caller's
    duty. *)
Definition call_committed (k : K) (call : ServerCall) : Prop :=
  match call with CallPublishStateUpdate _ _ object => committed k object | _ => True end.

Lemma holds_publishUpdate sid uid object now k k0 :
  committed k object → ValidateStateObject object (sv_Limits c) = Ok tt → below k0 k →
  holds wire_monitor (publishUpdateStream c sid uid object now) k (more k0).
Proof.
  intros Hc Hv Hk. unfold publishUpdateStream. apply holds_bind.
  eapply safe_mono; [apply safe_lane_call; harmless|reflexivity|]. intros k' [looked|msg] Hk'; [|unfold more; by etrans].
  apply (committed_more _ _ _ Hk') in Hc. assert (below k0 k') as Hk0 by by etrans.
  destruct looked as [[session|]|e]; [|apply safe_from; [safe|done]..].
  destruct (negb _); [apply safe_from; [safe|done]|]. apply holds_outgoing; [|done]. intros Hvo.
  apply (may_go_update k' object); [|done].
  split_and!; cbn; [done|done|by rewrite cloneStateObject_id|done].
Qed.

Lemma holds_streamed {A} sid failed (body : go A) k k0 :
  (∀ k', below k k' → holds wire_monitor body k' (more k0)) → below k0 k →
  holds wire_monitor (runStream sid failed body) k (more k0).
Proof.
  intros Hb Hk. unfold runStream, invokeStreamRequest. apply holds_bind, holds_perform. intros x. cbn [wire_monitor].
  destruct x as [e|]; [apply safe_from; [safe|etrans; [exact Hk|apply learn_more]]|].
  apply holds_bind, holds_recover. eapply holds_mono; [|apply Hb, learn_more]. intros k' [a|msg] Hk'; by apply safe_from; [safe|].
Qed.

Lemma holds_server_call call k : call_committed k call → holds wire_monitor (server_call call) k (more k).
Proof.
  intros Hc. destruct call as [frame|sid eid ety content|sid uid object]; cbn [server_call].
  - apply (safe_bind (invokeServerProcess c frame)); [apply safe_invoke|intros a; apply safe_mret].
  - apply (fun p => p : safe (PublishEvent c sid eid ety content true)). unfold PublishEvent. safe_helpers.
  - unfold PublishStateUpdate. destruct (ValidateStateObject _ _) as [[]|e] eqn:Hv; [|apply safe_mret].
    cbn [negb]. apply holds_bind, holds_perform. intros now. cbn [wire_monitor].
    apply holds_streamed; [|apply learn_more]. intros k' Hk. assert (below k k') by (etrans; [apply learn_more|exact Hk]).
    apply holds_publishUpdate; [by eapply committed_more|done..].
Qed.

(** What is known at the end of a run, and the frames it handed over. *)
Fixpoint learn_all (t : list event) (k : K) : K :=
  match t with
  | [] => k
  | Ev e x :: t =>
      learn_all t (match e with EEnqueueBatch _ => k | _ => learn _ e x k end)
  end.

Lemma learn_all_more t k : below k (learn_all t k).
Proof.
  revert k. induction t as [|[X e x] t IH]; intros k; cbn; [reflexivity|]. etrans; [|apply IH].
  destruct e; try apply learn_more. reflexivity.
Qed.

Lemma watch_handed t k k' :
  watch_all wire_monitor t k = Some k' → k' = learn_all t k ∧ Forall (fun f => may_go k' f = true) (handed t).
Proof.
  revert k. induction t as [|[X e x] t IH]; intros k; cbn [watch_all watch]; [intros [= <-]; split; [done|constructor]|].
  unfold handed in *. cbn [map concat learn_all]. intros H.
  destruct e; cbn in H; try (apply IH in H as [-> H]; split; [done|exact H]).
  destruct (forallb _ _) eqn:E; [|done]. cbn in H. apply IH in H as [-> H]. split; [done|]. apply Forall_app. split; [|done].
  apply List.Forall_forall. intros f Hf. eapply forallb_forall in E; [|exact Hf].
  eapply may_go_more; [apply learn_all_more|exact E].
Qed.

(** Every call respects the policy. *)
Lemma server_call_respects call t out k :
  traces (server_call call) t out → call_committed k call →
  Forall (fun f => may_go (learn_all t k) f = true) (handed t).
Proof.
  intros Ht Hc. destruct (holds_traces _ _ _ _ _ _ (holds_server_call call k Hc) Ht) as (k' & Hw & _).
  by apply watch_handed in Hw as [-> Hw].
Qed.
End policy.
