(* ===== verification/Admission.v ===== *)
(** * The server admission gate (server.go)

    [ServerAdmission] guards one caller-owned connection slot: every
    connection generation has an outbound queue of its own, and [Handle]
    admits a frame under the mutex, processes it outside, and applies the
    result under the mutex again.  A queue pointer is its index in the list
    of queues made so far. *)

From Stdlib Require Import Ascii String.
From S2P Require Import Prelude Utf8 Json Types Codec Capability State Validate Outbound Store Client Sha256 Program Server ServerStream.
Open Scope string_scope.
Open Scope list_scope.
Open Scope go_scope.
Open Scope Z_scope.

Inductive ServerAdmissionState :=
| ServerAdmissionClosed
| ServerAdmissionAwaitingHandshake
| ServerAdmissionReady
| ServerAdmissionResuming.
#[export] Instance ServerAdmissionState_eq_dec : EqDecision ServerAdmissionState.
Proof. solve_decision. Defined.

Definition ServerAdmissionState_String (s : ServerAdmissionState) : string :=
  match s with
  | ServerAdmissionClosed => "CLOSED"
  | ServerAdmissionAwaitingHandshake => "AWAITING_HANDSHAKE"
  | ServerAdmissionReady => "READY"
  | ServerAdmissionResuming => "RESUMING"
  end.

Record ServerAdmission := mkAdmission {
  sa_generation : ConnectionGeneration;
  sa_outbound : option nat;
  sa_state : ServerAdmissionState;
  sa_sessionID : string;
  sa_capabilities : SessionCapabilities;
  sa_handshake : bool
}.
#[export] Instance ServerAdmission_eta : Eta ServerAdmission := fun a =>
  mkAdmission (sa_generation a) (sa_outbound a) (sa_state a) (sa_sessionID a) (sa_capabilities a)
    (sa_handshake a).

Definition NewServerAdmission : ServerAdmission :=
  mkAdmission 0 None ServerAdmissionClosed "" zeroCapabilities false.

(** [Replace]: the old queue is closed, a new one is made. *)
Definition Replace (a : ServerAdmission) (queues : list OutboundQueue)
  : ServerAdmission * list OutboundQueue * (ConnectionGeneration * nat) :=
  let queues := match sa_outbound a with Some q => alter Queue_Close q queues | None => queues end in
  let generation := u64 (sa_generation a + 1) in
  let outbound := length queues in
  (mkAdmission generation (Some outbound) ServerAdmissionAwaitingHandshake "" zeroCapabilities false,
   queues ++ [NewOutboundQueue], (generation, outbound)).

Definition Admission_State (a : ServerAdmission) : ServerAdmissionState := sa_state a.
Definition Admission_Generation (a : ServerAdmission) : ConnectionGeneration := sa_generation a.
Definition Admission_SessionID (a : ServerAdmission) : string := sa_sessionID a.
Definition Admission_Capabilities (a : ServerAdmission) : list NegotiatedCapability := sc_List (sa_capabilities a).
Definition Admission_CapabilityEnabled (a : ServerAdmission) (name : string) : bool :=
  sc_Enabled (sa_capabilities a) name.
Definition Admission_CapabilityVersion (a : ServerAdmission) (name : string) : option Z :=
  sc_Version (sa_capabilities a) name.

(** The three ways out of the first critical section of [Handle] that go on:
    an invalid frame and an allowed one are processed; a violation closes the
    connection and is reported. *)
Inductive admitted :=
| Process (outbound : nat)
| Violation (outbound : nat).

Section handle.
Context {ST : StdText}.
Variable c : ServerConfig.

Definition allowed (state : ServerAdmissionState) (type : FrameType) : bool :=
  (type == FrameError)
  || (state == ServerAdmissionAwaitingHandshake) && ((type == FrameHello) || (type == FrameResume))
  || (state == ServerAdmissionReady)
     && ((type == FramePing) || (type == FrameSend) || (type == FrameStateQuery) || (type == FrameResume)).

Definition admission (a : ServerAdmission) (generation : ConnectionGeneration) (frame : Envelope)
  : ServerAdmission * res admitted :=
  match sa_outbound a with
  | None => (a, Err ErrStaleConnection)
  | Some outbound =>
      if negb (generation =? sa_generation a) then (a, Err ErrStaleConnection)
      else if sa_state a == ServerAdmissionClosed then (a, Err ErrInvalidState)
      else
        match ValidateFrame frame (sv_Limits c) (sv_StrictValidation c) with
        | Err _ => (a, Ok (Process outbound))
        | Ok _ =>
            if negb (allowed (sa_state a) (e_Type frame))
               || (sa_state a == ServerAdmissionReady) && (e_SessionID frame != sa_sessionID a)
               || (sa_state a == ServerAdmissionAwaitingHandshake) && sa_handshake a
            then (a <| sa_state := ServerAdmissionClosed |> <| sa_capabilities := zeroCapabilities |>
                    <| sa_handshake := false |>, Ok (Violation outbound))
            else
              let a' := if (sa_state a == ServerAdmissionAwaitingHandshake) && (e_Type frame != FrameError)
                        then a <| sa_handshake := true |> else a in
              let a' := if (sa_state a == ServerAdmissionReady) && (e_Type frame == FrameResume)
                        then a' <| sa_state := ServerAdmissionResuming |> else a' in
              (a', Ok (Process outbound))
        end
  end.

Definition applyResult (generation : ConnectionGeneration) (outbound : nat) (result : serverHandleResult)
    (a : ServerAdmission) : ServerAdmission :=
  if negb (generation =? sa_generation a) || (Some outbound != sa_outbound a) then a
  else
    let a := a <| sa_handshake := false |> in
    if sa_state a == ServerAdmissionClosed then a
    else if hr_close result then
      a <| sa_state := ServerAdmissionClosed |> <| sa_capabilities := zeroCapabilities |>
    else if hr_abandonSession result then
      a <| sa_state := ServerAdmissionAwaitingHandshake |> <| sa_sessionID := "" |>
        <| sa_capabilities := zeroCapabilities |>
    else if hr_readySessionID result != "" then
      a <| sa_state := ServerAdmissionReady |> <| sa_sessionID := hr_readySessionID result |>
        <| sa_capabilities := hr_capabilities result |>
    else if sa_state a == ServerAdmissionResuming then
      a <| sa_state := ServerAdmissionClosed |> <| sa_capabilities := zeroCapabilities |>
    else a.

(** What [Handle] runs after the first critical section. *)
Definition admitted_program (ad : admitted) (frame : Envelope) : go hres :=
  match ad with
  | Process _ => invokeServerProcess c frame
  | Violation _ =>
      with_result zeroResult
        (enqueueError c (e_SessionID frame) (e_ID frame) ErrorProtocolViolation
           "frame is invalid for server connection state" false)
  end.

(** [Handle] when nothing interleaves, in a world that answers the server;
    [server] is false for a nil server. *)
Definition Handle {S} (w : world S) (server : bool) (a : ServerAdmission) (s : S)
    (generation : ConnectionGeneration) (frame : Envelope)
  : option (ServerAdmission * S * option goerror) :=
  if negb server then Some (a, s, Some (ENew "kmtproto: nil server"))
  else
    let '(a, ad) := admission a generation frame in
    match ad with
    | Err e => Some (a, s, Some e)
    | Ok ad =>
        '(s, _, out) ← exec w (admitted_program ad frame) s;
        match out with
        | Panicked _ => None
        | Normal (result, err) =>
            match ad with
            | Process outbound => Some (applyResult generation outbound result a, s, err)
            | Violation _ => Some (a, s, err)
            end
        end
    end.
End handle.

(** ** Concurrent calls *)

(** A call of [Handle] past its first critical section. *)
Record handle_call := mkCall {
  hc_generation : ConnectionGeneration;
  hc_admitted : admitted;
  hc_frame : Envelope;
  hc_prog : go hres
}.
Definition queue_of (ad : admitted) : nat := match ad with Process q | Violation q => q end.

(** The outbound queue answers its own operations; all else answers
    anything. *)
Definition queue_reacts (q q' : OutboundQueue) {X} (e : eff X) : X → Prop :=
  match e in eff X return X → Prop with
  | EEnqueueBatch frames => fun x => (q', x) = EnqueueBatch q frames
  | ECloseOutbound => fun _ => q' = Queue_Close q
  | _ => fun _ => q' = q
  end.

(** [ad_log] records the results applied, [ad_sent] the frames each queue
    accepted from the server's handlers. *)
Record adm_system := mkAdm {
  ad_gate : ServerAdmission;
  ad_queues : list OutboundQueue;
  ad_calls : list handle_call;
  ad_log : list (nat * Envelope * serverHandleResult);
  ad_sent : list (nat * Envelope)
}.
Definition sent_by (n : nat) {X} (e : eff X) : X → list (nat * Envelope) :=
  match e in eff X return X → list (nat * Envelope) with
  | EEnqueueBatch frames => fun x => match x with None => (fun f => (n, f)) <$> frames | Some _ => [] end
  | _ => fun _ => []
  end.

Section steps.
Context {ST : StdText}.
Variable c : ServerConfig.

Inductive adm_step : adm_system → adm_system → Prop :=
| adm_replace a qs calls log sent a' qs' r :
    Replace a qs = (a', qs', r) → adm_step (mkAdm a qs calls log sent) (mkAdm a' qs' calls log sent)
| adm_refused a qs calls log sent generation frame a' e :
    admission c a generation frame = (a', Err e) → adm_step (mkAdm a qs calls log sent) (mkAdm a' qs calls log sent)
| adm_admit a qs calls log sent generation frame a' ad :
    admission c a generation frame = (a', Ok ad) →
    adm_step (mkAdm a qs calls log sent)
             (mkAdm a' qs (mkCall generation ad frame (admitted_program c ad frame) :: calls) log sent)
| adm_run a qs l1 generation ad frame X (e : eff X) (k : X → go hres) l2 x q q' log sent :
    qs !! queue_of ad = Some q → queue_reacts q q' e x →
    adm_step (mkAdm a qs (l1 ++ mkCall generation ad frame (PVis e k) :: l2) log sent)
             (mkAdm a (<[queue_of ad := q']> qs) (l1 ++ mkCall generation ad frame (k x) :: l2) log
                (sent_by (queue_of ad) e x ++ sent))
| adm_apply a qs l1 generation n frame result err l2 log sent :
    adm_step (mkAdm a qs (l1 ++ mkCall generation (Process n) frame (PRet (Normal (result, err))) :: l2) log sent)
             (mkAdm (applyResult generation n result a) qs (l1 ++ l2) ((n, frame, result) :: log) sent)
| adm_end a qs l1 generation n frame out l2 log sent :
    adm_step (mkAdm a qs (l1 ++ mkCall generation (Violation n) frame (PRet out) :: l2) log sent)
             (mkAdm a qs (l1 ++ l2) log sent)
(** the application publishes to a queue it holds *)
| adm_publish a qs calls log sent n q frames :
    qs !! n = Some q →
    adm_step (mkAdm a qs calls log sent) (mkAdm a (<[n := (EnqueueBatch q frames).1]> qs) calls log sent).

Definition adm_init : adm_system := mkAdm NewServerAdmission [] [] [] [].
Definition adm_reachable : adm_system → Prop := rtc adm_step adm_init.
End steps.
