(* ===== verification/AdmissionProps.v ===== *)
(** * The admission gate under concurrency

    What makes a connection READY, what a stale call can do, and which
    frames reach the handlers. *)

From Stdlib Require Import Ascii String.
From S2P Require Import Prelude Utf8 Json Types Codec Capability State Validate Outbound Store Client Sha256 Program Server ServerStream MemoryServer ServerRules StreamProps Admission.
Open Scope string_scope.
Open Scope list_scope.
Open Scope go_scope.
Open Scope Z_scope.

(** ** A handler makes a connection ready only with its WELCOME *)

Section ready.
Context {ST : StdText}.
Variable c : ServerConfig.

Definition welcomed (frames : list Envelope) (sid : string) : Prop :=
  ∃ w, w ∈ frames ∧ e_Type w = FrameWelcome ∧ e_SessionID w = sid.

Definition handshake_frame (frame : Envelope) (sid : string) : Prop :=
  e_Type frame = FrameHello ∨ e_Type frame = FrameResume ∧ e_SessionID frame = sid.

Definition ready_post (frame : Envelope) (o : obs) (out : outcome hres) : Prop :=
  match out with
  | Panicked _ => True
  | Normal (r, _) =>
      hr_readySessionID r = ""
      ∨ handshake_frame frame (hr_readySessionID r) ∧ welcomed (concat (ob_batches o)) (hr_readySessionID r)
  end.

(** The observer rejects nothing. *)
Lemma observer_total {A} (p : prog A) o : holds observer p o (fun _ _ => True).
Proof.
  revert o. induction p as [a|X e k IH]; intros o; cbn; [done|]. intros x.
  destruct (observer X e x o) as [o'|] eqn:E; [apply IH|]. revert x E. by destruct e.
Qed.

Lemma quiet_result frame r p o :
  hr_readySessionID r = "" → holds observer (with_result r p) o (ready_post frame).
Proof.
  intros Hr. apply holds_with_result. eapply holds_mono; [|apply observer_total].
  intros o' [e|msg] _; [by left|done].
Qed.

(** Any call whose answers the observer does not care about. *)
Lemma quiet_bind {A} frame (p : go A) (f : A → go hres) o :
  (∀ a o', holds observer (f a) o' (ready_post frame)) → holds observer (p ≫= f) o (ready_post frame).
Proof.
  intros Hf. hstep. eapply holds_mono; [|apply observer_total]. intros o' [a|msg] _; [apply Hf|done].
Qed.

Ltac quiet :=
  lazymatch goal with
  | |- holds _ (with_result _ _) _ _ => apply quiet_result; reflexivity
  | |- holds _ (mbind _ _) _ _ => apply quiet_bind; intros ? ?
  | |- holds _ (mret _) _ _ => hstep; left; reflexivity
  | |- holds _ (match ?x with _ => _ end) _ _ => destruct x
  end.

Lemma ready_ping frame o : holds observer (handlePing c frame) o (ready_post frame).
Proof. unfold handlePing. repeat quiet. Qed.

Lemma ready_send frame o : holds observer (handleSend c frame) o (ready_post frame).
Proof.
  unfold handleSend, sendLeader. repeat quiet. hstep.
  eapply (holds_mono _ _ _ (ready_post frame)).
  - intros o1 out Hout. hstep. cbn [observer]. exact Hout.
  - repeat quiet.
Qed.

Lemma ready_query frame : holds observer (handleStateQuery c frame) obs_init (ready_post frame).
Proof.
  eapply holds_mono; [|apply handleStateQuery_holds]. intros o [[r err]|msg] H; [|done]. left. apply H.
Qed.

Lemma ready_hello frame : e_Type frame = FrameHello →
  holds observer (handleHello c frame) obs_init (ready_post frame).
Proof.
  intros Ht. eapply holds_mono; [|apply handleHello_holds].
  intros o [[r err]|msg] H; [|done]. destruct H as [[? _]|H]; [by left|]. right. split; [by left|].
  destruct H as (hello & accepted & ex & t1 & t2 & w & _ & _ & _ & _ & _ & _ & -> & -> & _). cbn.
  eexists. split; [by left|done].
Qed.

Lemma ready_resume frame : e_Type frame = FrameResume →
  holds observer (handleResume c frame) obs_init (ready_post frame).
Proof.
  intros Ht. eapply holds_mono; [|apply handleResume_holds].
  intros o [[r err]|msg] H; [|done]. destruct H as [[? _]|H]; [by left|]. right.
  destruct H as (resume & ts & to & evs & snap & _ & _ & -> & _ & _ & _ & _ & -> & _).
  split; [by right|]. eexists. cbn. split; [by left|done].
Qed.

Lemma ready_process frame : holds observer (invokeServerProcess c frame) obs_init (ready_post frame).
Proof.
  unfold invokeServerProcess. apply holds_pbind. eapply (holds_mono _ _ _ (ready_post frame)).
  { intros o [r|msg] H; [exact H|]. unfold closeOutbound. repeat quiet. }
  unfold processFrame. cbn [negb]. destruct (ValidateFrame _ _ _) as [u|err].
  - repeat case_bool_decide.
    + by apply ready_hello.
    + apply ready_ping.
    + apply ready_send.
    + apply ready_query.
    + by apply ready_resume.
    + repeat quiet.
    + repeat quiet.
  - case_bool_decide; repeat quiet.
Qed.
End ready.

(** ** The invariant *)

Section inv.
Context {ST : StdText}.
Variable c : ServerConfig.

Definition call_ok (sent : list (nat * Envelope)) (call : handle_call) (o : obs) : Prop :=
  match hc_admitted call with
  | Process _ => holds observer (hc_prog call) o (ready_post (hc_frame call))
  | Violation _ => True
  end
  ∧ ∀ f, f ∈ concat (ob_batches o) → (queue_of (hc_admitted call), f) ∈ sent.

(** A result that made its connection ready came from a handshake frame, and
    its WELCOME is on that connection's queue. *)
Definition earned (sent : list (nat * Envelope)) (entry : nat * Envelope * serverHandleResult) : Prop :=
  let '(n, frame, r) := entry in
  hr_readySessionID r ≠ "" →
  handshake_frame frame (hr_readySessionID r)
  ∧ ∃ w, (n, w) ∈ sent ∧ e_Type w = FrameWelcome ∧ e_SessionID w = hr_readySessionID r.

(** The session was made ready on queue [n]. *)
Definition session_known (log : list (nat * Envelope * serverHandleResult)) (n : nat) (sid : string)
    (P : serverHandleResult → Prop) : Prop :=
  sid ≠ "" ∧ ∃ frame r, (n, frame, r) ∈ log ∧ hr_readySessionID r = sid ∧ P r.

Definition session_type (type : FrameType) : Prop :=
  type = FramePing ∨ type = FrameSend ∨ type = FrameStateQuery.

Definition call_known (log : list (nat * Envelope * serverHandleResult)) (call : handle_call) : Prop :=
  ∀ n, hc_admitted call = Process n →
  ValidateFrame (hc_frame call) (sv_Limits c) (sv_StrictValidation c) = Ok tt →
  session_type (e_Type (hc_frame call)) →
  session_known log n (e_SessionID (hc_frame call)) (fun _ => True).

Record adm_inv (s : adm_system) : Prop := {
  vi_queue : match sa_outbound (ad_gate s) with Some n => length (ad_queues s) = S n | None => ad_queues s = [] end;
  vi_closed : ∀ n q, ad_queues s !! n = Some q → sa_outbound (ad_gate s) ≠ Some n → oq_closed q = true;
  vi_calls : ∃ os, Forall2 (call_ok (ad_sent s)) (ad_calls s) os;
  vi_log : Forall (earned (ad_sent s)) (ad_log s);
  vi_gate : sa_state (ad_gate s) = ServerAdmissionReady ∨ sa_state (ad_gate s) = ServerAdmissionResuming →
            ∃ n, sa_outbound (ad_gate s) = Some n
                 ∧ session_known (ad_log s) n (sa_sessionID (ad_gate s))
                     (fun r => hr_capabilities r = sa_capabilities (ad_gate s));
  vi_known : Forall (call_known (ad_log s)) (ad_calls s)
}.

Lemma session_known_mono log e n sid P : session_known log n sid P → session_known (e :: log) n sid P.
Proof. intros (? & f & r & ? & ?). split; [done|]. exists f, r. split; [by right|done]. Qed.

Lemma earned_mono sent sent' l : Forall (earned sent) l → Forall (earned (sent' ++ sent)) l.
Proof.
  intros H. eapply Forall_impl; [exact H|]. intros [[n f] r] He Hr. destruct (He Hr) as (? & w & ? & ?).
  split; [done|]. exists w. split; [apply elem_of_app; by right|done].
Qed.

Lemma calls_mono sent sent' calls os :
  Forall2 (call_ok sent) calls os → Forall2 (call_ok (sent' ++ sent)) calls os.
Proof.
  intros H. eapply Forall2_impl; [exact H|]. intros call o [Hh Hf]. split; [done|].
  intros f Hin. apply elem_of_app. right. auto.
Qed.

(** What admission does to the gate. *)
Lemma admit_gate a generation frame a' r :
  admission c a generation frame = (a', r) →
  sa_outbound a' = sa_outbound a ∧ sa_sessionID a' = sa_sessionID a
  ∧ (a' = a ∨ sa_state a' = ServerAdmissionClosed
     ∨ sa_capabilities a' = sa_capabilities a
       ∧ (sa_state a' = sa_state a
          ∨ sa_state a = ServerAdmissionReady ∧ sa_state a' = ServerAdmissionResuming)).
Proof.
  unfold admission. destruct (sa_outbound a) as [n|] eqn:Eo; [|intros [= <- <-]; auto].
  destruct (negb _); [intros [= <- <-]; auto|].
  case_bool_decide; [intros [= <- <-]; auto|].
  destruct (ValidateFrame _ _ _) as [u|]; [|intros [= <- <-]; auto].
  destruct (_ || _); [intros [= <- <-]; cbn; auto|].
  repeat case_bool_decide; cbn; intros [= <- <-]; cbn; auto 8.
Qed.

Lemma admit_err a generation frame a' e : admission c a generation frame = (a', Err e) → a' = a.
Proof.
  unfold admission. destruct (sa_outbound a) as [n|]; [|by intros [= <- <-]].
  destruct (negb _); [by intros [= <- <-]|]. case_bool_decide; [by intros [= <- <-]|].
  destruct (ValidateFrame _ _ _) as [u|]; [|done]. destruct (_ || _); done.
Qed.

Lemma admit_ok a generation frame a' ad :
  admission c a generation frame = (a', Ok ad) →
  sa_outbound a = Some (queue_of ad) ∧ generation = sa_generation a ∧ sa_state a ≠ ServerAdmissionClosed.
Proof.
  unfold admission. destruct (sa_outbound a) as [n|]; [|done].
  destruct (Z.eqb_spec generation (sa_generation a)); [|done]. cbn. case_bool_decide; [done|].
  destruct (ValidateFrame _ _ _) as [u|]; [|by intros [= <- <-]].
  destruct (_ || _); by intros [= <- <-].
Qed.

(** A valid session frame is processed only when the connection is READY for
    its session. *)
Lemma admit_session a generation frame a' n :
  admission c a generation frame = (a', Ok (Process n)) →
  ValidateFrame frame (sv_Limits c) (sv_StrictValidation c) = Ok tt → session_type (e_Type frame) →
  sa_state a = ServerAdmissionReady ∧ e_SessionID frame = sa_sessionID a.
Proof.
  intros Had Hv Ht. unfold admission in Had. destruct (sa_outbound a); [|done].
  destruct (negb _); [done|]. case_bool_decide; [done|]. rewrite Hv in Had.
  destruct (_ || _) eqn:Hg in Had; [done|]. clear Had. apply orb_false_iff in Hg as [Hg _].
  apply orb_false_iff in Hg as [Hal Hsid].
  assert (sa_state a = ServerAdmissionReady) as Hr.
  { destruct (decide (sa_state a = ServerAdmissionReady)) as [|Hn]; [done|]. exfalso. revert Hal. unfold allowed.
    rewrite (bool_decide_false (sa_state a = ServerAdmissionReady)) by done.
    destruct Ht as [->|[->| ->]]; cbn; by rewrite andb_false_r. }
  split; [done|]. rewrite bool_decide_true in Hsid by done. cbn in Hsid. by bools.
Qed.

Lemma closed_stays q frames : oq_closed q = true → oq_closed (EnqueueBatch q frames).1 = true.
Proof. intros H. unfold EnqueueBatch, enqueue_locked. by rewrite H. Qed.

Lemma reacts_closed q q' X (e : eff X) x : queue_reacts q q' e x → oq_closed q = true → oq_closed q' = true.
Proof.
  revert x. destruct e; cbn; intros x H Hc; subst; try done.
  replace q' with (EnqueueBatch q frames).1 by (by rewrite <- H). by apply closed_stays.
Qed.

(** One step of a call's program, under the observer. *)
Lemma call_step sent generation ad frame X (e : eff X) k x o :
  call_ok sent (mkCall generation ad frame (PVis e k)) o →
  ∃ o', call_ok (sent_by (queue_of ad) e x ++ sent) (mkCall generation ad frame (k x)) o'.
Proof.
  intros [Hh Hf]. cbn in Hh, Hf.
  destruct (observer X e x o) as [o'|] eqn:Eo; [|revert x Eo; by destruct e]. exists o'. split; cbn.
  - destruct ad; [|done]. specialize (Hh x). by rewrite Eo in Hh.
  - intros f Hin. apply elem_of_app. destruct (decide (f ∈ concat (ob_batches o))) as [|Hn]; [right; auto|left].
    revert x Eo Hin. clear Hh. destruct e; cbn; intros x; try (by intros [= <-]);
      try (by destruct x; intros [= <-]); try (by destruct x as [[]| |]; intros [= <-]).
    destruct x as [err|]; intros [= <-]; cbn; [done|]. rewrite concat_app, elem_of_app. cbn. rewrite app_nil_r.
    intros [?|Hin]; [done|]. apply list_elem_of_fmap. eauto.
Qed.

(** What applying a result does to the gate. *)
Lemma apply_gate generation n r a :
  applyResult generation n r a = a
  ∨ sa_outbound a = Some n ∧ sa_outbound (applyResult generation n r a) = Some n
    ∧ (sa_state (applyResult generation n r a) = ServerAdmissionReady
         ∧ sa_sessionID (applyResult generation n r a) = hr_readySessionID r
         ∧ hr_readySessionID r ≠ "" ∧ sa_capabilities (applyResult generation n r a) = hr_capabilities r
       ∨ sa_state (applyResult generation n r a) = ServerAdmissionClosed
       ∨ sa_state (applyResult generation n r a) = ServerAdmissionAwaitingHandshake
       ∨ sa_state (applyResult generation n r a) = sa_state a
         ∧ sa_sessionID (applyResult generation n r a) = sa_sessionID a
         ∧ sa_capabilities (applyResult generation n r a) = sa_capabilities a).
Proof.
  unfold applyResult. destruct (_ || _) eqn:Hg; [by left|]. bools. right. split; [done|].
  cbn [sa_state set_field]. case_bool_decide; cbn; [auto 8|]. destruct (hr_close r); cbn; [auto|].
  destruct (hr_abandonSession r); cbn; [auto|]. case_bool_decide; cbn; [|auto 8].
  case_bool_decide; cbn; auto 8.
Qed.

Lemma inv_replace s a' qs' r :
  adm_inv s → Replace (ad_gate s) (ad_queues s) = (a', qs', r) →
  adm_inv (mkAdm a' qs' (ad_calls s) (ad_log s) (ad_sent s)).
Proof.
  intros [Hq Hc Hcalls Hlog _ Hk] [= <- <- _]. split; cbn; [..|intros [E|E]; discriminate E|done].
  - rewrite length_app. cbn. destruct (sa_outbound _); rewrite ?length_alter; lia.
  - intros n q Hn Hne. apply lookup_app_Some in Hn as [Hn|[? Hn]].
    + destruct (sa_outbound (ad_gate s)) as [m|] eqn:Eo; [|by rewrite Hq in Hn].
      destruct (decide (m = n)) as [->|].
      * rewrite list_lookup_alter_eq in Hn. by apply fmap_Some in Hn as (q0 & _ & ->).
      * rewrite list_lookup_alter_ne in Hn by done. apply (Hc n q Hn). congruence.
    + exfalso. apply Hne. apply lookup_lt_Some in Hn. cbn in Hn. f_equal. lia.
  - done.
  - done.
Qed.

Lemma inv_admit s generation frame a' ad :
  adm_inv s → admission c (ad_gate s) generation frame = (a', Ok ad) →
  adm_inv (mkAdm a' (ad_queues s) (mkCall generation ad frame (admitted_program c ad frame) :: ad_calls s)
             (ad_log s) (ad_sent s)).
Proof.
  intros [Hq Hc (os & Hcalls) Hlog Hg Hk] Had.
  destruct (admit_gate _ _ _ _ _ Had) as (Ho & Hs & Hst). destruct (admit_ok _ _ _ _ _ Had) as (Hout & _).
  split; cbn.
  - by rewrite Ho.
  - intros n q. rewrite Ho. apply Hc.
  - exists (obs_init :: os). constructor; [|done]. split; cbn; [|intros f Hin; by apply elem_of_nil in Hin].
    destruct ad; [|done]. apply ready_process.
  - done.
  - intros Hst'. rewrite Ho, Hs. destruct Hst as [->|[E|[Hcap E]]]; [by apply Hg| |].
    + rewrite E in Hst'. by destruct Hst'.
    + rewrite Hcap. apply Hg. destruct E as [E|[E _]]; [by rewrite <- E|auto].
  - constructor; [|done]. intros n Hn Hv Ht. cbn in *. subst ad.
    destruct (admit_session _ _ _ _ _ Had Hv Ht) as [Hr ->].
    destruct (Hg (or_introl Hr)) as (n' & Hn' & Hsid & f & r & Hin & Hr' & _).
    cbn in Hout. rewrite Hout in Hn'. injection Hn' as <-. split; [done|]. eauto.
Qed.

Lemma inv_run s l1 generation ad frame X (e : eff X) (k : X → go hres) l2 x q q' :
  adm_inv s → ad_calls s = l1 ++ mkCall generation ad frame (PVis e k) :: l2 →
  ad_queues s !! queue_of ad = Some q → queue_reacts q q' e x →
  adm_inv (mkAdm (ad_gate s) (<[queue_of ad := q']> (ad_queues s))
             (l1 ++ mkCall generation ad frame (k x) :: l2) (ad_log s) (sent_by (queue_of ad) e x ++ ad_sent s)).
Proof.
  intros [Hq Hc (os & Hcalls) Hlog Hg Hk] Ecalls Hlq Hr. rewrite Ecalls in *. split; cbn.
  - destruct (sa_outbound _); [by rewrite length_insert|]. by rewrite Hq in Hlq.
  - intros n q0 Hn Hne. destruct (decide (n = queue_of ad)) as [->|].
    + rewrite list_lookup_insert_eq in Hn by (by eapply lookup_lt_Some). injection Hn as <-.
      eapply reacts_closed; [exact Hr|]. by eapply Hc.
    + rewrite list_lookup_insert_ne in Hn by done. by eapply Hc.
  - apply Forall2_app_inv_l in Hcalls as (os1 & os' & H1 & H2 & ->).
    apply Forall2_cons_inv_l in H2 as (o & os2 & Ho & H2 & ->).
    eapply call_step in Ho as (o' & Ho'). exists (os1 ++ o' :: os2).
    apply Forall2_app; [by apply calls_mono|]. constructor; [exact Ho'|by apply calls_mono].
  - by apply earned_mono.
  - done.
  - rewrite Forall_app, Forall_cons in Hk |- *. done.
Qed.

Lemma inv_apply s l1 generation n frame result err l2 :
  adm_inv s → ad_calls s = l1 ++ mkCall generation (Process n) frame (PRet (Normal (result, err))) :: l2 →
  adm_inv (mkAdm (applyResult generation n result (ad_gate s)) (ad_queues s) (l1 ++ l2)
             ((n, frame, result) :: ad_log s) (ad_sent s)).
Proof.
  intros [Hq Hc (os & Hcalls) Hlog Hg Hk] Ecalls. rewrite Ecalls in *.
  apply Forall2_app_inv_l in Hcalls as (os1 & os' & H1 & H2 & ->).
  apply Forall2_cons_inv_l in H2 as (o & os2 & [Ho Hsent] & H2 & ->). cbn in Ho, Hsent.
  destruct (apply_gate generation n result (ad_gate s)) as [E|(Hn & Hn' & Hst)].
  - rewrite E. split; cbn; [done|done|eexists; by apply Forall2_app| | |].
    + constructor; [|done]. intros Hr. destruct Ho as [|[? (w & Hw & ?)]]; [done|]. split; [done|]. exists w. auto.
    + intros Hst. destruct (Hg Hst) as (m & ? & ?). exists m. split; [done|]. by apply session_known_mono.
    + rewrite Forall_app, Forall_cons in Hk. rewrite Forall_app. destruct Hk as (Hk1 & _ & Hk2).
      split; (eapply Forall_impl; [done|]); intros call Hcall m ? ? ?; by apply session_known_mono, Hcall.
  - split; cbn.
    + rewrite Hn'. by rewrite Hn in Hq.
    + intros m q. rewrite Hn', <- Hn. apply Hc.
    + eexists. by apply Forall2_app.
    + constructor; [|done]. intros Hr. destruct Ho as [|[? (w & Hw & ?)]]; [done|]. split; [done|]. exists w. auto.
    + intros Hst'. exists n. split; [done|]. destruct Hst as [(_ & -> & Hne & ->)|[E|[E|(E & -> & ->)]]].
      * split; [done|]. exists frame, result. split; [by left|done].
      * rewrite E in Hst'. by destruct Hst'.
      * rewrite E in Hst'. by destruct Hst'.
      * rewrite E in Hst'. destruct (Hg Hst') as (m & Hm & Hkn). rewrite Hn in Hm. injection Hm as <-.
        by apply session_known_mono.
    + rewrite Forall_app, Forall_cons in Hk. rewrite Forall_app. destruct Hk as (Hk1 & _ & Hk2).
      split; (eapply Forall_impl; [done|]); intros call Hcall m ? ? ?; by apply session_known_mono, Hcall.
Qed.

Lemma adm_inv_step s s' : adm_step c s s' → adm_inv s → adm_inv s'.
Proof.
  intros Hstep HI. destruct Hstep.
  - exact (inv_replace _ _ _ _ HI H).
  - apply admit_err in H as ->. destruct HI. by split.
  - exact (inv_admit _ _ _ _ _ HI H).
  - exact (inv_run _ _ _ _ _ _ _ _ _ _ _ _ HI eq_refl H H0).
  - exact (inv_apply _ _ _ _ _ _ _ _ HI eq_refl).
  - destruct HI as [Hq Hc (os & Hcalls) Hlog Hg Hk]. cbn in *. split; cbn; [done|done| |done|done|].
    + apply Forall2_app_inv_l in Hcalls as (os1 & os' & H1 & H2 & ->).
      apply Forall2_cons_inv_l in H2 as (o & os2 & _ & H2 & ->). eexists. by apply Forall2_app.
    + rewrite Forall_app, Forall_cons in Hk. rewrite Forall_app. naive_solver.
  - destruct HI as [Hq Hc Hcalls Hlog Hg Hk]. cbn in *. split; cbn; [| |done|done|done|done].
    + destruct (sa_outbound a); [by rewrite length_insert|]. by rewrite Hq in H.
    + intros m q0 Hm Hne. destruct (decide (m = n)) as [->|].
      * rewrite list_lookup_insert_eq in Hm by (by eapply lookup_lt_Some). injection Hm as <-.
        apply closed_stays. by eapply Hc.
      * rewrite list_lookup_insert_ne in Hm by done. by eapply Hc.
Qed.

Lemma adm_reachable_inv s : adm_reachable c s → adm_inv s.
Proof.
  revert s. refine (rtc_ind_r _ _ _ _).
  - split; cbn; [done|done|by exists []|constructor|intros [E|E]; discriminate E|constructor].
  - intros s s' _ Hstep HI. by eapply adm_inv_step.
Qed.
End inv.

(** ** The properties *)

Section adm_props.
Context {ST : StdText}.

(** C17. READY is earned.  In every interleaving of connection replacements,
    concurrent [Handle] calls and publications, when the gate is READY or
    RESUMING for a session, a HELLO, or a RESUME of that very session, was
    processed on the current connection, its result granted the session and
    the capabilities the gate reports, and the session's WELCOME was put on
    this connection's queue. *)
Theorem admission_ready_earned c s :
  adm_reachable c s →
  sa_state (ad_gate s) = ServerAdmissionReady ∨ sa_state (ad_gate s) = ServerAdmissionResuming →
  ∃ n frame r w, sa_outbound (ad_gate s) = Some n ∧ (n, frame, r) ∈ ad_log s
    ∧ hr_readySessionID r = sa_sessionID (ad_gate s) ∧ sa_sessionID (ad_gate s) ≠ ""
    ∧ hr_capabilities r = sa_capabilities (ad_gate s)
    ∧ handshake_frame frame (sa_sessionID (ad_gate s))
    ∧ (n, w) ∈ ad_sent s ∧ e_Type w = FrameWelcome ∧ e_SessionID w = sa_sessionID (ad_gate s).
Proof.
  intros HI%adm_reachable_inv Hst. destruct (vi_gate _ _ HI Hst) as (n & Hn & Hsid & frame & r & Hin & Hr & Hcap).
  pose proof (vi_log _ _ HI) as Hlog. eapply Forall_forall in Hlog; [|exact Hin].
  destruct Hlog as (Hf & w & Hw & ? & ?); [by rewrite Hr|]. rewrite <- Hr. exists n, frame, r, w.
  split_and!; try done. by rewrite Hr.
Qed.

(** C23. HELLO first.  A valid PING, SEND or STATE_QUERY that any [Handle] call
    is processing belongs to a session that a HELLO or RESUME has made ready
    on that same connection, whose WELCOME was put on its queue before. *)
Theorem admission_hello_first c s call n :
  adm_reachable c s → call ∈ ad_calls s → hc_admitted call = Process n →
  ValidateFrame (hc_frame call) (sv_Limits c) (sv_StrictValidation c) = Ok tt →
  session_type (e_Type (hc_frame call)) →
  ∃ frame r w, (n, frame, r) ∈ ad_log s ∧ hr_readySessionID r = e_SessionID (hc_frame call)
    ∧ handshake_frame frame (e_SessionID (hc_frame call))
    ∧ (n, w) ∈ ad_sent s ∧ e_Type w = FrameWelcome ∧ e_SessionID w = e_SessionID (hc_frame call).
Proof.
  intros HI%adm_reachable_inv Hin Had Hv Ht. pose proof (vi_known _ _ HI) as Hk.
  eapply Forall_forall in Hk; [|exact Hin]. destruct (Hk n Had Hv Ht) as (Hne & frame & r & Hlog & Hr & _).
  pose proof (vi_log _ _ HI) as Hl. eapply Forall_forall in Hl; [|exact Hlog].
  destruct Hl as (Hf & w & Hw & ? & ?); [by rewrite Hr|]. rewrite <- Hr. eauto 10.
Qed.

(** C24. Generation fencing.  A [Handle] call admitted on a connection that has
    been replaced is harmless: whatever result it ends with leaves the gate
    as it is, and whatever it does to its queue adds no frame to it. *)
Theorem admission_fencing c s call :
  adm_reachable c s → call ∈ ad_calls s → sa_outbound (ad_gate s) ≠ Some (queue_of (hc_admitted call)) →
  (∀ generation r, applyResult generation (queue_of (hc_admitted call)) r (ad_gate s) = ad_gate s)
  ∧ ∀ q q' X (e : eff X) x, ad_queues s !! queue_of (hc_admitted call) = Some q → queue_reacts q q' e x →
    oq_frames q' = oq_frames q ∧ sent_by (queue_of (hc_admitted call)) e x = [].
Proof.
  intros HI%adm_reachable_inv _ Hne. split.
  - intros generation r. destruct (apply_gate generation (queue_of (hc_admitted call)) r (ad_gate s)) as [|[? _]]; done.
  - intros q q' X e x Hq Hr. pose proof (vi_closed _ _ HI _ _ Hq Hne) as Hc. revert x Hr.
    destruct e; cbn; intros x Hr; subst; try done.
    unfold EnqueueBatch, enqueue_locked in Hr. rewrite Hc in Hr. by injection Hr as -> ->.
Qed.

(** CLOSED is final.  Once the gate is CLOSED, no step other than a
    Replace reopens it or lets a further frame through to the handlers. *)
Theorem admission_closed_final c s s' :
  sa_state (ad_gate s) = ServerAdmissionClosed → adm_step c s s' →
  sa_state (ad_gate s') = ServerAdmissionClosed ∧ (length (ad_calls s') ≤ length (ad_calls s))%nat
  ∨ ∃ r, Replace (ad_gate s) (ad_queues s) = (ad_gate s', ad_queues s', r) ∧ ad_calls s' = ad_calls s.
Proof.
  intros Hc Hstep. destruct Hstep; cbn in *.
  - right. eauto.
  - left. apply admit_err in H as ->. auto.
  - apply admit_ok in H as (_ & _ & Hn). done.
  - left. split; [done|]. rewrite !length_app. cbn. lia.
  - left. rewrite !length_app. cbn. split; [|lia]. unfold applyResult.
    destruct (_ || _); [done|]. cbn. by rewrite Hc.
  - left. rewrite !length_app. cbn. split; [done|lia].
  - auto.
Qed.
End adm_props.

(** ** A run *)

Inductive adm_action := ActReplace | ActAdmit (generation : Z) (frame : Envelope) | ActRun | ActApply.

Definition adm_answer (q : OutboundQueue) {X} (e : eff X) : option (OutboundQueue * X) :=
  match e in eff X return option (OutboundQueue * X) with
  | ENow => Some (q, 5000000000)
  | ENewSessionID => Some (q, CRet "s1")
  | ESessionCreate _ => Some (q, CRet tt)
  | EEnqueueBatch frames => Some ((EnqueueBatch q frames).1, (EnqueueBatch q frames).2)
  | ECloseOutbound => Some (Queue_Close q, tt)
  | _ => None
  end.

Definition adm_act {ST : StdText} (c : ServerConfig) (s : adm_system) (act : adm_action) : adm_system :=
  match act with
  | ActReplace =>
      let '(a, qs, _) := Replace (ad_gate s) (ad_queues s) in mkAdm a qs (ad_calls s) (ad_log s) (ad_sent s)
  | ActAdmit generation frame =>
      match admission c (ad_gate s) generation frame with
      | (a, Ok ad) => mkAdm a (ad_queues s) (mkCall generation ad frame (admitted_program c ad frame) :: ad_calls s)
                        (ad_log s) (ad_sent s)
      | (_, Err _) => s
      end
  | ActRun =>
      match ad_calls s with
      | mkCall generation ad frame (PVis e k) :: calls =>
          match ad_queues s !! queue_of ad with
          | Some q =>
              match adm_answer q e with
              | Some (q', x) =>
                  mkAdm (ad_gate s) (<[queue_of ad := q']> (ad_queues s)) (mkCall generation ad frame (k x) :: calls)
                    (ad_log s) (sent_by (queue_of ad) e x ++ ad_sent s)
              | None => s
              end
          | None => s
          end
      | _ => s
      end
  | ActApply =>
      match ad_calls s with
      | mkCall generation (Process n) frame (PRet (Normal (result, _))) :: calls =>
          mkAdm (applyResult generation n result (ad_gate s)) (ad_queues s) calls
            ((n, frame, result) :: ad_log s) (ad_sent s)
      | _ => s
      end
  end.

Lemma adm_act_step {ST : StdText} c s act : adm_act c s act = s ∨ adm_step c s (adm_act c s act).
Proof.
  destruct s as [a qs calls log sent], act as [|generation frame| |]; cbn [adm_act ad_gate ad_queues ad_calls ad_log ad_sent].
  - destruct (Replace a qs) as [[a' qs'] r] eqn:E. right. by econstructor.
  - destruct (admission c a generation frame) as [a' [ad|e]] eqn:E; [right; by econstructor|by left].
  - destruct calls as [|[generation ad frame [out|X e k]] calls]; [by left|by left|].
    destruct (qs !! queue_of ad) as [q|] eqn:Eq; [|by left].
    destruct (adm_answer q e) as [[q' x]|] eqn:Ea; [|by left]. right.
    apply (adm_run c a qs [] generation ad frame X e k calls x q q'); [done|].
    revert x Ea. clear. destruct e; cbn; intros x [=]; subst; try done. by rewrite <- surjective_pairing.
  - destruct calls as [|[generation [n|n] frame [[[result err]|msg]|X e k]] calls]; try by left.
    right. apply (adm_apply c a qs [] generation n frame result err calls).
Qed.

Lemma adm_acts_reachable {ST : StdText} c s acts :
  adm_reachable c s → adm_reachable c (foldl (adm_act c) s acts).
Proof.
  revert s. induction acts as [|act acts IH]; intros s Hs; [exact Hs|]. cbn [foldl]. apply IH.
  destruct (adm_act_step c s act) as [->|Hstep]; [exact Hs|]. by eapply rtc_r.
Qed.

Section adm_demo.
#[local] Existing Instance demo_text.

Definition demo_send_in : Envelope := demo_in FrameSend "m1" "s1" "{'content':{'x':1}}".
Definition demo_acts : list adm_action :=
  [ActReplace; ActAdmit 1 demo_hello] ++ replicate 12 ActRun ++ [ActApply; ActAdmit 1 demo_send_in].
Definition demo_gate : adm_system := foldl (adm_act demo_server) adm_init demo_acts.
Definition first_call (calls : list handle_call) : handle_call :=
  hd (mkCall 0 (Violation 0) zeroEnvelope (mret (zeroResult, None))) calls.

Lemma first_call_elem calls : length calls = 1%nat → first_call calls ∈ calls.
Proof. destruct calls as [|call calls]; [discriminate|]. intros _. left. Qed.

Lemma demo_gate_reachable : adm_reachable demo_server demo_gate.
Proof. apply adm_acts_reachable. apply rtc_refl. Qed.

Lemma admission_ready_earned_witness :
  ∃ n frame r w, sa_outbound (ad_gate demo_gate) = Some n ∧ (n, frame, r) ∈ ad_log demo_gate
    ∧ hr_readySessionID r = "s1" ∧ (n, w) ∈ ad_sent demo_gate ∧ e_Type w = FrameWelcome.
Proof.
  destruct (admission_ready_earned demo_server demo_gate demo_gate_reachable) as (n & frame & r & w & H).
  - left. vm_compute. reflexivity.
  - exists n, frame, r, w. destruct H as (H1 & H2 & H3 & _ & _ & _ & H4 & H5 & _).
    split; [exact H1|]. split; [exact H2|]. split; [rewrite H3; vm_compute; reflexivity|]. split; [exact H4|exact H5].
Defined.

Lemma admission_hello_first_witness :
  ∃ frame r w, (0%nat, frame, r) ∈ ad_log demo_gate ∧ hr_readySessionID r = "s1"
    ∧ handshake_frame frame "s1" ∧ (0%nat, w) ∈ ad_sent demo_gate ∧ e_Type w = FrameWelcome ∧ e_SessionID w = "s1".
Proof.
  assert (e_SessionID (hc_frame (first_call (ad_calls demo_gate))) = "s1") as <- by (vm_compute; reflexivity).
  apply (admission_hello_first demo_server demo_gate (first_call (ad_calls demo_gate)) 0%nat).
  - apply demo_gate_reachable.
  - apply first_call_elem. vm_compute. reflexivity.
  - vm_compute. reflexivity.
  - vm_compute. reflexivity.
  - right. left. vm_compute. reflexivity.
Defined.

Definition demo_replaced : adm_system := adm_act demo_server demo_gate ActReplace.
Lemma demo_replaced_reachable : adm_reachable demo_server demo_replaced.
Proof. apply (adm_acts_reachable demo_server demo_gate [ActReplace]). apply demo_gate_reachable. Qed.

Lemma admission_fencing_witness :
  applyResult 2 0 (mkHandleResult "s2" zeroCapabilities false false) (ad_gate demo_replaced) = ad_gate demo_replaced
  ∧ sa_outbound (ad_gate demo_replaced) = Some 1%nat.
Proof.
  split; [|vm_compute; reflexivity].
  assert (queue_of (hc_admitted (first_call (ad_calls demo_replaced))) = 0%nat) as <- by (vm_compute; reflexivity).
  apply (admission_fencing demo_server demo_replaced (first_call (ad_calls demo_replaced))).
  - apply demo_replaced_reachable.
  - apply first_call_elem. vm_compute. reflexivity.
  - vm_compute. discriminate.
Defined.

Definition demo_closed : adm_system :=
  mkAdm (mkAdmission 1 (Some 0%nat) ServerAdmissionClosed "" zeroCapabilities false) [NewOutboundQueue] [] [] [].

Lemma admission_closed_final_witness :
  sa_state (ad_gate demo_closed) = ServerAdmissionClosed ∧ (0 ≤ 0)%nat
  ∨ ∃ r, Replace (ad_gate demo_closed) (ad_queues demo_closed) = (ad_gate demo_closed, ad_queues demo_closed, r)
         ∧ ad_calls demo_closed = ad_calls demo_closed.
Proof.
  apply (admission_closed_final demo_server demo_closed demo_closed).
  - reflexivity.
  - eapply adm_refused with (generation := 7) (frame := demo_hello). reflexivity.
Defined.

(** The gate admits one handshake at a time, except that applying the result
    of an invalid frame clears the flag of the handshake in progress: after
    an invalid frame that does not close the connection, a second HELLO is
    processed while the first still is. *)
Definition demo_invalid : Envelope := demo_in FramePing "" "s1" "{}".
Definition demo_two_hellos : adm_system :=
  foldl (adm_act demo_server) adm_init
    ([ActReplace; ActAdmit 1 demo_hello; ActAdmit 1 demo_invalid] ++ replicate 5 ActRun
     ++ [ActApply; ActAdmit 1 demo_hello]).

Theorem handshake_flag_cleared :
  adm_reachable demo_server demo_two_hellos
  ∧ map (fun call => (hc_admitted call, e_Type (hc_frame call))) (ad_calls demo_two_hellos)
    = [(Process 0, FrameHello); (Process 0, FrameHello)]
  ∧ admission demo_server (ad_gate (foldl (adm_act demo_server) adm_init [ActReplace; ActAdmit 1 demo_hello])) 1 demo_hello
    = (mkAdmission 1 (Some 0%nat) ServerAdmissionClosed "" zeroCapabilities false, Ok (Violation 0)).
Proof.
  split; [apply adm_acts_reachable, rtc_refl|]. split; vm_compute; reflexivity.
Qed.
End adm_demo.
