(* ===== verification/SendSystem.v ===== *)
(** * Concurrent server threads over one deduplication store

    Any number of inbound frames are processed at once.  A thread runs
    [invokeServerProcess]; the scheduler picks a thread, which performs one
    effect.  The flights answer as the source implements them, the
    deduplication store as its interface promises; every other collaborator,
    the application included, answers anything, failure and panic included. *)

From Stdlib Require Import Ascii String.
From S2P Require Import Prelude Utf8 Json Types Codec Capability State Validate Outbound Store Client Sha256 Program StoreInterface Server ServerStream ServerRules SendMonitor.
Open Scope string_scope.
Open Scope list_scope.
Open Scope go_scope.
Open Scope Z_scope.

(** A possible answer [x] to effect [e] and the shared state after it. *)
Definition reacts `{ServerSessionStore D} (now : time) (d : D) (F : Flights) (d' : D) (F' : Flights)
    {X} (e : eff X) : X → Prop :=
  match e in eff X return X → Prop with
  | EClaim sid mid fp => fun x => F' = F ∧ store_Claim d now sid mid fp d' x
  | EComplete sid mid ack => fun x => F' = F ∧ store_Complete d now sid mid ack d' x
  | EAcquireFlight key fp => fun x => d' = d ∧ (F', x) = acquireFlight key fp F
  | EFinishFlight key flight => fun _ => d' = d ∧ F' = finishFlight key flight F
  | EBeginSendCallback key flight => fun x => d' = d ∧ (F', x) = beginSendCallback key flight F
  | EEndSendCallback flight => fun _ => d' = d ∧ F' = endSendCallback flight F
  | ESetFlightACK flight ack => fun _ => d' = d ∧ F' = setFlightACK flight ack F
  | EFlightACK flight => fun x => d' = d ∧ F' = F ∧ x = flightACK flight F
  | EWaitFlight flight => fun x =>
      d' = d ∧ F' = F ∧ (x = None → ∃ f, fl_heap F !! flight = Some f ∧ sf_done f = true)
  | _ => fun _ => d' = d ∧ F' = F
  end.

(** What is observed of an effect of the thread that processes [frame]: the
    content handed to the application, the identities and fingerprints the
    application accepted, and the ACKs put on the outbound queue. *)
Definition invoked_by (frame : Envelope) {X} (e : eff X) : list (Envelope * string) :=
  match e with EHandleSend _ content => [(frame, content)] | _ => [] end.
Definition accepted_by (frame : Envelope) {X} (e : eff X) : X → list (string * SendFingerprint) :=
  match e in eff X return X → list (string * SendFingerprint) with
  | EHandleSend _ content => fun x =>
      match x with CRet _ => [(send_key frame, Sum256 content)] | _ => [] end
  | _ => fun _ => []
  end.
Definition acked_by (frame : Envelope) {X} (e : eff X) : list (Envelope * Envelope) :=
  match e with
  | EEnqueueBatch frames => (fun ack => (frame, ack)) <$> filter (fun f => e_Type f = FrameAck) frames
  | _ => []
  end.

Record system (D : Type) := mkSystem {
  sy_dedup : D;
  sy_flights : Flights;
  sy_threads : list (Envelope * go hres);
  sy_invoked : list (Envelope * string);
  sy_accepted : list (string * SendFingerprint);
  sy_acked : list (Envelope * Envelope)
}.
#[global] Arguments mkSystem {D}.
#[global] Arguments sy_dedup {D}.
#[global] Arguments sy_flights {D}.
#[global] Arguments sy_threads {D}.
#[global] Arguments sy_invoked {D}.
#[global] Arguments sy_accepted {D}.
#[global] Arguments sy_acked {D}.

Section system.
Context {ST : StdText} `{ServerSessionStore D}.
Variable c : ServerConfig.
(** The clock readings of the store. *)
Variable clock : time → Prop.

Inductive sys_step : system D → system D → Prop :=
| sys_spawn d F threads inv acc acks frame :
    sys_step (mkSystem d F threads inv acc acks)
             (mkSystem d F ((frame, invokeServerProcess c frame) :: threads) inv acc acks)
| sys_run d F d' F' l1 l2 frame X (e : eff X) (k : X → go hres) x now inv acc acks :
    clock now → reacts now d F d' F' e x →
    sys_step (mkSystem d F (l1 ++ (frame, PVis e k) :: l2) inv acc acks)
             (mkSystem d' F' (l1 ++ (frame, k x) :: l2) (invoked_by frame e ++ inv)
                (accepted_by frame e x ++ acc) (acked_by frame e ++ acks)).

(** A server starts over a store that may already hold records; [acc] are
    the SENDs the application accepted before. *)
Definition sys_init (d : D) (acc : list (string * SendFingerprint)) : system D :=
  mkSystem d noFlights [] [] acc [].
Definition sys_reachable (d : D) (acc : list (string * SendFingerprint)) : system D → Prop :=
  rtc sys_step (sys_init d acc).

(** ** Threads and their monitors *)

Definition obeying (th : Envelope * go hres) (m : send_mon) : Prop :=
  holds (send_monitor c th.1) th.2 m any.

Lemma obeying_step l1 frame X (e : eff X) k l2 ms x :
  Forall2 obeying (l1 ++ (frame, PVis e k) :: l2) ms →
  ∃ ms1 m ms2 m', ms = ms1 ++ m :: ms2 ∧ length ms1 = length l1
    ∧ send_monitor c frame _ e x m = Some m'
    ∧ Forall2 obeying (l1 ++ (frame, k x) :: l2) (ms1 ++ m' :: ms2).
Proof.
  intros Hobs. apply Forall2_app_inv_l in Hobs as (ms1 & ms' & H1 & H2 & ->).
  apply Forall2_cons_inv_l in H2 as (m & ms2 & Hm & H2 & ->).
  unfold obeying in Hm. cbn in Hm. specialize (Hm x).
  destruct (send_monitor c frame X e x m) as [m'|] eqn:E; [|done].
  exists ms1, m, ms2, m'. split_and!; [done|by symmetry; eapply Forall2_length|done|].
  apply Forall2_app; [done|]. by constructor.
Qed.

(** The threads with their monitor states. *)
Definition watched (ths : list (Envelope * go hres)) (ms : list send_mon) : list (Envelope * send_mon) :=
  zip ths.*1 ms.

Lemma watched_step l1 th l2 ms1 m ms2 :
  length ms1 = length l1 →
  watched (l1 ++ th :: l2) (ms1 ++ m :: ms2) = watched l1 ms1 ++ (th.1, m) :: watched l2 ms2.
Proof.
  intros Hlen. unfold watched. rewrite fmap_app, zip_with_app by (rewrite length_fmap; done). done.
Qed.

(** An invariant over the watched threads and the rest of the state holds in
    every reachable state if each effect its monitor accepts preserves it. *)
Lemma sys_invariant d0 acc0
    (I : D → Flights → list (Envelope * send_mon) → list (Envelope * string) →
         list (string * SendFingerprint) → list (Envelope * Envelope) → Prop) s :
  I d0 noFlights [] [] acc0 [] →
  (∀ d F ws inv acc acks frame,
     I d F ws inv acc acks → I d F ((frame, sm_init) :: ws) inv acc acks) →
  (∀ d F d' F' w1 w2 frame X (e : eff X) x m m' now inv acc acks,
     clock now → reacts now d F d' F' e x → send_monitor c frame _ e x m = Some m' →
     I d F (w1 ++ (frame, m) :: w2) inv acc acks →
     I d' F' (w1 ++ (frame, m') :: w2) (invoked_by frame e ++ inv) (accepted_by frame e x ++ acc)
       (acked_by frame e ++ acks)) →
  sys_reachable d0 acc0 s →
  ∃ ws, I (sy_dedup s) (sy_flights s) ws (sy_invoked s) (sy_accepted s) (sy_acked s).
Proof.
  intros Hinit Hspawn Hrun Hr.
  assert (∃ ms, Forall2 obeying (sy_threads s) ms
          ∧ I (sy_dedup s) (sy_flights s) (watched (sy_threads s) ms) (sy_invoked s) (sy_accepted s) (sy_acked s))
    as (ms & _ & HI); [|eauto].
  revert s Hr. refine (rtc_ind_r _ _ _ _).
  { exists []. by split; [constructor|]. }
  intros s1 s2 _ Hstep IH. destruct IH as (ms & Hob & HI). destruct Hstep as [d F ths inv acc acks frame|];
    cbn [sy_dedup sy_flights sy_threads sy_invoked sy_accepted sy_acked] in *.
  - exists (sm_init :: ms). split; [|exact (Hspawn _ _ _ _ _ _ frame HI)].
    constructor; [exact (obeys_invoke c frame)|exact Hob].
  - eapply obeying_step in Hob as (ms1 & m & ms2 & m' & -> & Hlen & Hm & Hob).
    exists (ms1 ++ m' :: ms2). split; [exact Hob|]. rewrite watched_step in HI |- * by done. eapply Hrun; eauto.
Qed.
End system.
