(* ===== verification/Lanes.v ===== *)
(** * Stream lanes: per-session serialization (server.go)

    [runStream] finds or makes the session's lane and counts its users;
    [streamLane.run] queues a request, and the first to find the lane idle
    runs every queued request, its own and those of the goroutines that came
    meanwhile; [invokeCallback] marks the lane while a collaborator is being
    called.  The critical sections are functions; goroutines interleave
    between them. *)

From Stdlib Require Import Ascii String.
From S2P Require Import Prelude Types.
Open Scope list_scope.
Open Scope go_scope.

(** A request is named by the goroutine that waits for it. *)
Record streamLane := mkLane {
  ln_running : bool;
  ln_callbackActive : bool;
  ln_queue : list nat;
  ln_users : nat
}.
#[export] Instance streamLane_eta : Eta streamLane := fun l =>
  mkLane (ln_running l) (ln_callbackActive l) (ln_queue l) (ln_users l).

(** ** Critical sections *)

(** [run]: refused during a callback; queued behind a runner; or queued and
    now the runner. *)
Inductive lane_entry := LaneBusy | LaneQueued | LaneRunner.
Definition lane_enter (request : nat) (l : streamLane) : streamLane * lane_entry :=
  if ln_callbackActive l then (l, LaneBusy)
  else
    let l := l <| ln_queue := ln_queue l ++ [request] |> in
    if ln_running l then (l, LaneQueued) else (l <| ln_running := true |>, LaneRunner).

(** One turn of the runner's loop. *)
Definition lane_next (l : streamLane) : streamLane * option nat :=
  match ln_queue l with
  | [] => (l <| ln_running := false |>, None)
  | request :: rest => (l <| ln_queue := rest |>, Some request)
  end.

Definition lane_begin_callback (l : streamLane) : streamLane * bool :=
  if ln_callbackActive l then (l, false) else (l <| ln_callbackActive := true |>, true).
Definition lane_end_callback (l : streamLane) : streamLane := l <| ln_callbackActive := false |>.

(** The map of lanes, guarded by [laneMu]. *)
Record laneMap := mkLaneMap {
  lm_lanes : gmap string nat;
  lm_heap : gmap nat streamLane;
  lm_next : nat
}.
Definition lane_alter (f : streamLane → streamLane) (a : nat) (M : laneMap) : laneMap :=
  mkLaneMap (lm_lanes M) (alter f a (lm_heap M)) (lm_next M).

Definition acquire_lane (sid : string) (M : laneMap) : laneMap * nat :=
  match lm_lanes M !! sid with
  | Some a => (lane_alter (fun l => l <| ln_users := S (ln_users l) |>) a M, a)
  | None =>
      let a := lm_next M in
      (mkLaneMap (<[sid := a]> (lm_lanes M)) (<[a := mkLane false false [] 1]> (lm_heap M)) (S a), a)
  end.
Definition release_lane (sid : string) (a : nat) (M : laneMap) : laneMap :=
  match lm_heap M !! a with
  | None => M
  | Some l =>
      let users := Nat.pred (ln_users l) in
      let M := lane_alter (fun l => l <| ln_users := users |>) a M in
      if (users =? 0)%nat && (lm_lanes M !! sid == Some a)
      then mkLaneMap (delete sid (lm_lanes M)) (lm_heap M) (lm_next M)
      else M
  end.

(** ** Goroutines *)

Inductive lane_pc :=
| LStart                            (* calls runStream *)
| LRun (lane : nat)                 (* calls lane.run *)
| LWait (lane : nat)                (* <-done *)
| LLoop (lane : nat)                (* the runner, at the head of its loop *)
| LExec (lane request : nat)        (* the runner, inside a request's fn *)
| LCallback (lane request : nat)    (* ... and inside a callback *)
| LLeave (lane : nat) (ok : bool)   (* the deferred release *)
| LDone (ok : bool).
Record lane_thread := mkLThread { lt_session : string; lt_pc : lane_pc }.

(** [ls_queued] and [ls_started] log the requests each lane took in and
    began to execute. *)
Record lane_system := mkLanes {
  ls_map : laneMap;
  ls_threads : gmap nat lane_thread;
  ls_done : gset nat;
  ls_queued : list (nat * nat);
  ls_started : list (nat * nat)
}.
Definition lanes_init : lane_system := mkLanes (mkLaneMap ∅ ∅ 0) ∅ ∅ [] [].

(** Thread [i] moves to [pc]. *)
Definition goto (i : nat) (sid : string) (pc : lane_pc) (ths : gmap nat lane_thread) : gmap nat lane_thread :=
  <[i := mkLThread sid pc]> ths.
Definition lane_put (a : nat) (l : streamLane) (M : laneMap) : laneMap :=
  mkLaneMap (lm_lanes M) (<[a := l]> (lm_heap M)) (lm_next M).

Inductive lane_step : lane_system → lane_system → Prop :=
| ln_spawn M ths D q e i sid :
    ths !! i = None → lane_step (mkLanes M ths D q e) (mkLanes M (goto i sid LStart ths) D q e)
| ln_acquire M ths D q e i sid M' a :
    ths !! i = Some (mkLThread sid LStart) → acquire_lane sid M = (M', a) →
    lane_step (mkLanes M ths D q e) (mkLanes M' (goto i sid (LRun a) ths) D q e)
| ln_busy M ths D q e i sid a l l' :
    ths !! i = Some (mkLThread sid (LRun a)) → lm_heap M !! a = Some l → lane_enter i l = (l', LaneBusy) →
    lane_step (mkLanes M ths D q e) (mkLanes (lane_put a l' M) (goto i sid (LLeave a false) ths) D q e)
| ln_queue_behind M ths D q e i sid a l l' :
    ths !! i = Some (mkLThread sid (LRun a)) → lm_heap M !! a = Some l → lane_enter i l = (l', LaneQueued) →
    lane_step (mkLanes M ths D q e) (mkLanes (lane_put a l' M) (goto i sid (LWait a) ths) D (q ++ [(a, i)]) e)
| ln_become_runner M ths D q e i sid a l l' :
    ths !! i = Some (mkLThread sid (LRun a)) → lm_heap M !! a = Some l → lane_enter i l = (l', LaneRunner) →
    lane_step (mkLanes M ths D q e) (mkLanes (lane_put a l' M) (goto i sid (LLoop a) ths) D (q ++ [(a, i)]) e)
| ln_take M ths D q e i sid a l l' r :
    ths !! i = Some (mkLThread sid (LLoop a)) → lm_heap M !! a = Some l → lane_next l = (l', Some r) →
    lane_step (mkLanes M ths D q e) (mkLanes (lane_put a l' M) (goto i sid (LExec a r) ths) D q (e ++ [(a, r)]))
| ln_idle M ths D q e i sid a l l' :
    ths !! i = Some (mkLThread sid (LLoop a)) → lm_heap M !! a = Some l → lane_next l = (l', None) →
    lane_step (mkLanes M ths D q e) (mkLanes (lane_put a l' M) (goto i sid (LWait a) ths) D q e)
| ln_callback M ths D q e i sid a l l' r :
    ths !! i = Some (mkLThread sid (LExec a r)) → lm_heap M !! a = Some l → lane_begin_callback l = (l', true) →
    lane_step (mkLanes M ths D q e) (mkLanes (lane_put a l' M) (goto i sid (LCallback a r) ths) D q e)
| ln_callback_end M ths D q e i sid a l r :
    ths !! i = Some (mkLThread sid (LCallback a r)) → lm_heap M !! a = Some l →
    lane_step (mkLanes M ths D q e)
              (mkLanes (lane_put a (lane_end_callback l) M) (goto i sid (LExec a r) ths) D q e)
| ln_finish M ths D q e i sid a r :
    ths !! i = Some (mkLThread sid (LExec a r)) →
    lane_step (mkLanes M ths D q e) (mkLanes M (goto i sid (LLoop a) ths) ({[r]} ∪ D) q e)
| ln_return M ths D q e i sid a :
    ths !! i = Some (mkLThread sid (LWait a)) → i ∈ D →
    lane_step (mkLanes M ths D q e) (mkLanes M (goto i sid (LLeave a true) ths) D q e)
| ln_release M ths D q e i sid a ok :
    ths !! i = Some (mkLThread sid (LLeave a ok)) →
    lane_step (mkLanes M ths D q e) (mkLanes (release_lane sid a M) (goto i sid (LDone ok) ths) D q e).

Definition lanes_reachable : lane_system → Prop := rtc lane_step lanes_init.
