(* ===== verification/LanesProps.v ===== *)
(** * Stream lanes serialize a session's operations

    Mutual exclusion, first-come first-served execution, and the absence of
    deadlock, for any number of goroutines. *)

From Stdlib Require Import Ascii String.
From S2P Require Import Prelude Types Lanes.
Open Scope list_scope.
Open Scope go_scope.

Definition lane_of (pc : lane_pc) : option nat :=
  match pc with
  | LStart | LDone _ => None
  | LRun a | LWait a | LLoop a | LExec a _ | LCallback a _ | LLeave a _ => Some a
  end.
Definition runs (pc : lane_pc) : option nat :=
  match pc with LLoop a | LExec a _ | LCallback a _ => Some a | _ => None end.
Definition executes (pc : lane_pc) : option (nat * nat) :=
  match pc with LExec a r | LCallback a r => Some (a, r) | _ => None end.
(** A request of this goroutine is pending or answered on lane [a]. *)
Definition submitted (pc : lane_pc) : option nat :=
  match pc with LWait a | LLoop a | LExec a _ | LCallback a _ => Some a | _ => None end.

(** ** Lanes and their users *)

Record users_inv (M : laneMap) (ths : gmap nat lane_thread) : Prop := {
  ui_fresh : ∀ a, (lm_next M ≤ a)%nat → lm_heap M !! a = None;
  ui_lane : ∀ sid a, lm_lanes M !! sid = Some a → is_Some (lm_heap M !! a);
  ui_inj : ∀ sid sid' a, lm_lanes M !! sid = Some a → lm_lanes M !! sid' = Some a → sid = sid';
  ui_thread : ∀ i sid pc a, ths !! i = Some (mkLThread sid pc) → lane_of pc = Some a → lm_lanes M !! sid = Some a;
  ui_users : ∀ a l, lm_heap M !! a = Some l →
    ∃ H : gset nat, size H = ln_users l
      ∧ ∀ i, i ∈ H ↔ ∃ th, ths !! i = Some th ∧ lane_of (lt_pc th) = Some a
}.

(** A move between program points of the same lane that keeps the users. *)
Lemma users_move M ths i sid pc pc' a l l' :
  ths !! i = Some (mkLThread sid pc) → lane_of pc = Some a → lane_of pc' = Some a →
  lm_heap M !! a = Some l → ln_users l' = ln_users l →
  users_inv M ths → users_inv (lane_put a l' M) (goto i sid pc' ths).
Proof.
  intros Hi Hp Hp' Hl Hu [Hf Hla Hinj Hth Hus]. unfold goto. split; cbn.
  - intros b Hb. rewrite lookup_insert_ne; [auto|]. intros <-. rewrite Hf in Hl; done.
  - intros sid' b Hb. rewrite lookup_insert_is_Some. destruct (decide (a = b)); eauto.
  - done.
  - intros j sid' pc0 b [[<- [= <- <-]]|[Hne Hj]]%lookup_insert_Some Hpc; [|by eauto].
    rewrite Hp' in Hpc. injection Hpc as <-. eauto.
  - assert (∀ b j, (∃ th, <[i:=mkLThread sid pc']> ths !! j = Some th ∧ lane_of (lt_pc th) = Some b)
                   ↔ ∃ th, ths !! j = Some th ∧ lane_of (lt_pc th) = Some b) as Heq.
    { intros b j. destruct (decide (i = j)) as [<-|]; [|by rewrite lookup_insert_ne].
      rewrite lookup_insert_eq, Hi. naive_solver congruence. }
    setoid_rewrite Heq.
    intros b lb [[<- <-]|[Hne Hb]]%lookup_insert_Some; [|by apply Hus]. rewrite Hu. by apply Hus.
Qed.

Lemma users_spawn M ths i sid :
  ths !! i = None → users_inv M ths → users_inv M (goto i sid LStart ths).
Proof.
  intros Hi [Hf Hla Hinj Hth Hus]. unfold goto. split; try done.
  - intros j sid' pc0 b [[<- [= <- <-]]|[Hne Hj]]%lookup_insert_Some Hpc; [done|eauto].
  - intros a l Hl. destruct (Hus a l Hl) as (H & Hsz & HH). exists H. split; [done|]. intros j. rewrite HH.
    destruct (decide (i = j)) as [<-|]; [|by rewrite lookup_insert_ne].
    rewrite lookup_insert_eq, Hi. naive_solver.
Qed.

Lemma users_acquire M ths i sid M' a :
  ths !! i = Some (mkLThread sid LStart) → acquire_lane sid M = (M', a) →
  users_inv M ths → users_inv M' (goto i sid (LRun a) ths).
Proof.
  intros Hi Hacq [Hf Hla Hinj Hth Hus]. unfold acquire_lane in Hacq. unfold goto.
  assert (∀ b j, b ≠ a → (∃ th, <[i:=mkLThread sid (LRun a)]> ths !! j = Some th ∧ lane_of (lt_pc th) = Some b)
                 ↔ ∃ th, ths !! j = Some th ∧ lane_of (lt_pc th) = Some b) as Hother.
  { intros b j Hb. destruct (decide (i = j)) as [<-|]; [|by rewrite lookup_insert_ne].
    rewrite lookup_insert_eq, Hi. split; intros (th & [= <-] & E); cbn in E; congruence. }
  assert (∀ j, (∃ th, <[i:=mkLThread sid (LRun a)]> ths !! j = Some th ∧ lane_of (lt_pc th) = Some a)
               ↔ j = i ∨ ∃ th, ths !! j = Some th ∧ lane_of (lt_pc th) = Some a) as Hself.
  { intros j. destruct (decide (i = j)) as [<-|]; [|rewrite lookup_insert_ne by done; naive_solver].
    rewrite lookup_insert_eq. naive_solver. }
  destruct (lm_lanes M !! sid) as [a0|] eqn:Es; injection Hacq as <- <-.
  - rename a0 into a. destruct (Hla _ _ Es) as [l Hl]. split; cbn.
    + intros b Hb. rewrite lookup_alter_None. auto.
    + intros sid' b Hb. rewrite lookup_alter_is_Some. eauto.
    + done.
    + intros j sid' pc0 b [[<- [= <- <-]]|[Hne Hj]]%lookup_insert_Some Hpc; [|eauto].
      injection Hpc as <-. done.
    + intros b lb Hb. destruct (decide (a = b)) as [<-|Hne].
      * rewrite lookup_alter_eq, Hl in Hb. injection Hb as <-. destruct (Hus a l Hl) as (H & Hsz & HH).
        exists ({[i]} ∪ H). split.
        -- rewrite size_union_alt. assert (H ∖ {[i]} = H) as ->.
           { assert (i ∉ H); [|set_solver]. rewrite HH, Hi. by intros (th & [= <-] & ?). }
           by rewrite size_singleton, Hsz.
        -- intros j. rewrite Hself, <- HH. set_solver.
      * rewrite lookup_alter_ne in Hb by done. destruct (Hus b lb Hb) as (H & Hsz & HH). exists H.
        split; [done|]. intros j. rewrite Hother by done. apply HH.
  - pose proof (Hf (lm_next M) ltac:(lia)) as Hnone.
    assert (∀ j th, ths !! j = Some th → lane_of (lt_pc th) ≠ Some (lm_next M)) as Hno.
    { intros j [sid' pc0] Hj Hpc. destruct (Hla sid' (lm_next M)) as [l Hl]; [by eapply Hth|]. congruence. }
    split; cbn.
    + intros b Hb. rewrite lookup_insert_ne; [apply Hf|]; lia.
    + intros sid' b [[_ <-]|[_ Hb]]%lookup_insert_Some; rewrite lookup_insert_is_Some; [by left|].
      destruct (decide (lm_next M = b)); eauto.
    + assert (∀ sid', lm_lanes M !! sid' ≠ Some (lm_next M)) as Hno'.
      { intros sid' Hb. destruct (Hla _ _ Hb) as [l Hl]. congruence. }
      intros s1 s2 b [[<- <-]|[? H1]]%lookup_insert_Some [[<- E]|[? H2]]%lookup_insert_Some; try done;
        [by apply Hno' in H2|subst b; by apply Hno' in H1|by eapply Hinj].
    + intros j sid' pc0 b [[<- [= <- <-]]|[Hne Hj]]%lookup_insert_Some Hpc.
      * injection Hpc as <-. apply lookup_insert_eq.
      * rewrite lookup_insert_ne; [eauto|]. intros <-. rewrite (Hth _ _ _ _ Hj Hpc) in Es. done.
    + intros b lb [[<- <-]|[Hne Hb]]%lookup_insert_Some.
      * exists {[i]}. rewrite size_singleton. split; [done|]. intros j. rewrite Hself.
        split; [set_solver|]. intros [->|(th & Hj & E)]; [set_solver|]. by destruct (Hno j th Hj).
      * destruct (Hus b lb Hb) as (H & Hsz & HH). exists H. split; [done|]. intros j.
        rewrite Hother by done. apply HH.
Qed.

Lemma users_release M ths i sid a ok :
  ths !! i = Some (mkLThread sid (LLeave a ok)) →
  users_inv M ths → users_inv (release_lane sid a M) (goto i sid (LDone ok) ths).
Proof.
  intros Hi [Hf Hla Hinj Hth Hus]. unfold release_lane, goto.
  pose proof (Hth _ _ _ _ Hi eq_refl) as Hsid. destruct (Hla _ _ Hsid) as [l Hl]. rewrite Hl.
  destruct (Hus a l Hl) as (H & Hsz & HH).
  assert (i ∈ H) as HiH by (apply HH; rewrite Hi; eauto).
  assert (size (H ∖ {[i]}) = Nat.pred (ln_users l)) as Hsz'.
  { rewrite <- Hsz, size_difference by set_solver. rewrite size_singleton. lia. }
  assert (∀ b j, (∃ th, <[i:=mkLThread sid (LDone ok)]> ths !! j = Some th ∧ lane_of (lt_pc th) = Some b)
                 ↔ j ≠ i ∧ ∃ th, ths !! j = Some th ∧ lane_of (lt_pc th) = Some b) as Hthr.
  { intros b j. destruct (decide (i = j)) as [<-|]; [|rewrite lookup_insert_ne by done; naive_solver].
    rewrite lookup_insert_eq. split; [|by intros []]. intros (th & [= <-] & ?). done. }
  assert (users_inv (lane_alter (fun l0 => l0 <| ln_users := Nat.pred (ln_users l) |>) a M)
            (<[i:=mkLThread sid (LDone ok)]> ths)) as HI.
  { split; cbn.
    - intros b Hb. rewrite lookup_alter_None. auto.
    - intros sid' b Hb. rewrite lookup_alter_is_Some. eauto.
    - done.
    - intros j sid' pc0 b [[<- [= <- <-]]|[Hne Hj]]%lookup_insert_Some Hpc; [done|eauto].
    - intros b lb Hb. setoid_rewrite Hthr. destruct (decide (a = b)) as [<-|Hne].
      + rewrite lookup_alter_eq, Hl in Hb. injection Hb as <-. exists (H ∖ {[i]}). split; [done|].
        intros j. rewrite <- HH. set_solver.
      + rewrite lookup_alter_ne in Hb by done. destruct (Hus b lb Hb) as (H' & Hs' & HH').
        exists H'. split; [done|]. intros j. rewrite HH'. split; [|naive_solver].
        intros Hx. split; [|done]. intros ->. rewrite Hi in Hx. destruct Hx as (th & [= <-] & E). cbn in E. congruence. }
  destruct (_ && _) eqn:Hz; [|exact HI]. apply andb_true_iff in Hz as [Hz%Nat.eqb_eq _].
  assert (∀ j th, <[i:=mkLThread sid (LDone ok)]> ths !! j = Some th → lane_of (lt_pc th) ≠ Some a) as Hno.
  { intros j th Hj E. assert (j ∈ H ∖ {[i]}) as Hin.
    { apply elem_of_difference. rewrite HH. assert (j ≠ i ∧ ∃ th, ths !! j = Some th ∧ lane_of (lt_pc th) = Some a)
        as [? ?] by (apply Hthr; eauto). set_solver. }
    rewrite Hz in Hsz'. apply size_empty_inv in Hsz'. set_solver. }
  destruct HI as [Hf' Hla' Hinj' Hth' Hus']. split; cbn in *; try done.
  - intros sid' b [_ Hb]%lookup_delete_Some. eauto.
  - intros s1 s2 b [_ H1]%lookup_delete_Some [_ H2]%lookup_delete_Some. eauto.
  - intros j sid' pc0 b Hj Hpc. rewrite lookup_delete_ne; [by eauto|]. intros <-.
    pose proof (Hth' _ _ _ _ Hj Hpc) as E. rewrite Hsid in E. injection E as <-. by apply (Hno _ _ Hj).
Qed.

Lemma users_step s s' : lane_step s s' → users_inv (ls_map s) (ls_threads s) → users_inv (ls_map s') (ls_threads s').
Proof.
  intros Hstep HI. destruct Hstep as [M ths D q e i sid Hi|M ths D q e i sid M' a Hi Ha
    |M ths D q e i sid a l l' Hi Hl Hx|M ths D q e i sid a l l' Hi Hl Hx|M ths D q e i sid a l l' Hi Hl Hx
    |M ths D q e i sid a l l' r Hi Hl Hx|M ths D q e i sid a l l' Hi Hl Hx|M ths D q e i sid a l l' r Hi Hl Hx
    |M ths D q e i sid a l r Hi Hl|M ths D q e i sid a r Hi|M ths D q e i sid a Hi HD|M ths D q e i sid a ok Hi];
    cbn [ls_map ls_threads] in *.
  - by apply users_spawn.
  - by eapply users_acquire.
  - eapply users_move; try done. unfold lane_enter in Hx. by repeat case_match; simplify_eq.
  - eapply users_move; try done. unfold lane_enter in Hx. by repeat case_match; simplify_eq.
  - eapply users_move; try done. unfold lane_enter in Hx. by repeat case_match; simplify_eq.
  - eapply users_move; try done. unfold lane_next in Hx. by repeat case_match; simplify_eq.
  - eapply users_move; try done. unfold lane_next in Hx. by repeat case_match; simplify_eq.
  - eapply users_move; try done. unfold lane_begin_callback in Hx. by repeat case_match; simplify_eq.
  - eapply users_move; try done.
  - destruct (ui_lane _ _ HI sid a) as [l Hl]; [by eapply ui_thread|].
    replace M with (lane_put a l M); [by eapply users_move|]. destruct M. unfold lane_put. cbn in *. by rewrite insert_id.
  - destruct (ui_lane _ _ HI sid a) as [l Hl]; [by eapply ui_thread|].
    replace M with (lane_put a l M); [by eapply users_move|]. destruct M. unfold lane_put. cbn in *. by rewrite insert_id.
  - by apply users_release.
Qed.

(** ** What happens on a lane *)

Definition answerable (pc : lane_pc) : bool :=
  match pc with
  | LWait _ | LLoop _ | LExec _ _ | LCallback _ _ | LLeave _ true | LDone true => true
  | _ => false
  end.

Record lane_inv (M : laneMap) (ths : gmap nat lane_thread) (D : gset nat) : Prop := {
  li_runner : ∀ a l, lm_heap M !! a = Some l → ln_running l = true →
    ∃ i th, ths !! i = Some th ∧ runs (lt_pc th) = Some a;
  li_running : ∀ i th a l, ths !! i = Some th → runs (lt_pc th) = Some a → lm_heap M !! a = Some l →
    ln_running l = true;
  li_unique : ∀ i j th th' a, ths !! i = Some th → ths !! j = Some th' →
    runs (lt_pc th) = Some a → runs (lt_pc th') = Some a → i = j;
  li_queued : ∀ a l r, lm_heap M !! a = Some l → r ∈ ln_queue l →
    r ∉ D ∧ ∃ th, ths !! r = Some th ∧ submitted (lt_pc th) = Some a;
  li_nodup : ∀ a l, lm_heap M !! a = Some l → NoDup (ln_queue l);
  li_busy : ∀ a l, lm_heap M !! a = Some l → ln_queue l ≠ [] → ln_running l = true;
  li_wait : ∀ i th a l, ths !! i = Some th → submitted (lt_pc th) = Some a → lm_heap M !! a = Some l →
    i ∈ D ∨ i ∈ ln_queue l ∨ ∃ j th', ths !! j = Some th' ∧ executes (lt_pc th') = Some (a, i);
  li_exec : ∀ j th a r l, ths !! j = Some th → executes (lt_pc th) = Some (a, r) → lm_heap M !! a = Some l →
    r ∉ D ∧ r ∉ ln_queue l ∧ ∃ th', ths !! r = Some th' ∧ submitted (lt_pc th') = Some a;
  li_done : ∀ i, i ∈ D → ∃ th, ths !! i = Some th ∧ answerable (lt_pc th) = true
}.

Definition passive (pc : lane_pc) : Prop := runs pc = None ∧ submitted pc = None ∧ executes pc = None.

(** The part of a lane that the runner and its queue depend on. *)
Definition same_work (l l' : streamLane) : Prop :=
  ln_running l' = ln_running l ∧ ln_queue l' = ln_queue l.

Lemma goto_Some i sid pc ths j th :
  goto i sid pc ths !! j = Some th ↔ j = i ∧ th = mkLThread sid pc ∨ j ≠ i ∧ ths !! j = Some th.
Proof. unfold goto. rewrite lookup_insert_Some. naive_solver. Qed.

(** A passive goroutine moves to another passive point. *)
Lemma lane_passive M M' ths D i sid pc' :
  (∀ th, ths !! i = Some th → passive (lt_pc th) ∧ (answerable (lt_pc th) = true → answerable pc' = true)) →
  passive pc' →
  (∀ j th a, ths !! j = Some th → lane_of (lt_pc th) = Some a → is_Some (lm_heap M !! a)) →
  (∀ a l', lm_heap M' !! a = Some l' →
     (∃ l, lm_heap M !! a = Some l ∧ same_work l l')
     ∨ lm_heap M !! a = None ∧ ln_running l' = false ∧ ln_queue l' = []) →
  lane_inv M ths D → lane_inv M' (goto i sid pc' ths) D.
Proof.
  intros Hi (Hr' & Hs' & He') Hlane HM [H1 H2 H3 H4 H5 H6 H7 H8 H9].
  assert (∀ j th, ths !! j = Some th → ¬ passive (lt_pc th) → goto i sid pc' ths !! j = Some th) as Hkeep.
  { intros j th Hj Hp. apply goto_Some. right. split; [|done]. intros ->. by destruct (Hi th Hj). }
  assert (∀ j th a, ths !! j = Some th → lane_of (lt_pc th) = Some a → lm_heap M !! a = None → False) as Habs.
  { intros j th a Hj Ha Hn. destruct (Hlane j th a Hj Ha). congruence. }
  assert (∀ pc a, runs pc = Some a → lane_of pc = Some a ∧ ¬ passive pc) as Hrl.
  { intros []; cbn; unfold passive; naive_solver. }
  assert (∀ pc a, submitted pc = Some a → lane_of pc = Some a ∧ ¬ passive pc) as Hsl.
  { intros []; cbn; unfold passive; naive_solver. }
  assert (∀ pc a r, executes pc = Some (a, r) → lane_of pc = Some a ∧ ¬ passive pc) as Hel.
  { intros []; cbn; unfold passive; naive_solver. }
  split.
  - intros a l' Hl Hrun. destruct (HM a l' Hl) as [(l & Hl0 & E1 & E2)|(_ & E & _)]; [|congruence].
    destruct (H1 a l Hl0) as (j & th & Hj & Hpc); [congruence|]. destruct (Hrl _ _ Hpc). eauto.
  - intros j th a l' Hj Hpc Hl. apply goto_Some in Hj as [[-> ->]|[_ Hj]]; [cbn in *; congruence|].
    destruct (HM a l' Hl) as [(l & Hl0 & E1 & E2)|(Hn & _)]; [rewrite E1; eauto|].
    destruct (Hrl _ _ Hpc). exfalso. eauto.
  - intros j1 j2 th th' a [[-> ->]|[_ Hj1]]%goto_Some [[-> ->]|[_ Hj2]]%goto_Some; cbn; [congruence..|eauto].
  - intros a l' r Hl Hin. destruct (HM a l' Hl) as [(l & Hl0 & E1 & E2)|(_ & _ & E)].
    + rewrite E2 in Hin. destruct (H4 a l r Hl0 Hin) as (? & th & Hr & Hpc). split; [done|].
      destruct (Hsl _ _ Hpc). eauto.
    + rewrite E in Hin. by apply elem_of_nil in Hin.
  - intros a l' Hl. destruct (HM a l' Hl) as [(l & Hl0 & E1 & ->)|(_ & _ & ->)]; [eauto|constructor].
  - intros a l' Hl Hq. destruct (HM a l' Hl) as [(l & Hl0 & E1 & E2)|(_ & _ & E)]; [|done].
    rewrite E1. rewrite E2 in Hq. eauto.
  - intros j th a l' Hj Hpc Hl. apply goto_Some in Hj as [[-> ->]|[_ Hj]]; [cbn in *; congruence|].
    destruct (HM a l' Hl) as [(l & Hl0 & E1 & E2)|(Hn & _)].
    + rewrite E2. destruct (H7 j th a l Hj Hpc Hl0) as [?|[?|(k & th' & Hk & Hex)]]; [auto..|].
      right. right. destruct (Hel _ _ _ Hex). eauto.
    + destruct (Hsl _ _ Hpc). exfalso. eauto.
  - intros j th a r l' Hj Hpc Hl. apply goto_Some in Hj as [[-> ->]|[_ Hj]]; [cbn in *; congruence|].
    destruct (HM a l' Hl) as [(l & Hl0 & E1 & E2)|(Hn & _)].
    + rewrite E2. destruct (H8 j th a r l Hj Hpc Hl0) as (? & ? & th' & Hr & Hsub). split_and!; [done..|].
      destruct (Hsl _ _ Hsub). eauto.
    + destruct (Hel _ _ _ Hpc). exfalso. eauto.
  - intros j Hj. destruct (H9 j Hj) as (th & Hth & Ha). destruct (decide (j = i)) as [->|].
    + exists (mkLThread sid pc'). split; [apply goto_Some; by left|]. by destruct (Hi th Hth) as [_ ?]; auto.
    + exists th. split; [apply goto_Some; by right|done].
Qed.

Lemma put_Some a l M b lb :
  lm_heap (lane_put a l M) !! b = Some lb ↔ b = a ∧ lb = l ∨ b ≠ a ∧ lm_heap M !! b = Some lb.
Proof. cbn. rewrite lookup_insert_Some. naive_solver. Qed.

(** Split the goroutines and lanes of the goal into the one that moved and
    the others. *)
Ltac split_moves :=
  repeat match goal with
  | H : goto _ _ _ _ !! _ = Some _ |- _ => apply goto_Some in H as [[? ?]|[? H]]; subst; cbn [lt_pc lt_session] in *
  | H : lm_heap (lane_put _ _ _) !! _ = Some _ |- _ => apply put_Some in H as [[? ?]|[? H]]; subst; cbn [lt_pc lt_session] in *
  | H : Some _ = Some _ |- _ => injection H as H; subst
  | H : None = Some _ |- _ => discriminate H
  end.

(** What a move keeps of the goroutine that moves, it keeps of all. *)
Lemma goto_keeps {A} (f : lane_pc → A) ths i sid pc pc' :
  ths !! i = Some (mkLThread sid pc) → f pc' = f pc →
  (∀ j th, ths !! j = Some th → ∃ th', goto i sid pc' ths !! j = Some th' ∧ f (lt_pc th') = f (lt_pc th))
  ∧ ∀ j th, goto i sid pc' ths !! j = Some th → ∃ th', ths !! j = Some th' ∧ f (lt_pc th) = f (lt_pc th').
Proof.
  intros Hi Hf. split; intros j th Hj.
  - destruct (decide (j = i)) as [->|].
    + rewrite Hi in Hj. injection Hj as <-. exists (mkLThread sid pc'). split; [apply goto_Some; by left|done].
    + exists th. split; [apply goto_Some; by right|done].
  - split_moves; eauto.
Qed.
Definition roles (pc : lane_pc) := (runs pc, submitted pc, answerable pc).
Definition duties (pc : lane_pc) := (submitted pc, executes pc, answerable pc).

(** A goroutine in the same role, on a lane with the same work. *)
Lemma lane_same M ths D i sid pc pc' a l l' :
  ths !! i = Some (mkLThread sid pc) → runs pc' = runs pc → submitted pc' = submitted pc →
  executes pc' = executes pc → answerable pc' = answerable pc →
  lm_heap M !! a = Some l → same_work l l' →
  lane_inv M ths D → lane_inv (lane_put a l' M) (goto i sid pc' ths) D.
Proof.
  intros Hi Er Es Ee Ea Hl [Ew Eq] [H1 H2 H3 H4 H5 H6 H7 H8 H9].
  destruct (goto_keeps (fun pc => (runs pc, submitted pc, executes pc, answerable pc)) ths i sid pc pc' Hi)
    as [Hfwd Hbwd]; [congruence|].
  assert (∀ b lb, lm_heap (lane_put a l' M) !! b = Some lb → ∃ lb0, lm_heap M !! b = Some lb0 ∧ same_work lb0 lb) as HM.
  { intros b lb Hb. split_moves; unfold same_work; eauto. }
  split.
  - intros b lb (l0 & Hl0 & E1 & E2)%HM Hrun. rewrite E1 in Hrun. destruct (H1 _ _ Hl0 Hrun) as (j & th & Hj & Hpc).
    destruct (Hfwd j th Hj) as (th' & ? & [= ? _ _ _]). exists j, th'. split; congruence.
  - intros j th b lb (th' & Hj & [= E _ _ _])%Hbwd Hpc (l0 & Hl0 & -> & _)%HM. eapply H2; eauto; congruence.
  - intros j1 j2 th1 th2 b (th1' & Hj1 & [= E1 _ _ _])%Hbwd (th2' & Hj2 & [= E2 _ _ _])%Hbwd. rewrite E1, E2. eauto.
  - intros b lb r (l0 & Hl0 & _ & ->)%HM Hin. destruct (H4 _ _ _ Hl0 Hin) as (? & th & Hr & Hs).
    split; [done|]. destruct (Hfwd r th Hr) as (th' & ? & [= _ ? _ _]). exists th'. split; congruence.
  - intros b lb (l0 & Hl0 & _ & ->)%HM. eauto.
  - intros b lb (l0 & Hl0 & -> & ->)%HM. eauto.
  - intros j th b lb (th' & Hj & [= _ E _ _])%Hbwd Hpc (l0 & Hl0 & _ & ->)%HM. rewrite E in Hpc.
    destruct (H7 _ _ _ _ Hj Hpc Hl0) as [?|[?|(k & th0 & Hk & Hex)]]; [auto..|].
    right. right. destruct (Hfwd k th0 Hk) as (th1 & ? & [= _ _ ? _]). exists k, th1. split; congruence.
  - intros j th b r lb (th' & Hj & [= _ _ E _])%Hbwd Hpc (l0 & Hl0 & _ & ->)%HM. rewrite E in Hpc.
    destruct (H8 _ _ _ _ _ Hj Hpc Hl0) as (? & ? & th0 & Hr & Hs). split_and!; [done..|].
    destruct (Hfwd r th0 Hr) as (th1 & ? & [= _ ? _ _]). exists th1. split; congruence.
  - intros j Hj. destruct (H9 j Hj) as (th & Hth & Ha). destruct (Hfwd j th Hth) as (th' & ? & [= _ _ _ ?]).
    exists th'. split; congruence.
Qed.

(** A goroutine submits its request. *)
Lemma lane_submit M ths D i sid a l l' pc' :
  ths !! i = Some (mkLThread sid (LRun a)) → lm_heap M !! a = Some l →
  ln_queue l' = ln_queue l ++ [i] → ln_running l' = true →
  (pc' = LWait a ∧ ln_running l = true ∨ pc' = LLoop a ∧ ln_running l = false) →
  lane_inv M ths D → lane_inv (lane_put a l' M) (goto i sid pc' ths) D.
Proof.
  intros Hi Hl Eq Er Hpc [H1 H2 H3 H4 H5 H6 H7 H8 H9].
  assert (i ∉ D) as HiD. { intros (th & Hth & Ha)%H9. rewrite Hi in Hth. by injection Hth as <-. }
  assert (submitted pc' = Some a ∧ executes pc' = None ∧ answerable pc' = true) as (Es & Ee & Ea) by naive_solver.
  assert (∀ j th, ths !! j = Some th → (submitted (lt_pc th) ≠ None ∨ runs (lt_pc th) ≠ None) →
            goto i sid pc' ths !! j = Some th) as Hkeep.
  { intros j th Hj Hp. apply goto_Some. right. split; [|done]. intros ->. rewrite Hi in Hj. injection Hj as <-.
    by destruct Hp. }
  assert (∀ b lb, lm_heap M !! b = Some lb → i ∉ ln_queue lb) as Hnq.
  { intros b lb Hb Hin. destruct (H4 _ _ _ Hb Hin) as (_ & th & Hth & E). rewrite Hi in Hth. by injection Hth as <-. }
  assert (∀ pc b r, executes pc = Some (b, r) → runs pc = Some b) as Hexr by (intros [] ? ?; cbn; congruence).
  split.
  - intros b lb Hb Hrun. split_moves.
    + destruct Hpc as [[-> Hr]|[-> _]].
      * destruct (H1 _ _ Hl Hr) as (j & th & Hj & E). exists j, th. split; [apply Hkeep; [done|right; by rewrite E]|done].
      * exists i, (mkLThread sid (LLoop a)). split; [apply goto_Some; by left|done].
    + destruct (H1 _ _ Hb Hrun) as (j & th & Hj & E). exists j, th. split; [apply Hkeep; [done|right; by rewrite E]|done].
  - intros j th b lb Hj E Hb. split_moves; eauto. destruct Hpc as [[-> _]|[-> _]]; cbn in E; congruence.
  - intros j1 j2 th1 th2 b Hj1 Hj2 E1 E2. split_moves; eauto.
    + destruct Hpc as [[-> _]|[-> Hr]]; [done|]. assert (b = a) as -> by (cbn in E2; congruence). rewrite (H2 _ _ _ _ Hj1 E1 Hl) in Hr. done.
    + destruct Hpc as [[-> _]|[-> Hr]]; [done|]. assert (b = a) as -> by (cbn in E1; congruence). rewrite (H2 _ _ _ _ Hj2 E2 Hl) in Hr. done.
  - intros b lb r Hb Hin. split_moves.
    + rewrite Eq in Hin. apply elem_of_app in Hin as [Hin|Hin%list_elem_of_singleton]; [|subst r].
      * destruct (H4 _ _ _ Hl Hin) as (? & th & Hr & E). split; [done|]. exists th.
        split; [apply Hkeep; [done|left; by rewrite E]|done].
      * split; [done|]. exists (mkLThread sid pc'). split; [apply goto_Some; by left|done].
    + destruct (H4 _ _ _ Hb Hin) as (? & th & Hr & E). split; [done|]. exists th.
      split; [apply Hkeep; [done|left; by rewrite E]|done].
  - intros b lb Hb. split_moves; [|eauto]. rewrite Eq. apply NoDup_app. split_and!; [eauto| |apply NoDup_singleton].
    intros x Hx Hxi%list_elem_of_singleton. subst x. by eapply Hnq.
  - intros b lb Hb Hq. split_moves; eauto.
  - intros j th b lb Hj E Hb. assert (j = i ∨ j ≠ i ∧ ths !! j = Some th) as [->|[Hne Hj']]
      by (apply goto_Some in Hj; naive_solver).
    + assert (b = a) as -> by (split_moves; congruence). right. left.
      apply put_Some in Hb as [[_ ->]|[? _]]; [|done]. rewrite Eq. set_solver.
    + assert (∃ lb0, lm_heap M !! b = Some lb0 ∧ ∀ x, x ∈ ln_queue lb0 → x ∈ ln_queue lb) as (lb0 & Hb0 & Hsub).
      { clear Hj. split_moves; [exists l; rewrite Eq; set_solver|eauto]. }
      destruct (H7 _ _ _ _ Hj' E Hb0) as [?|[?|(k & th' & Hk & Hex)]]; [auto..|]. right. right. exists k, th'.
      split; [apply Hkeep; [done|right; by rewrite (Hexr _ _ _ Hex)]|done].
  - intros j th b r lb Hj E Hb. assert (j ≠ i ∧ ths !! j = Some th) as [Hne Hj']
      by (clear Hb; split_moves; [congruence|done]).
    assert (∃ lb0, lm_heap M !! b = Some lb0 ∧ (∀ x, x ∈ ln_queue lb → x ∈ ln_queue lb0 ∨ x = i)) as (lb0 & Hb0 & Hsub).
    { clear Hj. split_moves; [exists l; rewrite Eq; set_solver|eauto]. }
    destruct (H8 _ _ _ _ _ Hj' E Hb0) as (? & Hnin & th' & Hr & Hs). split_and!; [done| |].
    + intros Hin. destruct (Hsub r Hin) as [?| ->]; [done|]. rewrite Hi in Hr. by injection Hr as <-.
    + exists th'. split; [apply Hkeep; [done|left; by rewrite Hs]|done].
  - intros j Hj. destruct (H9 j Hj) as (th & Hth & Ha). exists th. split; [|done]. apply goto_Some. right.
    split; [|done]. by intros ->.
Qed.

(** The runner takes the next request. *)
Lemma lane_take M ths D i sid a l l' r rest :
  ths !! i = Some (mkLThread sid (LLoop a)) → lm_heap M !! a = Some l →
  ln_queue l = r :: rest → ln_queue l' = rest → ln_running l' = ln_running l →
  lane_inv M ths D → lane_inv (lane_put a l' M) (goto i sid (LExec a r) ths) D.
Proof.
  intros Hi Hl Eq Eq' Er [H1 H2 H3 H4 H5 H6 H7 H8 H9].
  destruct (goto_keeps roles ths i sid _ (LExec a r) Hi eq_refl) as [Hfwd Hbwd].
  assert (∀ b lb, lm_heap (lane_put a l' M) !! b = Some lb →
            ∃ lb0, lm_heap M !! b = Some lb0 ∧ ln_running lb = ln_running lb0
                   ∧ (ln_queue lb0 = ln_queue lb ∨ b = a ∧ ln_queue lb0 = r :: ln_queue lb)) as HM.
  { intros b lb Hb. split_moves; [exists l|exists lb]; [rewrite Eq|]; auto. }
  assert (∀ b lb x, lm_heap (lane_put a l' M) !! b = Some lb → x ∈ ln_queue lb →
            ∃ lb0, lm_heap M !! b = Some lb0 ∧ x ∈ ln_queue lb0) as Hsub.
  { intros b lb x Hb Hx. destruct (HM b lb Hb) as (lb0 & ? & _ & [E|[_ E]]); exists lb0; rewrite E; set_solver. }
  split.
  - intros b lb (lb0 & Hb & E & _)%HM Hrun. rewrite E in Hrun. destruct (H1 _ _ Hb Hrun) as (j & th & Hj & Hpc).
    destruct (Hfwd j th Hj) as (th' & ? & [= ? _ _]). exists j, th'. split; congruence.
  - intros j th b lb (th' & Hj & [= E _ _])%Hbwd Hpc (lb0 & Hb & -> & _)%HM. eapply H2; eauto; congruence.
  - intros j1 j2 th1 th2 b (th1' & Hj1 & [= E1 _ _])%Hbwd (th2' & Hj2 & [= E2 _ _])%Hbwd. rewrite E1, E2. eauto.
  - intros b lb x Hb Hin. destruct (Hsub _ _ _ Hb Hin) as (lb0 & Hb0 & Hin0).
    destruct (H4 _ _ _ Hb0 Hin0) as (? & th & Hx & Hs). split; [done|].
    destruct (Hfwd x th Hx) as (th' & ? & [= _ ? _]). exists th'. split; congruence.
  - intros b lb (lb0 & Hb & _ & [E|[_ E]])%HM; pose proof (H5 _ _ Hb) as Hnd; rewrite E in Hnd; [done|].
    by apply NoDup_cons in Hnd as [_ ?].
  - intros b lb (lb0 & Hb & -> & Hq)%HM Hne. apply (H6 _ _ Hb). destruct Hq as [->|[_ ->]]; done.
  - intros j th b lb (th' & Hj & [= _ E _])%Hbwd Hpc Hb. rewrite E in Hpc. destruct (HM b lb Hb) as (lb0 & Hb0 & _ & Hq).
    destruct (H7 _ _ _ _ Hj Hpc Hb0) as [?|[Hin|(k & th0 & Hk & Hex)]]; [by left| |].
    + destruct Hq as [<-|[-> Hq]]; [auto|]. rewrite Hq in Hin. apply elem_of_cons in Hin as [->|?]; [|auto].
      right. right. exists i, (mkLThread sid (LExec a r)). split; [apply goto_Some; by left|done].
    + right. right. exists k, th0. split; [|done]. apply goto_Some. right. split; [|done].
      intros ->. rewrite Hi in Hk. by injection Hk as <-.
  - intros j th b x lb Hj Hex Hb.
    assert (r ∉ D ∧ (∃ th', ths !! r = Some th' ∧ submitted (lt_pc th') = Some a)) as (HrD & th0 & Hr & Hs).
    { apply (H4 a l r Hl). rewrite Eq. by left. }
    apply goto_Some in Hj as [[-> ->]|[Hne Hj]]; cbn in Hex.
    + injection Hex as <- <-. apply put_Some in Hb as [[_ ->]|[? _]]; [|done].
      split_and!; [done| |].
      * pose proof (H5 _ _ Hl) as Hnd. rewrite Eq in Hnd. rewrite Eq'. by apply NoDup_cons in Hnd as [? _].
      * destruct (Hfwd r th0 Hr) as (th' & ? & [= _ ? _]). exists th'. split; congruence.
    + destruct (HM b lb Hb) as (lb0 & Hb0 & _ & _). destruct (H8 _ _ _ _ _ Hj Hex Hb0) as (? & Hnin & th1 & Hx & Hs1).
      split_and!; [done| |].
      * intros Hin. destruct (Hsub _ _ _ Hb Hin) as (lb1 & Hb1 & Hin1). rewrite Hb0 in Hb1. by injection Hb1 as <-.
      * destruct (Hfwd x th1 Hx) as (th' & ? & [= _ ? _]). exists th'. split; congruence.
  - intros j Hj. destruct (H9 j Hj) as (th & Hth & Ha). destruct (Hfwd j th Hth) as (th' & ? & [= _ _ ?]).
    exists th'. split; congruence.
Qed.

(** The runner finds the queue empty and stops running the lane. *)
Lemma lane_idle M ths D i sid a l l' :
  ths !! i = Some (mkLThread sid (LLoop a)) → lm_heap M !! a = Some l →
  ln_queue l = [] → ln_queue l' = [] → ln_running l' = false →
  lane_inv M ths D → lane_inv (lane_put a l' M) (goto i sid (LWait a) ths) D.
Proof.
  intros Hi Hl Eq Eq' Er [H1 H2 H3 H4 H5 H6 H7 H8 H9].
  destruct (goto_keeps duties ths i sid _ (LWait a) Hi eq_refl) as [Hfwd Hbwd].
  assert (∀ b lb, lm_heap (lane_put a l' M) !! b = Some lb →
            ∃ lb0, lm_heap M !! b = Some lb0 ∧ ln_queue lb = ln_queue lb0) as HM.
  { intros b lb Hb. split_moves; [exists l|exists lb]; [rewrite Eq|]; auto. }
  split.
  - intros b lb Hb Hrun. split_moves; [congruence|]. destruct (H1 _ _ Hb Hrun) as (j & th & Hj & Hpc).
    exists j, th. split; [|done]. apply goto_Some. right. split; [|done]. intros ->. rewrite Hi in Hj.
    injection Hj as <-. cbn in Hpc. congruence.
  - intros j th b lb [[-> ->]|[Hne Hj]]%goto_Some Hpc Hb; [done|].
    apply put_Some in Hb as [[-> ->]|[_ Hb]]; [|eauto]. exfalso. apply Hne. by eapply (H3 j i).
  - intros j1 j2 th1 th2 b Hj1 Hj2 E1 E2. split_moves; done || eauto.
  - intros b lb x (lb0 & Hb & ->)%HM Hin. destruct (H4 _ _ _ Hb Hin) as (? & th & Hx & Hs). split; [done|].
    destruct (Hfwd x th Hx) as (th' & ? & [= ? _ _]). exists th'. split; congruence.
  - intros b lb (lb0 & Hb & ->)%HM. eauto.
  - intros b lb Hb Hne. split_moves; [congruence|eauto].
  - intros j th b lb (th' & Hj & [= E _ _])%Hbwd Hpc (lb0 & Hb & ->)%HM. rewrite E in Hpc.
    destruct (H7 _ _ _ _ Hj Hpc Hb) as [?|[?|(k & th0 & Hk & Hex)]]; [auto..|]. right. right.
    destruct (Hfwd k th0 Hk) as (th1 & ? & [= _ ? _]). exists k, th1. split; congruence.
  - intros j th b x lb (th' & Hj & [= _ E _])%Hbwd Hex (lb0 & Hb & ->)%HM. rewrite E in Hex.
    destruct (H8 _ _ _ _ _ Hj Hex Hb) as (? & ? & th1 & Hx & Hs1). split_and!; [done..|].
    destruct (Hfwd x th1 Hx) as (th2 & ? & [= ? _ _]). exists th2. split; congruence.
  - intros j Hj. destruct (H9 j Hj) as (th & Hth & Ha). destruct (Hfwd j th Hth) as (th' & ? & [= _ _ ?]).
    exists th'. split; congruence.
Qed.

(** The runner has executed a request. *)
Lemma lane_finish M ths D i sid a r :
  ths !! i = Some (mkLThread sid (LExec a r)) → is_Some (lm_heap M !! a) →
  lane_inv M ths D → lane_inv M (goto i sid (LLoop a) ths) ({[r]} ∪ D).
Proof.
  intros Hi [l Hl] [H1 H2 H3 H4 H5 H6 H7 H8 H9].
  destruct (goto_keeps roles ths i sid _ (LLoop a) Hi eq_refl) as [Hfwd Hbwd].
  destruct (H8 _ _ _ _ _ Hi eq_refl Hl) as (HrD & Hrq & thr & Hr & Hsr).
  assert (∀ pc b x, executes pc = Some (b, x) → runs pc = Some b) as Hexr by (intros [] ? ?; cbn; congruence).
  assert (∀ j th b x, goto i sid (LLoop a) ths !! j = Some th → executes (lt_pc th) = Some (b, x) →
            j ≠ i ∧ ths !! j = Some th ∧ b ≠ a) as Hother.
  { intros j th b x [[-> ->]|[Hne Hj]]%goto_Some Hex; [done|]. split_and!; [done..|]. intros ->.
    apply Hne. by eapply (H3 j i); [..|apply (Hexr _ _ _ Hex)|]. }
  split.
  - intros b lb Hb Hrun. destruct (H1 _ _ Hb Hrun) as (j & th & Hj & Hpc).
    destruct (Hfwd j th Hj) as (th' & ? & [= ? _ _]). exists j, th'. split; congruence.
  - intros j th b lb (th' & Hj & [= E _ _])%Hbwd Hpc Hb. eapply H2; eauto; congruence.
  - intros j1 j2 th1 th2 b (th1' & Hj1 & [= E1 _ _])%Hbwd (th2' & Hj2 & [= E2 _ _])%Hbwd. rewrite E1, E2. eauto.
  - intros b lb x Hb Hin. destruct (H4 _ _ _ Hb Hin) as (? & th & Hx & Hs). split.
    + intros [->%elem_of_singleton|?]%elem_of_union; [|done]. rewrite Hr in Hx. injection Hx as <-.
      assert (b = a) as -> by congruence. congruence.
    + destruct (Hfwd x th Hx) as (th' & ? & [= _ ? _]). exists th'. split; congruence.
  - done.
  - done.
  - intros j th b lb (th' & Hj & [= _ E _])%Hbwd Hpc Hb. rewrite E in Hpc.
    destruct (H7 _ _ _ _ Hj Hpc Hb) as [?|[?|(k & th0 & Hk & Hex)]]; [left; set_solver|auto|].
    destruct (decide (k = i)) as [->|Hne].
    + rewrite Hi in Hk. injection Hk as <-. injection Hex as <- <-. left. set_solver.
    + right. right. exists k, th0. split; [apply goto_Some; by right|done].
  - intros j th b x lb Hj Hex Hb. destruct (Hother _ _ _ _ Hj Hex) as (Hne & Hj' & Hba).
    destruct (H8 _ _ _ _ _ Hj' Hex Hb) as (? & ? & th1 & Hx & Hs1). split_and!; [|done|].
    + intros [->%elem_of_singleton|?]%elem_of_union; [|done]. rewrite Hr in Hx. injection Hx as <-. congruence.
    + destruct (Hfwd x th1 Hx) as (th' & ? & [= _ ? _]). exists th'. split; congruence.
  - intros j [->%elem_of_singleton|Hj]%elem_of_union.
    + destruct (Hfwd r thr Hr) as (th' & ? & [= _ _ E]). exists th'. split; [done|]. rewrite E.
      by destruct (lt_pc thr).
    + destruct (H9 j Hj) as (th & Hth & Ha). destruct (Hfwd j th Hth) as (th' & ? & [= _ _ ?]).
      exists th'. split; congruence.
Qed.

(** A goroutine whose request is answered returns. *)
Lemma lane_return M ths D i sid a :
  ths !! i = Some (mkLThread sid (LWait a)) → i ∈ D →
  lane_inv M ths D → lane_inv M (goto i sid (LLeave a true) ths) D.
Proof.
  intros Hi HiD [H1 H2 H3 H4 H5 H6 H7 H8 H9].
  destruct (goto_keeps (fun pc => (runs pc, executes pc, answerable pc)) ths i sid _ (LLeave a true) Hi eq_refl)
    as [Hfwd Hbwd].
  split.
  - intros b lb Hb Hrun. destruct (H1 _ _ Hb Hrun) as (j & th & Hj & Hpc).
    destruct (Hfwd j th Hj) as (th' & ? & [= ? _ _]). exists j, th'. split; congruence.
  - intros j th b lb (th' & Hj & [= E _ _])%Hbwd Hpc Hb. eapply H2; eauto; congruence.
  - intros j1 j2 th1 th2 b (th1' & Hj1 & [= E1 _ _])%Hbwd (th2' & Hj2 & [= E2 _ _])%Hbwd. rewrite E1, E2. eauto.
  - intros b lb x Hb Hin. destruct (H4 _ _ _ Hb Hin) as (HxD & th & Hx & Hs). split; [done|]. exists th.
    split; [|done]. apply goto_Some. right. split; [|done]. by intros ->.
  - done.
  - done.
  - intros j th b lb Hj Hpc Hb. apply goto_Some in Hj as [[-> ->]|[Hne Hj]]; [done|].
    destruct (H7 _ _ _ _ Hj Hpc Hb) as [?|[?|(k & th0 & Hk & Hex)]]; [auto..|]. right. right.
    destruct (Hfwd k th0 Hk) as (th1 & ? & [= _ ? _]). exists k, th1. split; congruence.
  - intros j th b x lb (th' & Hj & [= _ E _])%Hbwd Hex Hb. rewrite E in Hex.
    destruct (H8 _ _ _ _ _ Hj Hex Hb) as (HxD & ? & th1 & Hx & Hs1). split_and!; [done..|]. exists th1.
    split; [|done]. apply goto_Some. right. split; [|done]. by intros ->.
  - intros j Hj. destruct (H9 j Hj) as (th & Hth & Ha). destruct (Hfwd j th Hth) as (th' & ? & [= _ _ ?]).
    exists th'. split; congruence.
Qed.

(** ** Every step keeps the invariant *)

Definition lanes_inv (s : lane_system) : Prop :=
  users_inv (ls_map s) (ls_threads s) ∧ lane_inv (ls_map s) (ls_threads s) (ls_done s).

Lemma acquire_heap sid M M' a :
  (∀ b, (lm_next M ≤ b)%nat → lm_heap M !! b = None) → acquire_lane sid M = (M', a) →
  ∀ b l', lm_heap M' !! b = Some l' →
    (∃ l, lm_heap M !! b = Some l ∧ same_work l l')
    ∨ lm_heap M !! b = None ∧ ln_running l' = false ∧ ln_queue l' = [].
Proof.
  intros Hf Hacq b l'. unfold acquire_lane in Hacq. destruct (lm_lanes M !! sid) as [a0|]; injection Hacq as <- <-; cbn.
  - intros [(<- & l & Hl & ->)|[Hne Hb]]%lookup_alter_Some; left; [exists l|exists l']; (split; [done|by split]).
  - intros [[<- <-]|[Hne Hb]]%lookup_insert_Some; [right|left; exists l'; split; [done|by split]].
    split; [|done]. apply Hf. lia.
Qed.

Lemma release_heap sid a M b l' :
  lm_heap (release_lane sid a M) !! b = Some l' → ∃ l, lm_heap M !! b = Some l ∧ same_work l l'.
Proof.
  unfold release_lane. destruct (lm_heap M !! a) as [l|] eqn:Hl; [|intros Hb; exists l'; by split].
  assert (∀ l'', alter (fun l0 => l0 <| ln_users := Nat.pred (ln_users l) |>) a (lm_heap M) !! b = Some l'' →
            ∃ l0, lm_heap M !! b = Some l0 ∧ same_work l0 l'') as H.
  { intros l'' [(<- & l0 & Hl0 & ->)|[Hne Hb]]%lookup_alter_Some; [exists l0; split; [done|by split]|].
    exists l''. split; [done|by split]. }
  destruct (_ && _); cbn; apply H.
Qed.

Lemma lanes_inv_step s s' : lane_step s s' → lanes_inv s → lanes_inv s'.
Proof.
  intros Hstep [HU HL]. split; [by eapply users_step|].
  assert (∀ j th a, ls_threads s !! j = Some th → lane_of (lt_pc th) = Some a → is_Some (lm_heap (ls_map s) !! a)) as Hlane.
  { intros j [sid pc] a Hj Hpc. eapply ui_lane; [done|]. by eapply ui_thread. }
  destruct Hstep as [M ths D q e i sid Hi|M ths D q e i sid M' a Hi Ha
    |M ths D q e i sid a l l' Hi Hl Hx|M ths D q e i sid a l l' Hi Hl Hx|M ths D q e i sid a l l' Hi Hl Hx
    |M ths D q e i sid a l l' r Hi Hl Hx|M ths D q e i sid a l l' Hi Hl Hx|M ths D q e i sid a l l' r Hi Hl Hx
    |M ths D q e i sid a l r Hi Hl|M ths D q e i sid a r Hi|M ths D q e i sid a Hi HD|M ths D q e i sid a ok Hi];
    cbn [ls_map ls_threads ls_done] in *.
  - eapply lane_passive; [| |exact Hlane| |exact HL]; [congruence|done|].
    intros b l' Hb. left. exists l'. by split.
  - eapply lane_passive; [| |exact Hlane| |exact HL]; [|done|by eapply acquire_heap; [apply HU|]].
    intros th Hth. rewrite Hi in Hth. by injection Hth as <-.
  - unfold lane_enter in Hx. destruct (ln_callbackActive l); [|by destruct (ln_running _)].
    injection Hx as <-. eapply lane_passive; [| |exact Hlane| |exact HL]; [|done|].
    + intros th Hth. rewrite Hi in Hth. by injection Hth as <-.
    + intros b l' Hb. left. apply put_Some in Hb as [[-> ->]|[_ Hb]]; eauto; [exists l|exists l']; by split.
  - unfold lane_enter in Hx. destruct (ln_callbackActive l); [done|].
    destruct (ln_running _) eqn:Er; [|done]. injection Hx as <-. eapply lane_submit; try done. by left.
  - unfold lane_enter in Hx. destruct (ln_callbackActive l); [done|].
    destruct (ln_running _) eqn:Er; [done|]. injection Hx as <-. eapply lane_submit; try done. by right.
  - unfold lane_next in Hx. destruct (ln_queue l) eqn:Eq; [done|]. injection Hx as <- <-. by eapply lane_take.
  - unfold lane_next in Hx. destruct (ln_queue l) eqn:Eq; [|done]. injection Hx as <-. by eapply lane_idle.
  - unfold lane_begin_callback in Hx. destruct (ln_callbackActive l); [done|]. injection Hx as <-.
    eapply lane_same; try done.
  - eapply lane_same; try done.
  - apply lane_finish; [done| |done]. by eapply Hlane.
  - by apply lane_return.
  - eapply lane_passive; [| |exact Hlane| |exact HL]; [|done|].
    + intros th Hth. rewrite Hi in Hth. by injection Hth as <-.
    + intros b l' Hb. left. by eapply release_heap.
Qed.

Lemma lanes_reachable_inv s : lanes_reachable s → lanes_inv s.
Proof.
  revert s. refine (rtc_ind_r _ _ _ _).
  - split; split; cbn; try done; intros *; rewrite ?lookup_empty; done.
  - intros s s' _ Hstep HI. by eapply lanes_inv_step.
Qed.
