(* ===== verification/LanesOrder.v ===== *)
(** * Stream lanes: exclusion, order and completion

    Over the step relation of Lanes: requests of one Session run one at a
    time, in the order in which they were queued, and every request that was
    queued is run and its caller released. *)

From Stdlib Require Import Ascii String.
From S2P Require Import Prelude Types Lanes LanesProps.
Open Scope list_scope.
Open Scope go_scope.

(** ** The order of execution *)

Definition of_lane (a : nat) (log : list (nat * nat)) : list nat := snd <$> filter (fun e => e.1 = a) log.

#[global] Arguments of_lane : simpl never.

Lemma of_lane_app a log log' : of_lane a (log ++ log') = of_lane a log ++ of_lane a log'.
Proof. unfold of_lane. by rewrite filter_app, fmap_app. Qed.
Lemma of_lane_snoc a b i log : of_lane a (log ++ [(b, i)]) = of_lane a log ++ (if decide (b = a) then [i] else []).
Proof.
  rewrite of_lane_app. f_equal. unfold of_lane. rewrite filter_cons, filter_nil. cbn. by case_decide.
Qed.

Record order_inv (s : lane_system) : Prop := {
  oi_order : ∀ a l, lm_heap (ls_map s) !! a = Some l →
    of_lane a (ls_queued s) = of_lane a (ls_started s) ++ ln_queue l;
  oi_known : ∀ a i, (a, i) ∈ ls_queued s → is_Some (lm_heap (ls_map s) !! a)
    ∧ ∃ th, ls_threads s !! i = Some th ∧ answerable (lt_pc th) = true;
  oi_started : ∀ e, e ∈ ls_started s → e ∈ ls_queued s;
  oi_once : NoDup (ls_queued s).*2
}.

(** A step that queues nothing and starts nothing. *)
Lemma order_quiet M M' ths D D' q e i sid pc' :
  (∀ th, ths !! i = Some th → answerable (lt_pc th) = true → answerable pc' = true) →
  (∀ a l', lm_heap M' !! a = Some l' →
     (∃ l, lm_heap M !! a = Some l ∧ same_work l l')
     ∨ lm_heap M !! a = None ∧ ln_running l' = false ∧ ln_queue l' = []) →
  (∀ a, is_Some (lm_heap M !! a) → is_Some (lm_heap M' !! a)) →
  order_inv (mkLanes M ths D q e) → order_inv (mkLanes M' (goto i sid pc' ths) D' q e).
Proof.
  intros Hi HM HM' [H1 H2 H3 H4]. split; cbn in *; [| |done|done].
  - intros a l' Hl'. destruct (HM a l' Hl') as [(l & Hl & _ & ->)|(Hn & _ & ->)]; [by apply H1|].
    assert (∀ j, (a, j) ∉ q) as Hq. { intros j Hj. destruct (H2 a j Hj) as [[l ?] _]. congruence. }
    assert (∀ log, (∀ j, (a, j) ∉ log) → of_lane a log = []) as Hempty.
    { intros log Hlog. unfold of_lane. destruct (filter _ log) as [|[b j] rest] eqn:E; [done|]. exfalso.
      assert ((b, j) ∈ filter (fun e => e.1 = a) log) as Hin by (rewrite E; by left).
      apply list_elem_of_filter in Hin as [Hb Hin]. cbn in Hb. subst b. by eapply Hlog. }
    rewrite !Hempty; [done| |done]. intros j Hj. by apply (Hq j), H3.
  - intros a j Hj. destruct (H2 a j Hj) as (? & th & Hth & Ha). split; [auto|].
    destruct (decide (j = i)) as [->|].
    + eexists. split; [apply goto_Some; by left|]. by eapply Hi.
    + exists th. split; [apply goto_Some; by right|done].
Qed.

Lemma order_submit M ths D q e i sid a l l' pc' :
  ths !! i = Some (mkLThread sid (LRun a)) → lm_heap M !! a = Some l → ln_queue l' = ln_queue l ++ [i] →
  answerable pc' = true →
  order_inv (mkLanes M ths D q e) → order_inv (mkLanes (lane_put a l' M) (goto i sid pc' ths) D (q ++ [(a, i)]) e).
Proof.
  intros Hi Hl Eq Hpc [H1 H2 H3 H4]. cbn in *.
  assert (∀ b j, (b, j) ∈ q → j ≠ i) as Hne.
  { intros b j Hj ->. destruct (H2 b i Hj) as (_ & th & Hth & Ha). rewrite Hi in Hth. by injection Hth as <-. }
  split; cbn.
  - intros b lb Hb. rewrite of_lane_snoc. apply put_Some in Hb as [[-> ->]|[Hba Hb]].
    + rewrite decide_True, Eq, (H1 _ _ Hl), app_assoc; done.
    + rewrite decide_False, app_nil_r by done. by apply H1.
  - intros b j [Hj|Hj%list_elem_of_singleton]%elem_of_app; [|injection Hj as -> ->]; rewrite lookup_insert_is_Some.
    + destruct (H2 b j Hj) as (Hb & th & Hth & Ha). split; [destruct (decide (a = b)); auto|]. exists th.
      split; [apply goto_Some; right; eauto|done].
    + split; [by left|]. eexists. split; [apply goto_Some; by left|done].
  - intros x Hx. apply elem_of_app. left. auto.
  - rewrite fmap_app. apply NoDup_app. split_and!; [done| |apply NoDup_singleton].
    intros j ([b j'] & -> & Hj)%list_elem_of_fmap Hs%list_elem_of_singleton. cbn in Hs. by apply (Hne b j').
Qed.

Lemma order_take M ths D q e i sid a l l' r pc :
  ths !! i = Some (mkLThread sid pc) → answerable pc = true → lm_heap M !! a = Some l →
  ln_queue l = r :: ln_queue l' →
  order_inv (mkLanes M ths D q e) → order_inv (mkLanes (lane_put a l' M) (goto i sid (LExec a r) ths) D q (e ++ [(a, r)])).
Proof.
  intros Hi Hpc Hl Eq [H1 H2 H3 H4]. cbn in *. split; cbn; [| | |done].
  - intros b lb Hb. rewrite of_lane_snoc. apply put_Some in Hb as [[-> ->]|[Hba Hb]].
    + rewrite decide_True, <- app_assoc by done. cbn. rewrite <- Eq. by apply H1.
    + rewrite decide_False, app_nil_r by done. by apply H1.
  - intros b j Hj. destruct (H2 b j Hj) as (Hb & th & Hth & Ha). rewrite lookup_insert_is_Some.
    split; [destruct (decide (a = b)); auto|]. destruct (decide (j = i)) as [->|].
    + eexists. split; [apply goto_Some; by left|done].
    + exists th. split; [apply goto_Some; by right|done].
  - intros x [Hx|Hx%list_elem_of_singleton]%elem_of_app; [auto|subst x].
    assert (r ∈ of_lane a q) as Hin. { rewrite (H1 _ _ Hl), Eq. apply elem_of_app. right. by left. }
    unfold of_lane in Hin. apply list_elem_of_fmap in Hin as ([b j] & -> & [Hb Hin]%list_elem_of_filter).
    cbn in *. by subst b.
Qed.

Lemma order_inv_step s s' : lane_step s s' → users_inv (ls_map s) (ls_threads s) → order_inv s → order_inv s'.
Proof.
  intros Hstep HU HI.
  assert (∀ M a l l0, same_work l0 l → lm_heap M !! a = Some l0 →
    (∀ b l', lm_heap (lane_put a l M) !! b = Some l' →
       (∃ l1, lm_heap M !! b = Some l1 ∧ same_work l1 l') ∨ lm_heap M !! b = None ∧ ln_running l' = false ∧ ln_queue l' = [])
    ∧ ∀ b, is_Some (lm_heap M !! b) → is_Some (lm_heap (lane_put a l M) !! b)) as Hput.
  { intros M a l l0 Hsw Hl0. split.
    - intros b l' [[-> ->]|[_ Hb]]%put_Some; left; [eauto|exists l'; by split].
    - intros b Hb. cbn. rewrite lookup_insert_is_Some. destruct (decide (a = b)); auto. }
  destruct Hstep as [M ths D q e i sid Hi|M ths D q e i sid M' a Hi Ha
    |M ths D q e i sid a l l' Hi Hl Hx|M ths D q e i sid a l l' Hi Hl Hx|M ths D q e i sid a l l' Hi Hl Hx
    |M ths D q e i sid a l l' r Hi Hl Hx|M ths D q e i sid a l l' Hi Hl Hx|M ths D q e i sid a l l' r Hi Hl Hx
    |M ths D q e i sid a l r Hi Hl|M ths D q e i sid a r Hi|M ths D q e i sid a Hi HD|M ths D q e i sid a ok Hi];
    cbn [ls_map ls_threads] in *.
  - eapply order_quiet; [..|exact HI]; [congruence|intros b l' Hb; left; exists l'; by split|done].
  - eapply order_quiet; [..|exact HI]; [|eapply acquire_heap; [apply HU|done]|].
    + intros th Hth. rewrite Hi in Hth. by injection Hth as <-.
    + intros b Hb. unfold acquire_lane in Ha. destruct (lm_lanes M !! sid); injection Ha as <- <-; cbn.
      * by rewrite lookup_alter_is_Some.
      * rewrite lookup_insert_is_Some. destruct (decide (lm_next M = b)); auto.
  - unfold lane_enter in Hx. destruct (ln_callbackActive l); [|by destruct (ln_running _)]. injection Hx as <-.
    destruct (Hput M a l l ltac:(by split) Hl). eapply order_quiet; [..|exact HI]; [|done|done].
    intros th Hth. rewrite Hi in Hth. by injection Hth as <-.
  - unfold lane_enter in Hx. destruct (ln_callbackActive l); [done|]. destruct (ln_running _) eqn:Er; [|done].
    injection Hx as <-. by eapply order_submit.
  - unfold lane_enter in Hx. destruct (ln_callbackActive l); [done|]. destruct (ln_running _) eqn:Er; [done|].
    injection Hx as <-. by eapply order_submit.
  - unfold lane_next in Hx. destruct (ln_queue l) eqn:Eq; [done|]. injection Hx as <- <-. by eapply order_take.
  - unfold lane_next in Hx. destruct (ln_queue l) eqn:Eq; [|done]. injection Hx as <-.
    destruct HI as [H1 H2 H3 H4]. cbn in *. split; cbn; [| |done|done].
    + intros b lb [[-> ->]|[_ Hb]]%put_Some; [by rewrite (H1 _ _ Hl)|by apply H1].
    + intros b j Hj. destruct (H2 b j Hj) as (Hb & th & Hth & Hans). rewrite lookup_insert_is_Some.
      split; [destruct (decide (a = b)); auto|]. destruct (decide (j = i)) as [->|].
      * eexists. split; [apply goto_Some; by left|done].
      * exists th. split; [apply goto_Some; by right|done].
  - unfold lane_begin_callback in Hx. destruct (ln_callbackActive l); [done|]. injection Hx as <-.
    destruct (Hput M a (l <| ln_callbackActive := true |>) l ltac:(by split) Hl).
    eapply order_quiet; [..|exact HI]; done.
  - destruct (Hput M a (lane_end_callback l) l ltac:(by split) Hl). eapply order_quiet; [..|exact HI]; done.
  - eapply order_quiet; [..|exact HI]; [done|intros b l' Hb; left; exists l'; by split|done].
  - eapply order_quiet; [..|exact HI]; [done|intros b l' Hb; left; exists l'; by split|done].
  - eapply order_quiet; [..|exact HI].
    + intros th Hth. rewrite Hi in Hth. by injection Hth as <-; destruct ok.
    + intros b l' Hb. left. by eapply release_heap.
    + intros b Hb. unfold release_lane. destruct (lm_heap M !! a) as [l|]; [|done].
      destruct (_ && _); cbn; by rewrite lookup_alter_is_Some.
Qed.

Lemma lanes_order_inv s : lanes_reachable s → lanes_inv s ∧ order_inv s.
Proof.
  revert s. refine (rtc_ind_r _ _ _ _).
  - split; [apply lanes_reachable_inv, rtc_refl|]. split; cbn; [done|by intros ? ? ?%elem_of_nil|done|constructor].
  - intros s s' _ Hstep [HI HO]. split; [by eapply lanes_inv_step|]. eapply order_inv_step; [done|apply HI|done].
Qed.

(** ** A measure of the work left *)

(** The sum of [f] over a finite map. *)
Definition total {A} (f : A → nat) (m : gmap nat A) : nat := map_fold (fun _ x n => (f x + n)%nat) 0%nat m.

Lemma total_delete {A} (f : A → nat) m i x : m !! i = Some x → total f m = (f x + total f (delete i m))%nat.
Proof. intros Hi. unfold total. by rewrite (map_fold_delete_L _ _ i x m) by (intros; lia || done). Qed.

Lemma total_insert {A} (f : A → nat) m i x y :
  m !! i = Some x → (total f (<[i := y]> m) + f x = total f m + f y)%nat.
Proof.
  intros Hi. rewrite (total_delete f m i x Hi), (total_delete f (<[i:=y]> m) i y) by apply lookup_insert_eq.
  rewrite delete_insert_eq. lia.
Qed.

Lemma total_insert_new {A} (f : A → nat) m i y : m !! i = None → total f (<[i := y]> m) = (f y + total f m)%nat.
Proof.
  intros Hi. rewrite (total_delete f (<[i:=y]> m) i y) by apply lookup_insert_eq.
  by rewrite delete_insert_id.
Qed.

Definition pc_work (pc : lane_pc) : nat :=
  match pc with
  | LStart => 10
  | LRun _ => 9
  | LCallback _ _ => 6
  | LExec _ _ => 5
  | LLoop _ => 3
  | LWait _ => 2
  | LLeave _ _ => 1
  | LDone _ => 0
  end.
Definition lane_work (l : streamLane) : nat := 3 * length (ln_queue l).
Definition work_left (s : lane_system) : nat :=
  total (fun th => pc_work (lt_pc th)) (ls_threads s) + total lane_work (lm_heap (ls_map s)).

Lemma work_move ths i sid pc pc' :
  ths !! i = Some (mkLThread sid pc) →
  (total (fun th => pc_work (lt_pc th)) (goto i sid pc' ths) + pc_work pc
   = total (fun th => pc_work (lt_pc th)) ths + pc_work pc')%nat.
Proof. intros Hi. by apply (total_insert (fun th => pc_work (lt_pc th))) with (y := mkLThread sid pc') in Hi. Qed.

(** A new call, or a stream operation calling a collaborator. *)
Definition external (s s' : lane_system) : Prop :=
  (∃ i, ls_threads s !! i = None ∧ is_Some (ls_threads s' !! i))
  ∨ ∃ i sid a r, ls_threads s !! i = Some (mkLThread sid (LExec a r))
                 ∧ ls_threads s' !! i = Some (mkLThread sid (LCallback a r)).

Lemma work_decreases s s' :
  (∀ a, (lm_next (ls_map s) ≤ a)%nat → lm_heap (ls_map s) !! a = None) →
  lane_step s s' → external s s' ∨ (work_left s' < work_left s)%nat.
Proof.
  intros Hf Hstep.
  assert (∀ M a l l', lm_heap M !! a = Some l →
            (total lane_work (lm_heap (lane_put a l' M)) + lane_work l = total lane_work (lm_heap M) + lane_work l')%nat) as Hput.
  { intros M a l l' Hl. by apply total_insert. }
  assert (∀ M a f, (∀ l, lane_work (f l) = lane_work l) →
            total lane_work (alter f a (lm_heap M)) = total lane_work (lm_heap M)) as Halter.
  { intros M a f Hfl. destruct (lm_heap M !! a) as [l|] eqn:Hl; [|by rewrite alter_id by congruence].
    rewrite <- (insert_id (lm_heap M) a l Hl) at 1.
    rewrite alter_insert_eq. pose proof (total_insert lane_work (lm_heap M) a l (f l) Hl). rewrite Hfl in H. lia. }
  unfold work_left.
  destruct Hstep as [M ths D q e i sid Hi|M ths D q e i sid M' a Hi Ha
    |M ths D q e i sid a l l' Hi Hl Hx|M ths D q e i sid a l l' Hi Hl Hx|M ths D q e i sid a l l' Hi Hl Hx
    |M ths D q e i sid a l l' r Hi Hl Hx|M ths D q e i sid a l l' Hi Hl Hx|M ths D q e i sid a l l' r Hi Hl Hx
    |M ths D q e i sid a l r Hi Hl|M ths D q e i sid a r Hi|M ths D q e i sid a Hi HD|M ths D q e i sid a ok Hi];
    cbn [ls_map ls_threads] in *;
    try (pose proof (work_move _ _ _ _ (LRun a) Hi) as Hw1; pose proof (work_move _ _ _ _ (LWait a) Hi) as Hw2;
         pose proof (work_move _ _ _ _ (LLoop a) Hi) as Hw3; cbn [pc_work] in *).
  - left. left. exists i. split; [done|]. cbn. unfold goto. rewrite lookup_insert_eq. eauto.
  - right. unfold acquire_lane in Ha. destruct (lm_lanes M !! sid) as [a0|]; injection Ha as <- <-; cbn.
    + rewrite (Halter M) by done. lia.
    + rewrite total_insert_new by (apply Hf; lia). cbn. lia.
  - right. unfold lane_enter in Hx. destruct (ln_callbackActive l); [|by destruct (ln_running _)]. injection Hx as <-.
    specialize (Hput M a l l Hl). pose proof (work_move _ _ _ _ (LLeave a false) Hi). cbn [pc_work] in *. lia.
  - right. unfold lane_enter in Hx. destruct (ln_callbackActive l); [done|]. destruct (ln_running _); [|done].
    injection Hx as <-. specialize (Hput M a l (l <| ln_queue := ln_queue l ++ [i] |>) Hl).
    unfold lane_work in Hput at 2 4. cbn in Hput. rewrite length_app in Hput. cbn in Hput |- *. lia.
  - right. unfold lane_enter in Hx. destruct (ln_callbackActive l); [done|]. destruct (ln_running _); [done|].
    injection Hx as <-.
    specialize (Hput M a l ((l <| ln_queue := ln_queue l ++ [i] |>) <| ln_running := true |>) Hl).
    unfold lane_work in Hput at 2 4. cbn in Hput. rewrite length_app in Hput. cbn in Hput |- *. lia.
  - right. unfold lane_next in Hx. destruct (ln_queue l) as [|r' rest] eqn:Eq; [done|]. injection Hx as <- <-.
    specialize (Hput M a l (l <| ln_queue := rest |>) Hl). unfold lane_work in Hput at 2 4. rewrite Eq in Hput.
    pose proof (work_move _ _ _ _ (LExec a r') Hi). cbn in *. lia.
  - right. unfold lane_next in Hx. destruct (ln_queue l) as [|r' rest] eqn:Eq; [|done]. injection Hx as <-.
    specialize (Hput M a l (l <| ln_running := false |>) Hl). unfold lane_work in Hput at 2 4. cbn in *. lia.
  - left. right. exists i, sid, a, r. split; [done|]. apply lookup_insert_eq.
  - right. specialize (Hput M a l (lane_end_callback l) Hl). unfold lane_work in Hput at 2 4.
    pose proof (work_move _ _ _ _ (LExec a r) Hi). cbn in *. lia.
  - right. lia.
  - right. pose proof (work_move _ _ _ _ (LLeave a true) Hi). cbn [pc_work] in *. lia.
  - right. pose proof (work_move _ _ _ _ (LDone ok) Hi). cbn [pc_work] in *.
    unfold release_lane. destruct (lm_heap M !! a); [|lia].
    destruct (_ && _); cbn; rewrite (Halter M) by done; lia.
Qed.

(** ** Progress *)

Definition internal (s s' : lane_system) : Prop := lane_step s s' ∧ ¬ external s s'.
Definition all_done (s : lane_system) : Prop :=
  ∀ i th, ls_threads s !! i = Some th → ∃ ok, lt_pc th = LDone ok.

Lemma not_external s s' i sid pc :
  is_Some (ls_threads s !! i) → ls_threads s' = goto i sid pc (ls_threads s) →
  (∀ a r, pc ≠ LCallback a r) → ¬ external s s'.
Proof.
  intros [th Hi] E Hpc [(j & Hj & Hj')|(j & sid' & a & r & Hj & Hj')]; rewrite E in Hj'.
  - destruct Hj' as [th' [[-> _]|[_ Hj']]%goto_Some]; congruence.
  - apply goto_Some in Hj' as [[-> [= <- <-]]|[_ Hj']]; [by eapply Hpc|congruence].
Qed.

(** A goroutine that is not waiting can move. *)
Lemma active_moves s i sid pc :
  lanes_inv s → ls_threads s !! i = Some (mkLThread sid pc) →
  (∀ ok, pc ≠ LDone ok) → (∀ a, pc = LWait a → i ∈ ls_done s) → ∃ s', internal s s'.
Proof.
  intros [HU HL] Hi Hpc Hw. destruct s as [M ths D q e]. cbn in *.
  assert (∀ a, lane_of pc = Some a → ∃ l, lm_heap M !! a = Some l) as Hlane.
  { intros a Ha. destruct (ui_lane _ _ HU sid a) as [l Hl]; [by eapply ui_thread|eauto]. }
  assert (∀ s' sid' pc', lane_step (mkLanes M ths D q e) s' → ls_threads s' = goto i sid' pc' ths →
            (∀ a r, pc' ≠ LCallback a r) → ∃ s', internal (mkLanes M ths D q e) s') as Hint.
  { intros s' sid' pc' Hs' E Hn. exists s'. split; [done|]. eapply not_external; [exists (mkLThread sid pc); exact Hi|exact E|done]. }
  destruct pc as [|a|a|a|a r|a r|a ok|ok].
  - destruct (acquire_lane sid M) as [M' a] eqn:E. by eapply Hint; [by eapply ln_acquire| |].
  - destruct (Hlane a eq_refl) as [l Hl]. destruct (lane_enter i l) as [l' []] eqn:E.
    + by eapply Hint; [by eapply ln_busy| |].
    + by eapply Hint; [by eapply ln_queue_behind| |].
    + by eapply Hint; [by eapply ln_become_runner| |].
  - by eapply Hint; [eapply ln_return; eauto| |].
  - destruct (Hlane a eq_refl) as [l Hl]. destruct (lane_next l) as [l' [r|]] eqn:E.
    + by eapply Hint; [by eapply ln_take| |].
    + by eapply Hint; [by eapply ln_idle| |].
  - by eapply Hint; [by eapply ln_finish| |].
  - destruct (Hlane a eq_refl) as [l Hl]. by eapply Hint; [by eapply ln_callback_end| |].
  - by eapply Hint; [by eapply ln_release| |].
  - by destruct (Hpc ok).
Qed.

Definition is_done (pc : lane_pc) : bool := match pc with LDone _ => true | _ => false end.

Lemma lanes_progress s : lanes_inv s → all_done s ∨ ∃ s', internal s s'.
Proof.
  intros HI. destruct (decide (map_Forall (fun _ th => is_done (lt_pc th) = true) (ls_threads s)))
    as [Hall|Hex].
  { left. intros i th Hi. specialize (Hall i th Hi). cbn in Hall. destruct (lt_pc th); try done. eauto. }
  right. apply map_not_Forall in Hex as (i & [sid pc] & Hi & Hpc); [|apply _].
  cbn in Hpc. assert (∀ ok, pc ≠ LDone ok) as Hnd by (by intros ok ->).
  destruct (decide (i ∈ ls_done s)) as [HD|HD]; [by eapply active_moves|].
  destruct pc as [| |a| | | | |]; [by eapply active_moves|by eapply active_moves| |by eapply active_moves..].
  destruct HI as [HU HL]. destruct (ui_lane _ _ HU sid a) as [l Hl]; [by eapply ui_thread|].
  destruct (li_wait _ _ _ HL i _ a l Hi eq_refl Hl) as [?|[Hq|(j & [sid' pc'] & Hj & Hex)]]; [done| |].
  - assert (ln_running l = true) as Hr. { eapply li_busy; [done|exact Hl|]. intros E. rewrite E in Hq. by apply elem_of_nil in Hq. }
    destruct (li_runner _ _ _ HL a l Hl Hr) as (j & [sid' pc'] & Hj & Hruns). cbn in Hruns.
    eapply active_moves; [done|exact Hj|by intros ok ->|by intros b ->].
  - cbn in Hex. eapply active_moves; [done|exact Hj|by intros ok ->|by intros b ->].
Qed.

(** ** The properties *)

(** C18. Mutual exclusion per session: two goroutines are never inside stream
    operations of the same session at once, whoever of them executes whose
    operation. *)
Theorem lanes_exclusive s i j th th' a b r r' req req' :
  lanes_reachable s →
  ls_threads s !! i = Some th → executes (lt_pc th) = Some (a, r) →
  ls_threads s !! j = Some th' → executes (lt_pc th') = Some (b, r') →
  ls_threads s !! r = Some req → ls_threads s !! r' = Some req' → lt_session req = lt_session req' →
  i = j ∧ r = r'.
Proof.
  intros [HU HL]%lanes_reachable_inv Hi Hex Hj Hex' Hr Hr' Hsid.
  assert (∀ k pk, executes pk = Some k → lane_of pk = Some k.1 ∧ runs pk = Some k.1) as Hx
    by (intros k []; cbn; intros; simplify_eq; done).
  assert (∀ pk k, submitted pk = Some k → lane_of pk = Some k) as Hs by (intros []; cbn; intros; simplify_eq; done).
  assert (∀ k tk a0 r0 rq, ls_threads s !! k = Some tk → executes (lt_pc tk) = Some (a0, r0) →
            ls_threads s !! r0 = Some rq → lm_lanes (ls_map s) !! lt_session rq = Some a0) as Hlane.
  { intros k [sk pk] a0 r0 [srq prq] Hk Hek Hrq. destruct (Hx _ _ Hek) as [Hl _]. cbn in *.
    destruct (ui_lane _ _ HU sk a0) as [l Hl']; [by eapply ui_thread|].
    destruct (li_exec _ _ _ HL _ _ _ _ _ Hk Hek Hl') as (_ & _ & rq' & Hrq' & Hsub).
    rewrite Hrq in Hrq'. injection Hrq' as <-. eapply ui_thread; [done|exact Hrq|]. by apply Hs. }
  pose proof (Hlane _ _ _ _ _ Hi Hex Hr) as Ha. pose proof (Hlane _ _ _ _ _ Hj Hex' Hr') as Hb.
  rewrite Hsid, Hb in Ha. injection Ha as ->.
  assert (i = j) as ->.
  { eapply li_unique; [exact HL|exact Hi|exact Hj|by apply (Hx _ _ Hex)|by apply (Hx _ _ Hex')]. }
  split; [done|]. rewrite Hi in Hj. injection Hj as <-. rewrite Hex in Hex'. congruence.
Qed.

(** C22. First come, first served: the requests a lane has begun to execute are
    exactly, in order, the first ones it took in, the others are its queue,
    and no request is executed twice. *)
Theorem lanes_fifo s a l :
  lanes_reachable s → lm_heap (ls_map s) !! a = Some l →
  of_lane a (ls_queued s) = of_lane a (ls_started s) ++ ln_queue l ∧ NoDup (of_lane a (ls_started s)).
Proof.
  intros [_ HO]%lanes_order_inv Hl. pose proof (oi_order _ HO a l Hl) as E. split; [exact E|].
  assert (NoDup (of_lane a (ls_queued s))) as Hnd.
  { unfold of_lane. eapply sublist_NoDup; [apply (oi_once _ HO)|]. apply fmap_sublist, sublist_filter. }
  rewrite E in Hnd. by apply NoDup_app in Hnd as [? _].
Qed.

(** C21. Every stream call returns.  From any reachable state, without further
    calls and further collaborator calls, every schedule stops after a
    bounded number of steps, and only when every call has returned: no
    deadlock, no lost request, whoever runs the lane. *)
Theorem lanes_complete s :
  lanes_reachable s →
  (∀ n s', nsteps internal n s s' → (n ≤ work_left s)%nat)
  ∧ ∀ s', rtc internal s s' → (∀ s'', ¬ internal s' s'') → all_done s'.
Proof.
  intros Hr. assert (∀ s1 s2, lanes_reachable s1 → internal s1 s2 → lanes_reachable s2 ∧ (work_left s2 < work_left s1)%nat)
    as Hstep.
  { intros s1 s2 H1 [H2 Hext]. split; [by eapply rtc_r|].
    destruct (work_decreases s1 s2) as [|?]; [|done|done|done].
    apply lanes_reachable_inv in H1 as [HU _]. apply HU. }
  split.
  - intros n s' Hn. induction Hn as [|n s1 s2 s3 H1 Hn IH]; [lia|].
    destruct (Hstep _ _ Hr H1) as [H2 Hlt]. specialize (IH H2). lia.
  - intros s' Hs'. induction Hs' as [s1|s1 s2 s3 H1 _ IH]; [|apply IH; by destruct (Hstep _ _ Hr H1)].
    intros Hstop. destruct (lanes_progress s1) as [|[s2 H2]]; [by apply lanes_reachable_inv|done|].
    by destruct (Hstop s2).
Qed.

(** ** A run: three calls on one session *)

(** The internal move of goroutine [i], or its start. *)
Definition lane_act (s : lane_system) (i : nat) : lane_system :=
  let '(mkLanes M ths D q e) := s in
  match ths !! i with
  | None => mkLanes M (goto i "s1"%string LStart ths) D q e
  | Some (mkLThread sid pc) =>
      match pc with
      | LStart => let '(M', a) := acquire_lane sid M in mkLanes M' (goto i sid (LRun a) ths) D q e
      | LRun a =>
          match lm_heap M !! a with
          | Some l =>
              match lane_enter i l with
              | (l', LaneBusy) => mkLanes (lane_put a l' M) (goto i sid (LLeave a false) ths) D q e
              | (l', LaneQueued) => mkLanes (lane_put a l' M) (goto i sid (LWait a) ths) D (q ++ [(a, i)]) e
              | (l', LaneRunner) => mkLanes (lane_put a l' M) (goto i sid (LLoop a) ths) D (q ++ [(a, i)]) e
              end
          | None => s
          end
      | LWait a => if decide (i ∈ D) then mkLanes M (goto i sid (LLeave a true) ths) D q e else s
      | LLoop a =>
          match lm_heap M !! a with
          | Some l =>
              match lane_next l with
              | (l', Some r) => mkLanes (lane_put a l' M) (goto i sid (LExec a r) ths) D q (e ++ [(a, r)])
              | (l', None) => mkLanes (lane_put a l' M) (goto i sid (LWait a) ths) D q e
              end
          | None => s
          end
      | LExec a r => mkLanes M (goto i sid (LLoop a) ths) ({[r]} ∪ D) q e
      | LLeave a ok => mkLanes (release_lane sid a M) (goto i sid (LDone ok) ths) D q e
      | _ => s
      end
  end.

Lemma lane_act_step s i : lane_act s i = s ∨ lane_step s (lane_act s i).
Proof.
  destruct s as [M ths D q e]. cbn [lane_act]. destruct (ths !! i) as [[sid pc]|] eqn:Hi; [|right; by constructor].
  destruct pc as [|a|a|a|a r|a r|a ok|ok]; [| | | | |by left| |by left].
  - destruct (acquire_lane sid M) as [M' a] eqn:E. right. by econstructor.
  - destruct (lm_heap M !! a) as [l|] eqn:Hl; [|by left]. destruct (lane_enter i l) as [l' []] eqn:E; right.
    + by eapply ln_busy.
    + by eapply ln_queue_behind.
    + by eapply ln_become_runner.
  - case_decide; [right; by eapply ln_return|by left].
  - destruct (lm_heap M !! a) as [l|] eqn:Hl; [|by left]. destruct (lane_next l) as [l' [r|]] eqn:E; right.
    + by eapply ln_take.
    + by eapply ln_idle.
  - right. by eapply ln_finish.
  - right. by eapply ln_release.
Qed.

Lemma lane_acts_reachable s sched : lanes_reachable s → lanes_reachable (foldl lane_act s sched).
Proof.
  revert s. induction sched as [|i sched IH]; intros s Hs; [exact Hs|]. cbn [foldl]. apply IH.
  destruct (lane_act_step s i) as [->|Hstep]; [exact Hs|]. by eapply rtc_r.
Qed.

(** 0 runs the lane while 1 and 2 queue up. *)
Definition demo_lanes : lane_system :=
  foldl lane_act lanes_init ([0; 0; 0; 1; 1; 1; 2; 2; 2; 0; 0; 0]%nat).
Lemma demo_lanes_reachable : lanes_reachable demo_lanes.
Proof. apply lane_acts_reachable. apply rtc_refl. Qed.

Lemma lanes_exclusive_witness : 0%nat = 0%nat ∧ 1%nat = 1%nat.
Proof.
  apply (lanes_exclusive demo_lanes 0 0 (mkLThread "s1" (LExec 0 1)) (mkLThread "s1" (LExec 0 1)) 0 0 1 1
           (mkLThread "s1" (LWait 0)) (mkLThread "s1" (LWait 0)) demo_lanes_reachable);
    vm_compute; reflexivity.
Defined.

Lemma lanes_fifo_witness :
  of_lane 0 (ls_queued demo_lanes) = of_lane 0 (ls_started demo_lanes) ++ [2%nat]
  ∧ NoDup (of_lane 0 (ls_started demo_lanes)).
Proof.
  destruct (lm_heap (ls_map demo_lanes) !! 0%nat) as [l|] eqn:E; [|vm_compute in E; discriminate].
  destruct (lanes_fifo demo_lanes 0 l demo_lanes_reachable E) as [H1 H2].
  split; [|exact H2]. rewrite H1. vm_compute in E. injection E as <-. reflexivity.
Defined.

Lemma lanes_complete_witness :
  (∀ n s', nsteps internal n demo_lanes s' → (n ≤ 12)%nat) ∧ work_left demo_lanes = 12%nat.
Proof.
  assert (work_left demo_lanes = 12%nat) as E by (vm_compute; reflexivity).
  split; [|exact E]. rewrite <- E. apply (lanes_complete demo_lanes demo_lanes_reachable).
Defined.
