(* ===== verification/SendProps.v ===== *)
(** * SENDs under concurrency: at most once, and ACKs that mean acceptance

    Invariants of the interleaved server of SendSystem. *)

From Stdlib Require Import Ascii String.
From S2P Require Import Prelude Utf8 Json Types Codec Capability State Validate Outbound Store Client Sha256 Program StoreInterface Server ServerStream ServerRules SendMonitor SendSystem.
Open Scope string_scope.
Open Scope list_scope.
Open Scope go_scope.
Open Scope Z_scope.

Section props.
Context {ST : StdText} `{SessionStoreLaws D}.
Variable c : ServerConfig.

Notation key w := (send_key w.1).
Notation print w := (send_print c w.1).

(** ** Owners of claims *)

Definition owns (w : Envelope * send_mon) : Prop := sm_claim w.2 ≠ NoClaim.
#[local] Instance owns_dec w : Decision (owns w).
Proof. unfold owns. apply _. Defined.

Definition owner_keys (ws : list (Envelope * send_mon)) : list string := (fun w => key w) <$> filter owns ws.

(** The record of an owner is PROCESSING under the owner's fingerprint. *)
Definition owner_record (d : D) (w : Envelope * send_mon) : Prop :=
  owns w → ∃ fp rec until, print w = Some fp ∧ record_of d (key w) = Some (rec, until)
                           ∧ dr_State rec = DedupProcessing ∧ dr_Fingerprint rec = fp.

Definition owners (d : D) (ws : list (Envelope * send_mon)) : Prop :=
  NoDup (owner_keys ws) ∧ Forall (owner_record d) ws.

Lemma owner_keys_app w1 frame m w2 :
  owner_keys (w1 ++ (frame, m) :: w2)
  = owner_keys w1 ++ (if decide (sm_claim m = NoClaim) then [] else [send_key frame]) ++ owner_keys w2.
Proof.
  unfold owner_keys. rewrite filter_app, fmap_app. f_equal. rewrite filter_cons. unfold owns at 1. cbn [fst snd].
  repeat case_decide; try done.
Qed.

(** The record of an owner is not completed, so it does not expire. *)
Lemma owner_record_kept now d d' w :
  (owns w → kept now (record_of d (key w)) (record_of d' (key w))) → owner_record d w → owner_record d' w.
Proof.
  intros Hk Hw Ho. destruct (Hw Ho) as (fp & rec & until & ? & Hrec & Hst & ?).
  destruct (Hk Ho) as [E|(_ & rec' & until' & E & Hst' & _)]; [|congruence].
  exists fp, rec, until. by rewrite E.
Qed.

Lemma owner_keys_elem k ws : k ∈ owner_keys ws ↔ ∃ w, w ∈ ws ∧ owns w ∧ k = key w.
Proof.
  unfold owner_keys. rewrite list_elem_of_fmap. setoid_rewrite list_elem_of_filter. naive_solver.
Qed.

(** A call about one identity keeps the records of the owners of others. *)
Lemma owners_other now d d' k ws :
  (∀ k', k' ≠ k → kept now (record_of d k') (record_of d' k')) → k ∉ owner_keys ws →
  Forall (owner_record d) ws → Forall (owner_record d') ws.
Proof.
  intros Hd Hk Hws. rewrite Forall_forall in Hws |- *. intros w Hw. eapply owner_record_kept; [|by apply Hws].
  intros Ho. apply Hd. intros E. apply Hk, owner_keys_elem. eauto.
Qed.

Lemma owners_spawn d ws frame : owners d ws → owners d ((frame, sm_init) :: ws).
Proof.
  intros [H1 H2]. split; [done|]. constructor; [|done]. by intros [].
Qed.

(** ** What the monitor's acceptance says *)

Lemma mon_claim frame sid mid fp x m m' :
  send_monitor c frame _ (EClaim sid mid fp) x m = Some m' →
  sid = e_SessionID frame ∧ mid = e_ID frame ∧ send_print c frame = Some fp ∧ sm_claim m = NoClaim
  ∧ match x with
    | CRet (true, _) => m' = mkMon (sm_flight m) Claimed (sm_applied m)
    | CRet (false, Some (mkDedupRecord DedupCompleted fp' (Some _))) =>
        m' = if fp' == fp then mkMon (sm_flight m) NoClaim true else m
    | _ => m' = m
    end.
Proof.
  cbn. do 4 (case_bool_decide; cbn; [|done]). intros H'. split_and!; [done..|].
  destruct x as [[[] [[[] fp' [ack|]]|]]|e|msg]; try congruence.
  injection H' as <-. case_bool_decide; congruence.
Qed.

Lemma mon_handle frame id content x m m' :
  send_monitor c frame _ (EHandleSend id content) x m = Some m' →
  sm_claim m = Claimed ∧ id = e_ID frame ∧ send_content c frame = Some content
  ∧ m' = mkMon (sm_flight m) Invoked (match x with CRet _ => true | _ => sm_applied m end).
Proof. cbn. do 3 (case_bool_decide; cbn; [|done]). intros [= <-]. done. Qed.

Lemma mon_complete frame sid mid ack x m m' :
  send_monitor c frame _ (EComplete sid mid ack) x m = Some m' →
  sid = e_SessionID frame ∧ mid = e_ID frame ∧ sm_claim m = Invoked ∧ sm_applied m = true
  ∧ m' = mkMon (sm_flight m) NoClaim true.
Proof.
  cbn. destruct (sm_applied m); [|done]. do 3 (case_bool_decide; cbn; [|done]). intros [= <-]. done.
Qed.

Lemma owners_app d w1 frame m w2 :
  owners d (w1 ++ (frame, m) :: w2)
  ↔ owners d (w1 ++ w2) ∧ owner_record d (frame, m) ∧ (owns (frame, m) → send_key frame ∉ owner_keys (w1 ++ w2)).
Proof.
  unfold owners. rewrite owner_keys_app, !Forall_app, Forall_cons.
  assert (owner_keys (w1 ++ w2) = owner_keys w1 ++ owner_keys w2) as ->.
  { unfold owner_keys. by rewrite filter_app, fmap_app. }
  unfold owns. cbn [snd]. case_decide as Hc; cbn [app].
  - naive_solver.
  - rewrite <- Permutation_middle, NoDup_cons. naive_solver.
Qed.

(** A call on an identity that no thread owns leaves the owners alone. *)
Lemma owners_unowned now d d' k ws :
  (∀ k', k' ≠ k → kept now (record_of d k') (record_of d' k')) →
  kept now (record_of d k) (record_of d' k) ∨ k ∉ owner_keys ws → owners d ws → owners d' ws.
Proof.
  intros Hframe Hk [Hnd Hall]. split; [done|]. destruct Hk as [Hk|Hk]; [|by eapply owners_other].
  eapply Forall_impl; [exact Hall|]. intros w. apply (owner_record_kept now). intros _.
  destruct (decide (key w = k)) as [->|]; [done|by apply Hframe].
Qed.

(** No thread owns an identity that can be claimed. *)
Lemma claimable_unowned now d k ws : claimable now (record_of d k) → owners d ws → k ∉ owner_keys ws.
Proof.
  intros Hc [_ Hall] (w & Hin & Ho & ->)%owner_keys_elem. eapply Forall_forall in Hall; [|done].
  destruct (Hall Ho) as (fp & rec & until & _ & Hrec & Hst & _). destruct (Hc _ _ Hrec). congruence.
Qed.

(** A claim that failed may have taken effect. *)
Lemma owners_maybe now d d' k fp ws :
  (∀ k', k' ≠ k → kept now (record_of d k') (record_of d' k')) →
  kept now (record_of d k) (record_of d' k) ∨ claimable now (record_of d k) ∧ claimed_by fp (record_of d' k) →
  owners d ws → owners d' ws.
Proof.
  intros Hframe Hk Hws. eapply owners_unowned; [done| |done].
  destruct Hk as [?|[Hc _]]; [by left|right]. by eapply claimable_unowned.
Qed.

Lemma owners_step d F d' F' w1 w2 frame X (e : eff X) x m m' now :
  reacts now d F d' F' e x → send_monitor c frame _ e x m = Some m' →
  owners d (w1 ++ (frame, m) :: w2) → owners d' (w1 ++ (frame, m') :: w2).
Proof.
  rewrite !owners_app. intros Hr Hm (Hrest & Hw & Hfresh).
  assert (owners d' (w1 ++ w2) → (owns (frame, m') → owns (frame, m) ∧ d' = d) →
          owners d' (w1 ++ w2) ∧ owner_record d' (frame, m') ∧ (owns (frame, m') → send_key frame ∉ owner_keys (w1 ++ w2)))
    as Hquiet.
  { intros Hrest' Hc. split_and!; [done| |naive_solver]. intros Ho. destruct (Hc Ho) as [Ho' ->]. exact (Hw Ho'). }
  revert x Hr Hm. destruct e; intros x Hr Hm.
  all: try (assert (d' = d) as -> by (by cbn in Hr; destruct_and?);
            apply Hquiet; [done|]; split; [|done]; by cbn in Hm; repeat case_match; simplify_eq).
  - destruct Hr as [_ Hr]. apply mon_claim in Hm as (-> & -> & Hfp & Hno & Hx).
    assert (∀ k', k' ≠ send_key frame → kept now (record_of d k') (record_of d' k')) as Hframe
      by (intros k'; exact (claim_frame _ _ _ _ _ _ _ k' Hr)).
    pose proof (claim_effect _ _ _ _ _ _ _ Hr) as Heff. cbn zeta in Heff.
    change (dedupKey (e_SessionID frame) (e_ID frame)) with (send_key frame) in Heff.
    destruct x as [[[] r]|e|msg].
    + destruct Heff as [Hold [until Hnew]]. subst m'.
      pose proof (claimable_unowned _ _ _ _ Hold Hrest) as Hk.
      split_and!; [by eapply owners_unowned; eauto|by eexists _, _, _; split_and!|done].
    + destruct Heff as [Enew _]. apply Hquiet; [eapply owners_unowned; [exact Hframe|left; by left|done]|].
      unfold owns. cbn. rewrite Hno. destruct r as [[[] fp' [ack|]]|]; subst m'; try done. by case_bool_decide.
    + subst m'. apply Hquiet; [|unfold owns; cbn; by rewrite Hno]. by eapply owners_maybe.
    + subst m'. apply Hquiet; [|unfold owns; cbn; by rewrite Hno]. by eapply owners_maybe.
  - destruct Hr as [_ Hr]. apply mon_complete in Hm as (-> & -> & Hinv & _ & ->).
    apply Hquiet; [|by intros []]. eapply (owners_unowned now); [|right; apply Hfresh; unfold owns; cbn; by rewrite Hinv|done].
    intros k'. exact (complete_frame _ _ _ _ _ _ _ k' Hr).
  - apply mon_handle in Hm as (Hc & _ & _ & ->). destruct Hr as [-> _]. apply Hquiet; [done|]. split; [|done].
    unfold owns. cbn. by rewrite Hc.
Qed.

(** ** Acceptance *)

Definition completed (d : D) (acc : list (string * SendFingerprint)) : Prop :=
  ∀ k rec until, record_of d k = Some (rec, until) → dr_State rec = DedupCompleted →
  (k, dr_Fingerprint rec) ∈ acc.

Definition accepted (acc : list (string * SendFingerprint)) (frame : Envelope) : Prop :=
  ∃ fp, send_print c frame = Some fp ∧ (send_key frame, fp) ∈ acc.

Definition applied (acc : list (string * SendFingerprint)) (w : Envelope * send_mon) : Prop :=
  sm_applied w.2 = true → accepted acc w.1.

Lemma accepted_app acc acc' frame : accepted acc frame → accepted (acc' ++ acc) frame.
Proof. intros (fp & ? & ?). exists fp. split; [done|]. apply elem_of_app. by right. Qed.

(** Records that stay, expire or are claimed anew are no news. *)
Lemma completed_kept now d d' acc :
  (∀ k, kept now (record_of d k) (record_of d' k) ∨ ∃ fp, claimed_by fp (record_of d' k)) →
  completed d acc → completed d' acc.
Proof.
  intros Hk Hd k rec until Hrec Hst. destruct (Hk k) as [[E|[E _]]|(fp & until' & E)]; rewrite E in Hrec;
    [eauto|done|by injection Hrec as <- <-].
Qed.

Lemma completed_app d acc acc' : completed d acc → completed d (acc' ++ acc).
Proof. intros Hd k rec until Hrec Hst. apply elem_of_app. right. eauto. Qed.

Lemma completed_step d F d' F' frame X (e : eff X) x m m' now acc :
  reacts now d F d' F' e x → send_monitor c frame _ e x m = Some m' →
  owner_record d (frame, m) → applied acc (frame, m) → completed d acc →
  completed d' (accepted_by frame e x ++ acc).
Proof.
  intros Hr Hm Hw Ha Hd. apply completed_app with (acc' := accepted_by frame e x) in Hd as Hd'.
  revert x Hr Hm Hd'. destruct e; intros x Hr Hm Hd'.
  all: try (assert (d' = d) as -> by (by cbn in Hr; destruct_and?); exact Hd').
  - destruct Hr as [_ Hr]. eapply completed_kept; [|exact Hd']. intros k.
    destruct (decide (k = dedupKey sessionID msgID)) as [->|Hk]; [|left; by eapply claim_frame].
    apply claim_effect in Hr. cbn zeta in Hr. destruct x as [[[] r]|e|msg]; [right|left; left|..]; naive_solver.
  - destruct Hr as [_ Hr]. apply mon_complete in Hm as (-> & -> & Hinv & Happ & ->).
    destruct (Hw ltac:(unfold owns; cbn; by rewrite Hinv)) as (fp & rec0 & until0 & Hfp & Hrec0 & Hst0 & Hfp0).
    destruct (Ha Happ) as (fp' & Hfp' & Hin). cbn in Hfp, Hfp', Hrec0, Hin.
    pose proof (complete_effect _ _ _ _ _ _ _ Hr) as Heff. cbn zeta in Heff.
    change (dedupKey (e_SessionID frame) (e_ID frame)) with (send_key frame) in *.
    intros k rec until Hrec Hst. destruct (decide (k = send_key frame)) as [->|Hk].
    2:{ destruct (complete_frame _ _ _ _ _ _ _ _ Hr Hk) as [E|[E _]]; [|congruence]. rewrite E in Hrec. eauto. }
    assert (completed_by now (retention d) ack (record_of d (send_key frame)) (record_of d' (send_key frame)))
      as (rec1 & until1 & until1' & Hrec1 & _ & Hnew & _).
    { destruct x as [|e|msg]; [done|..]; destruct Heff as [[E|[E _]]|?]; try done; congruence. }
    assert (rec = mkDedupRecord DedupCompleted fp (Some ack)) as -> by congruence. cbn. congruence.
Qed.

(** ** Flights *)

(** [own] is the identity each flight was made for. *)
Record flights_inv (own : gmap nat string) (F : Flights) (ws : list (Envelope * send_mon))
    (acc : list (string * SendFingerprint)) : Prop := {
  fi_map : ∀ k f, fl_map F !! k = Some f → own !! f = Some k;
  fi_fresh : ∀ f, (fl_next F ≤ f)%nat → own !! f = None;
  fi_heap : ∀ f, own !! f = None → fl_heap F !! f = None;
  fi_thread : Forall (fun w => ∀ f, sm_flight w.2 = Some f →
                own !! f = Some (key w) ∧ ∃ fl, fl_heap F !! f = Some fl ∧ print w = Some (sf_fingerprint fl)) ws;
  fi_ack : ∀ f fl ack, fl_heap F !! f = Some fl → sf_ack fl = Some ack →
             ∃ k, own !! f = Some k ∧ (k, sf_fingerprint fl) ∈ acc
}.

Lemma flights_acc own F ws acc acc' : flights_inv own F ws acc → flights_inv own F ws (acc' ++ acc).
Proof.
  intros [? ? ? ? Hack]. split; [done..|]. intros f fl ack Hf Ha.
  destruct (Hack f fl ack Hf Ha) as (k & ? & ?). exists k. split; [done|]. apply elem_of_app. by right.
Qed.

(** Changing the map to a smaller one, and altering one flight. *)
Lemma flights_alter own F ws acc mp f g :
  mp ⊆ fl_map F → (∀ fl, sf_fingerprint (g fl) = sf_fingerprint fl) →
  (∀ fl, fl_heap F !! f = Some fl →
     sf_ack (g fl) = sf_ack fl ∨ ∃ k, own !! f = Some k ∧ (k, sf_fingerprint fl) ∈ acc) →
  flights_inv own F ws acc →
  flights_inv own (flight_alter (mkFlights mp (fl_heap F) (fl_next F)) f g) ws acc.
Proof.
  intros Hmp Hfp Hga [Hm Hfr Hh Ht Ha]. split; cbn.
  - intros k f' Hk. apply Hm. by eapply lookup_weaken.
  - done.
  - intros f' Hf'. rewrite lookup_alter_None. auto.
  - eapply Forall_impl; [exact Ht|]. intros w Hw f' Hf'. destruct (Hw f' Hf') as (Ho & fl & Hfl & Hp).
    split; [done|]. destruct (decide (f' = f)) as [->|].
    + exists (g fl). rewrite lookup_alter_eq, Hfl. by rewrite Hfp.
    + exists fl. by rewrite lookup_alter_ne.
  - intros f' fl' ack. destruct (decide (f' = f)) as [->|]; [|rewrite lookup_alter_ne by done; eauto].
    rewrite lookup_alter_eq. intros (fl & Hfl & ->)%fmap_Some Hack. rewrite Hfp.
    destruct (Hga fl Hfl) as [E|?]; [|done]. rewrite E in Hack. eauto.
Qed.

Lemma flights_same own F w1 w2 frame m m' acc :
  sm_flight m' = sm_flight m → flights_inv own F (w1 ++ (frame, m) :: w2) acc →
  flights_inv own F (w1 ++ (frame, m') :: w2) acc.
Proof.
  intros Hm [? ? ? Ht ?]. split; [done..| |done]. rewrite Forall_app, Forall_cons in Ht |- *.
  cbn in *. by rewrite Hm.
Qed.

Lemma flights_new own F ws acc k fp :
  fl_map F !! k = None → flights_inv own F ws acc →
  flights_inv (<[fl_next F := k]> own) (acquireFlight k fp F).1 ws acc.
Proof.
  intros Hk [Hm Hfr Hh Ht Ha]. unfold acquireFlight. rewrite Hk. cbn.
  pose proof (Hfr (fl_next F) ltac:(lia)) as Hnone. split; cbn.
  - intros k' f. destruct (decide (k' = k)) as [->|].
    + rewrite lookup_insert_eq. intros [= <-]. by rewrite lookup_insert_eq.
    + rewrite lookup_insert_ne by done. intros Hf%Hm. rewrite lookup_insert_ne; [done|]. congruence.
  - intros f Hf. rewrite lookup_insert_ne by lia. apply Hfr. lia.
  - intros f [Hf Hne]%lookup_insert_None. rewrite lookup_insert_ne by done. auto.
  - eapply Forall_impl; [exact Ht|]. intros w Hw f Hf. destruct (Hw f Hf) as (Ho & Hfl).
    assert (fl_next F ≠ f) by congruence. by rewrite !lookup_insert_ne.
  - intros f fl ack. destruct (decide (fl_next F = f)) as [<-|].
    + rewrite lookup_insert_eq. by intros [= <-].
    + rewrite !lookup_insert_ne by done. eauto.
Qed.

Lemma flights_thread own F w1 w2 frame m f fl acc a cl :
  own !! f = Some (send_key frame) → fl_heap F !! f = Some fl → send_print c frame = Some (sf_fingerprint fl) →
  flights_inv own F (w1 ++ (frame, m) :: w2) acc →
  flights_inv own F (w1 ++ (frame, mkMon (Some f) cl a) :: w2) acc.
Proof.
  intros Ho Hf Hp [? ? ? Ht ?]. split; [done..| |done]. rewrite Forall_app, Forall_cons in Ht |- *.
  destruct Ht as (H1 & _ & H2). split_and!; [done| |done]. cbn. intros f' [= <-]. eauto.
Qed.

Lemma flights_step own d F d' F' w1 w2 frame X (e : eff X) x m m' now acc :
  reacts now d F d' F' e x → send_monitor c frame _ e x m = Some m' → applied acc (frame, m) →
  flights_inv own F (w1 ++ (frame, m) :: w2) acc →
  ∃ own', flights_inv own' F' (w1 ++ (frame, m') :: w2) acc.
Proof.
  intros Hr Hm Ha HI.
  assert (F' = F → sm_flight m' = sm_flight m → ∃ own', flights_inv own' F' (w1 ++ (frame, m') :: w2) acc) as Hsame.
  { intros -> Hf. exists own. by eapply flights_same. }
  assert (∀ mp f g, F' = flight_alter (mkFlights mp (fl_heap F) (fl_next F)) f g → mp ⊆ fl_map F → m' = m →
            (∀ fl, sf_fingerprint (g fl) = sf_fingerprint fl) →
            (∀ fl, fl_heap F !! f = Some fl →
               sf_ack (g fl) = sf_ack fl ∨ ∃ k, own !! f = Some k ∧ (k, sf_fingerprint fl) ∈ acc) →
            ∃ own', flights_inv own' F' (w1 ++ (frame, m') :: w2) acc) as Halter.
  { intros mp f g -> Hmp -> Hg Hack. exists own. by apply flights_alter. }
  revert x Hr Hm. destruct e; intros x Hr Hm.
  all: try (apply Hsame; [by cbn in Hr; destruct_and?|by cbn in Hm; repeat case_match; simplify_eq]).
  - (* acquire *)
    destruct Hr as [_ Hr]. cbn in Hm. destruct (_ && _) eqn:Hc in Hm; [|done].
    apply andb_true_iff in Hc as [->%bool_decide_eq_true Hfp%bool_decide_eq_true].
    destruct (fl_map F !! send_key frame) as [f|] eqn:Ef.
    + pose proof (fi_map _ _ _ _ HI _ _ Ef) as Ho. unfold acquireFlight in Hr. rewrite Ef in Hr.
      destruct (fl_heap F !! f) as [fl|] eqn:Efl; injection Hr as -> ->; cbn in Hm;
        [|apply Hsame; congruence].
      case_bool_decide as Hsame'; cbn in Hm; [|apply Hsame; congruence].
      injection Hm as <-. exists own. eapply flights_thread; [done..|congruence|done].
    + pose proof (flights_new own F _ acc _ fingerprint Ef HI) as HI'. rewrite <- Hr in HI'.
      unfold acquireFlight in Hr. rewrite Ef in Hr. injection Hr as -> ->. cbn in Hm.
      injection Hm as <-. eexists. eapply flights_thread; [..|exact HI']; cbn; by rewrite ?lookup_insert_eq.
  - (* finish *)
    destruct Hr as [_ ->]. injection Hm as <-. unfold finishFlight in *.
    case_bool_decide; [|by apply Hsame]. eapply Halter; [done|apply delete_subseteq|done|done|by left].
  - destruct Hr as [_ Hr]. injection Hm as <-. unfold beginSendCallback in Hr.
    destruct (_ || _) in Hr; injection Hr as -> ->; [by apply Hsame|].
    eapply Halter; [done|done|done|done|by left].
  - destruct Hr as [_ ->]. injection Hm as <-. eapply Halter; [done|done|done|done|by left].
  - destruct Hr as [_ ->]. cbn in Hm. destruct (sm_applied m) eqn:Happ; [|done].
    case_bool_decide as Hfl; [|done]. injection Hm as <-.
    eapply Halter; [done|done|done|done|]. intros fl Hf. right.
    pose proof (fi_thread _ _ _ _ HI) as Ht. rewrite Forall_app, Forall_cons in Ht.
    destruct Ht as (_ & Ht & _). destruct (Ht _ Hfl) as (Ho & fl' & Hf' & Hp).
    exists (send_key frame). split; [done|]. destruct (Ha Happ) as (fp & Hfp & Hin). cbn in *. congruence.
Qed.

(** ** Threads that know of acceptance, and the ACKs they send *)

Lemma applied_self own d F d' F' w1 w2 frame X (e : eff X) x m m' now acc :
  reacts now d F d' F' e x → send_monitor c frame _ e x m = Some m' →
  completed d acc → flights_inv own F (w1 ++ (frame, m) :: w2) acc → applied acc (frame, m) →
  applied (accepted_by frame e x ++ acc) (frame, m').
Proof.
  intros Hr Hm Hd HI Ha.
  assert (sm_applied m' = sm_applied m → applied (accepted_by frame e x ++ acc) (frame, m')) as Hsame.
  { intros E Happ. apply accepted_app, Ha. cbn in *. congruence. }
  revert x Hr Hm Hsame. destruct e; intros x Hr Hm Hsame.
  all: try (apply Hsame; by cbn in Hm; repeat case_match; simplify_eq).
  - destruct Hr as [_ Hr]. apply mon_claim in Hm as (-> & -> & Hfp & Hno & Hx).
    destruct x as [[[] r]|e|msg]; try (apply Hsame; by subst m').
    apply claim_effect in Hr as (_ & rec & until & Hrec & ->).
    destruct rec as [st fp' [ack|]]; destruct st; subst m'; try by apply Hsame.
    case_bool_decide as E; [|by apply Hsame]. subst fp'. intros _. apply accepted_app.
    exists fp. split; [done|]. by apply (Hd _ _ _ Hrec).
  - apply mon_handle in Hm as (_ & _ & Hc & ->). destruct x; [|by apply Hsame..].
    intros _. exists (Sum256 payload). split; [unfold send_print; cbn; by rewrite Hc|]. by left.
  - destruct Hr as (_ & _ & ->). cbn in Hm. case_bool_decide as Hfl; [|done]. injection Hm as <-.
    unfold flightACK in *. destruct (fl_heap F !! flight) as [fl|] eqn:Ef; [|by apply Hsame]. cbn in *.
    destruct (sf_ack fl) as [ack|] eqn:Eack; [|by apply Hsame]. intros _.
    destruct (fi_ack _ _ _ _ HI _ _ _ Ef Eack) as (k & Hk & Hin).
    pose proof (fi_thread _ _ _ _ HI) as Ht. rewrite Forall_app, Forall_cons in Ht.
    destruct Ht as (_ & Ht & _). destruct (Ht _ Hfl) as (Ho & fl' & Hf' & Hp).
    exists (sf_fingerprint fl). cbn in *. split; congruence.
Qed.

(** Everything at once. *)
Record ack_inv (d : D) (F : Flights) (ws : list (Envelope * send_mon))
    (inv : list (Envelope * string)) (acc : list (string * SendFingerprint)) (acked : list (Envelope * Envelope))
  : Prop := {
  ai_owners : owners d ws;
  ai_completed : completed d acc;
  ai_flights : ∃ own, flights_inv own F ws acc;
  ai_applied : Forall (applied acc) ws;
  ai_acked : Forall (fun fa => acks c fa.1 fa.2 = true ∧ accepted acc fa.1) acked
}.

Lemma acked_step frame X (e : eff X) x m m' acc :
  send_monitor c frame _ e x m = Some m' → applied acc (frame, m) →
  Forall (fun fa => acks c fa.1 fa.2 = true ∧ accepted acc fa.1) (acked_by frame e).
Proof.
  intros Hm Ha. revert x Hm. destruct e; intros x Hm; try by constructor.
  cbn in Hm. destruct (forallb _ _) eqn:Hall in Hm; [|done]. clear Hm.
  cbn. apply Forall_fmap, Forall_forall. intros f [Hty Hin]%list_elem_of_filter. cbn.
  rewrite forallb_forall in Hall. specialize (Hall f ltac:(by apply list_elem_of_In)).
  rewrite bool_decide_true in Hall by done. cbn in Hall. apply andb_true_iff in Hall as [Happ Hack].
  split; [done|]. by apply Ha.
Qed.

Lemma ack_inv_step d F d' F' w1 w2 frame X (e : eff X) x m m' now inv inv' acc acked :
  reacts now d F d' F' e x → send_monitor c frame _ e x m = Some m' →
  ack_inv d F (w1 ++ (frame, m) :: w2) inv acc acked →
  ack_inv d' F' (w1 ++ (frame, m') :: w2) inv' (accepted_by frame e x ++ acc) (acked_by frame e ++ acked).
Proof.
  intros Hr Hm [Ho Hc [own Hf] Ha Hk]. pose proof Ha as Ha'. rewrite Forall_app, Forall_cons in Ha'.
  destruct Ha' as (Ha1 & Ha2 & Ha3). pose proof Ho as (_ & How & _)%owners_app.
  assert (∀ l, Forall (fun w => applied acc w) l → Forall (applied (accepted_by frame e x ++ acc)) l) as Hmono.
  { intros l Hl. eapply Forall_impl; [exact Hl|]. intros w Hw Happ. by apply accepted_app, Hw. }
  split.
  - by eapply owners_step.
  - by eapply completed_step.
  - eapply flights_step in Hf as (own' & Hf); [|done..]. exists own'. by apply flights_acc.
  - rewrite Forall_app, Forall_cons. split_and!; [auto| |auto]. by eapply applied_self.
  - apply Forall_app. split.
    + eapply Forall_impl; [by eapply acked_step|]. intros fa [? ?]. split; [done|]. by apply accepted_app.
    + eapply Forall_impl; [exact Hk|]. intros fa [? ?]. split; [done|]. by apply accepted_app.
Qed.

Lemma ack_inv_reachable clock d0 acc0 s :
  completed d0 acc0 → sys_reachable c clock d0 acc0 s →
  ∃ ws, ack_inv (sy_dedup s) (sy_flights s) ws (sy_invoked s) (sy_accepted s) (sy_acked s).
Proof.
  intros Hd0. apply sys_invariant.
  - split; [split; constructor|done|exists ∅; split; done || constructor|constructor|constructor].
  - intros d F ws inv acc acked frame [? ? [own [? ? ? ? ?]] ? ?].
    split; [by apply owners_spawn|done| |by constructor|done].
    exists own. split; try done. by constructor.
  - intros. by eapply ack_inv_step.
Qed.

(** ** At most once *)

Definition ready_to_invoke (w : Envelope * send_mon) : Prop := sm_claim w.2 = Claimed.
#[local] Instance ready_to_invoke_dec w : Decision (ready_to_invoke w).
Proof. unfold ready_to_invoke. apply _. Defined.

Definition claimed_keys (ws : list (Envelope * send_mon)) : list string :=
  (fun w => key w) <$> filter ready_to_invoke ws.
Definition invoked_keys (inv : list (Envelope * string)) : list string := (fun fc => send_key fc.1) <$> inv.

Lemma claimed_keys_app w1 frame m w2 :
  claimed_keys (w1 ++ (frame, m) :: w2)
  = claimed_keys w1 ++ (if decide (sm_claim m = Claimed) then [send_key frame] else []) ++ claimed_keys w2.
Proof.
  unfold claimed_keys. rewrite filter_app, fmap_app. f_equal. rewrite filter_cons. unfold ready_to_invoke at 1.
  cbn [fst snd]. by repeat case_decide.
Qed.

(** A record no claim succeeds against before [T]. *)
Definition solid (T : time) (d : D) (k : string) : Prop :=
  ∃ rec until, record_of d k = Some (rec, until) ∧ (dr_State rec = DedupProcessing ∨ T ≤ until).

Record once_inv (start : time) (ttl : Duration) (d : D) (F : Flights)
    (ws : list (Envelope * send_mon)) (inv : list (Envelope * string))
    (acc : list (string * SendFingerprint)) (acked : list (Envelope * Envelope)) : Prop := {
  oi_ttl : retention d = ttl;
  oi_nodup : NoDup (invoked_keys inv ++ claimed_keys ws);
  oi_solid : Forall (solid (start + ttl) d) (invoked_keys inv ++ claimed_keys ws);
  oi_content : Forall (fun fc => send_content c fc.1 = Some fc.2) inv
}.

Lemma solid_kept T now d d' k :
  now < T → kept now (record_of d k) (record_of d' k) → solid T d k → solid T d' k.
Proof.
  intros Hnow [E|(_ & rec & until & E & Hst & Hu)] (rec' & until' & Hrec & Hs).
  - exists rec', until'. by rewrite E.
  - rewrite E in Hrec. injection Hrec as <- <-. destruct Hs; [congruence|lia].
Qed.

Lemma solid_not_claimable T now d k : now < T → claimable now (record_of d k) → ¬ solid T d k.
Proof. intros Hnow Hc (rec & until & Hrec & Hs). destruct (Hc _ _ Hrec). destruct Hs; [congruence|lia]. Qed.

Lemma solid_claim T now d sid mid fp d' x k :
  now < T → store_Claim d now sid mid fp d' x → solid T d k → solid T d' k.
Proof.
  intros Hnow Hr Hs. destruct (decide (k = dedupKey sid mid)) as [->|Hk]; [|by eapply solid_kept, Hs; [|eapply claim_frame]].
  apply claim_effect in Hr. cbn zeta in Hr.
  assert (kept now (record_of d (dedupKey sid mid)) (record_of d' (dedupKey sid mid))) as Hkept.
  { destruct x as [[[] r]|e|msg]; [..|destruct Hr as [?|[Hc _]]; [done|]|destruct Hr as [?|[Hc _]]; [done|]].
    2: by left; apply Hr.
    1: destruct Hr as [Hc _].
    all: by eapply solid_not_claimable in Hc. }
  by eapply solid_kept.
Qed.

Lemma solid_complete T now d sid mid ack d' x k :
  now < T ≤ now + retention d → store_Complete d now sid mid ack d' x → solid T d k → solid T d' k.
Proof.
  intros Hnow Hr Hs. destruct (decide (k = dedupKey sid mid)) as [->|Hk].
  2:{ eapply (solid_kept _ now), Hs; [lia|]. by eapply complete_frame. }
  apply complete_effect in Hr. cbn zeta in Hr.
  assert (completed_by now (retention d) ack (record_of d (dedupKey sid mid)) (record_of d' (dedupKey sid mid))
          ∨ kept now (record_of d (dedupKey sid mid)) (record_of d' (dedupKey sid mid)))
    as [(rec & until & until' & _ & _ & Hnew & Hu)|Hk] by (destruct x; tauto).
  - eexists _, _. split; [exact Hnew|]. right. lia.
  - eapply solid_kept, Hs; [|done]. lia.
Qed.

Lemma once_step start ttl d F d' F' w1 w2 frame X (e : eff X) x m m' now inv acc acked acc' acked' :
  start ≤ now < start + ttl →
  reacts now d F d' F' e x → send_monitor c frame _ e x m = Some m' →
  once_inv start ttl d F (w1 ++ (frame, m) :: w2) inv acc acked →
  once_inv start ttl d' F' (w1 ++ (frame, m') :: w2) (invoked_by frame e ++ inv) acc' acked'.
Proof.
  intros Hnow Hr Hm [Httl Hnd Hs Hc].
  assert (d' = d → invoked_by frame e = [] → sm_claim m' = sm_claim m →
          once_inv start ttl d' F' (w1 ++ (frame, m') :: w2) (invoked_by frame e ++ inv) acc' acked') as Hsame.
  { intros -> -> Hcl. rewrite claimed_keys_app in Hnd, Hs. split; rewrite ?claimed_keys_app, ?Hcl; done. }
  revert x Hr Hm. destruct e; intros x Hr Hm.
  all: try (apply Hsame; [by cbn in Hr; destruct_and?|done|by cbn in Hm; repeat case_match; simplify_eq]).
  - (* Claim *)
    destruct Hr as [_ Hr]. apply mon_claim in Hm as (-> & -> & _ & Hno & Hx). cbn [invoked_by app].
    assert (∀ k, solid (start + ttl) d k → solid (start + ttl) d' k) as Hsolid.
    { intros k. eapply solid_claim; [|exact Hr]. lia. }
    pose proof (claim_retention _ _ _ _ _ _ _ Hr) as Hret. apply claim_effect in Hr. cbn zeta in Hr.
    change (dedupKey (e_SessionID frame) (e_ID frame)) with (send_key frame) in Hr.
    rewrite claimed_keys_app, Hno, decide_False in Hnd, Hs by done. cbn [app] in Hnd, Hs.
    pose proof (Forall_impl _ _ _ Hs Hsolid) as Hs'.
    destruct (decide (sm_claim m' = Claimed)) as [Hcl|Hcl].
    2:{ split; rewrite ?claimed_keys_app, ?decide_False by done; done || congruence. }
    assert (claimable now (record_of d (send_key frame)) ∧ claimed_by fp (record_of d' (send_key frame)))
      as [Hold [until Hnew]].
    { destruct x as [[[] r]|e|msg]; [done|..]; subst; try congruence.
      destruct r as [[[] fp' [ack|]]|]; subst; try congruence. case_bool_decide; cbn in Hcl; congruence. }
    assert (send_key frame ∉ invoked_keys inv ++ claimed_keys w1 ++ claimed_keys w2) as Hk.
    { intros Hin. eapply Forall_forall in Hs; [|exact Hin]. eapply (solid_not_claimable (start + ttl) now) in Hold; [by apply Hold|lia]. }
    assert (∀ l1 l2 l3 : list string, l1 ++ l2 ++ [send_key frame] ++ l3 ≡ₚ send_key frame :: l1 ++ l2 ++ l3) as Hp.
    { intros. cbn. by rewrite !app_assoc, Permutation_middle. }
    split; rewrite ?claimed_keys_app, ?decide_True by done; [congruence| | |done].
    + rewrite Hp. by constructor.
    + rewrite Hp. constructor; [|done]. eexists _, _. split; [exact Hnew|by left].
  - (* Complete *)
    destruct Hr as [_ Hr]. apply mon_complete in Hm as (-> & -> & Hinv & _ & ->). cbn [invoked_by app].
    rewrite claimed_keys_app, Hinv, decide_False in Hnd, Hs by done.
    split; rewrite ?claimed_keys_app; cbn [sm_claim]; rewrite ?decide_False by done; [|done| |done].
    + rewrite <- Httl. by eapply complete_retention.
    + eapply Forall_impl; [exact Hs|]. intros k. eapply solid_complete; [|exact Hr]. lia.
  - (* HandleSend *)
    destruct Hr as [-> _]. apply mon_handle in Hm as (Hcl & _ & Hcont & ->). cbn [invoked_by app].
    rewrite claimed_keys_app, Hcl, decide_True in Hnd, Hs by done.
    assert (∀ l1 l2 l3 : list string, send_key frame :: l1 ++ l2 ++ l3 ≡ₚ l1 ++ l2 ++ [send_key frame] ++ l3) as Hp.
    { intros. cbn. by rewrite !app_assoc, Permutation_middle. }
    split; rewrite ?claimed_keys_app; cbn [sm_claim]; rewrite ?decide_False by done;
      [done|change (invoked_keys ((frame, payload) :: inv)) with (send_key frame :: invoked_keys inv);
             cbn [app]; by rewrite Hp..|by constructor].
Qed.
End props.

(** ** The properties *)

(** C1. At most once under concurrency.  Any number of server threads process
    any frames in any interleaving; the application, the session repository,
    the failure injector and the transport answer anything, errors and
    panics included; threads may stop anywhere.  The deduplication store is
    any store that keeps the contract of [ServerSessionStore], and may hold
    records of earlier runs; its calls may fail, also after taking effect.
    As long as the store's clock readings span less than its retention, no
    SEND identity is handed to the application twice, and what is handed
    over is the content of the frame. *)
Theorem send_at_most_once {ST : StdText} `{SessionStoreLaws D} c start (d0 : D) acc0 s :
  sys_reachable c (fun now => start ≤ now < start + retention d0) d0 acc0 s →
  NoDup (invoked_keys (sy_invoked s)) ∧ Forall (fun fc => send_content c fc.1 = Some fc.2) (sy_invoked s).
Proof.
  intros Hr. eapply (sys_invariant c _ d0 acc0 (once_inv c start (retention d0))) in Hr as (ws & [_ Hnd _ Hc]).
  - by apply NoDup_app in Hnd as [? _].
  - split; [done|constructor..].
  - intros d F ws inv acc acked frame [? ? ? ?]. split; done.
  - intros. by eapply once_step.
Qed.

(** C2. An ACK means acceptance.  In every interleaving, whatever the clock
    reads, an ACK put on an outbound queue by the thread of a SEND carries
    that SEND's session and identity, and the application has accepted,
    under that identity, content with the fingerprint of the frame's content:
    no acknowledgement of a SEND that failed, panicked, is still being
    processed, or reused the identity for other content.  The store is any
    one that keeps its contract; a record it holds at the start as completed
    was accepted by the application before. *)
Theorem send_ack_means_accepted {ST : StdText} `{SessionStoreLaws D} c clock (d0 : D) acc0 s frame ack :
  completed d0 acc0 → sys_reachable c clock d0 acc0 s → (frame, ack) ∈ sy_acked s →
  acks c frame ack = true
  ∧ ∃ fp, send_print c frame = Some fp ∧ (send_key frame, fp) ∈ sy_accepted s.
Proof.
  intros Hd0 (ws & [_ _ _ _ Hk])%(ack_inv_reachable _ _ _ _ _ Hd0) Hin. eapply Forall_forall in Hk; [|exact Hin]. exact Hk.
Qed.

(** ** A run: a schedule of threads, with collaborators that succeed *)

Inductive sched := Spawn (frame : Envelope) | Run (thread : nat).

Definition demo_answer (now : time) (d : MemoryDedupStore) (F : Flights) {X} (e : eff X)
  : option (MemoryDedupStore * Flights * X) :=
  match e in eff X return option (MemoryDedupStore * Flights * X) with
  | ENow => Some (d, F, now)
  | ESessionLookup _ _ => Some (d, F, CRet (Some zeroSessionState))
  | EClaim sid mid fp => Some ((Dedup_Claim d now sid mid fp).1, F, CRet (Dedup_Claim d now sid mid fp).2)
  | EComplete sid mid ack =>
      Some ((Dedup_Complete d now sid mid (Some ack)).1, F,
            match (Dedup_Complete d now sid mid (Some ack)).2 with None => CRet tt | Some e => CFail e end)
  | EHandleSend _ _ => Some (d, F, CRet tt)
  | EAcquireFlight key fp => Some (d, (acquireFlight key fp F).1, (acquireFlight key fp F).2)
  | EFinishFlight key flight => Some (d, finishFlight key flight F, tt)
  | EBeginSendCallback key flight => Some (d, (beginSendCallback key flight F).1, (beginSendCallback key flight F).2)
  | EEndSendCallback flight => Some (d, endSendCallback flight F, tt)
  | ESetFlightACK flight ack => Some (d, setFlightACK flight ack F, tt)
  | EFlightACK flight => Some (d, F, flightACK flight F)
  | EEnqueueBatch _ => Some (d, F, None)
  | ECloseOutbound => Some (d, F, tt)
  | _ => None
  end.

Lemma demo_answer_reacts now d F X (e : eff X) d' F' x :
  demo_answer now d F e = Some (d', F', x) → reacts now d F d' F' e x.
Proof.
  destruct e; cbn; intros H; try done; injection H as <- <- <-; split_and?; try done; by rewrite <- surjective_pairing.
Qed.

Definition sched_step {ST : StdText} (c : ServerConfig) (now : time) (s : system MemoryDedupStore) (a : sched)
  : system MemoryDedupStore :=
  match a with
  | Spawn frame => mkSystem (sy_dedup s) (sy_flights s) ((frame, invokeServerProcess c frame) :: sy_threads s)
                     (sy_invoked s) (sy_accepted s) (sy_acked s)
  | Run i =>
      match sy_threads s !! i with
      | Some (frame, PVis e k) =>
          match demo_answer now (sy_dedup s) (sy_flights s) e with
          | Some (d', F', x) =>
              mkSystem d' F' (take i (sy_threads s) ++ (frame, k x) :: drop (S i) (sy_threads s))
                (invoked_by frame e ++ sy_invoked s) (accepted_by frame e x ++ sy_accepted s)
                (acked_by frame e ++ sy_acked s)
          | None => s
          end
      | _ => s
      end
  end.

Lemma sched_reachable {ST : StdText} c (clock : time → Prop) d0 acc0 now s acts :
  clock now → sys_reachable c clock d0 acc0 s →
  sys_reachable c clock d0 acc0 (foldl (sched_step c now) s acts).
Proof.
  intros Hn. revert s. induction acts as [|a acts IH]; intros s Hs; [exact Hs|]. cbn [foldl]. apply IH.
  unfold sys_reachable in *. etrans; [exact Hs|].
  destruct s as [d F ths inv acc acked]. destruct a as [frame|i]; cbn [sched_step sy_threads sy_dedup sy_flights].
  - apply rtc_once. constructor.
  - destruct (ths !! i) as [[frame [o|X e k]]|] eqn:Ei; [reflexivity| |reflexivity].
    destruct (demo_answer now d F e) as [[[d' F'] x]|] eqn:Ea; [|reflexivity].
    apply rtc_once. rewrite <- (take_drop_middle _ _ _ Ei) at 1.
    econstructor; [exact Hn|]. by apply demo_answer_reacts.
Qed.

Section demo.
#[local] Existing Instance demo_text.

Definition demo_send_frame : Envelope :=
  mkEnvelope WireVersionV2 FrameSend "m1" "s1" 0 1000 (js "{'content':{'x':1}}").

(** Two threads receive the same SEND; the first is stopped inside the
    application call while the second arrives, then both go on. *)
Definition demo_schedule : list sched :=
  [Spawn demo_send_frame] ++ replicate 12 (Run 0) ++ [Spawn demo_send_frame] ++ replicate 6 (Run 0)
  ++ replicate 30 (Run 1) ++ [Spawn demo_send_frame] ++ replicate 30 (Run 0).
Definition demo_store : MemoryDedupStore := NewMemoryDedupStore (10 * Second).
Definition demo_system : system MemoryDedupStore :=
  foldl (sched_step DefaultServerConfig 5) (sys_init demo_store []) demo_schedule.

Lemma demo_system_reachable (clock : time → Prop) :
  clock 5 → sys_reachable DefaultServerConfig clock demo_store [] demo_system.
Proof. intros H. apply sched_reachable; [exact H|]. apply rtc_refl. Qed.

Lemma send_at_most_once_witness :
  NoDup (invoked_keys (sy_invoked demo_system)) ∧ length (sy_invoked demo_system) = 1%nat
  ∧ length (sy_acked demo_system) = 2%nat.
Proof.
  split; [|split; vm_compute; reflexivity].
  apply (send_at_most_once DefaultServerConfig 0 demo_store [] demo_system).
  apply demo_system_reachable. split; [lia|vm_compute; reflexivity].
Defined.

Definition demo_send_ack : Envelope :=
  mkEnvelope WireVersionV2 FrameAck "" "s1" 0 0 (js "{'ref_id':'m1'}").

Lemma send_ack_means_accepted_witness :
  acks DefaultServerConfig demo_send_frame demo_send_ack = true
  ∧ ∃ fp, send_print DefaultServerConfig demo_send_frame = Some fp
          ∧ (send_key demo_send_frame, fp) ∈ sy_accepted demo_system.
Proof.
  apply (send_ack_means_accepted DefaultServerConfig (fun _ => True) demo_store [] demo_system).
  - by intros k rec until H.
  - apply demo_system_reachable. exact I.
  - vm_compute. left.
Defined.
End demo.
