(* ===== verification/ClientInv.v ===== *)
(** * Invariant of the client

    What every reachable [ClientProtocol] satisfies: the identity window is
    exactly the last [EventIdentityWindow] sequences, the staged replay is a
    contiguous continuation of [lastSeq] within its bounds, the State cache
    is keyed by identity and its byte count is exact, connection-scoped data
    exists only in the states that use it. *)

From Stdlib Require Import Ascii String.
From S2P Require Import Prelude Utf8 Json Types Codec Capability State Validate Client.
Open Scope string_scope.
Open Scope list_scope.
Open Scope go_scope.
Open Scope Z_scope.

(** ** The invariant *)

Definition config_ok (cfg : ClientConfig) : Prop :=
  0 < cc_EventIdentityWindow cfg ∧ 0 ≤ cc_MaxReplayEvents cfg ∧ 0 ≤ cc_MaxReplayBytes cfg
  ∧ 0 ≤ cc_MaxStateObjects cfg ∧ 0 ≤ cc_MaxStateBytes cfg.

(** The remembered identities are those of the last [window] sequences. *)
Definition ids_window (window lastSeq : Z) (ids : gmap Z string) : Prop :=
  ∀ s, is_Some (ids !! s) ↔ 0 < s ≤ lastSeq ∧ lastSeq - window < s.

Definition cache_bytes (m : gmap (string * string) StateObject) : Z :=
  map_fold (fun _ o acc => stateObjectBytes o + acc) 0 m.

Definition cache_ok (cfg : ClientConfig) (m : gmap (string * string) StateObject) (bytes : Z) : Prop :=
  bytes = cache_bytes m
  ∧ Z.of_nat (size m) ≤ cc_MaxStateObjects cfg
  ∧ bytes ≤ cc_MaxStateBytes cfg
  ∧ map_Forall (fun k o => Identity o = k) m.

(** No replay is staged. *)
Definition replay_clear (c : ClientProtocol) : Prop :=
  c_replayTo c = 0 ∧ c_replayBuffer c = [] ∧ c_replayBytes c = 0
  ∧ c_resumeStateNamespaces c = [] ∧ c_resumeEventsComplete c = false ∧ c_gapResume c = false.

Definition transient_clear (c : ClientProtocol) : Prop :=
  c_pendingPing c = None ∧ c_stateQueries c = ∅ ∧ replay_clear c.

Definition buffer_bytes (l : list Envelope) : Z :=
  foldr (fun e acc => replayEventBytes e + acc) 0 l.

(** The staged replay continues the delivered stream and respects its bounds. *)
Definition replay_ok (c : ClientProtocol) : Prop :=
  map e_Seq (c_replayBuffer c) = seqZ (c_lastSeq c + 1) (Z.of_nat (length (c_replayBuffer c)))
  ∧ Forall (fun e => e_Type e = FrameEvent ∧ e_SessionID e = c_sessionID c) (c_replayBuffer c)
  ∧ c_replayBytes c = buffer_bytes (c_replayBuffer c)
  ∧ Z.of_nat (length (c_replayBuffer c)) ≤ cc_MaxReplayEvents (c_config c)
  ∧ c_replayBytes c ≤ cc_MaxReplayBytes (c_config c)
  ∧ (c_resumeEventsComplete c = true →
       c_lastSeq c + Z.of_nat (length (c_replayBuffer c)) = c_replayTo c)
  ∧ (c_resumeEventsComplete c = false →
       c_replayTo c = 0 ∧ c_replayBuffer c = []
       ∨ c_lastSeq c + Z.of_nat (length (c_replayBuffer c)) < c_replayTo c).

Definition phase_ok (c : ClientProtocol) : Prop :=
  match c_state c with
  | StateDisconnected | StateConnecting | StateConnected => transient_clear c
  | StateHandshaking => transient_clear c ∧ c_sessionID c = ""
  | StateResuming =>
      c_sessionID c ≠ "" ∧ c_pendingPing c = None ∧ c_stateQueries c = ∅ ∧ replay_ok c
  | StateReady | StateSuspect =>
      c_sessionID c ≠ "" ∧ replay_clear c
      ∧ (∀ p, c_pendingPing c = Some p → pp_Generation p = c_generation c)
      ∧ (c_state c = StateSuspect → is_Some (c_pendingPing c))
  end.

Definition outbox_ok (c : ClientProtocol) : Prop :=
  map_Forall (fun id f => e_ID f = id ∧ e_Type f = FrameSend ∧ e_SessionID f = c_sessionID c)
    (c_outbox c).

Definition no_session (c : ClientProtocol) : Prop :=
  c_lastSeq c = 0 ∧ c_outbox c = ∅ ∧ c_capabilities c = zeroCapabilities ∧ c_stateObjects c = ∅.

Record client_inv (c : ClientProtocol) : Prop := {
  inv_config : config_ok (c_config c);
  inv_gen : is_u64 (c_generation c);
  inv_seq : is_u64 (c_lastSeq c) ∧ is_u64 (c_replayTo c);
  inv_ids : ids_window (cc_EventIdentityWindow (c_config c)) (c_lastSeq c) (c_eventIDs c);
  inv_cache : cache_ok (c_config c) (c_stateObjects c) (c_stateBytes c);
  inv_outbox : outbox_ok c;
  inv_session : c_sessionID c = "" → no_session c;
  inv_phase : phase_ok c
}.

(** ** The identity window *)

Lemma ids_window_empty w : ids_window w 0 ∅.
Proof. intros s. rewrite lookup_empty. split; [intros []; done|lia]. Qed.

Lemma ids_window_remember w l ids id :
  0 < w → 0 ≤ l → ids_window w l ids →
  ids_window w (l + 1)
    (if w <? l + 1 then delete (l + 1 - w) (<[l + 1 := id]> ids) else <[l + 1 := id]> ids).
Proof.
  intros Hw Hl H s. specialize (H s).
  destruct (Z.ltb_spec w (l + 1)).
  - rewrite lookup_delete. case_decide; [subst; split; [intros []; done|lia]|].
    rewrite lookup_insert. case_decide; [subst; split; [lia|done]|].
    rewrite H. lia.
  - rewrite lookup_insert. case_decide; [subst; split; [lia|done]|]. rewrite H. lia.
Qed.

(** ** The State cache *)

Lemma cache_bytes_insert m k o :
  cache_bytes (<[k := o]> m) =
  cache_bytes m - (match m !! k with Some o' => stateObjectBytes o' | None => 0 end)
  + stateObjectBytes o.
Proof.
  unfold cache_bytes. destruct (m !! k) as [o'|] eqn:E.
  - rewrite <- (insert_delete_eq m), (map_fold_insert_L _ _ _ _ (delete k m));
      [|intros; lia|apply lookup_delete_eq].
    rewrite (map_fold_delete_L _ _ k o' m); [|intros; lia|done]. lia.
  - rewrite map_fold_insert_L; [lia|intros; lia|done].
Qed.

(** The fields of the invariant of an updated state, one goal each. *)
Ltac inv_fields :=
  intros [inv_config0 inv_gen0 inv_seq0 inv_ids0 inv_cache0 inv_outbox0 inv_session0 inv_phase0];
  constructor; cbn; try assumption.
Ltac solve_phase :=
  unfold phase_ok, transient_clear, replay_clear, replay_ok; cbn; split_and!; try reflexivity.

Section client_inv.
Context {ST : StdText}.

(** Versions only grow: [m'] keeps every object of [m] or a newer version. *)
Definition cache_le (m m' : gmap (string * string) StateObject) : Prop :=
  ∀ k o, m !! k = Some o → ∃ o', m' !! k = Some o' ∧ so_Version o ≤ so_Version o'.

Lemma cache_le_refl m : cache_le m m.
Proof. intros k o ?. exists o. split; [done|lia]. Qed.

Lemma cache_le_trans m1 m2 m3 : cache_le m1 m2 → cache_le m2 m3 → cache_le m1 m3.
Proof.
  intros H1 H2 k o (o2 & Ho2 & ?)%H1. apply H2 in Ho2 as (o3 & ? & ?).
  exists o3. split; [done|lia].
Qed.

Lemma cache_le_insert m k o :
  (∀ o', m !! k = Some o' → so_Version o' ≤ so_Version o) → cache_le m (<[k := o]> m).
Proof.
  intros H k' o' Ho'. rewrite lookup_insert. case_decide; subst.
  - exists o. split; [done|]. by apply H.
  - exists o'. split; [done|lia].
Qed.

Definition is_state_action (a : Action) : Prop :=
  match a with StateChangedAction _ StateApplyApplied => True | _ => False end.

Lemma apply_loop_ok cfg m b objs m' b' acts :
  cache_ok cfg m b → apply_loop cfg m b objs = Ok (m', b', acts) →
  cache_ok cfg m' b' ∧ cache_le m m' ∧ Forall is_state_action acts.
Proof.
  revert m b m' b' acts. induction objs as [|o objs IH]; intros m b m' b' acts Hc; cbn.
  { intros [= <- <- <-]. auto using cache_le_refl. }
  destruct (ApplyStateObject (m !! Identity o) o (cc_Limits cfg)) as [[committed result] [err|]] eqn:Ha.
  { by destruct (errors_Is _ _ || _). }
  apply ApplyStateObject_ok in Ha as [_ [(-> & -> & Hv)|(-> & c & _)]].
  2:{ rewrite bool_decide_true by done. by apply IH. }
  rewrite bool_decide_false by done. intros Hok. inv_ok. bools.
  destruct x1 as [[m1 b1] acts1]. injection Hok as <- <- <-.
  destruct Hc as (Hb & Hsz & Hle & Hall).
  assert (cache_ok cfg (<[Identity o := o]> m)
            (b - match m !! Identity o with Some o' => stateObjectBytes o' | None => 0 end
             + stateObjectBytes o)) as Hc'.
  { split_and!; [rewrite cache_bytes_insert; lia| |done|by apply map_Forall_insert_2].
    destruct (m !! Identity o) as [o'|] eqn:E.
    - rewrite map_size_insert_Some by done. lia.
    - rewrite map_size_insert_None by done. rewrite bool_decide_true in H by done.
      cbn in H. bools. lia. }
  destruct (IH _ _ _ _ _ Hc' H1) as (? & Hle' & ?). split; [done|]. split.
  - eapply cache_le_trans; [|done]. apply cache_le_insert. intros o' [_ ?]%Hv. lia.
  - by constructor.
Qed.

(** ** Preservation: the shared transitions *)

Lemma is_u64_0 : is_u64 0.
Proof. unfold is_u64, MaxUint64. lia. Qed.

Lemma inv_reset_idle c st :
  st = StateDisconnected ∨ st = StateConnecting → client_inv c → client_inv (resetTo c st [] false).
Proof.
  intros Hst. inv_fields.
  - destruct inv_seq0. auto using is_u64_0.
  - destruct Hst as [-> | ->]; solve_phase.
Qed.

Lemma inv_disconnected c : client_inv c → client_inv (disconnectLocked c).
Proof. apply inv_reset_idle. auto. Qed.

Lemma inv_ready c : c_sessionID c ≠ "" → client_inv c → client_inv (readyLocked c).
Proof.
  intros Hs. inv_fields.
  - destruct inv_seq0. auto using is_u64_0.
  - solve_phase; [done|by intros ? [=]|by intros [=]].
Qed.

Lemma inv_recovery c ns gap :
  c_sessionID c ≠ "" → client_inv c → client_inv (beginRecoveryLocked c ns gap).
Proof.
  intros Hs. inv_fields.
  - destruct inv_seq0. auto using is_u64_0.
  - destruct inv_config0 as (? & ? & ? & ? & ?). solve_phase; [done|done|lia|lia|by intros [=]|auto].
Qed.

Lemma inv_abandon c : client_inv c → client_inv (abandonSessionLocked c).
Proof.
  inv_fields.
  - auto using is_u64_0.
  - apply ids_window_empty.
  - destruct inv_config0 as (? & ? & ? & ? & ?). split_and!; [done| |done|apply map_Forall_empty].
    rewrite map_size_empty. lia.
  - unfold outbox_ok; cbn. apply map_Forall_empty.
  - intros _. repeat split.
  - solve_phase.
Qed.

Lemma inv_failure c err : client_inv c → client_inv (handleIncomingFailureLocked c err).1.
Proof.
  intros Hc. unfold handleIncomingFailureLocked, stopStateResumeLocked, stopReplayLocked.
  case_bool_decide; cbn; [|done].
  destruct (0 <? _); cbn; by apply inv_disconnected.
Qed.

(** Fields that no frame or call about events touches. *)
Definition same_but_stream (c c' : ClientProtocol) : Prop :=
  c' = c <| c_lastSeq := c_lastSeq c' |> <| c_eventIDs := c_eventIDs c' |>.

(** The remembered identities of [c'] are those of [c] or of [evs]. *)
Definition ids_from (evs : list Envelope) (ids ids' : gmap Z string) : Prop :=
  ∀ s id, ids' !! s = Some id →
    ids !! s = Some id ∨ ∃ e, In e evs ∧ e_Seq e = s ∧ e_ID e = id.

Lemma ids_from_refl evs ids : ids_from evs ids ids.
Proof. by left. Qed.

Lemma ids_from_remember c e :
  ids_from [e] (c_eventIDs c)
    (c_eventIDs (rememberEventLocked (c <| c_lastSeq := e_Seq e |>) (e_Seq e) (e_ID e))).
Proof.
  intros s id' Hs. cbn in Hs.
  assert (<[e_Seq e := e_ID e]> (c_eventIDs c) !! s = Some id') as H.
  { destruct (_ <? _); [|done]. by apply lookup_delete_Some in Hs as [_ Hs]. }
  apply lookup_insert_Some in H as [[<- <-]|[_ H]]; [right|by left]. exists e. cbn. auto.
Qed.

Lemma ids_from_trans evs1 evs2 m1 m2 m3 :
  ids_from evs1 m1 m2 → ids_from evs2 m2 m3 → ids_from (evs1 ++ evs2) m1 m3.
Proof.
  intros H1 H2 s id [H|(e & He & H)]%H2.
  - apply H1 in H as [H|(e & He & H)]; [by left|right]. exists e. rewrite in_app_iff. auto.
  - right. exists e. rewrite in_app_iff. auto.
Qed.

Lemma deliver_fold evs c acts :
  config_ok (c_config c) → 0 ≤ c_lastSeq c →
  ids_window (cc_EventIdentityWindow (c_config c)) (c_lastSeq c) (c_eventIDs c) →
  map e_Seq evs = seqZ (c_lastSeq c + 1) (Z.of_nat (length evs)) →
  let r := foldl (fun '(c, actions) event =>
             (rememberEventLocked (c <| c_lastSeq := e_Seq event |>) (e_Seq event) (e_ID event),
              actions ++ [DeliverEventAction (copyEnvelope event)])) (c, acts) evs in
  same_but_stream c r.1 ∧ c_lastSeq r.1 = c_lastSeq c + Z.of_nat (length evs)
  ∧ ids_window (cc_EventIdentityWindow (c_config c)) (c_lastSeq r.1) (c_eventIDs r.1)
  ∧ r.2 = acts ++ map DeliverEventAction evs
  ∧ ids_from evs (c_eventIDs c) (c_eventIDs r.1).
Proof.
  revert c acts. induction evs as [|e evs IH]; intros c acts Hcfg Hpos Hids Hseq.
  { cbn. split_and!; [by destruct c|lia|exact Hids|by rewrite app_nil_r|apply ids_from_refl]. }
  cbn [length] in *. rewrite Nat2Z.inj_succ, seqZ_cons in Hseq by lia.
  rewrite Z.pred_succ in Hseq. cbn [map] in Hseq. injection Hseq as He Hseq.
  cbn [foldl]. set (c1 := rememberEventLocked _ _ _).
  assert (c_lastSeq c1 = c_lastSeq c + 1) as Hl1 by (cbn; lia).
  assert (ids_window (cc_EventIdentityWindow (c_config c1)) (c_lastSeq c1) (c_eventIDs c1)) as Hids1.
  { rewrite Hl1. cbn. rewrite He. by apply ids_window_remember; [apply Hcfg|..]. }
  assert (map e_Seq evs = seqZ (c_lastSeq c1 + 1) (Z.of_nat (length evs))) as Hseq1.
  { rewrite Hl1, Hseq. done. }
  destruct (IH c1 (acts ++ [DeliverEventAction (copyEnvelope e)]) Hcfg ltac:(lia) Hids1 Hseq1)
    as (H1 & H2 & H3 & H4 & H5).
  split_and!.
  - unfold same_but_stream in *. rewrite H1. by destruct c.
  - rewrite H2, Hl1. lia.
  - done.
  - rewrite H4. cbn. rewrite copyEnvelope_id, <- app_assoc. done.
  - refine (ids_from_trans [e] evs _ _ _ _ H5). apply ids_from_remember.
Qed.

(** Whatever is staged, delivering it touches nothing else. *)
Lemma deliverReplay_same c : same_but_stream c (deliverReplay c).1.
Proof.
  unfold deliverReplay. generalize (c_replayBuffer c) as evs. intros evs.
  match goal with |- context [foldl ?f _ _] => set (deliver := f) end. generalize (@nil Action) as acts.
  revert c. induction evs as [|e evs IH]; intros c acts; [by destruct c|]. cbn [foldl].
  unfold deliver at 2. match goal with |- same_but_stream c (foldl _ (?c1, ?a) evs).1 => specialize (IH c1 a) end.
  unfold same_but_stream in *. rewrite IH. by destruct c.
Qed.

End client_inv.

(** Case analysis on how a method returns, for a goal about the new state. *)
Ltac exits_step :=
  lazymatch goal with
  | |- _ (or_return _ ?r _).1 => destruct r eqn:?; cbn [or_return]
  | |- _ (match (if ?b then _ else _) with _ => _ end).1 => destruct b eqn:?
  | |- _ (match ?x with _ => _ end).1 => destruct x eqn:?
  end.
Ltac exits := repeat (cbv beta iota zeta; exits_step).
