(* ===== verification/ClientSteps.v ===== *)
(** * Steps of the client

    Every public method of [ClientProtocol] as one step, the effect each step
    has on the Session data ([step_rel]), and the proof that every step keeps
    the invariant and has that effect. *)

From Stdlib Require Import Ascii String.
From S2P Require Import Prelude Utf8 Json Types Codec Capability State Validate Client ClientInv.
Open Scope string_scope.
Open Scope list_scope.
Open Scope go_scope.
Open Scope Z_scope.

(** ** Steps *)

Inductive ClientOp :=
| OpBeginConnect
| OpTransportConnected (generation : ConnectionGeneration)
| OpStartSession (generation : ConnectionGeneration) (clientName : string)
| OpResume (generation : ConnectionGeneration) (now : time)
| OpResumeWithState (generation : ConnectionGeneration) (namespaces : list string) (now : time)
| OpDisconnect (generation : ConnectionGeneration)
| OpQueryState (queryID namespace : string) (objectIDs : list string) (now : time)
| OpEnqueueSend (messageID content : string) (now : time)
| OpRetryPending
| OpSendPing (generation : ConnectionGeneration) (pingID : string) (now : time)
| OpCheckHeartbeat (generation : ConnectionGeneration) (now : time)
| OpHandleIncoming (generation : ConnectionGeneration) (frame : Envelope) (now : time).

(** An incoming frame carries a [uint64] sequence. *)
Definition op_typed (op : ClientOp) : Prop :=
  match op with OpHandleIncoming _ frame _ => is_u64 (e_Seq frame) | _ => True end.

Definition no_actions (r : res unit) : res (list Action) := _ ← r; Ok [].

Definition actions_of (r : res (list Action)) : list Action :=
  match r with Ok actions => actions | Err _ => [] end.

Definition delivered_of (a : Action) : option Envelope :=
  match a with DeliverEventAction event => Some event | _ => None end.
Definition delivered (actions : list Action) : list Envelope := omap delivered_of actions.

Section steps.
Context {ST : StdText}.

Definition client_step (c : ClientProtocol) (op : ClientOp) : ClientProtocol * res (list Action) :=
  match op with
  | OpBeginConnect => ((BeginConnect c).1, Ok [])
  | OpTransportConnected g => let r := TransportConnected c g in (r.1, no_actions r.2)
  | OpStartSession g name => StartSession c g name
  | OpResume g now => Resume c g now
  | OpResumeWithState g ns now => ResumeWithState c g ns now
  | OpDisconnect g => let r := Disconnect c g in (r.1, no_actions r.2)
  | OpQueryState q ns ids now => QueryState c q ns ids now
  | OpEnqueueSend m content now => EnqueueSend c m content now
  | OpRetryPending => (c, RetryPending c)
  | OpSendPing g p now => SendPing c g p now
  | OpCheckHeartbeat g now => CheckHeartbeat c g now
  | OpHandleIncoming g frame now => HandleIncoming c g frame now
  end.

(** ** The effect of a step on the Session data *)

(** The Session is gone, with everything that belonged to it. *)
Definition abandoned (c : ClientProtocol) : Prop := c_sessionID c = "".

Record step_rel (c c' : ClientProtocol) (acts : list Action) : Prop := {
  (** the configuration never changes *)
  rel_config : c_config c' = c_config c;
  (** a Session keeps its identity and capabilities until it is abandoned *)
  rel_session : abandoned c ∨ abandoned c'
                ∨ c_sessionID c' = c_sessionID c ∧ c_capabilities c' = c_capabilities c;
  (** [lastSeq] advances exactly by the delivered EVENTs, in order *)
  rel_stream :
    abandoned c' ∧ delivered acts = []
    ∨ map e_Seq (delivered acts) = seqZ (c_lastSeq c + 1) (Z.of_nat (length (delivered acts)))
      ∧ c_lastSeq c' = c_lastSeq c + Z.of_nat (length (delivered acts))
      ∧ Forall (fun e => e_SessionID e = c_sessionID c') (delivered acts);
  (** a replay is delivered as a whole, up to its high-water mark, or not at all *)
  rel_replay : c_state c = StateResuming →
    delivered acts = []
    ∨ c_state c' = StateReady ∧ c_lastSeq c' = c_replayTo c
      ∧ last acts = Some (SessionReadyAction (c_sessionID c));
  (** remembered identities are those of delivered EVENTs *)
  rel_ids : abandoned c' ∨ ids_from (delivered acts) (c_eventIDs c) (c_eventIDs c');
  (** retained State versions never go back *)
  rel_cache : abandoned c' ∨ cache_le (c_stateObjects c) (c_stateObjects c');
  (** a pending SEND stays, unchanged, until its ACK *)
  rel_outbox : abandoned c' ∨ ∀ id f, c_outbox c !! id = Some f →
    c_outbox c' !! id = Some f ∨ In (AckedAction id) acts
}.

Definition step_ok (c : ClientProtocol) (out : ClientProtocol * res (list Action)) : Prop :=
  client_inv out.1 ∧ step_rel c out.1 (actions_of out.2).

(** Transitions that leave the Session data alone. *)
Definition same_session (c c' : ClientProtocol) : Prop :=
  c_config c' = c_config c ∧ c_sessionID c' = c_sessionID c ∧ c_capabilities c' = c_capabilities c
  ∧ c_lastSeq c' = c_lastSeq c ∧ c_stateObjects c' = c_stateObjects c ∧ c_outbox c' = c_outbox c
  ∧ c_eventIDs c' = c_eventIDs c.

Lemma rel_quiet c c' acts : same_session c c' → delivered acts = [] → step_rel c c' acts.
Proof.
  intros (H1 & H2 & H3 & H4 & H5 & H6 & H7) Hd. constructor; rewrite ?Hd; auto.
  - right. cbn. split_and!; [done|lia|constructor].
  - right. rewrite H7. apply ids_from_refl.
  - right. rewrite H5. apply cache_le_refl.
  - right. rewrite H6. auto.
Qed.

Lemma ok_quiet c c' r :
  client_inv c' → same_session c c' → delivered (actions_of r) = [] → step_ok c (c', r).
Proof. intros. split; [done|by apply rel_quiet]. Qed.

Lemma ok_same c r : client_inv c → delivered (actions_of r) = [] → step_ok c (c, r).
Proof. intros. by apply ok_quiet; [|repeat split|]. Qed.

Lemma ok_or_return {A} c c0 (r : res A) k :
  client_inv c → (∀ a, r = Ok a → step_ok c0 (k a)) → same_session c0 c →
  step_ok c0 (or_return c r k).
Proof. intros Hc Hk Hs. destruct r as [a|e]; cbn; [by apply Hk|by apply ok_quiet]. Qed.

Lemma same_refl c : same_session c c.
Proof. repeat split. Qed.

Lemma same_trans c1 c2 c3 : same_session c1 c2 → same_session c2 c3 → same_session c1 c3.
Proof.
  intros (? & ? & ? & ? & ? & ? & ?) (? & ? & ? & ? & ? & ? & ?). split_and!; congruence.
Qed.

Lemma same_reset c st ns gap : same_session c (resetTo c st ns gap).
Proof. repeat split. Qed.

Lemma ok_failure c c0 err :
  client_inv c → same_session c0 c → step_ok c0 (handleIncomingFailureLocked c err).
Proof.
  intros Hc Hs. unfold handleIncomingFailureLocked, stopStateResumeLocked, stopReplayLocked.
  case_bool_decide; cbn; [|by apply ok_quiet].
  destruct (0 <? _); apply ok_quiet; auto using inv_disconnected;
    (eapply same_trans; [done|apply same_reset]).
Qed.

(** ** Connection lifecycle and requests *)

Ltac ok_step := apply ok_quiet; [|by repeat split|done].
Ltac phase_of H := let P := fresh "P" in pose proof (inv_phase _ H) as P; unfold phase_ok in P.

Lemma ok_BeginConnect c : client_inv c → step_ok c ((BeginConnect c).1, Ok []).
Proof.
  intros Hc. ok_step. revert Hc. inv_fields.
  - apply u64_range.
  - destruct inv_seq0. auto using is_u64_0.
  - solve_phase.
Qed.

Lemma ok_TransportConnected c g :
  client_inv c → step_ok c ((TransportConnected c g).1, no_actions (TransportConnected c g).2).
Proof.
  intros Hc. unfold TransportConnected. destruct (negb _); [by apply ok_same|].
  case_bool_decide as Hst; cbn; [|by apply ok_same].
  ok_step. phase_of Hc. rewrite Hst in P. revert Hc. by inv_fields.
Qed.

Lemma ok_StartSession c g name : client_inv c → step_ok c (StartSession c g name).
Proof.
  intros Hc. unfold StartSession. destruct (negb _); [by apply ok_same|].
  destruct (_ || _) eqn:E; [by apply ok_same|]. bools.
  apply ok_or_return; [done| |done]. intros _ _.
  ok_step. phase_of Hc. rewrite H in P. revert Hc. by inv_fields.
Qed.

Lemma ok_startResume c g ns now : client_inv c → step_ok c (startResumeLocked c g ns now).
Proof.
  intros Hc. unfold startResumeLocked. destruct (negb _); [by apply ok_same|].
  destruct (_ || _) eqn:E; [by apply ok_same|]. bools.
  apply ok_or_return; [done| |done]. intros _ _. ok_step. by apply inv_recovery.
Qed.

Lemma ok_ResumeWithState c g ns now : client_inv c → step_ok c (ResumeWithState c g ns now).
Proof.
  intros Hc. unfold ResumeWithState. destruct (negb _); [by apply ok_same|].
  destruct (negb _); [by apply ok_same|].
  apply ok_or_return; [done| |done]. intros _ _. by apply ok_startResume.
Qed.

Lemma ok_Disconnect c g :
  client_inv c → step_ok c ((Disconnect c g).1, no_actions (Disconnect c g).2).
Proof.
  intros Hc. unfold Disconnect. destruct (negb _); [by apply ok_same|].
  ok_step. by apply inv_disconnected.
Qed.

Lemma ok_QueryState c q ns ids now : client_inv c → step_ok c (QueryState c q ns ids now).
Proof.
  intros Hc. unfold QueryState. destruct (_ || _) eqn:E; [by apply ok_same|]. bools.
  destruct (negb _); [by apply ok_same|].
  apply ok_or_return; [done| |done]. intros _ _.
  destruct (c_stateQueries c !! q); [by apply ok_same|]. ok_step.
  phase_of Hc. revert P. rewrite H. intros P. revert Hc. inv_fields.
  unfold phase_ok. cbn. by rewrite H.
Qed.

Lemma ok_EnqueueSend c m content now : client_inv c → step_ok c (EnqueueSend c m content now).
Proof.
  intros Hc. unfold EnqueueSend. destruct (_ || _) eqn:E; [by apply ok_same|]. bools.
  destruct (_ || _); [by apply ok_same|]. destruct (_ <? _); [by apply ok_same|].
  destruct (c_outbox c !! m) eqn:Em; [by apply ok_same|].
  apply ok_or_return; [done| |done]. intros _ _. split; cbn.
  - revert Hc. inv_fields.
    + unfold outbox_ok in *. cbn. apply map_Forall_insert_2; [|done]. by rewrite copyEnvelope_id.
    + intros Hs. done.
  - constructor; cbn; auto.
    + right. split_and!; [done|lia|constructor].
    + right. apply ids_from_refl.
    + right. apply cache_le_refl.
    + right. intros id f Hf. left. rewrite lookup_insert_ne; [done|]. by intros ->; simplify_eq.
Qed.

Lemma ok_SendPing c g p now : client_inv c → step_ok c (SendPing c g p now).
Proof.
  intros Hc. unfold SendPing. destruct (negb _) eqn:Eg; [by apply ok_same|].
  destruct (_ || _) eqn:E; [by apply ok_same|].
  apply orb_false_iff in E as [[H _]%orb_false_iff _]. bools.
  apply ok_or_return; [done| |done]. intros _ _. ok_step.
  phase_of Hc. revert P. rewrite H. intros P. revert Hc. inv_fields.
  unfold phase_ok. cbn. rewrite H. destruct P as (? & ? & _ & _). split_and!; auto.
  intros ? [= <-]. cbn. lia.
Qed.

Lemma ok_CheckHeartbeat c g now : client_inv c → step_ok c (CheckHeartbeat c g now).
Proof.
  intros Hc. unfold CheckHeartbeat. destruct (negb _) eqn:Eg; [by apply ok_same|].
  destruct (c_pendingPing c) as [ping|] eqn:Ep; [|by apply ok_same].
  destruct (_ && _) eqn:E; bools.
  { ok_step. phase_of Hc. revert P. rewrite H. intros P. revert Hc. inv_fields.
    destruct P as (? & ? & ? & ?). unfold phase_ok. cbn. split_and!; auto. }
  clear E. destruct (_ && _); [|by apply ok_same]. ok_step. by apply inv_disconnected.
Qed.

Lemma ok_RetryPending c : client_inv c → step_ok c (c, RetryPending c).
Proof.
  intros Hc. apply ok_same; [done|]. unfold RetryPending. case_bool_decide; [|done].
  cbn. induction (sortStrings _); [done|]. cbn. done.
Qed.

(** ** Incoming frames *)

(** A handler either fails without touching the state, or makes a step. *)
Definition handler_ok (c : ClientProtocol) (out : ClientProtocol * res (list Action)) : Prop :=
  match out.2 with Ok acts => client_inv out.1 ∧ step_rel c out.1 acts | Err _ => out.1 = c end.

Lemma handler_quiet c c' acts :
  client_inv c' → same_session c c' → delivered acts = [] → handler_ok c (c', Ok acts).
Proof. intros. split; [done|by apply rel_quiet]. Qed.

Lemma handler_return {A} c (r : res A) k :
  (∀ a, r = Ok a → handler_ok c (k a)) → handler_ok c (or_return c r k).
Proof. intros Hk. destruct r; cbn; [by apply Hk|done]. Qed.

Ltac handler_step := apply handler_quiet; [|by repeat split|done].

Lemma ok_Pong c g frame : client_inv c → handler_ok c (handlePongLocked c g frame).
Proof.
  intros Hc. unfold handlePongLocked. destruct (_ && _) eqn:E; [done|].
  apply handler_return. intros payload _.
  destruct (c_pendingPing c) as [ping|] eqn:Ep; [|by handler_step].
  destruct (_ || _); [by handler_step|].
  assert (c_state c = StateReady ∨ c_state c = StateSuspect) as Hst.
  { apply andb_false_iff in E as [E|E]; bools; auto. }
  clear E. phase_of Hc. case_bool_decide as Hs; cbn in Hs; handler_step; revert Hc; inv_fields.
  - unfold phase_ok. cbn. rewrite Hs in P. destruct P as (? & ? & ? & ?). split_and!; auto; done.
  - unfold phase_ok. cbn. destruct Hst as [Hst|Hst]; [|done]. rewrite Hst in *.
    destruct P as (? & ? & ? & ?). split_and!; auto; done.
Qed.

Lemma ok_Ack c frame : client_inv c → handler_ok c (handleAckLocked c frame).
Proof.
  intros Hc. unfold handleAckLocked. destruct (_ && _) eqn:E; [done|].
  apply handler_return. intros payload _.
  destruct (c_outbox c !! ap_RefID payload) as [f|] eqn:Ef; [|by handler_step].
  split; cbn.
  - pose proof Hc as Hc'. revert Hc. inv_fields.
    + unfold outbox_ok in *. cbn. by apply map_Forall_delete.
    + intros Hs. destruct (inv_session0 Hs) as (? & Ho & ? & ?). split_and!; auto.
      cbn. rewrite Ho. apply delete_empty.
  - constructor; cbn; auto.
    + right. split_and!; [done|lia|constructor].
    + right. apply ids_from_refl.
    + right. apply cache_le_refl.
    + right. intros id f' Hf'. destruct (decide (id = ap_RefID payload)) as [->|]; [auto|].
      left. by rewrite lookup_delete_ne.
Qed.

Lemma delivered_app l k : delivered (l ++ k) = delivered l ++ delivered k.
Proof. apply omap_app. Qed.

Lemma delivered_map evs : delivered (map DeliverEventAction evs) = evs.
Proof. induction evs; cbn; [done|]. by f_equal. Qed.

Lemma delivered_state acts : Forall is_state_action acts → delivered acts = [].
Proof. induction 1 as [|a l Ha _ IH]; [done|]. by destruct a. Qed.

Lemma inv_stream c l ids :
  client_inv c → is_u64 l → c_sessionID c ≠ "" →
  ids_window (cc_EventIdentityWindow (c_config c)) l ids →
  (phase_ok c → phase_ok (c <| c_lastSeq := l |> <| c_eventIDs := ids |>)) →
  client_inv (c <| c_lastSeq := l |> <| c_eventIDs := ids |>).
Proof.
  intros Hc Hl Hs Hids Hph. revert Hc. inv_fields.
  - by destruct inv_seq0.
  - by intros ?%Hs.
  - by apply Hph.
Qed.

(** A complete staged replay is delivered as one ordered batch. *)
Lemma deliver_ready c :
  client_inv (readyLocked c) → c_sessionID c ≠ "" →
  map e_Seq (c_replayBuffer c) = seqZ (c_lastSeq c + 1) (Z.of_nat (length (c_replayBuffer c))) →
  c_lastSeq c + Z.of_nat (length (c_replayBuffer c)) ≤ MaxUint64 →
  let r := deliverReplay c in
  client_inv (readyLocked r.1) ∧ same_but_stream c r.1
  ∧ c_lastSeq r.1 = c_lastSeq c + Z.of_nat (length (c_replayBuffer c))
  ∧ r.2 = map DeliverEventAction (c_replayBuffer c)
  ∧ ids_from (c_replayBuffer c) (c_eventIDs c) (c_eventIDs r.1).
Proof.
  intros Hc Hs Hseq Hmax r. unfold r, deliverReplay.
  pose proof (inv_config _ Hc) as Hcfg. pose proof (inv_seq _ Hc) as [Hl _].
  pose proof (inv_ids _ Hc) as Hids. cbn in Hcfg, Hl, Hids.
  destruct (deliver_fold (c_replayBuffer c) c [] Hcfg ltac:(apply Hl) Hids Hseq)
    as (H1 & H2 & H3 & H4 & H5).
  set (d := (foldl _ _ _).1) in *. split_and!; [|done..].
  assert (readyLocked d
          = (readyLocked c) <| c_lastSeq := c_lastSeq d |> <| c_eventIDs := c_eventIDs d |>) as ->.
  { unfold same_but_stream in H1. rewrite H1 at 1. done. }
  apply inv_stream; [done| |done| |].
  - unfold is_u64 in *. lia.
  - done.
  - done.
Qed.

(** Delivery of a complete replay, as a step. *)
Lemma ok_deliver c0 c acts :
  client_inv (readyLocked c) → c_sessionID c ≠ "" →
  map e_Seq (c_replayBuffer c) = seqZ (c_lastSeq c + 1) (Z.of_nat (length (c_replayBuffer c))) →
  Forall (fun e => e_Type e = FrameEvent ∧ e_SessionID e = c_sessionID c) (c_replayBuffer c) →
  c_lastSeq c + Z.of_nat (length (c_replayBuffer c)) ≤ MaxUint64 →
  c_lastSeq c + Z.of_nat (length (c_replayBuffer c)) = c_replayTo c0 →
  c_config c = c_config c0 → c_sessionID c = c_sessionID c0 → c_capabilities c = c_capabilities c0 →
  c_lastSeq c = c_lastSeq c0 → cache_le (c_stateObjects c0) (c_stateObjects c) →
  c_outbox c = c_outbox c0 → c_eventIDs c = c_eventIDs c0 → delivered acts = [] →
  handler_ok c0 (let '(c, evs) := deliverReplay c in
                 let c := readyLocked c in (c, Ok (evs ++ acts ++ [SessionReadyAction (c_sessionID c)]))).
Proof.
  intros Hc Hs Hseq Hses Hmax Hto E1 E2 E3 E4 Hle E5 E6 Hacts.
  destruct (deliver_ready c Hc Hs Hseq Hmax) as (Hinv & Hsame & Hlast & Hd & Hids).
  destruct (deliverReplay c) as [c1 evs]. cbn in Hinv, Hsame, Hlast, Hd, Hids. subst evs.
  unfold same_but_stream in Hsame. split; [done|]. cbn.
  assert (delivered (map DeliverEventAction (c_replayBuffer c)
            ++ acts ++ [SessionReadyAction (c_sessionID c1)]) = c_replayBuffer c) as Hdel.
  { rewrite !delivered_app, delivered_map, Hacts. cbn. by rewrite app_nil_r. }
  constructor; rewrite ?Hdel; cbn.
  - by rewrite Hsame.
  - right; right. rewrite Hsame. done.
  - right. rewrite Hlast, <- E4. split_and!; [done..|].
    eapply Forall_impl; [done|]. intros e [_ ->]. rewrite Hsame. done.
  - right. rewrite app_assoc, last_snoc, Hlast. split_and!; [done..|]. rewrite Hsame. cbn. by rewrite E2.
  - right. by rewrite <- E6.
  - right. rewrite Hsame. done.
  - right. intros id f Hf. left. rewrite Hsame. cbn. by rewrite E5.
Qed.

Lemma buffer_bytes_app l k : buffer_bytes (l ++ k) = buffer_bytes l + buffer_bytes k.
Proof. unfold buffer_bytes. induction l; cbn; [done|]. cbn in IHl. lia. Qed.

(** Staging the next EVENT of a replay. *)
Lemma inv_stage c frame :
  client_inv c → c_state c = StateResuming → c_resumeEventsComplete c = false →
  e_Type frame = FrameEvent → e_SessionID frame = c_sessionID c →
  e_Seq frame = c_lastSeq c + Z.of_nat (length (c_replayBuffer c)) + 1 →
  e_Seq frame ≤ c_replayTo c →
  Z.of_nat (length (c_replayBuffer c)) + 1 ≤ cc_MaxReplayEvents (c_config c) →
  replayEventBytes frame ≤ cc_MaxReplayBytes (c_config c) - c_replayBytes c →
  let c' := c <| c_replayBuffer := c_replayBuffer c ++ [copyEnvelope frame] |>
              <| c_replayBytes := c_replayBytes c + replayEventBytes frame |> in
  client_inv (c' <| c_resumeEventsComplete := e_Seq frame =? c_replayTo c |>).
Proof.
  intros Hc Hst Hcf Hty Hsid Hseq Hle Hmax Hbmax c'.
  pose proof (inv_phase _ Hc) as Hph. unfold phase_ok in Hph. rewrite Hst in Hph.
  destruct Hph as (Hs & Hping & Hq & Hbuf & Hall & Hbytes & Hn & Hb & _ & _).
  revert Hc. inv_fields. unfold phase_ok, replay_ok. cbn. rewrite Hst, copyEnvelope_id.
  assert (Z.of_nat (length (c_replayBuffer c ++ [frame]))
          = Z.of_nat (length (c_replayBuffer c)) + 1) as Hlen by (rewrite length_app; cbn; lia).
  rewrite Hlen, map_app, Hbuf, seqZ_snoc by lia. cbn. split_and!; auto.
  - rewrite Hseq. do 2 f_equal. lia.
  - apply Forall_app. auto.
  - rewrite buffer_bytes_app, Hbytes. cbn. lia.
  - lia.
  - intros ?%Z.eqb_eq. lia.
  - intros ?%Z.eqb_neq. right. lia.
Qed.

Lemma ok_replay_event c frame :
  client_inv c → c_state c = StateResuming → is_u64 (e_Seq frame) → c_lastSeq c < e_Seq frame →
  e_Type frame = FrameEvent → e_SessionID frame = c_sessionID c →
  handler_ok c (handleReplayEvent c frame).
Proof.
  intros Hc Hst Hu Hgt Hty Hsid. unfold handleReplayEvent.
  destruct (Z.eqb_spec (c_replayTo c) 0) as [|Hto]; [by destruct (c_gapResume c); [handler_step|]|].
  destruct (_ || _) eqn:E; [done|]. bools. rename E into Hle.
  destruct (_ || _) eqn:E; bools.
  { handler_step. by apply inv_disconnected. }
  pose proof (inv_phase _ Hc) as Hph. unfold phase_ok in Hph. rewrite Hst in Hph.
  destruct Hph as (Hs & _ & _ & Hbuf & Hall & _ & _ & _ & Hcomp & Hpart).
  pose proof (inv_seq _ Hc) as [[Hl0 Hl1] [Ht0 Ht1]]. unfold is_u64 in Hu.
  assert (c_resumeEventsComplete c = false) as Hcf.
  { destruct (c_resumeEventsComplete c); [|done]. specialize (Hcomp eq_refl).
    destruct (decide (c_replayTo c = MaxUint64)) as [Hm|].
    - rewrite Hcomp, Hm in H. change (u64 (MaxUint64 + 1)) with 0 in H. lia.
    - rewrite u64_small in H; [lia|unfold is_u64; lia]. }
  destruct (Hpart Hcf) as [[? _]|Hlt]; [done|].
  rewrite u64_small in H by (unfold is_u64; lia).
  pose proof (inv_stage c frame Hc Hst Hcf Hty Hsid H Hle H0 E) as Hst'. cbn zeta in Hst'.
  set (c' := c <| c_replayBuffer := _ |> <| c_replayBytes := _ |>) in *.
  change (c_replayTo c') with (c_replayTo c).
  destruct (Z.eqb_spec (e_Seq frame) (c_replayTo c)) as [Heq|Hne]; cbn [negb].
  - destruct (0 <? _); [by handler_step|].
    apply (ok_deliver c c' []); try done.
    + exact ((fun Hs => inv_ready _ Hs Hst') Hs).
    + pose proof (inv_phase _ Hst') as Hph. unfold phase_ok in Hph. cbn in Hph. rewrite Hst in Hph.
      apply Hph.
    + pose proof (inv_phase _ Hst') as Hph. unfold phase_ok in Hph. cbn in Hph. rewrite Hst in Hph.
      apply Hph.
    + cbn. rewrite length_app. cbn. lia.
    + cbn. rewrite length_app. cbn. lia.
    + apply cache_le_refl.
  - handler_step.
    replace c' with (c' <| c_resumeEventsComplete := false |>); [done|].
    unfold c'. clear -Hcf. destruct c. cbn in *. by subst.
Qed.

Lemma ok_Event c frame now :
  client_inv c → is_u64 (e_Seq frame) → e_Type frame = FrameEvent → e_SessionID frame = c_sessionID c →
  handler_ok c (handleEventLocked c frame now).
Proof.
  intros Hc Hu Hty Hsid. unfold handleEventLocked.
  destruct (_ && _) eqn:E; [done|].
  assert (c_state c = StateReady ∨ c_state c = StateResuming) as Hst0
    by (apply andb_false_iff in E as [E|E]; bools; auto).
  clear E.
  destruct (Z.leb_spec (e_Seq frame) (c_lastSeq c)) as [|Hgt].
  { destruct (c_eventIDs c !! e_Seq frame); [|done]. case_bool_decide; [by handler_step|done]. }
  case_bool_decide as Hst; [by apply ok_replay_event|].
  destruct Hst0 as [Hr|]; [|done]. phase_of Hc. rewrite Hr in P. destruct P as (Hs & Hrest).
  pose proof (inv_seq _ Hc) as [[Hl0 Hl1] _]. unfold is_u64 in Hu.
  rewrite u64_small by (unfold is_u64; lia).
  destruct (Z.ltb_spec (c_lastSeq c + 1) (e_Seq frame)) as [|Hnext].
  { apply handler_return. intros _ _. handler_step. by apply inv_recovery. }
  assert (e_Seq frame = c_lastSeq c + 1) as He by lia. split; cbn.
  - change (rememberEventLocked _ _ _) with
      (c <| c_lastSeq := e_Seq frame |>
         <| c_eventIDs := c_eventIDs (rememberEventLocked c (e_Seq frame) (e_ID frame)) |>).
    apply inv_stream; [done|done|done| |unfold phase_ok; cbn; by rewrite Hr].
    rewrite He. apply ids_window_remember; [apply (inv_config _ Hc)|lia|apply (inv_ids _ Hc)].
  - rewrite copyEnvelope_id. constructor; cbn; auto.
    + right. rewrite He. auto.
    + done.
    + right. apply ids_from_remember.
    + right. apply cache_le_refl.
Qed.

Lemma inv_fixReplayBounds c to :
  client_inv c → c_state c = StateResuming → is_u64 to → c_lastSeq c ≤ to →
  client_inv (fixReplayBounds c to).
Proof.
  intros Hc Hst Hto Hle. phase_of Hc. rewrite Hst in P.
  destruct P as (Hs & Hping & Hq & _). revert Hc. inv_fields.
  - by destruct inv_seq0.
  - destruct inv_config0 as (? & ? & ? & ? & ?).
    unfold phase_ok, replay_ok. cbn. rewrite Hst. split_and!; auto.
    + intros ?%Z.eqb_eq. lia.
    + intros ?%Z.eqb_neq. right. lia.
Qed.

Lemma ok_new_session c frame caps :
  client_inv c → c_state c = StateHandshaking → e_SessionID frame ≠ "" →
  handler_ok c (establishSession c (e_SessionID frame) caps,
                Ok [SessionReadyAction (e_SessionID frame)]).
Proof.
  intros Hc Hst Hs. phase_of Hc. rewrite Hst in P. destruct P as [(Hping & Hq & Hr) Hsid].
  destruct (inv_session _ Hc Hsid) as (Hl & Hout & Hcaps & Hobjs).
  split; cbn.
  - revert Hc. inv_fields.
    + unfold outbox_ok. cbn. rewrite Hout. apply map_Forall_empty.
    + by intros ?.
    + solve_phase; try done; try apply Hr. rewrite Hping. by intros ? [=].
  - constructor; cbn; auto.
    + right. split_and!; [done|lia|constructor].
    + right. apply ids_from_refl.
    + right. apply cache_le_refl.
Qed.

Lemma ok_Welcome c frame : client_inv c → handler_ok c (handleWelcomeLocked c frame).
Proof.
  intros Hc. unfold handleWelcomeLocked. apply handler_return. intros payload Hp.
  destruct (decodePayload_Welcome_u64 _ _ _ Hp) as [_ Hto].
  destruct (c_state c) eqn:Hst; try done.
  - destruct (_ || _) eqn:E; [done|]. bools.
    apply handler_return. intros _ _. apply handler_return. intros caps _.
    by apply ok_new_session.
  - destruct (_ || _) eqn:E; [done|]. apply orb_false_iff in E as [_ Hle]. bools.
    destruct (_ && _); [done|]. destruct (_ && _); [done|].
    pose proof (inv_fixReplayBounds c _ Hc Hst Hto Hle) as Hf.
    assert (c_sessionID c ≠ "") as Hs by (phase_of Hc; rewrite Hst in P; apply P).
    destruct (_ <? _); [handler_step; by apply inv_disconnected|].
    destruct (_ =? _); [|by handler_step].
    destruct (0 <? _); [by handler_step|]. handler_step. by apply inv_ready.
Qed.

(** *** State frames *)

Lemma inv_cache_update c m b :
  client_inv c → c_sessionID c ≠ "" → cache_ok (c_config c) m b →
  client_inv (c <| c_stateObjects := m |> <| c_stateBytes := b |>).
Proof. intros Hc Hs Hm. revert Hc. by inv_fields. Qed.

Lemma rel_cache_update c c' acts :
  c_config c' = c_config c → c_sessionID c' = c_sessionID c → c_capabilities c' = c_capabilities c →
  c_lastSeq c' = c_lastSeq c → c_outbox c' = c_outbox c → c_eventIDs c' = c_eventIDs c →
  cache_le (c_stateObjects c) (c_stateObjects c') → Forall is_state_action acts →
  step_rel c c' acts.
Proof.
  intros H1 H2 H3 H4 H5 H6 Hle Hacts. pose proof (delivered_state _ Hacts) as Hd.
  constructor; rewrite ?Hd; auto.
  - right. cbn. split_and!; [done|lia|constructor].
  - right. rewrite H6. apply ids_from_refl.
  - right. rewrite H5. auto.
Qed.

Lemma apply_inv c objs c' r :
  client_inv c → c_sessionID c ≠ "" → applyStateObjectsLocked c objs = (c', r) →
  match r with
  | Err _ => c' = c
  | Ok acts =>
      client_inv c' ∧ c' = c <| c_stateObjects := c_stateObjects c' |> <| c_stateBytes := c_stateBytes c' |>
      ∧ cache_le (c_stateObjects c) (c_stateObjects c') ∧ Forall is_state_action acts
  end.
Proof.
  intros Hc Hs. unfold applyStateObjectsLocked.
  destruct (apply_loop _ _ _ _) as [[[m b] acts]|e] eqn:E; cbn; intros [= <- <-]; [|done].
  destruct (apply_loop_ok _ _ _ _ _ _ _ (inv_cache _ Hc) E) as (Hok & Hle & Hacts).
  split_and!; [by apply inv_cache_update|done..].
Qed.

Lemma ok_apply c objs :
  client_inv c → c_sessionID c ≠ "" → handler_ok c (applyStateObjectsLocked c objs).
Proof.
  intros Hc Hs. destruct (applyStateObjectsLocked c objs) as [c' r] eqn:E.
  apply apply_inv in E; [|done..]. destruct r as [acts|]; [|done].
  destruct E as (Hinv & He & Hle & Hacts). split; [done|]. cbn.
  apply rel_cache_update; try done; by rewrite He.
Qed.

Lemma ok_StateUpdate c frame : client_inv c → handler_ok c (handleStateUpdateLocked c frame).
Proof.
  intros Hc. unfold handleStateUpdateLocked. case_bool_decide as Hst; cbn; [|done].
  destruct (negb _); [done|]. apply handler_return. intros payload _.
  apply ok_apply; [done|]. phase_of Hc. rewrite Hst in P. apply P.
Qed.

Lemma ok_ResumeSnapshot c frame :
  client_inv c → c_state c = StateResuming → handler_ok c (handleResumeStateSnapshotLocked c frame).
Proof.
  intros Hc Hst. unfold handleResumeStateSnapshotLocked.
  destruct (_ || _); [done|]. destruct (c_resumeEventsComplete c) eqn:Hcomp; [|done]. cbn [negb].
  apply handler_return. intros payload _. destruct (existsb _ _); [done|].
  phase_of Hc. rewrite Hst in P.
  destruct P as (Hs & _ & _ & Hbuf & Hall & _ & _ & _ & Hto & _). specialize (Hto Hcomp).
  pose proof (inv_seq _ Hc) as [_ [_ Hmax]].
  destruct (applyStateObjectsLocked c _) as [c' r] eqn:E.
  apply apply_inv in E; [|done..]. destruct r as [acts|].
  - destruct E as (Hinv & He & Hle & Hacts).
    apply (ok_deliver c c' acts); try (by rewrite He).
    + apply inv_ready; [by rewrite He|done].
    + rewrite He. cbn. lia.
    + by apply delivered_state.
  - subst c'. handler_step. by apply inv_disconnected.
Qed.

Lemma ok_StateSnapshot c frame : client_inv c → handler_ok c (handleStateSnapshotLocked c frame).
Proof.
  intros Hc. unfold handleStateSnapshotLocked.
  case_bool_decide as Hst; [by apply ok_ResumeSnapshot|].
  case_bool_decide as Hr; cbn [negb]; [|done]. destruct (negb _); [done|].
  destruct (c_stateQueries c !! e_ID frame) as [query|]; [|done].
  apply handler_return. intros payload _. apply handler_return. intros _ _.
  phase_of Hc. rewrite Hr in P. destruct P as (Hs & _).
  destruct (applyStateObjectsLocked c _) as [c' r] eqn:E.
  apply apply_inv in E; [|done..]. destruct r as [acts|]; [|by subst].
  destruct E as (Hinv & He & Hle & Hacts). split; cbn.
  - phase_of Hinv. revert Hinv. inv_fields.
    unfold phase_ok. cbn. replace (c_state c') with StateReady in * by by rewrite He. done.
  - apply rel_cache_update; cbn; try done; by rewrite He.
Qed.

(** *** ERROR frames *)

Lemma rel_abandon c c' acts :
  c_config c' = c_config c → abandoned c' → delivered acts = [] → step_rel c c' acts.
Proof. intros. constructor; auto. Qed.

Lemma inv_forget_query c id :
  client_inv c → client_inv (c <| c_stateQueries := delete id (c_stateQueries c) |>).
Proof.
  intros Hc. phase_of Hc. revert Hc. inv_fields. unfold phase_ok, transient_clear in *. cbn.
  destruct (c_state c) eqn:Hst; try done.
  1-3: destruct P as (? & -> & ?); rewrite delete_empty; auto.
  - destruct P as ((? & -> & ?) & ?). rewrite delete_empty. auto.
  - destruct P as (? & ? & -> & ?). rewrite delete_empty. auto.
Qed.

Lemma ok_Error c frame : client_inv c → handler_ok c (handleErrorLocked c frame).
Proof.
  intros Hc. unfold handleErrorLocked.
  destruct (decodePayload _ _) as [payload|]; [|handler_step; by apply inv_disconnected].
  set (c1 := if er_RefID payload != "" then _ else c).
  assert (client_inv c1 ∧ same_session c c1) as [Hc1 Hs1].
  { unfold c1. destruct (er_RefID payload != "");
      (split; [by try apply inv_forget_query|by repeat split]). }
  clearbody c1. destruct (BehaviorForErrorCode _) as [behavior _].
  set (c2 := if c_state c1 == StateResuming then _ else c1).
  assert (client_inv c2 ∧ same_session c c2) as [Hc2 Hs2].
  { unfold c2. destruct (c_state c1 == StateResuming); [|done].
    split; [by apply inv_disconnected|eapply same_trans; [done|apply same_reset]]. }
  clearbody c2. cbn zeta.
  destruct (eb_AbandonSession behavior) eqn:Ea.
  - pose proof (inv_abandon _ Hc2) as Hc3. destruct Hs2 as [Hcfg _].
    destruct (_ || _ && _); (split; [auto using inv_disconnected|apply rel_abandon]);
      try done; cbn; by destruct (_ && _).
  - destruct (_ || _ && _); apply handler_quiet; auto using inv_disconnected.
    + cbn. by destruct (_ && _).
    + cbn. by destruct (_ && _).
Qed.

Lemma ok_HandleIncoming c g frame now :
  client_inv c → is_u64 (e_Seq frame) → step_ok c (HandleIncoming c g frame now).
Proof.
  intros Hc Hu. unfold HandleIncoming. destruct (negb _); [by apply ok_same|].
  destruct (ValidateFrame _ _ _) as [u|err].
  2:{ case_bool_decide; [|by apply ok_failure].
      apply ok_quiet; [by apply inv_disconnected|apply same_reset|done]. }
  destruct (_ && _); [by apply ok_failure|].
  destruct (_ && _) eqn:Esid; [by apply ok_failure|].
  assert (e_Type frame = FrameEvent → e_SessionID frame = c_sessionID c) as Hsid.
  { intros Hty. rewrite Hty in Esid.
    apply andb_false_iff in Esid as [[E|E]%andb_false_iff|E]; by bools. }
  clear Esid.
  match goal with |- step_ok c (let '(c', r) := ?h in _) =>
    enough (handler_ok c h) as H; [destruct h as [c' [acts|err]]; unfold handler_ok in H; cbn in H|]
  end.
  { done. }
  { subst c'. by apply ok_failure. }
  repeat case_bool_decide; auto using ok_Welcome, ok_Pong, ok_Ack, ok_StateSnapshot,
    ok_StateUpdate, ok_Error, ok_Event; done.
Qed.

(** Every step of the client keeps the invariant and has the effect [step_rel]. *)
Lemma client_step_ok c op : client_inv c → op_typed op → step_ok c (client_step c op).
Proof.
  intros Hc Ht. destruct op; cbn [client_step].
  - by apply ok_BeginConnect.
  - by apply ok_TransportConnected.
  - by apply ok_StartSession.
  - by apply ok_startResume.
  - by apply ok_ResumeWithState.
  - by apply ok_Disconnect.
  - by apply ok_QueryState.
  - by apply ok_EnqueueSend.
  - by apply ok_RetryPending.
  - by apply ok_SendPing.
  - by apply ok_CheckHeartbeat.
  - by apply ok_HandleIncoming.
Qed.

End steps.

#[export] Hint Resolve inv_disconnected inv_failure same_refl same_reset same_trans ok_same : kmt.
