(* ===== verification/ClientProps.v ===== *)
(** * What the client guarantees

    Runs of the client from [NewClientProtocol] under any sequence of calls
    and incoming frames: the invariant, the delivered EVENT stream, the
    all-or-nothing replay, the outbox, the State cache, connection
    generations and heartbeat. *)

From Stdlib Require Import Ascii String.
From S2P Require Import Prelude Utf8 Json Types Codec Capability State Validate Client SortedLists SortStrings ClientInv ClientSteps.
Open Scope string_scope.
Open Scope list_scope.
Open Scope go_scope.
Open Scope Z_scope.

(** ** Runs *)

(** The [uint64] fields of a configuration. *)
Definition config_typed (config : ClientConfig) : Prop :=
  is_u64 (cc_MaxReplayEvents config) ∧ is_u64 (cc_EventIdentityWindow config).

Section runs.
Context {ST : StdText}.

(** States the client can get into. *)
Inductive client_reachable : ClientProtocol → Prop :=
| reach_new config c :
    config_typed config → NewClientProtocol config = Ok c → client_reachable c
| reach_step c op : client_reachable c → op_typed op → client_reachable (client_step c op).1.

(** Run a sequence of calls, keeping the EVENTs delivered in the present
    Session. *)
Fixpoint client_run (c : ClientProtocol) (log : list Envelope) (ops : list ClientOp)
  : ClientProtocol * list Envelope :=
  match ops with
  | [] => (c, log)
  | op :: ops =>
      let '(c', r) := client_step c op in
      client_run c' (if c_sessionID c' == "" then [] else log ++ delivered (actions_of r)) ops
  end.

Lemma new_inv config c : config_typed config → NewClientProtocol config = Ok c → client_inv c.
Proof.
  intros [Hev Hwin] H. unfold NewClientProtocol in H. inv_ok. bools.
  assert (∀ v d, 0 ≤ v → 0 < d → 0 < or_default v d) as Hdef.
  { intros v d ? ?. unfold or_default. destruct (Z.eqb_spec v 0); lia. }
  constructor; cbn.
  - unfold config_ok. cbn. unfold is_u64 in *. cbn in *.
    split_and!; try lia; [|apply Z.lt_le_incl]; apply Hdef; (lia||done).
  - apply is_u64_0.
  - auto using is_u64_0.
  - apply ids_window_empty.
  - split_and!; [done|rewrite map_size_empty; cbn in *; lia|cbn in *; lia|apply map_Forall_empty].
  - apply map_Forall_empty.
  - done.
  - repeat split.
Qed.

Lemma reachable_inv c : client_reachable c → client_inv c.
Proof.
  induction 1 as [config c Ht Hn|c op _ IH Ht]; [by eapply new_inv|].
  by apply client_step_ok.
Qed.

(** The log is exactly the stream up to [lastSeq], and the remembered
    identities are those of its EVENTs. *)
Definition stream_log (c : ClientProtocol) (log : list Envelope) : Prop :=
  map e_Seq log = seqZ 1 (c_lastSeq c) ∧ Forall (fun e => e_SessionID e = c_sessionID c) log
  ∧ ids_from log ∅ (c_eventIDs c).

Lemma stream_log_step c op log :
  client_inv c → op_typed op → stream_log c log →
  let '(c', r) := client_step c op in
  stream_log c' (if c_sessionID c' == "" then [] else log ++ delivered (actions_of r)).
Proof.
  intros Hc Ht (Hseq & Hsid & Hids). destruct (client_step_ok c op Hc Ht) as [Hc' Hrel].
  destruct (client_step c op) as [c' r]. cbn in Hc', Hrel.
  case_bool_decide as Hs.
  { destruct (inv_session _ Hc' Hs) as (Hl & _). split_and!; [by rewrite Hl|constructor|].
    intros s id Hid. assert (is_Some (c_eventIDs c' !! s)) as Hsome by by eexists.
    apply (inv_ids _ Hc') in Hsome. lia. }
  destruct Hrel as [_ Hses [[? _]|(Hd & Hl & Hall)] _ [?|Hids'] _ _]; [done..|].
  pose proof (inv_seq _ Hc) as [[? _] _]. split_and!; [| |by eapply ids_from_trans].
  - rewrite map_app, Hseq, Hd, Hl, seqZ_app by lia. do 2 f_equal. lia.
  - apply Forall_app. split; [|done]. destruct Hses as [Ha|[Ha|[-> _]]]; [|done|done].
    destruct (inv_session _ Hc Ha) as (Hl0 & _). rewrite Hl0 in Hseq.
    destruct log; [constructor|done].
Qed.

Lemma stream_log_run c log ops :
  client_inv c → Forall op_typed ops → stream_log c log →
  client_inv (client_run c log ops).1 ∧ stream_log (client_run c log ops).1 (client_run c log ops).2.
Proof.
  revert c log. induction ops as [|op ops IH]; intros c log Hc Ht Hlog; [done|].
  inversion_clear Ht as [|?? Hop Hops]. cbn.
  pose proof (stream_log_step c op log Hc Hop Hlog) as Hstep.
  pose proof (client_step_ok c op Hc Hop) as [Hc' _].
  destruct (client_step c op) as [c' r]. by apply IH.
Qed.

Lemma stream_log_new config c : NewClientProtocol config = Ok c → stream_log c [].
Proof.
  intros Hnew. unfold NewClientProtocol in Hnew. inv_ok. split_and!; [done|constructor|].
  intros s id. by rewrite lookup_empty.
Qed.

End runs.

(** ** A concrete run

    Handshake, an EVENT, a gap, and the recovery that fills it. *)

Definition demo_frame (type id sid : string) (seq : Z) (payload : string) : Envelope :=
  mkEnvelope WireVersionV2 type id sid seq 1000 (js payload).
Definition demo_event (seq : Z) (id : string) : Envelope :=
  demo_frame FrameEvent id "s1" seq "{'event_type':'t','content':{'n':1}}".

Definition demo_connect : list ClientOp :=
  [OpBeginConnect; OpTransportConnected 1; OpStartSession 1 "demo";
   OpHandleIncoming 1 (demo_frame FrameWelcome "" "s1" 0
     "{'mode':'NEW','server_time':1000,'accepted_capabilities':[]}") 0].
Definition demo_gap : list ClientOp :=
  [OpHandleIncoming 1 (demo_event 1 "e1") 0; OpEnqueueSend "m1" (js "{'x':1}") 0;
   OpHandleIncoming 1 (demo_event 3 "e3") 0;
   OpHandleIncoming 1 (demo_frame FrameWelcome "" "s1" 0
     "{'mode':'RESUMED','server_time':1000,'resume_from':2,'replay_to':3}") 0;
   OpHandleIncoming 1 (demo_event 2 "e2") 0].

Definition demo_client : ClientProtocol :=
  match NewClientProtocol DefaultClientConfig with
  | Ok c => c
  | Err _ => mkClient DefaultClientConfig StateDisconnected 0 "" 0 ∅ ∅ None 0 zeroCapabilities ∅ 0 ∅
               0 [] 0 [] false false
  end.
Definition demo_run (ops : list ClientOp) : ClientProtocol * list Envelope :=
  client_run (ST:=demo_text) demo_client [] ops.
Definition demo_before : ClientProtocol := (demo_run (demo_connect ++ demo_gap)).1.
Definition demo_ready : ClientProtocol := (demo_run demo_connect).1.

Lemma demo_new : NewClientProtocol DefaultClientConfig = Ok demo_client.
Proof. vm_compute. reflexivity. Qed.

Lemma demo_typed : config_typed DefaultClientConfig.
Proof. vm_compute. repeat split; congruence. Qed.

Lemma ops_typed_all ops :
  forallb (fun op => match op with OpHandleIncoming _ f _ => bool_decide (is_u64 (e_Seq f)) | _ => true end) ops = true →
  Forall op_typed ops.
Proof.
  intros H. apply List.Forall_forall. intros op Hop. eapply forallb_forall in H; [|exact Hop].
  destruct op; try exact I. by apply bool_decide_eq_true in H.
Qed.

Lemma demo_ops_typed : Forall op_typed (demo_connect ++ demo_gap).
Proof. repeat constructor; vm_compute; congruence. Qed.

Lemma client_run_reachable {ST : StdText} c log ops :
  client_reachable c → Forall op_typed ops → client_reachable (client_run c log ops).1.
Proof.
  revert c log. induction ops as [|op ops IH]; intros c log Hc Ht; [done|].
  inversion_clear Ht. cbn. pose proof (reach_step c op Hc) as Hc'.
  destruct (client_step c op) as [c' r]. apply IH; [by apply Hc'|done].
Qed.

Lemma demo_reachable : client_reachable (ST:=demo_text) demo_before.
Proof.
  apply client_run_reachable; [|apply demo_ops_typed].
  exact (reach_new _ _ demo_typed demo_new).
Qed.

Lemma demo_ready_reachable : client_reachable (ST:=demo_text) demo_ready.
Proof.
  apply client_run_reachable; [|repeat constructor; vm_compute; congruence].
  exact (reach_new _ _ demo_typed demo_new).
Qed.

(** ** The delivered stream *)

(** C3. In every run of a client, under any calls and any incoming frames,
    the EVENTs delivered in the present Session carry exactly the sequences
    1, 2, ..., lastSeq, each once and in order, and all belong to that
    Session. *)
Theorem client_stream_exact {ST : StdText} config c ops :
  config_typed config → NewClientProtocol config = Ok c → Forall op_typed ops →
  let '(c', log) := client_run c [] ops in
  map e_Seq log = seqZ 1 (c_lastSeq c') ∧ Forall (fun e => e_SessionID e = c_sessionID c') log.
Proof.
  intros Hcfg Hnew Hops. pose proof (new_inv _ _ Hcfg Hnew) as Hc.
  destruct (stream_log_run c [] ops Hc Hops (stream_log_new _ _ Hnew)) as (_ & Hseq & Hall & _).
  by destruct (client_run c [] ops).
Qed.

Lemma client_stream_exact_witness :
  let '(c', log) := demo_run (demo_connect ++ demo_gap) in
  map e_Seq log = seqZ 1 (c_lastSeq c') ∧ Forall (fun e => e_SessionID e = c_sessionID c') log.
Proof.
  exact (client_stream_exact (ST:=demo_text) DefaultClientConfig demo_client _ demo_typed demo_new
           demo_ops_typed).
Defined.

(** C20. Every state a client can reach satisfies the invariant: the identity
    window is exactly the last [EventIdentityWindow] sequences, the staged
    replay is a contiguous continuation of [lastSeq] within its event and
    byte limits, the State cache has an exact byte count within its limits,
    and connection-scoped data exists only in the states that use it. *)
Theorem client_reachable_inv {ST : StdText} c : client_reachable c → client_inv c.
Proof. apply reachable_inv. Qed.

Lemma client_reachable_inv_witness : client_inv demo_before.
Proof. exact (client_reachable_inv (ST:=demo_text) demo_before demo_reachable). Defined.

(** C19. While the client is RESUMING, a step delivers nothing, or it delivers
    the whole missing range up to the high-water mark fixed by the WELCOME, in
    order, leaves the client READY, and ends with the SessionReady action: a
    partial replay is never delivered. *)
Theorem client_replay_atomic {ST : StdText} c op c' r :
  client_reachable c → op_typed op → c_state c = StateResuming →
  client_step c op = (c', r) → delivered (actions_of r) ≠ [] →
  c_state c' = StateReady ∧ c_lastSeq c' = c_replayTo c
  ∧ map e_Seq (delivered (actions_of r)) = seqZ (c_lastSeq c + 1) (c_replayTo c - c_lastSeq c)
  ∧ last (actions_of r) = Some (SessionReadyAction (c_sessionID c)).
Proof.
  intros Hc%reachable_inv Ht Hst Hstep Hd. pose proof (client_step_ok c op Hc Ht) as [_ Hrel].
  rewrite Hstep in Hrel. cbn in Hrel.
  destruct (rel_replay _ _ _ Hrel Hst) as [?|(Hr & Hl & Hlast)]; [done|].
  destruct (rel_stream _ _ _ Hrel) as [[_ ?]|(Hseq & Hn & _)]; [done|].
  split_and!; [done..| |done]. rewrite Hseq. f_equal. lia.
Qed.

Definition demo_last : ClientProtocol * res (list Action) :=
  client_step (ST:=demo_text) demo_before (OpHandleIncoming 1 (demo_event 3 "e3") 0).

Lemma client_replay_atomic_witness :
  map e_Seq (delivered (actions_of demo_last.2)) = [2; 3] ∧ c_state demo_last.1 = StateReady.
Proof.
  pose proof (client_replay_atomic (ST:=demo_text) demo_before
    (OpHandleIncoming 1 (demo_event 3 "e3") 0) demo_last.1 demo_last.2 demo_reachable) as H.
  destruct H as (Hr & _ & Hseq & _).
  - vm_compute. split; congruence.
  - vm_compute. reflexivity.
  - unfold demo_last. by destruct (client_step _ _).
  - vm_compute. congruence.
  - split; [|exact Hr]. rewrite Hseq. vm_compute. reflexivity.
Defined.

(** The identities kept for recognising repeated EVENTs are bounded: their
    number is exactly the smaller of [lastSeq] and [EventIdentityWindow]. *)
Theorem client_identity_window {ST : StdText} c :
  client_reachable c →
  Z.of_nat (size (c_eventIDs c)) = Z.min (c_lastSeq c) (cc_EventIdentityWindow (c_config c)).
Proof.
  intros Hc%reachable_inv. pose proof (inv_seq _ Hc) as [[Hl _] _].
  destruct (inv_config _ Hc) as (Hw & _).
  set (w := cc_EventIdentityWindow (c_config c)) in *. set (l := c_lastSeq c) in *.
  assert (dom (c_eventIDs c) = list_to_set (seqZ (l - Z.min l w + 1) (Z.min l w))) as Hdom.
  { apply set_eq. intros s. rewrite elem_of_dom, elem_of_list_to_set, elem_of_seqZ.
    rewrite (inv_ids _ Hc s). fold w l. lia. }
  rewrite <- size_dom, Hdom, size_list_to_set by apply NoDup_seqZ.
  rewrite length_seqZ. lia.
Qed.

Lemma client_identity_window_witness : size (c_eventIDs demo_before) = 1%nat.
Proof.
  pose proof (client_identity_window (ST:=demo_text) demo_before demo_reachable) as H.
  apply Nat2Z.inj. rewrite H. vm_compute. reflexivity.
Defined.

(** ** Connection generations *)

Definition op_generation (op : ClientOp) : option ConnectionGeneration :=
  match op with
  | OpTransportConnected g | OpStartSession g _ | OpResume g _ | OpResumeWithState g _ _
  | OpDisconnect g | OpSendPing g _ _ | OpCheckHeartbeat g _ | OpHandleIncoming g _ _ => Some g
  | _ => None
  end.

(** A call or frame that carries the generation of an earlier connection
    changes nothing and fails with ErrStaleConnection. *)
Theorem client_stale_generation {ST : StdText} c op g :
  op_generation op = Some g → g ≠ c_generation c →
  client_step c op = (c, Err ErrStaleConnection).
Proof.
  intros Hg Hne%Z.eqb_neq. destruct op; cbn in Hg; simplify_eq; cbn;
    unfold TransportConnected, StartSession, Resume, ResumeWithState, startResumeLocked, Disconnect,
      SendPing, CheckHeartbeat, HandleIncoming; by rewrite Hne.
Qed.

Lemma client_stale_generation_witness :
  client_step (ST:=demo_text) demo_before (OpHandleIncoming 0 (demo_event 3 "e3") 0)
  = (demo_before, Err ErrStaleConnection).
Proof.
  apply (client_stale_generation (ST:=demo_text) demo_before _ 0); [reflexivity|].
  vm_compute. congruence.
Defined.

(** ** Session data over a run *)

Section session_runs.
Context {ST : StdText}.

(** All actions of a run, and whether the Session lives through it. *)
Fixpoint client_trace (c : ClientProtocol) (ops : list ClientOp) : ClientProtocol * list Action :=
  match ops with
  | [] => (c, [])
  | op :: ops =>
      let '(c', r) := client_step c op in
      let '(c'', acts) := client_trace c' ops in
      (c'', actions_of r ++ acts)
  end.
Fixpoint session_kept (c : ClientProtocol) (ops : list ClientOp) : bool :=
  match ops with
  | [] => true
  | op :: ops => let c' := (client_step c op).1 in (c_sessionID c' != "") && session_kept c' ops
  end.

(** Induction over the steps of a run that keeps its Session. *)
Lemma session_ind (P : ClientProtocol → ClientProtocol → list Action → Prop) :
  (∀ c, P c c []) →
  (∀ c c' c'' acts acts', c_sessionID c' ≠ "" → step_rel c c' acts → P c' c'' acts' →
     P c c'' (acts ++ acts')) →
  ∀ c ops, client_inv c → Forall op_typed ops → session_kept c ops = true →
  P c (client_trace c ops).1 (client_trace c ops).2.
Proof.
  intros Hnil Hcons c ops. revert c. induction ops as [|op ops IH]; intros c Hc Ht Hk; cbn.
  { apply Hnil. }
  inversion_clear Ht as [|?? Hop Hops]. pose proof (client_step_ok c op Hc Hop) as [Hc' Hrel].
  cbn in Hk. bools. destruct (client_step c op) as [c' r]. cbn in *.
  specialize (IH c' Hc' Hops Hk). destruct (client_trace c' ops) as [c'' acts].
  by apply (Hcons c c').
Qed.
End session_runs.

(** C25. A SEND accepted into the outbox stays there, unchanged, through every
    disconnection, resume and failure, until its ACK is reported, as long as
    the Session is not abandoned. *)
Theorem client_outbox_until_ack {ST : StdText} c ops id f :
  client_reachable c → Forall op_typed ops → session_kept c ops = true →
  c_outbox c !! id = Some f →
  c_outbox (client_trace c ops).1 !! id = Some f ∨ In (AckedAction id) (client_trace c ops).2.
Proof.
  intros Hc%reachable_inv Ht Hk. revert c ops Hc Ht Hk.
  apply (session_ind (fun c c' acts => c_outbox c !! id = Some f →
    c_outbox c' !! id = Some f ∨ In (AckedAction id) acts)); [auto|].
  intros c c' c'' acts acts' Hs Hrel IH Hf. rewrite in_app_iff.
  destruct (rel_outbox _ _ _ Hrel) as [?|Ho]; [done|].
  destruct (Ho _ _ Hf) as [Hf'|]; [|auto]. destruct (IH Hf'); auto.
Qed.

Definition demo_reconnect : list ClientOp :=
  [OpDisconnect 1; OpBeginConnect; OpTransportConnected 2; OpResume 2 5].

Lemma client_outbox_until_ack_witness :
  is_Some (c_outbox (client_trace (ST:=demo_text) demo_before demo_reconnect).1 !! "m1")
  ∨ In (AckedAction "m1") (client_trace (ST:=demo_text) demo_before demo_reconnect).2.
Proof.
  destruct (c_outbox demo_before !! "m1") as [f|] eqn:Hf.
  - destruct (client_outbox_until_ack (ST:=demo_text) demo_before demo_reconnect "m1" f) as [H|H].
    + exact demo_reachable.
    + repeat constructor.
    + vm_compute. reflexivity.
    + exact Hf.
    + left. rewrite H. by eexists.
    + by right.
  - vm_compute in Hf. discriminate.
Defined.

(** C26. As long as the Session is not abandoned, its identifier and its
    negotiated capabilities are immutable, and no retained State object is
    lost or goes back to an earlier version. *)
Theorem client_session_monotone {ST : StdText} c ops :
  client_reachable c → Forall op_typed ops → c_sessionID c ≠ "" → session_kept c ops = true →
  let c' := (client_trace c ops).1 in
  c_sessionID c' = c_sessionID c ∧ c_capabilities c' = c_capabilities c
  ∧ cache_le (c_stateObjects c) (c_stateObjects c').
Proof.
  intros Hc%reachable_inv Ht Hs Hk. cbn zeta. revert c ops Hc Ht Hk Hs.
  apply (session_ind (fun c c' _ => c_sessionID c ≠ "" →
    c_sessionID c' = c_sessionID c ∧ c_capabilities c' = c_capabilities c
    ∧ cache_le (c_stateObjects c) (c_stateObjects c'))).
  { auto using cache_le_refl. }
  intros c c' c'' acts acts' Hs' Hrel IH Hs. destruct (IH Hs') as (-> & -> & Hle).
  destruct (rel_session _ _ _ Hrel) as [?|[?|[-> ->]]]; [done..|]. split_and!; [done..|].
  destruct (rel_cache _ _ _ Hrel) as [?|Hle']; [done|]. by eapply cache_le_trans.
Qed.

Lemma client_session_monotone_witness :
  c_sessionID (client_trace (ST:=demo_text) demo_before demo_reconnect).1 = "s1".
Proof.
  destruct (client_session_monotone (ST:=demo_text) demo_before demo_reconnect) as (H & _ & _).
  - exact demo_reachable.
  - repeat constructor.
  - vm_compute. congruence.
  - vm_compute. reflexivity.
  - rewrite H. vm_compute. reflexivity.
Defined.

(** In READY, RetryPending resends exactly the SENDs of the outbox, each
    once, unchanged, in increasing order of their ids, whatever the iteration
    order of the map. *)
Theorem client_retry_pending {ST : StdText} c :
  client_reachable c → c_state c = StateReady →
  ∃ frames, RetryPending c = Ok (map SendFrameAction frames)
    ∧ Sorted str_lt (map e_ID frames)
    ∧ ∀ f, f ∈ frames ↔ c_outbox c !! e_ID f = Some f.
Proof.
  intros Hc%reachable_inv Hst. unfold RetryPending. rewrite bool_decide_true by done. cbn.
  destruct (sortStrings_spec (map fst (map_to_list (c_outbox c)))) as [Hsorted Hperm].
  set (ids := sortStrings _) in *.
  set (get := fun id => default zeroEnvelope (c_outbox c !! id)).
  assert (∀ id, id ∈ ids ↔ is_Some (c_outbox c !! id)) as Hin.
  { intros id. rewrite Hperm. change (map fst ?l) with (l.*1). rewrite list_elem_of_fmap. split.
    - intros ([k f] & -> & Hk%elem_of_map_to_list). by eexists.
    - intros [f Hf]. exists (id, f). split; [done|]. by apply elem_of_map_to_list. }
  assert (∀ id, id ∈ ids → c_outbox c !! id = Some (get id) ∧ e_ID (get id) = id) as Hget.
  { intros id [f Hf]%Hin. unfold get. rewrite Hf. cbn. split; [done|].
    by destruct (inv_outbox _ Hc id f Hf). }
  assert (map e_ID (map get ids) = ids) as Hids.
  { rewrite map_map. rewrite <- (map_id ids) at 2. apply map_ext_in.
    intros id Hid%list_elem_of_In. by apply Hget. }
  exists (map get ids). split_and!.
  - rewrite map_map. f_equal. apply map_ext. intros id. by rewrite copyEnvelope_id.
  - rewrite Hids. apply StronglySorted_Sorted, sorted_strict; [done|]. rewrite Hperm. apply NoDup_fst_map_to_list.
  - intros f. change (map get ids) with (get <$> ids). rewrite list_elem_of_fmap. split.
    + intros (id & -> & Hid). destruct (Hget id Hid) as [? Hk]. by rewrite Hk.
    + intros Hf. exists (e_ID f). unfold get. rewrite Hf. split; [done|]. apply Hin. by eexists.
Qed.

Definition demo_done : ClientProtocol :=
  (demo_run (demo_connect ++ demo_gap ++ [OpHandleIncoming 1 (demo_event 3 "e3") 0])).1.

Lemma demo_done_reachable : client_reachable (ST:=demo_text) demo_done.
Proof.
  apply client_run_reachable; [|repeat constructor; vm_compute; congruence].
  exact (reach_new _ _ demo_typed demo_new).
Qed.

Lemma client_retry_pending_witness :
  ∃ frames, RetryPending demo_done = Ok (map SendFrameAction frames) ∧ Sorted str_lt (map e_ID frames).
Proof.
  destruct (client_retry_pending (ST:=demo_text) demo_done) as (frames & H1 & H2 & _).
  - exact demo_done_reachable.
  - vm_compute. reflexivity.
  - exists frames. split; [exact H1|exact H2].
Defined.


(** ** One incoming EVENT *)

Lemma log_nth c log e :
  stream_log c log → In e log → 0 ≤ c_lastSeq c → 1 ≤ e_Seq e ≤ c_lastSeq c.
Proof.
  intros (Hseq & _ & _) Hin Hl. apply (in_map e_Seq) in Hin. rewrite Hseq in Hin.
  apply list_elem_of_In, elem_of_seqZ in Hin. lia.
Qed.

(** A repeated EVENT whose sequence is still inside the identity window
    is ignored when its id is the id delivered with that sequence, and is a
    protocol conflict otherwise; the state does not change. *)
Theorem client_duplicate_event {ST : StdText} config c0 ops e frame now :
  config_typed config → NewClientProtocol config = Ok c0 → Forall op_typed ops →
  let '(c, log) := client_run c0 [] ops in
  c_state c = StateReady → In e log → c_lastSeq c - cc_EventIdentityWindow (c_config c) < e_Seq e →
  e_Seq frame = e_Seq e →
  handleEventLocked c frame now
  = (c, if e_ID frame == e_ID e then Ok [] else Err ErrProtocolConflict).
Proof.
  intros Hcfg Hnew Hops. pose proof (new_inv _ _ Hcfg Hnew) as Hc0.
  destruct (stream_log_run c0 [] ops Hc0 Hops (stream_log_new _ _ Hnew)) as [Hc Hlog].
  destruct (client_run c0 [] ops) as [c log]. cbn in Hc, Hlog. intros Hst Hin Hwin Hsame.
  pose proof (inv_seq _ Hc) as [[Hl _] _]. pose proof (log_nth _ _ _ Hlog Hin Hl) as Hrange.
  unfold handleEventLocked. rewrite Hst, Hsame.
  change ((StateReady != StateReady) && (StateReady != StateResuming)) with false. cbn match.
  rewrite (proj2 (Z.leb_le _ _)) by lia.
  destruct (proj2 (inv_ids _ Hc (e_Seq e)) ltac:(lia)) as [known Hknown]. rewrite Hknown.
  destruct Hlog as (Hseq & _ & Hids).
  destruct (Hids _ _ Hknown) as [?|(e' & Hin' & Hs' & Hid')]; [done|].
  assert (e' = e) as ->; [|subst known].
  { apply list_elem_of_In, list_elem_of_lookup in Hin as [i Hi].
    apply list_elem_of_In, list_elem_of_lookup in Hin' as [j Hj].
    assert (i = j); [|by simplify_eq].
    eapply (NoDup_lookup (seqZ 1 (c_lastSeq c))); [apply NoDup_seqZ|..]; rewrite <- Hseq;
      change (map e_Seq log) with (e_Seq <$> log); rewrite list_lookup_fmap.
    - by rewrite Hi.
    - rewrite Hj. cbn. by rewrite Hs'. }
  repeat case_bool_decide; congruence.
Qed.

(** A new EVENT in READY: the next sequence is delivered and recorded;
    a later one starts a recovery that sends one RESUME for [lastSeq] and
    delivers nothing (or fails without a change when that RESUME would not be
    a valid frame); one that fell out of the identity window is refused. *)
Theorem client_event_cases {ST : StdText} c frame now :
  client_reachable c → c_state c = StateReady → is_u64 (e_Seq frame) →
  (e_Seq frame = c_lastSeq c + 1 →
     let c' := (handleEventLocked c frame now).1 in
     (handleEventLocked c frame now).2 = Ok [DeliverEventAction frame]
     ∧ c_state c' = StateReady ∧ c_lastSeq c' = e_Seq frame
     ∧ c_eventIDs c' !! e_Seq frame = Some (e_ID frame))
  ∧ (c_lastSeq c + 1 < e_Seq frame →
     handleEventLocked c frame now
       = (beginRecoveryLocked c [] true, Ok [SendFrameAction (resumeFrameLocked c [] now)])
     ∨ ∃ err, handleEventLocked c frame now = (c, Err err))
  ∧ (e_Seq frame ≤ c_lastSeq c - cc_EventIdentityWindow (c_config c) →
     handleEventLocked c frame now = (c, Err ErrIdentityExpired)).
Proof.
  intros Hc%reachable_inv Hst Hu. unfold is_u64 in Hu.
  pose proof (inv_seq _ Hc) as [[Hl0 Hl1] _]. destruct (inv_config _ Hc) as (Hw & _).
  unfold handleEventLocked. rewrite Hst.
  change ((StateReady != StateReady) && (StateReady != StateResuming)) with false.
  change (StateReady == StateResuming) with false. cbn. split_and!; intros H.
  - rewrite (proj2 (Z.leb_gt _ _)) by lia. rewrite u64_small by (unfold is_u64; lia).
    rewrite (proj2 (Z.ltb_ge _ _)) by lia. cbn. rewrite copyEnvelope_id.
    split_and!; [done..|]. destruct (Z.ltb_spec (cc_EventIdentityWindow (c_config c)) (e_Seq frame)).
    + rewrite lookup_delete_ne by lia. apply lookup_insert_eq.
    + apply lookup_insert_eq.
  - rewrite (proj2 (Z.leb_gt _ _)) by lia. rewrite u64_small by (unfold is_u64; lia).
    rewrite (proj2 (Z.ltb_lt _ _)) by lia.
    destruct (validateOutboundFrame _ _ _) as [u|err]; cbn; [by left|right; by exists err].
  - rewrite (proj2 (Z.leb_le _ _)) by lia.
    destruct (c_eventIDs c !! e_Seq frame) eqn:E; [|done].
    assert (is_Some (c_eventIDs c !! e_Seq frame)) as Hs by by eexists.
    apply (inv_ids _ Hc) in Hs. lia.
Qed.

Lemma client_duplicate_event_witness :
  handleEventLocked (ST:=demo_text) demo_done (demo_event 2 "other") 0
  = (demo_done, Err ErrProtocolConflict).
Proof.
  pose proof (client_duplicate_event (ST:=demo_text) DefaultClientConfig demo_client
    (demo_connect ++ demo_gap ++ [OpHandleIncoming 1 (demo_event 3 "e3") 0])
    (demo_event 2 "e2") (demo_event 2 "other") 0 demo_typed demo_new) as H.
  unfold demo_done, demo_run. destruct (client_run _ _ _) as [c log] eqn:E.
  assert (c_state c = StateReady ∧ c_lastSeq c = 3
          ∧ cc_EventIdentityWindow (c_config c) = DefaultEventIdentityWindow
          ∧ log = [demo_event 1 "e1"; demo_event 2 "e2"; demo_event 3 "e3"]) as (H1 & H2 & H3 & H4).
  { vm_compute in E. injection E as <- <-. vm_compute. repeat split. }
  apply H.
  - repeat constructor; vm_compute; congruence.
  - exact H1.
  - rewrite H4. cbn. auto.
  - rewrite H2, H3. vm_compute. reflexivity.
  - reflexivity.
Defined.

Lemma client_event_cases_witness :
  (handleEventLocked (ST:=demo_text) demo_done (demo_event 4 "e4") 0).2
  = Ok [DeliverEventAction (demo_event 4 "e4")].
Proof.
  destruct (client_event_cases (ST:=demo_text) demo_done (demo_event 4 "e4") 0) as [H _].
  - exact demo_done_reachable.
  - vm_compute. reflexivity.
  - vm_compute. split; congruence.
  - destruct H as [H _]; [vm_compute; reflexivity|exact H].
Defined.

(** ** Failures while resuming *)

Section resuming.
Context {ST : StdText}.

(** A valid frame of the Session. *)
Definition accepted_frame (c : ClientProtocol) (frame : Envelope) : Prop :=
  ValidateFrame frame (cc_Limits (c_config c)) (cc_StrictValidation (c_config c)) = Ok tt
  ∧ e_SessionID frame = c_sessionID c.

(** The WELCOME confirms the namespaces asked for, and no others. *)
Definition confirms (c : ClientProtocol) (sync : option ResumeStateSync) : Prop :=
  match c_resumeStateNamespaces c with
  | [] => sync = None
  | nss => ∃ ns, sync = Some ns ∧ equalStrings (rss_Namespaces ns) nss = true
  end.

(** The frames after which a RESUMING client goes on waiting, and how it
    changes: the WELCOME that fixes the range, an EVENT it already has, an
    EVENT of the broken stream before the WELCOME of a gap recovery, the next
    EVENT of the range, the last one when a snapshot is still to come. *)
Inductive resume_waits (c : ClientProtocol) (frame : Envelope) : ClientProtocol → Prop :=
| WaitReplay payload :
    e_Type frame = FrameWelcome →
    decodePayload (A:=WelcomePayload) (e_Payload frame) (cc_StrictValidation (c_config c)) = Ok payload →
    wp_Mode payload = WelcomeModeResumed → wp_ResumeFrom payload = u64 (c_lastSeq c + 1) →
    c_lastSeq c ≤ wp_ReplayTo payload → confirms c (wp_StateSync payload) →
    u64 (wp_ReplayTo payload - c_lastSeq c) ≤ cc_MaxReplayEvents (c_config c) →
    wp_ReplayTo payload ≠ c_lastSeq c ∨ c_resumeStateNamespaces c ≠ [] →
    resume_waits c frame (fixReplayBounds c (wp_ReplayTo payload))
| WaitKnown :
    e_Type frame = FrameEvent → e_Seq frame ≤ c_lastSeq c → c_eventIDs c !! e_Seq frame = Some (e_ID frame) →
    resume_waits c frame c
| WaitGap :
    e_Type frame = FrameEvent → c_lastSeq c < e_Seq frame → c_replayTo c = 0 → c_gapResume c = true →
    resume_waits c frame c
| WaitStaged c' :
    e_Type frame = FrameEvent → c_lastSeq c < e_Seq frame → c_replayTo c ≠ 0 →
    e_Seq frame = u64 (c_lastSeq c + Z.of_nat (length (c_replayBuffer c)) + 1) → e_Seq frame ≤ c_replayTo c →
    c' = c <| c_replayBuffer := c_replayBuffer c ++ [frame] |>
           <| c_replayBytes := c_replayBytes c + replayEventBytes frame |> →
    e_Seq frame ≠ c_replayTo c → resume_waits c frame c'
| WaitSnapshot c' :
    e_Type frame = FrameEvent → c_lastSeq c < e_Seq frame → c_replayTo c ≠ 0 →
    e_Seq frame = u64 (c_lastSeq c + Z.of_nat (length (c_replayBuffer c)) + 1) → e_Seq frame ≤ c_replayTo c →
    c' = c <| c_replayBuffer := c_replayBuffer c ++ [frame] |>
           <| c_replayBytes := c_replayBytes c + replayEventBytes frame |>
           <| c_resumeEventsComplete := true |> →
    e_Seq frame = c_replayTo c → c_resumeStateNamespaces c ≠ [] → resume_waits c frame c'.

(** How a frame handled while RESUMING may leave the client. *)
Definition resume_outcome (c : ClientProtocol) (frame : Envelope) (out : ClientProtocol * res (list Action)) : Prop :=
  ∃ acts, out.2 = Ok acts
    ∧ (accepted_frame c frame ∧ resume_waits c frame out.1 ∧ c_state out.1 = StateResuming ∧ acts = []
       ∨ accepted_frame c frame ∧ c_state out.1 = StateReady ∧ last acts = Some (SessionReadyAction (c_sessionID c))
       ∨ c_state out.1 = StateDisconnected
         ∧ (In (FullSyncRequiredAction (c_sessionID c)) acts ∨ ∃ reason, In (CloseConnectionAction reason) acts)).

Lemma outcome_failure c frame err :
  c_state c = StateResuming → resume_outcome c frame (handleIncomingFailureLocked c err).
Proof.
  intros Hst. unfold handleIncomingFailureLocked, stopStateResumeLocked, stopReplayLocked.
  rewrite Hst. cbn. destruct (0 <? _); cbn; (eexists; split; [done|]); right; right; cbn; auto.
Qed.

(** A handler's result before failures are turned into a disconnection. *)
Definition handler_outcome (c : ClientProtocol) (frame : Envelope) (out : ClientProtocol * res (list Action)) : Prop :=
  (∃ err, out = (c, Err err)) ∨ resume_outcome c frame out.

Lemma outcome_err c frame err : handler_outcome c frame (c, Err err).
Proof. left. by eexists. Qed.

Lemma outcome_wait c frame c' :
  accepted_frame c frame → resume_waits c frame c' → c_state c' = StateResuming →
  handler_outcome c frame (c', Ok []).
Proof. right. eexists. cbn. split; [done|]. auto. Qed.

Lemma outcome_stop c frame reason :
  handler_outcome c frame (let '(c', acts) := stopReplayLocked c reason in (c', Ok acts)).
Proof. right. eexists. cbn. split; [done|]. right; right. cbn. auto. Qed.

Lemma outcome_return {A} c frame (r : res A) k :
  (∀ a, r = Ok a → handler_outcome c frame (k a)) → handler_outcome c frame (or_return c r k).
Proof. intros Hk. destruct r; cbn; [by apply Hk|apply outcome_err]. Qed.

Lemma outcome_deliver c0 frame c acts :
  accepted_frame c0 frame → c_sessionID c = c_sessionID c0 →
  handler_outcome c0 frame (let '(c, evs) := deliverReplay c in
                      let c := readyLocked c in
                      (c, Ok (evs ++ acts ++ [SessionReadyAction (c_sessionID c)]))).
Proof.
  intros Hacc Hs. unfold deliverReplay.
  assert (∀ evs c acts, c_sessionID (foldl (fun '(c, actions) event =>
    (rememberEventLocked (c <| c_lastSeq := e_Seq event |>) (e_Seq event) (e_ID event),
     actions ++ [DeliverEventAction (copyEnvelope event)])) (c, acts) evs).1 = c_sessionID c) as Hfold.
  { clear. intros evs. induction evs as [|e evs IH]; intros c acts; [done|]. cbn. by rewrite IH. }
  specialize (Hfold (c_replayBuffer c) c []). destruct (foldl _ _ _) as [c1 evs]. cbn in Hfold.
  right. eexists. cbn. split; [done|]. right; left. rewrite app_assoc, last_snoc.
  split_and!; [done..|]. congruence.
Qed.

(** The next check of a handler: a frame that fails it is refused. *)
Ltac outcome_if E :=
  match goal with |- handler_outcome _ _ (if ?b then _ else _) => destruct b eqn:E; [apply outcome_err|] end.

Lemma outcome_Welcome c frame :
  c_state c = StateResuming → e_Type frame = FrameWelcome →
  ValidateFrame frame (cc_Limits (c_config c)) (cc_StrictValidation (c_config c)) = Ok tt →
  handler_outcome c frame (handleWelcomeLocked c frame).
Proof.
  intros Hst Hty Hv. unfold handleWelcomeLocked. apply outcome_return. intros payload Hdec. rewrite Hst.
  outcome_if E1. outcome_if E2. outcome_if E3.
  do 3 apply orb_false_iff in E1 as [E1 ?]. bools.
  assert (accepted_frame c frame) as Hacc by done.
  assert (confirms c (wp_StateSync payload)) as Hconf.
  { unfold confirms. destruct (c_resumeStateNamespaces c) as [|n nss]; cbn in E2, E3.
    - destruct (wp_StateSync payload); [|done]. rewrite bool_decide_true in E2 by eauto. done.
    - destruct (wp_StateSync payload) as [sync|]; [|done]. exists sync. split; [done|].
      by apply negb_false_iff in E3. }
  destruct (Z.ltb_spec (cc_MaxReplayEvents (c_config c)) (u64 (c_replayTo (fixReplayBounds c (wp_ReplayTo payload)) - c_lastSeq (fixReplayBounds c (wp_ReplayTo payload))))) as [|Hmax].
  { right. eexists. cbn. split; [done|]. right; right. cbn. auto. }
  cbn in Hmax.
  assert (wp_ReplayTo payload ≠ c_lastSeq c ∨ c_resumeStateNamespaces c ≠ [] →
          resume_waits c frame (fixReplayBounds c (wp_ReplayTo payload))) as Hwait.
  { intros Hmore. apply WaitReplay; try done; lia. }
  destruct (Z.eqb_spec (c_replayTo (fixReplayBounds c (wp_ReplayTo payload))) (c_lastSeq (fixReplayBounds c (wp_ReplayTo payload)))) as [Heq|Hne].
  - destruct (0 <? _) eqn:En.
    + apply outcome_wait; [done| |done]. apply Hwait. right. intros E. cbn in En. rewrite E in En. done.
    + right. eexists. cbn. split; [done|]. auto.
  - apply outcome_wait; [done| |done]. apply Hwait. by left.
Qed.

Lemma outcome_Event c frame now :
  c_state c = StateResuming → accepted_frame c frame → e_Type frame = FrameEvent →
  handler_outcome c frame (handleEventLocked c frame now).
Proof.
  intros Hst Hacc Hty. unfold handleEventLocked. rewrite Hst.
  change ((StateResuming != StateReady) && (StateResuming != StateResuming)) with false.
  change (StateResuming == StateResuming) with true. cbn match.
  destruct (Z.leb_spec (e_Seq frame) (c_lastSeq c)) as [Hold|Hnew].
  { destruct (c_eventIDs c !! _) as [k|] eqn:Ek; [|apply outcome_err].
    case_bool_decide; [subst k|apply outcome_err]. by apply outcome_wait; [|apply WaitKnown|]. }
  unfold handleReplayEvent. destruct (Z.eqb_spec (c_replayTo c) 0) as [Hz|Hnz].
  { destruct (c_gapResume c) eqn:Eg; [|apply outcome_err]. by apply outcome_wait; [|apply WaitGap|]. }
  destruct (_ || _) eqn:E1; [apply outcome_err|]. bools.
  destruct (_ || _) eqn:E2; [apply outcome_stop|].
  rewrite copyEnvelope_id. match goal with |- context [e_Seq frame =? ?r] => change r with (c_replayTo c) end.
  destruct (Z.eqb_spec (e_Seq frame) (c_replayTo c)) as [Hlast|Hmore]; cbn [negb].
  2:{ apply outcome_wait; [done| |done]. eapply WaitStaged; try done; lia. }
  destruct (0 <? _) eqn:En; [|by apply (outcome_deliver c _ _ [])].
  apply outcome_wait; [done| |done]. eapply WaitSnapshot; try done; try lia.
  intros E. cbn in En. by rewrite E in En.
Qed.

Lemma outcome_StateSnapshot c frame :
  c_state c = StateResuming → accepted_frame c frame → handler_outcome c frame (handleStateSnapshotLocked c frame).
Proof.
  intros Hst Hacc. unfold handleStateSnapshotLocked. rewrite bool_decide_true by done.
  unfold handleResumeStateSnapshotLocked.
  destruct (_ || _); [apply outcome_err|]. destruct (negb _); [apply outcome_err|].
  apply outcome_return. intros payload _. destruct (existsb _ _); [apply outcome_err|].
  unfold applyStateObjectsLocked.
  destruct (apply_loop _ _ _ _) as [[[m b] acts]|e]; cbn [or_return].
  - by apply outcome_deliver.
  - right. eexists. cbn. split; [done|]. right; right. cbn. auto.
Qed.

Lemma outcome_Error c frame :
  c_state c = StateResuming → handler_outcome c frame (handleErrorLocked c frame).
Proof.
  intros Hst. unfold handleErrorLocked.
  destruct (decodePayload _ _) as [p|]; [|right; eexists; cbn; split; [done|]; right; right; cbn; eauto].
  set (c1 := if er_RefID p != "" then _ else c).
  assert (c_state c1 = StateResuming ∧ c_sessionID c1 = c_sessionID c) as [Hst1 Hs1].
  { unfold c1. by destruct (er_RefID p != ""). }
  clearbody c1. destruct (BehaviorForErrorCode _) as [behavior _]. rewrite Hst1.
  rewrite (bool_decide_true (StateResuming = StateResuming)) by done. cbn zeta. cbn [andb].
  right. destruct (eb_FullSyncRequired behavior || _ || _) eqn:Ef.
  - destruct (eb_CloseConnection behavior || _); eexists; (split; [done|]); right; right;
      cbn; destruct (eb_AbandonSession behavior); rewrite ?Hs1; cbn; auto.
  - rewrite orb_true_r. eexists. split; [done|]. right; right. cbn.
    split; [done|]. right. eexists. right. by left.
Qed.

End resuming.

(** C38. While the client is RESUMING, no frame of the current connection makes
    HandleIncoming fail: the client goes on waiting without any action,
    becomes READY with a final SessionReady, or is disconnected with a
    full-sync request or a close.  It goes on waiting only after a valid frame
    of the Session that it accepted as progress: the WELCOME that fixes the
    range, an EVENT it already has, an EVENT of the broken stream before the
    WELCOME of a gap recovery, the next EVENT of the range, which is staged;
    and READY is reached only on a valid frame of the Session.  So a frame
    that is invalid, of another Session, of an unexpected type or out of
    sequence ends the resume, and is never swallowed.  A frame of a replaced
    connection (an older generation) is refused and changes nothing. *)
Theorem client_resume_outcomes {ST : StdText} c generation frame now :
  c_state c = StateResuming →
  if bool_decide (generation = c_generation c)
  then resume_outcome c frame (HandleIncoming c generation frame now)
  else HandleIncoming c generation frame now = (c, Err ErrStaleConnection).
Proof.
  intros Hst. unfold HandleIncoming. case_bool_decide as Hg; [|by rewrite (proj2 (Z.eqb_neq _ _) Hg)].
  subst generation. rewrite Z.eqb_refl. cbn [negb].
  destruct (ValidateFrame _ _ _) as [[]|err] eqn:Hv.
  2:{ case_bool_decide; [|by apply outcome_failure].
      eexists. cbn. split; [done|]. right; right. cbn. eauto. }
  destruct (_ && _); [by apply outcome_failure|].
  destruct (_ && _) eqn:Es; [by apply outcome_failure|].
  match goal with |- resume_outcome c frame (let '(c', r) := ?h in _) =>
    enough (handler_outcome c frame h) as [[err ->]|(acts & Hr & H)];
      [by apply outcome_failure|exists acts; destruct h as [c' r]; cbn in *; by subst r|]
  end.
  assert (e_Type frame ≠ FrameWelcome → e_Type frame ≠ FrameError → accepted_frame c frame) as Hacc.
  { intros H1 H2. split; [done|]. rewrite !bool_decide_false in Es by done. cbn in Es. by case_bool_decide. }
  assert (∀ t, e_Type frame = t → t ≠ FrameWelcome → t ≠ FrameError → accepted_frame c frame) as Hacc'
    by (intros t <-; apply Hacc).
  clear Es Hacc.
  repeat case_bool_decide; auto using outcome_Welcome, outcome_Error, outcome_err.
  all: first [by eapply outcome_Event; [|eapply Hacc'|] | by eapply outcome_StateSnapshot; [|eapply Hacc']
             |unfold handlePongLocked, handleAckLocked, handleStateUpdateLocked; rewrite Hst; apply outcome_err].
Qed.

Lemma client_resume_outcomes_witness :
  resume_outcome (ST:=demo_text) demo_before (demo_event 9 "e9")
    (HandleIncoming (ST:=demo_text) demo_before (c_generation demo_before) (demo_event 9 "e9") 0).
Proof.
  pose proof (client_resume_outcomes (ST:=demo_text) demo_before (c_generation demo_before)
    (demo_event 9 "e9") 0 eq_refl) as H.
  rewrite bool_decide_true in H by reflexivity. exact H.
Defined.

(** ** Heartbeat *)

(** An unanswered PING: once [HeartbeatTimeout] has passed the client is
    SUSPECT and sends nothing; from there the matching PONG brings it back to
    READY with no ping pending, and otherwise, once [DisconnectGrace] has
    passed, it disconnects and closes the connection, keeping the Session,
    its position in the stream and its outbox. *)
Theorem client_heartbeat {ST : StdText} c ping t1 t2 frame payload :
  client_reachable c → c_state c = StateReady → c_pendingPing c = Some ping →
  cc_HeartbeatTimeout (c_config c) ≤ Time_Sub t1 (pp_SentAt ping) →
  cc_DisconnectGrace (c_config c) ≤ Time_Sub t2 t1 →
  decodePayload (A:=PongPayload) (e_Payload frame) (cc_StrictValidation (c_config c)) = Ok payload →
  po_PingID payload = pp_ID ping →
  let g := c_generation c in
  let '(c1, r1) := CheckHeartbeat c g t1 in
  let '(c2, r2) := CheckHeartbeat c1 g t2 in
  let '(c3, r3) := handlePongLocked c1 g frame in
  (c_state c1 = StateSuspect ∧ r1 = Ok [])
  ∧ (c_state c2 = StateDisconnected ∧ r2 = Ok [CloseConnectionAction "heartbeat timeout"]
     ∧ same_session c c2)
  ∧ (c_state c3 = StateReady ∧ c_pendingPing c3 = None ∧ r3 = Ok []).
Proof.
  intros Hc%reachable_inv Hst Hp Ht1 Ht2 Hdec Hid. cbn zeta.
  set (c1 := c <| c_state := StateSuspect |> <| c_suspectAt := t1 |>).
  assert (CheckHeartbeat c (c_generation c) t1 = (c1, Ok [])) as ->.
  { unfold CheckHeartbeat. rewrite Z.eqb_refl, Hp, Hst, (proj2 (Z.leb_le _ _) Ht1). done. }
  assert (CheckHeartbeat c1 (c_generation c) t2
          = (disconnectLocked c1, Ok [CloseConnectionAction "heartbeat timeout"])) as ->.
  { unfold CheckHeartbeat, c1. cbn. rewrite Z.eqb_refl, Hp, (proj2 (Z.leb_le _ _) Ht2). done. }
  assert (pp_Generation ping = c_generation c) as Hg.
  { pose proof (inv_phase _ Hc) as P. unfold phase_ok in P. rewrite Hst in P. by apply P. }
  assert (handlePongLocked c1 (c_generation c) frame
          = (c1 <| c_pendingPing := None |> <| c_suspectAt := zeroTime |> <| c_state := StateReady |>,
             Ok [])) as ->.
  { unfold handlePongLocked, c1. cbn. rewrite Hdec. cbn.
    rewrite Hp, Hid, Hg, Z.eqb_refl, (bool_decide_true (pp_ID ping = pp_ID ping)) by done. done. }
  by repeat split.
Qed.

Definition demo_pinged : ClientProtocol :=
  (client_step (ST:=demo_text) demo_ready (OpSendPing 1 "p1" 0)).1.
Definition demo_pong : Envelope :=
  demo_frame FramePong "" "s1" 0 "{'ping_id':'p1','client_time':0,'server_time':1}".

Lemma client_heartbeat_witness :
  c_state (CheckHeartbeat (CheckHeartbeat demo_pinged 1 (20 * Second)).1 1 (30 * Second)).1
  = StateDisconnected.
Proof.
  pose proof (client_heartbeat (ST:=demo_text) demo_pinged (mkPendingPing "p1" 0 1) (20 * Second)
    (30 * Second) demo_pong (mkPong "p1" 0 1)) as H.
  change (c_generation demo_pinged) with 1 in H. cbn zeta in H.
  destruct (CheckHeartbeat demo_pinged 1 (20 * Second)) as [c1 r1]. cbn [fst].
  destruct (CheckHeartbeat c1 1 (30 * Second)) as [c2 r2].
  destruct (handlePongLocked (ST:=demo_text) c1 1 demo_pong) as [c3 r3]. cbn [fst].
  destruct H as (_ & (H & _) & _); [..|exact H].
  - exact (reach_step _ (OpSendPing 1 "p1" 0) demo_ready_reachable I).
  - vm_compute. reflexivity.
  - vm_compute. reflexivity.
  - vm_compute. congruence.
  - vm_compute. congruence.
  - vm_compute. reflexivity.
  - reflexivity.
Defined.
