(* ===== verification/WellFormed.v ===== *)
(** * Every frame put on the wire is well formed

    Whatever the collaborators answer, the server enqueues only frames that
    pass validation; whatever the client is asked to do and receives, it asks
    to send only such frames.  Valid frames can be encoded, so a writer never
    fails on one. *)

From Stdlib Require Import Ascii String.
From S2P Require Import Prelude Utf8 Json JsonText JsonPrint Types Codec Capability State Validate CodecProps Outbound Store Client SortStrings Sha256 Program Server ServerStream MemoryServer ServerRules ServerWire ClientInv ClientSteps ClientProps.
Open Scope string_scope.
Open Scope list_scope.
Open Scope go_scope.
Open Scope Z_scope.

(** ** The server *)

Section server.
Context {ST : StdText} (c : ServerConfig).

(** The EVENTs the stores have answered. *)
Definition learn_events (X : Type) (e : eff X) : X → list Envelope → list Envelope :=
  match e in eff X return X → list Envelope → list Envelope with
  | EReplay _ _ _ _ => fun x known => match x with CRet events => known ++ events | _ => known end
  | EAppend _ _ _ _ _ => fun x known => match x with CRet event => known ++ [event] | _ => known end
  | _ => fun _ known => known
  end.

(** Valid frames may go, and among the EVENTs only those. *)
Definition events_may_go (known : list Envelope) (f : Envelope) : bool :=
  valid_out c f && ((e_Type f != FrameEvent) || bool_decide (f ∈ known)).

Lemma events_may_go_spec known f :
  events_may_go known f = true ↔ valid_out c f = true ∧ (e_Type f = FrameEvent → f ∈ known).
Proof.
  unfold events_may_go. rewrite andb_true_iff, orb_true_iff, negb_true_iff, bool_decide_eq_false, bool_decide_eq_true.
  destruct (decide (e_Type f = FrameEvent)); tauto.
Qed.

#[export] Instance events_policy : WirePolicy c (list Envelope).
Proof.
  refine {| below := subseteq; learn := learn_events; may_go := events_may_go; committed _ _ := True |}.
  - intros X e x k. destruct e; cbn; try done; destruct x; set_solver.
  - done.
  - intros k k' f Hk. rewrite !events_may_go_spec. set_solver.
  - intros k f [Hv Hp]. rewrite events_may_go_spec. split; [done|]. intros He. by rewrite He in Hp.
  - intros k sid after through limits events f Hf Hv _. rewrite events_may_go_spec. cbn. set_solver.
  - intros k sid eid ety content ts f Hv _. rewrite events_may_go_spec. cbn. set_solver.
  - intros k frame hello accepted sid expires t1 t2 _ _ Hv. by rewrite events_may_go_spec.
  - intros k frame resume ts mark _ _ Hv. by rewrite events_may_go_spec.
  - done.
  - done.
  - done.
  - intros k objects f (Hv & Ht & _) _. rewrite events_may_go_spec, Ht. done.
  - intros k object f (Hv & Ht & _) _. rewrite events_may_go_spec, Ht. done.
Defined.
End server.

(** ** The client *)

Section client.
Context {ST : StdText}.

Definition frame_ok (cfg : ClientConfig) (f : Envelope) : Prop :=
  ValidateFrame f (cc_Limits cfg) (cc_StrictValidation cfg) = Ok tt.

Definition sent_of (a : Action) : option Envelope :=
  match a with SendFrameAction f => Some f | _ => None end.
Definition sent (actions : list Action) : list Envelope := omap sent_of actions.
#[local] Arguments sent : simpl never.

Lemma sent_app l1 l2 : sent (l1 ++ l2) = sent l1 ++ sent l2.
Proof. apply omap_app. Qed.

(** The frames kept for a retry. *)
Definition outbox_valid (c : ClientProtocol) : Prop := map_Forall (fun _ => frame_ok (c_config c)) (c_outbox c).

(** What a step does to the frames: those kept stay valid, those sent are. *)
Definition wire_step (c : ClientProtocol) (out : ClientProtocol * res (list Action)) : Prop :=
  outbox_valid c →
  c_config out.1 = c_config c ∧ outbox_valid out.1 ∧ Forall (frame_ok (c_config c)) (sent (actions_of out.2)).

(** A step that sends nothing and keeps the outbox, or drops some of it. *)
Lemma wire_quiet c c' r :
  c_config c' = c_config c → c_outbox c' ⊆ c_outbox c → sent (actions_of r) = [] → wire_step c (c', r).
Proof.
  intros Hc Ho Hs Hv. split_and!; [done| |cbn; by rewrite Hs]. intros id f Hf. cbn in *. rewrite Hc.
  eapply Hv, lookup_weaken; done.
Qed.

(** A step that sends one frame it has validated. *)
Lemma wire_send c c' f :
  c_config c' = c_config c → c_outbox c' = c_outbox c →
  validateOutboundFrame f (cc_Limits (c_config c)) (cc_StrictValidation (c_config c)) = Ok tt →
  wire_step c (c', Ok [SendFrameAction f]).
Proof.
  unfold validateOutboundFrame. rewrite ValidateFrame_normalized. intros Hc Ho Hf Hv.
  split_and!; [done|unfold outbox_valid; cbn; by rewrite Hc, Ho|by repeat constructor].
Qed.

Lemma wire_or_return {A} c (r : res A) k :
  (∀ a, r = Ok a → wire_step c (k a)) → wire_step c (or_return c r k).
Proof. intros Hk. destruct r as [a|e]; [by apply Hk|by apply wire_quiet]. Qed.

Ltac destruct_units := repeat match goal with u : unit |- _ => destruct u end.
(** The common cases, with the branches of the code split. *)
Ltac wire_done := solve [apply wire_quiet; [reflexivity|reflexivity|reflexivity]].
Ltac wire_step_tac :=
  lazymatch goal with
  | |- wire_step _ (or_return _ _ _) => apply wire_or_return; intros ? ?
  | |- wire_step _ (match (if ?b then _ else _) with _ => _ end) => destruct b eqn:?
  | |- wire_step _ (match ?x with _ => _ end) => destruct x eqn:?
  | |- wire_step _ (_, _) => first [wire_done | apply wire_send; [reflexivity|reflexivity|by destruct_units]]
  end.
Ltac wire := repeat (cbv beta iota zeta; wire_step_tac).

Lemma wire_failure c err : wire_step c (handleIncomingFailureLocked c err).
Proof. unfold handleIncomingFailureLocked, stopStateResumeLocked, stopReplayLocked. wire. Qed.

Lemma wire_startResume c g ns now : wire_step c (startResumeLocked c g ns now).
Proof. unfold startResumeLocked. wire. Qed.

Lemma wire_EnqueueSend c m content now : wire_step c (EnqueueSend c m content now).
Proof.
  unfold EnqueueSend. cbv zeta. wire. intros Hv. unfold validateOutboundFrame in *. destruct_units.
  match goal with H : ValidateFrame _ _ _ = _ |- _ => rewrite ValidateFrame_normalized in H; rename H into Hf end.
  split_and!; [done| |by repeat constructor]. by apply map_Forall_insert_2.
Qed.

Lemma wire_retry c : wire_step c (c, RetryPending c).
Proof.
  unfold RetryPending. case_match; [by apply wire_quiet|]. intros Hv. split_and!; [done|done|]. cbn [actions_of snd].
  set (ids := sortStrings _). assert (∀ id, In id ids → is_Some (c_outbox c !! id)) as Hids.
  { intros id Hid. apply (Permutation_in _ (proj2 (sortStrings_spec _))) in Hid. apply in_map_iff in Hid as ([k f] & <- & Hin).
    exists f. by apply elem_of_map_to_list, list_elem_of_In. }
  clearbody ids. induction ids as [|id ids IH]; [constructor|]. cbn. constructor.
  - destruct (Hids id ltac:(by left)) as [f Hf]. rewrite Hf, copyEnvelope_id. by eapply Hv.
  - apply IH. intros id' Hid. apply Hids. by right.
Qed.

Lemma wire_deliver c : c_config (deliverReplay c).1 = c_config c ∧ c_outbox (deliverReplay c).1 = c_outbox c
  ∧ sent (deliverReplay c).2 = [].
Proof.
  unfold deliverReplay. generalize (c_replayBuffer c). intros evs.
  enough (∀ c acts, sent acts = [] → let r := foldl (fun '(c, actions) event =>
           (rememberEventLocked (c <| c_lastSeq := e_Seq event |>) (e_Seq event) (e_ID event),
            actions ++ [DeliverEventAction (copyEnvelope event)])) (c, acts) evs in
    c_config r.1 = c_config c ∧ c_outbox r.1 = c_outbox c ∧ sent r.2 = []) as H by by apply H.
  clear c. induction evs as [|e evs IH]; intros c acts Ha; [done|]. cbn [foldl].
  refine (IH (rememberEventLocked _ _ _) (acts ++ [_]) _). by rewrite sent_app, Ha.
Qed.

Lemma wire_apply_loop cfg m b objs m' b' acts : apply_loop cfg m b objs = Ok (m', b', acts) → sent acts = [].
Proof.
  revert m b acts. induction objs as [|o objs IH]; intros m b acts; cbn; [by intros [= _ _ <-]|].
  destruct (ApplyStateObject _ _ _) as [[committed result] [err|]]; [by destruct (_ || _)|].
  destruct (bool_decide (result = _)); [apply IH|]. intros Hok. inv_ok. destruct x1 as [[? ?] ?]. injection Hok as <- <- <-.
  match goal with Hl : apply_loop _ _ _ objs = _ |- _ => exact (IH _ _ _ Hl) end.
Qed.

Lemma apply_keeps c objs c' r : applyStateObjectsLocked c objs = (c', r) →
  c_config c' = c_config c ∧ c_outbox c' = c_outbox c ∧ sent (actions_of r) = [].
Proof.
  unfold applyStateObjectsLocked. destruct (apply_loop _ _ _ _) as [[[m b] acts]|e] eqn:Hl; cbn; intros [= <- <-].
  - split_and!; [done..|]. by eapply wire_apply_loop.
  - done.
Qed.

Lemma wire_welcome c frame : wire_step c (handleWelcomeLocked c frame).
Proof. unfold handleWelcomeLocked, stopReplayLocked. wire. Qed.

Lemma wire_pong c g frame : wire_step c (handlePongLocked c g frame).
Proof. unfold handlePongLocked. wire. by apply wire_quiet; cbn; repeat case_match. Qed.

Lemma wire_ack c frame : wire_step c (handleAckLocked c frame).
Proof. unfold handleAckLocked. wire. apply wire_quiet; [done|apply delete_subseteq|done]. Qed.

Lemma wire_replayEvent c frame : wire_step c (handleReplayEvent c frame).
Proof.
  unfold handleReplayEvent, stopReplayLocked. wire.
  match goal with H : deliverReplay ?c1 = _ |- _ => pose proof (wire_deliver c1) as (Hc & Ho & Hs); rewrite H in * end.
  apply wire_quiet; [exact Hc|cbn in *; by rewrite Ho|]. cbn in *. by rewrite sent_app, Hs.
Qed.

Lemma wire_event c frame now : wire_step c (handleEventLocked c frame now).
Proof. unfold handleEventLocked. repeat first [apply wire_replayEvent | progress wire]. Qed.

Lemma wire_resumeStateSnapshot c frame : wire_step c (handleResumeStateSnapshotLocked c frame).
Proof.
  unfold handleResumeStateSnapshotLocked, stopStateResumeLocked. wire;
    match goal with H : applyStateObjectsLocked _ _ = _ |- _ => apply apply_keeps in H as (Hc & Ho & Hs) end.
  - match goal with H : deliverReplay ?c1 = _ |- _ => pose proof (wire_deliver c1) as (Hc' & Ho' & Hs'); rewrite H in * end.
    cbn in Hc', Ho', Hs, Hs'. apply wire_quiet; cbn; [by rewrite Hc'|by rewrite Ho', Ho|]. by rewrite !sent_app, Hs, Hs'.
  - apply wire_quiet; cbn; [done|by rewrite Ho|done].
Qed.

Lemma wire_snapshot c frame : wire_step c (handleStateSnapshotLocked c frame).
Proof.
  unfold handleStateSnapshotLocked. repeat first [apply wire_resumeStateSnapshot | progress wire];
    match goal with H : applyStateObjectsLocked _ _ = _ |- _ => apply apply_keeps in H as (Hc & Ho & Hs) end;
    (apply wire_quiet; cbn; [done|by rewrite Ho|done]).
Qed.

Lemma wire_update c frame : wire_step c (handleStateUpdateLocked c frame).
Proof.
  unfold handleStateUpdateLocked. wire. destruct (applyStateObjectsLocked _ _) as [c' r] eqn:E.
  apply apply_keeps in E as (Hc & Ho & Hs). apply wire_quiet; [done|by rewrite Ho|done].
Qed.

Lemma wire_error c frame : wire_step c (handleErrorLocked c frame).
Proof.
  unfold handleErrorLocked. wire.
  all: apply wire_quiet; repeat case_match; try done; apply map_empty_subseteq.
Qed.

Lemma wire_then c out :
  wire_step c out →
  wire_step c (let '(c', r) := out in
               match r with
               | Err err => handleIncomingFailureLocked c' err
               | Ok actions => (c', Ok actions)
               end).
Proof.
  destruct out as [c' [acts|err]]; [done|]. intros Hs Hv. destruct (Hs Hv) as (Hc & Ho & _). cbn in *.
  rewrite <- Hc. by apply wire_failure.
Qed.

Lemma wire_incoming c g frame now : wire_step c (HandleIncoming c g frame now).
Proof.
  unfold HandleIncoming. destruct (negb _); [by apply wire_quiet|].
  destruct (ValidateFrame _ _ _); [|case_match; [by apply wire_quiet|apply wire_failure]]. cbv zeta.
  destruct (_ && _ && _); [apply wire_failure|]. destruct (_ && _ && _); [apply wire_failure|].
  apply wire_then. repeat case_match; first
    [ apply wire_welcome | apply wire_pong | apply wire_ack | apply wire_event | apply wire_snapshot
    | apply wire_update | apply wire_error | by apply wire_quiet ].
Qed.

Lemma wire_client_step c op : wire_step c (client_step c op).
Proof.
  destruct op; cbn [client_step]; try first
    [ solve [unfold TransportConnected, Disconnect; repeat case_match; by apply wire_quiet]
    | apply wire_startResume | apply wire_EnqueueSend | apply wire_retry | apply wire_incoming ].
  all: unfold BeginConnect, StartSession, ResumeWithState, QueryState, SendPing, CheckHeartbeat;
    repeat first [apply wire_startResume | progress wire].
Qed.

Lemma outbox_valid_reachable c : client_reachable c → outbox_valid c.
Proof.
  induction 1 as [config c Ht Hnew|c op Hr IH Ht].
  - unfold NewClientProtocol in Hnew. inv_ok. apply map_Forall_empty.
  - by apply (wire_client_step c op).
Qed.
End client.

(** ** The properties *)

Section properties.
Context {ST : StdText}.

(** A frame both peers' codecs write and whose text is within the limit. *)
Definition encodable (limits : Limits) (strict : bool) (f : Envelope) : Prop :=
  ∃ text, Encode (mkJSONCodec limits strict) (Some f) = Ok text ∧ slen text ≤ MaxFrameSize (normalizeLimits limits).

Lemma valid_encodable limits strict f : ValidateFrame f limits strict = Ok tt → encodable limits strict f.
Proof.
  intros Hv. destruct (valid_frame _ _ _ Hv) as (_ & _ & _ & t & Hm & Hl). exists t. split; [|done].
  cbn. unfold validateOutboundFrame, codec_limits. cbn. by rewrite !ValidateFrame_normalized, Hv, Hm.
Qed.

(** The EVENTs the stores answered in a run. *)
Definition learned (t : list event) : list Envelope :=
  concat (map (fun ev => match ev with
                         | Ev (EReplay _ _ _ _) (CRet events) => events
                         | Ev (EAppend _ _ _ _ _) (CRet event) => [event]
                         | _ => []
                         end) t).

Lemma learn_all_events c t k : learn_all c t k = k ++ learned t.
Proof.
  revert k. induction t as [|[X e x] t IH]; intros k; cbn [learn_all]; [by rewrite app_nil_r|].
  rewrite IH. unfold learned. cbn [map concat]. destruct e; cbn; try done; destruct x; cbn; by rewrite <- ?app_assoc.
Qed.

(** What a call hands to the queue, whatever the answers. *)
Lemma server_call_handed c call t out : traces (server_call c call) t out →
  Forall (fun f => ValidateFrame f (sv_Limits c) (sv_StrictValidation c) = Ok tt
                   ∧ (e_Type f = FrameEvent → f ∈ learned t)) (handed t).
Proof.
  intros Ht. pose proof (server_call_respects c call t out [] Ht ltac:(by destruct call)) as Hw. rewrite learn_all_events in Hw.
  eapply Forall_impl; [exact Hw|]. intros f Hf.
  change (events_may_go c ([] ++ learned t) f = true) in Hf. apply events_may_go_spec in Hf as [Hf He]. split; [|exact He].
  unfold valid_out, validateOut, validateOutboundFrame in Hf. rewrite ValidateFrame_normalized in Hf.
  by destruct (ValidateFrame _ _ _) as [[]|].
Qed.

(** C15. Whatever it receives and whatever its stores, its application and its
    clock answer, the server hands only well-formed frames to the outbound
    queue: each passes validation under the server's limits, so the codec
    writes it and its text is within the frame size.  This covers processing
    any inbound frame, valid or not, and both publications. *)
Theorem server_frames_well_formed c call t out :
  traces (server_call c call) t out →
  Forall (fun f => ValidateFrame f (sv_Limits c) (sv_StrictValidation c) = Ok tt
                   ∧ encodable (sv_Limits c) (sv_StrictValidation c) f) (handed t).
Proof.
  intros Ht. eapply Forall_impl; [by eapply server_call_handed|]. intros f [Hv _].
  split; [done|by apply valid_encodable].
Qed.

(** C16. Every frame a client asks to send is well formed: in any reachable
    state, under any call and any incoming frame, each passes validation
    under the client's limits and can be encoded; a retry resends only such
    frames. *)
Theorem client_frames_well_formed c op :
  client_reachable c → 
  let cfg := c_config c in
  Forall (fun f => ValidateFrame f (cc_Limits cfg) (cc_StrictValidation cfg) = Ok tt
                   ∧ encodable (cc_Limits cfg) (cc_StrictValidation cfg) f) (sent (actions_of (client_step c op).2)).
Proof.
  intros Hc. destruct (wire_client_step c op (outbox_valid_reachable c Hc)) as (_ & _ & Hs).
  eapply Forall_impl; [exact Hs|]. intros f Hf. split; [done|by apply valid_encodable].
Qed.
End properties.

Definition demo_sending : ClientProtocol := (demo_run (demo_connect ++ [OpEnqueueSend "m1" (js "{'x':1}") 0])).1.

Lemma demo_sending_reachable : client_reachable (ST:=demo_text) demo_sending.
Proof.
  apply client_run_reachable; [|repeat constructor; vm_compute; congruence].
  exact (reach_new _ _ demo_typed demo_new).
Qed.

(** The resume of the scenario, and the retry of its client. *)
Lemma server_frames_well_formed_witness :
  let t := memory_trace (server_call (ST:=demo_text) demo_server (CallProcess demo_resume)) demo_memory in
  length (handed t) = 4%nat ∧ Forall (fun f => encodable (ST:=demo_text) DefaultLimits true f) (handed t).
Proof.
  split; [vm_compute; reflexivity|].
  eapply Forall_impl; [apply (server_frames_well_formed (ST:=demo_text) demo_server (CallProcess demo_resume)) with (out := Normal None)|].
  - apply memory_trace_traces. vm_compute. reflexivity.
  - intros f [_ Hf]. exact Hf.
Defined.

Lemma client_frames_well_formed_witness :
  let r := (client_step (ST:=demo_text) demo_sending OpRetryPending).2 in
  length (sent (actions_of r)) = 1%nat
  ∧ Forall (fun f => encodable (ST:=demo_text) DefaultLimits true f) (sent (actions_of r)).
Proof.
  split; [vm_compute; reflexivity|].
  eapply Forall_impl; [apply (client_frames_well_formed (ST:=demo_text) demo_sending OpRetryPending demo_sending_reachable)|].
  intros f [_ Hf]. exact Hf.
Defined.
