(* ===== verification/Journal.v ===== *)
(** * Exactly-once, in-order delivery

    The composition of the parts that carry a stream: publishers, the server
    over any event store that keeps its contract, a network that loses,
    repeats and reorders frames, and a client that disconnects, resumes and
    abandons Sessions.  The specification is a reader of the journal: it has
    a Session and a position, and reads on from there.  The system refines
    it. *)

From Stdlib Require Import Ascii String.
From S2P Require Import Prelude SortedLists Utf8 Json Types Codec Capability State Validate Outbound Store StoreProps Client Program EventStore Server ServerStream MemoryServer Runs ServerWire ClientInv ClientSteps ClientProps WellFormed.
Open Scope string_scope.
Open Scope list_scope.
Open Scope go_scope.
Open Scope Z_scope.

(** ** Streams *)

(** EVENTs of a stream with consecutive sequences are a part of it. *)
Lemma stream_segment sid l evs n :
  stream_ok sid l → evs ⊆ l → map e_Seq evs = seqZ (Z.of_nat n + 1) (Z.of_nat (length evs)) →
  (n ≤ length l)%nat →
  evs = take (length evs) (drop n l) ∧ (n + length evs ≤ length l)%nat.
Proof.
  intros [Hseq Hall]. revert n. induction evs as [|e evs IH]; intros n Hsub Hs Hn; [cbn; split; [done|lia]|].
  cbn [length] in Hs |- *. rewrite Nat2Z.inj_succ, seqZ_cons, Z.pred_succ in Hs by lia. injection Hs as He Hs.
  assert (l !! n = Some e) as Hl.
  { assert (e ∈ l) as Hin by set_solver. apply list_elem_of_lookup in Hin as [i Hi].
    assert (map e_Seq l !! i = Some (e_Seq e)) as Hi' by (change (map e_Seq l) with (e_Seq <$> l); by rewrite list_lookup_fmap, Hi).
    rewrite Hseq in Hi'. apply lookup_seqZ in Hi' as [Hi' _]. replace n with i by lia. exact Hi. }
  pose proof (lookup_lt_Some _ _ _ Hl) as Hlt.
  destruct (IH (S n)) as [IH1 IH2]; [set_solver|rewrite Hs; f_equal; lia|lia|].
  rewrite (drop_S _ _ _ Hl). cbn [take]. split; [by f_equal|lia].
Qed.

(** ** The store behind the server *)

Section journal.
Context {ST : StdText} {D : Type} `{!ReplayStore D, !EventAppender D, !Journaled D, !EventStoreLaws D}.

Definition stream_effect {X} (e : eff X) : bool :=
  match e with ECurrentSeq _ | EReplay _ _ _ _ | EAppend _ _ _ _ _ => true | _ => false end.

(** In this run the calls to the event store got answers it may give; other
    users of the store act at any time, other collaborators answer as they
    like. *)
Inductive answered : D → list event → D → Prop :=
| ans_done d : answered d [] d
| ans_other d1 d2 t d3 : store_other d1 d2 → answered d2 t d3 → answered d1 t d3
| ans_current d sid x t d' :
    store_CurrentSeq d sid x → answered d t d' → answered d (Ev (ECurrentSeq sid) x :: t) d'
| ans_replay d sid after through limits x t d' :
    store_Replay d sid after through limits x → answered d t d' →
    answered d (Ev (EReplay sid after through limits) x :: t) d'
| ans_append d sid eid ety content ts x d1 t d' :
    store_Append d sid eid ety content ts d1 x → answered d1 t d' →
    answered d (Ev (EAppend sid eid ety content ts) x :: t) d'
| ans_skip {X} (e : eff X) x d t d' : stream_effect e = false → answered d t d' → answered d (Ev e x :: t) d'.

(** EVENTs of a journal. *)
Definition recorded (J : journal) (e : Envelope) : Prop := e ∈ J (e_SessionID e).

Lemma recorded_extends J J' e : extends J J' → recorded J e → recorded J' e.
Proof. intros Hx He. destruct (Hx (e_SessionID e)) as [l Hl]. unfold recorded in *. rewrite Hl. set_solver. Qed.

Lemma recorded_in J sid e : journal_ok J → e ∈ J sid → recorded J e.
Proof.
  intros HJ He. destruct (HJ sid) as [_ Hall]. rewrite Forall_forall in Hall. unfold recorded.
  by destruct (Hall e He) as [_ ->].
Qed.

(** What the store answers is recorded, and the journal only grows. *)
Lemma answered_recorded d t d' J :
  answered d t d' → represents d J →
  ∃ J', represents d' J' ∧ extends J J' ∧ Forall (recorded J') (learned t).
Proof.
  intros Ha. revert J. induction Ha as [d|d1 d2 t d3 Ho _ IH|d sid x t d' Hc _ IH|d sid after through limits x t d' Hr _ IH
    |d sid eid ety content ts x d1 t d' Hap _ IH|X e x d t d' He _ IH]; intros J HJ.
  - exists J. split_and!; [done|reflexivity|constructor].
  - destruct (other_extends _ _ _ HJ Ho) as (J1 & HJ1 & Hx). destruct (IH _ HJ1) as (J' & ? & ? & ?).
    exists J'. split_and!; [done|by etrans|done].
  - apply IH, HJ.
  - destruct (IH _ HJ) as (J' & HJ' & Hx & Hl). exists J'. split_and!; [done|done|].
    unfold learned. cbn. destruct x as [events| |]; [|exact Hl..]. apply Forall_app. split; [|exact Hl].
    destruct (replay_original _ _ _ _ _ _ _ HJ Hr) as [Hsub _]. apply Forall_forall. intros e He.
    apply (recorded_extends J); [done|]. apply (recorded_in J sid); [by eapply represents_ok|].
    eapply elem_of_submseteq; [exact He|]. by apply sublist_submseteq.
  - destruct (append_next _ _ _ _ _ _ _ _ _ HJ Hap) as (J1 & HJ1 & Hx1). destruct (IH _ HJ1) as (J' & HJ' & Hx & Hl).
    exists J'. split; [done|]. destruct x as [ev| |].
    + destruct Hx1 as [(_ & Hsid & _) Hj]. split; [etrans; [by eapply journaled_extends|done]|].
      unfold learned. cbn. constructor; [|exact Hl]. apply (recorded_extends J1); [done|].
      unfold recorded. rewrite Hsid, Hj, decide_True by done. set_solver.
    + split; [|exact Hl]. destruct Hx1 as [->|(ev & _ & Hj)]; [done|etrans; [by eapply journaled_extends|done]].
    + split; [|exact Hl]. destruct Hx1 as [->|(ev & _ & Hj)]; [done|etrans; [by eapply journaled_extends|done]].
  - destruct (IH _ HJ) as (J' & HJ' & Hx & Hl). exists J'. split_and!; [done|done|].
    destruct e; try done; exact Hl.
Qed.

(** The EVENTs a server call hands to the network are recorded. *)
Lemma server_call_recorded c call t out d d' J :
  traces (server_call c call) t out → answered d t d' → represents d J →
  ∃ J', represents d' J' ∧ extends J J' ∧ ∀ f, f ∈ handed t → e_Type f = FrameEvent → recorded J' f.
Proof.
  intros Ht Ha HJ. destruct (answered_recorded _ _ _ _ Ha HJ) as (J' & HJ' & Hx & Hl). exists J'. split_and!; [done|done|].
  intros f Hf Hty. pose proof (server_call_handed _ _ _ _ Ht) as Hall. rewrite Forall_forall in Hl, Hall.
  apply Hl. by apply Hall.
Qed.
End journal.

(** ** Where the client's EVENTs come from *)

Section origin.
Context {ST : StdText} (K : list Envelope).

(** A step stages and delivers EVENTs of [K] only. *)
Definition from_wire (c : ClientProtocol) (out : ClientProtocol * res (list Action)) : Prop :=
  c_replayBuffer c ⊆ K → c_replayBuffer out.1 ⊆ K ∧ delivered (actions_of out.2) ⊆ K.

Lemma from_quiet c c' r :
  c_replayBuffer c' ⊆ c_replayBuffer c → delivered (actions_of r) = [] → from_wire c (c', r).
Proof. intros Hb Hd HK. cbn. rewrite Hd. set_solver. Qed.

Lemma from_or_return {A} c (r : res A) k :
  (∀ a, r = Ok a → from_wire c (k a)) → from_wire c (or_return c r k).
Proof. intros Hk. destruct r as [a|e]; [by apply Hk|by apply from_quiet]. Qed.

Ltac from_step :=
  lazymatch goal with
  | |- from_wire _ (or_return _ _ _) => apply from_or_return; intros ? ?
  | |- from_wire _ (match (if ?b then _ else _) with _ => _ end) => destruct b eqn:?
  | |- from_wire _ (match ?x with _ => _ end) => destruct x eqn:?
  | |- from_wire _ (_, _) => solve [apply from_quiet; [cbn; set_solver|reflexivity]]
  end.
Ltac from := repeat (cbv beta iota zeta; from_step).

Lemma from_failure c err : from_wire c (handleIncomingFailureLocked c err).
Proof. unfold handleIncomingFailureLocked, stopStateResumeLocked, stopReplayLocked. from. Qed.

Lemma deliver_all c : delivered (deliverReplay c).2 = c_replayBuffer c ∧ c_replayBuffer (deliverReplay c).1 = c_replayBuffer c.
Proof.
  unfold deliverReplay. set (evs := c_replayBuffer c) at 1 3 4.
  enough (∀ c acts, let r := foldl (fun '(c, actions) event =>
           (rememberEventLocked (c <| c_lastSeq := e_Seq event |>) (e_Seq event) (e_ID event),
            actions ++ [DeliverEventAction (copyEnvelope event)])) (c, acts) evs in
    delivered r.2 = delivered acts ++ evs ∧ c_replayBuffer r.1 = c_replayBuffer c) as H by exact (H c []).
  clearbody evs. clear c. induction evs as [|e evs IH]; intros c acts; [by rewrite app_nil_r|]. cbn [foldl].
  destruct (IH (rememberEventLocked (c <| c_lastSeq := e_Seq e |>) (e_Seq e) (e_ID e))
              (acts ++ [DeliverEventAction (copyEnvelope e)])) as [H1 H2].
  split; [|exact H2]. rewrite H1. unfold delivered. rewrite omap_app, <- app_assoc. cbn. by rewrite copyEnvelope_id.
Qed.

Lemma from_replayEvent c frame : frame ∈ K → from_wire c (handleReplayEvent c frame).
Proof.
  intros Hf. unfold handleReplayEvent, stopReplayLocked. from.
  all: intros Hb; rewrite ?copyEnvelope_id in *; cbn [fst snd actions_of].
  all: try (cbn; set_solver).
  match goal with H : deliverReplay ?c1 = _ |- _ => pose proof (deliver_all c1) as [Hd Hbuf]; rewrite H in * end.
  cbn in Hd, Hbuf. cbn. unfold delivered in *. rewrite omap_app, Hd. cbn. set_solver.
Qed.

Lemma from_event c frame now : frame ∈ K → from_wire c (handleEventLocked c frame now).
Proof.
  intros Hf. unfold handleEventLocked. repeat first [by apply from_replayEvent | progress from].
  intros Hb. rewrite copyEnvelope_id. cbn. set_solver.
Qed.

Lemma apply_quiet c objs c' r : applyStateObjectsLocked c objs = (c', r) →
  c_replayBuffer c' = c_replayBuffer c ∧ delivered (actions_of r) = [].
Proof.
  unfold applyStateObjectsLocked. destruct (apply_loop _ _ _ _) as [[[m b] acts]|e] eqn:Hl; cbn; intros [= <- <-]; [|done].
  split; [done|]. revert Hl. generalize (c_stateObjects c) (c_stateBytes c). revert acts.
  induction objs as [|o objs IH]; intros acts m0 b0; cbn; [by intros [= _ _ <-]|].
  destruct (ApplyStateObject _ _ _) as [[committed result] [err|]]; [by destruct (_ || _)|].
  destruct (bool_decide (result = _)); [apply IH|]. intros Hok. inv_ok. destruct x1 as [[? ?] ?]. injection Hok as <- <- <-.
  match goal with Hl : apply_loop _ _ _ objs = _ |- _ => exact (IH _ _ _ Hl) end.
Qed.

Ltac from_apply := match goal with H : applyStateObjectsLocked _ _ = _ |- _ => apply apply_quiet in H as [Hb' Hd'] end.

Lemma from_resumeSnapshot c frame : from_wire c (handleResumeStateSnapshotLocked c frame).
Proof.
  unfold handleResumeStateSnapshotLocked, stopStateResumeLocked. from; from_apply.
  match goal with H : deliverReplay ?c1 = _ |- _ => pose proof (deliver_all c1) as [Hd Hbuf]; rewrite H in * end.
  intros Hb. cbn in Hd, Hbuf, Hd'. cbn. unfold delivered in *. rewrite !omap_app, Hd, Hd', Hb'. cbn. set_solver.
Qed.

Lemma from_snapshot c frame : from_wire c (handleStateSnapshotLocked c frame).
Proof.
  unfold handleStateSnapshotLocked. repeat first [apply from_resumeSnapshot | progress from];
    from_apply; (apply from_quiet; cbn; [by rewrite Hb'|done]).
Qed.

Lemma from_update c frame : from_wire c (handleStateUpdateLocked c frame).
Proof.
  unfold handleStateUpdateLocked. from. destruct (applyStateObjectsLocked _ _) as [c' r] eqn:E. from_apply.
  apply from_quiet; [by rewrite Hb'|done].
Qed.

Lemma from_error c frame : from_wire c (handleErrorLocked c frame).
Proof. unfold handleErrorLocked. from. all: apply from_quiet; repeat case_match; cbn; set_solver. Qed.

Lemma from_then c out :
  from_wire c out →
  from_wire c (let '(c', r) := out in
               match r with
               | Err err => handleIncomingFailureLocked c' err
               | Ok actions => (c', Ok actions)
               end).
Proof. destruct out as [c' [acts|err]]; [done|]. intros Hs Hb. destruct (Hs Hb) as [Hb' _]. by apply from_failure. Qed.

Lemma from_incoming c g frame now :
  (e_Type frame = FrameEvent → frame ∈ K) → from_wire c (HandleIncoming c g frame now).
Proof.
  intros Hf. unfold HandleIncoming. destruct (negb _); [by apply from_quiet|].
  destruct (ValidateFrame _ _ _); [|case_match; [apply from_quiet; cbn; set_solver|apply from_failure]]. cbv zeta.
  destruct (_ && _ && _); [apply from_failure|]. destruct (_ && _ && _); [apply from_failure|].
  apply from_then. destruct (bool_decide (e_Type frame = FrameEvent)) eqn:He.
  - bools. rewrite He. cbn. by apply from_event, Hf.
  - repeat case_match; first
      [ apply from_snapshot | apply from_update | apply from_error
      | unfold handleWelcomeLocked, handlePongLocked, handleAckLocked, stopReplayLocked; from ].
    apply from_quiet; [by case_match|done].
Qed.

Lemma from_client_step c op :
  (∀ g f now, op = OpHandleIncoming g f now → e_Type f = FrameEvent → f ∈ K) → from_wire c (client_step c op).
Proof.
  intros Hop. destruct op; cbn [client_step]; try first
    [ solve [unfold TransportConnected, Disconnect; repeat case_match; apply from_quiet; cbn; set_solver]
    | eapply from_incoming, Hop; reflexivity ].
  all: unfold BeginConnect, StartSession, Resume, ResumeWithState, startResumeLocked, QueryState, EnqueueSend, SendPing,
    CheckHeartbeat; from.
  unfold RetryPending. case_match; [by apply from_quiet|]. apply from_quiet; [done|]. cbn [actions_of].
  induction (sortStrings _) as [|id ids IH]; [done|]. exact IH.
Qed.
End origin.

(** ** The specification: a reader of the journal *)

Record reader := mkReader {
  rd_journal : journal;
  rd_session : string;
  rd_position : nat
}.

(** Reading on, with the EVENTs read. *)
Inductive reader_step : reader → list Envelope → reader → Prop :=
| rd_append J J' sid n : extends J J' → reader_step (mkReader J sid n) [] (mkReader J' sid n)
| rd_read J sid n k : (n + k ≤ length (J sid))%nat →
    reader_step (mkReader J sid n) (take k (drop n (J sid))) (mkReader J sid (n + k))
| rd_abandon J sid n : reader_step (mkReader J sid n) [] (mkReader J "" 0)
| rd_session_new J sid : reader_step (mkReader J "" 0) [] (mkReader J sid 0).

Inductive reader_run : reader → list Envelope → reader → Prop :=
| reader_done r : reader_run r [] r
| reader_next r r1 r2 evs evs' : reader_step r evs r1 → reader_run r1 evs' r2 → reader_run r (evs ++ evs') r2.

Lemma reader_one r evs r' : reader_step r evs r' → reader_run r evs r'.
Proof. intros H. rewrite <- (app_nil_r evs). eapply reader_next; [exact H|constructor]. Qed.

Lemma reader_run_app r1 r2 r3 evs evs' : reader_run r1 evs r2 → reader_run r2 evs' r3 → reader_run r1 (evs ++ evs') r3.
Proof.
  intros H1 H2. induction H1 as [|r r1 r2 evs evs'' Hs _ IH]; [done|]. rewrite <- app_assoc.
  eapply reader_next; [exact Hs|by apply IH].
Qed.

(** ** The system *)

Section system.
Context {ST : StdText} {D : Type} `{!ReplayStore D, !EventAppender D, !Journaled D, !EventStoreLaws D}.
Variable c : ServerConfig.

(** The store, the frames ever handed to the network, the client, and the
    EVENTs it has delivered in its present Session. *)
Record system := mkSystem {
  sys_store : D;
  sys_wire : list Envelope;
  sys_client : ClientProtocol;
  sys_log : list Envelope
}.

(** One step, with the EVENTs it delivers: a call of the server, with any
    answers of its collaborators that the event store's contract allows;
    another user of the store; a call of the client.  The client receives an
    EVENT only if the server has sent it, but when, how often and in which
    order is open; frames of other types may be anything. *)
Inductive system_step : system → list Envelope → system → Prop :=
| sys_serve d d' wire cl log call t out :
    traces (server_call c call) t out → answered d t d' →
    system_step (mkSystem d wire cl log) [] (mkSystem d' (wire ++ handed t) cl log)
| sys_other d d' wire cl log :
    store_other d d' → system_step (mkSystem d wire cl log) [] (mkSystem d' wire cl log)
| sys_use d wire cl log op cl' r :
    client_step cl op = (cl', r) → op_typed op →
    (∀ g f now, op = OpHandleIncoming g f now → e_Type f = FrameEvent → f ∈ wire) →
    system_step (mkSystem d wire cl log) (delivered (actions_of r))
      (mkSystem d wire cl' (if c_sessionID cl' == "" then [] else log ++ delivered (actions_of r))).

Inductive system_run : system → list Envelope → system → Prop :=
| system_done s : system_run s [] s
| system_next s s1 s2 evs evs' : system_step s evs s1 → system_run s1 evs' s2 → system_run s (evs ++ evs') s2.

(** The relation: the client is where the reader is, has delivered what the
    reader has read, and every EVENT on the wire is recorded. *)
Record follows (s : system) (r : reader) : Prop := {
  fo_store : represents (sys_store s) (rd_journal r);
  fo_inv : client_inv (sys_client s);
  fo_session : c_sessionID (sys_client s) = rd_session r;
  fo_position : c_lastSeq (sys_client s) = Z.of_nat (rd_position r);
  fo_within : (rd_position r ≤ length (rd_journal r (rd_session r)))%nat;
  fo_log : sys_log s = take (rd_position r) (rd_journal r (rd_session r));
  fo_wire : ∀ f, f ∈ sys_wire s → e_Type f = FrameEvent → recorded (rd_journal r) f;
  fo_staged : c_replayBuffer (sys_client s) ⊆ filter (fun f => e_Type f = FrameEvent) (sys_wire s)
}.

(** The journal grows under the client. *)
Lemma follows_grow d wire wire' cl log d' J J' sid n :
  follows (mkSystem d wire cl log) (mkReader J sid n) → represents d' J' → extends J J' →
  wire ⊆ wire' → (∀ f, f ∈ wire' → e_Type f = FrameEvent → f ∈ wire ∨ recorded J' f) →
  follows (mkSystem d' wire' cl log) (mkReader J' sid n).
Proof.
  intros [Hst Hinv Hs Hp Hw Hl Hwire Hb] HJ' Hx Hsub Hnew. cbn in *.
  destruct (Hx sid) as [l El]. constructor; cbn; try done.
  - rewrite El, length_app. lia.
  - rewrite Hl, El, take_app_le by lia. done.
  - intros f Hf Hty. destruct (Hnew f Hf Hty) as [Hf'|]; [|done]. eapply recorded_extends; [exact Hx|by apply Hwire].
  - intros f Hf. apply Hb, list_elem_of_filter in Hf as [Hty Hf]. apply list_elem_of_filter. split; [done|by apply Hsub].
Qed.

Lemma system_step_follows s evs s' r :
  system_step s evs s' → follows s r → ∃ r', reader_run r evs r' ∧ follows s' r'.
Proof.
  intros Hstep Hf. destruct r as [J sid n].
  destruct Hstep as [d d' wire cl log call t out Ht Ha|d d' wire cl log Ho|d wire cl log op cl' r Hop Hty Hin].
  - destruct (server_call_recorded _ _ _ _ _ _ _ Ht Ha (fo_store _ _ Hf)) as (J' & HJ' & Hx & Hrec).
    exists (mkReader J' sid n). split; [by apply reader_one, rd_append|].
    eapply follows_grow; [exact Hf|done|done|set_solver|]. intros f [Hf'|Hf']%elem_of_app; auto.
  - destruct (other_extends _ _ _ (fo_store _ _ Hf) Ho) as (J' & HJ' & Hx).
    exists (mkReader J' sid n). split; [by apply reader_one, rd_append|].
    eapply follows_grow; [exact Hf|done|done|done|auto].
  - destruct Hf as [Hst Hinv Hs Hp Hw Hl Hwire Hb]. cbn in *.
    destruct (client_step_ok cl op Hinv Hty) as [Hinv' Hrel].
    assert (from_wire (filter (fun f => e_Type f = FrameEvent) wire) cl (client_step cl op)) as Hfrom.
    { apply from_client_step. intros g f now -> Hev. apply list_elem_of_filter. eauto. }
    destruct (Hfrom Hb) as [Hb' Hd'].
    rewrite Hop in *. cbn in Hinv', Hrel, Hb', Hd'. set (evs := delivered (actions_of r)) in *.
    case_bool_decide as Hsid.
    + (* no Session any more *)
      destruct (inv_session _ Hinv' Hsid) as (Hl0 & _).
      assert (evs = []) as ->.
      { destruct (rel_stream _ _ _ Hrel) as [[_ H]|(Hseq & Hlast & _)]; [done|]. fold evs in Hseq, Hlast.
        apply length_zero_iff_nil. lia. }
      exists (mkReader J "" 0). split; [apply reader_one, rd_abandon|]. by constructor; cbn; try done; lia.
    + destruct (rel_stream _ _ _ Hrel) as [[? _]|(Hseq & Hlast & Hall)]; [done|]. fold evs in Hseq, Hlast, Hall.
      assert (reader_run (mkReader J sid n) [] (mkReader J (c_sessionID cl') n)) as Hses.
      { destruct (rel_session _ _ _ Hrel) as [Ha|[?|[-> _]]]; [|done|rewrite Hs; constructor].
        destruct (inv_session _ Hinv Ha) as (Hl0 & _). unfold abandoned in Ha. rewrite Ha in Hs. subst sid.
        replace n with 0%nat by lia. apply reader_one, rd_session_new. }
      set (sid' := c_sessionID cl') in *.
      assert ((n ≤ length (J sid'))%nat ∧ log = take n (J sid')) as [Hw' Hl'].
      { destruct (rel_session _ _ _ Hrel) as [Ha|[?|[Heq _]]]; [|done|by unfold sid'; rewrite Heq, Hs].
        destruct (inv_session _ Hinv Ha) as (Hl0 & _). assert (n = 0%nat) as -> by lia. rewrite Hl. split; [lia|done]. }
      assert (evs ⊆ J sid') as Hsub.
      { intros e He. rewrite Forall_forall in Hall. rewrite <- (Hall e He).
        apply Hd', list_elem_of_filter in He as [Het He]. by apply Hwire. }
      destruct (stream_segment sid' (J sid') evs n) as [Hevs Hlen]; [by eapply represents_ok|done| |done|].
      { rewrite Hseq, Hp. done. }
      exists (mkReader J sid' (n + length evs)). split.
      * change evs with ([] ++ evs). eapply reader_run_app; [exact Hses|]. rewrite Hevs at 1. by apply reader_one, rd_read.
      * constructor; cbn; try done; [lia|].
        rewrite Hl', Hevs at 1. apply take_take_drop.
Qed.
End system.

(** ** The server over the memory stores is such a system *)

Section memory.
Context {ST : StdText}.

Lemma memory_answered {A} (p : prog A) m m' t a :
  exec memory_world p m = Some (m', t, a) → answered (mm_replay m) t (mm_replay m').
Proof.
  revert m t. induction p as [b|X e k IH]; intros m t; cbn; [intros [= <- <- _]; constructor|].
  destruct (memory_world X e m) as [[m1 x]|] eqn:Hw; [|done]. cbn.
  destruct (exec memory_world (k x) m1) as [[[m2 t'] a']|] eqn:Hx; [|done]. cbn. intros [= <- <- <-].
  specialize (IH x m1 t' Hx).
  assert (stream_effect e = false → mm_replay m1 = mm_replay m → answered (mm_replay m) (Ev e x :: t') (mm_replay m2)) as Hskip.
  { intros Hs <-. by apply ans_skip. }
  destruct e; cbn in Hw; unfold next_id in Hw; repeat case_match; simplify_eq; try (by apply Hskip).
  - by constructor.
  - by constructor.
  - match goal with H : Append _ _ _ _ _ _ = _ |- _ => rename H into Ha end.
    eapply ans_append; [|exact IH]. cbn. by rewrite Ha.
Qed.

Lemma serve_memory c call m m' out wire cl log :
  run_memory (server_call c call) m = (m', Some out) →
  system_step c (mkSystem (mm_replay m) wire cl log) []
    (mkSystem (mm_replay m') (wire ++ handed (memory_trace (server_call c call) m)) cl log).
Proof.
  intros Hr. assert (traces (server_call c call) (memory_trace (server_call c call) m) out) as Ht.
  { apply memory_trace_traces. by rewrite Hr. }
  eapply sys_serve; [exact Ht|]. unfold run_memory, memory_trace in *.
  destruct (exec memory_world (server_call c call) m) as [[[m1 t] o]|] eqn:E; [|done]. injection Hr as <- _.
  by eapply memory_answered.
Qed.
End memory.

(** Client calls that take their EVENTs from the wire. *)
Definition taken (wire : list Envelope) (op : ClientOp) : bool :=
  match op with OpHandleIncoming _ f _ => (e_Type f != FrameEvent) || bool_decide (f ∈ wire) | _ => true end.

Lemma use_all {ST : StdText} {D : Type} `{!ReplayStore D, !EventAppender D, !Journaled D} c (d : D) wire cl log ops :
  Forall op_typed ops → forallb (taken wire) ops = true →
  ∃ evs, system_run c (mkSystem d wire cl log) evs
           (mkSystem d wire (client_run cl log ops).1 (client_run cl log ops).2).
Proof.
  revert cl log. induction ops as [|op ops IH]; intros cl log Hty Hok; [exists []; constructor|].
  apply Forall_cons in Hty as [Ht Hty]. cbn in Hok. apply andb_true_iff in Hok as [Ho Hok]. cbn.
  destruct (client_step cl op) as [cl' r] eqn:Hs.
  destruct (IH cl' (if c_sessionID cl' == "" then [] else log ++ delivered (actions_of r)) Hty Hok) as [evs Hrun].
  eexists. eapply system_next; [|exact Hrun]. eapply sys_use; [exact Hs|exact Ht|]. intros g f now -> Hev. cbn in Ho.
  rewrite Hev, bool_decide_true in Ho by done. cbn in Ho. by bools.
Qed.

(** ** The properties *)

Section properties.
Context {ST : StdText} {D : Type} `{!ReplayStore D, !EventAppender D, !Journaled D, !EventStoreLaws D}.

Lemma system_run_app c (s1 s2 s3 : system) evs evs' :
  system_run c s1 evs s2 → system_run c s2 evs' s3 → system_run c s1 (evs ++ evs') s3.
Proof.
  intros H1 H2. induction H1 as [|s s1 s2 evs evs'' Hs _ IH]; [done|]. rewrite <- app_assoc.
  eapply system_next; [exact Hs|by apply IH].
Qed.

Lemma system_run_follows c s evs s' r :
  system_run c s evs s' → follows s r → ∃ r', reader_run r evs r' ∧ follows s' r'.
Proof.
  intros Hrun. revert r. induction Hrun as [s|s s1 s2 evs evs' Hs _ IH]; intros r Hf; [exists r; split; [constructor|done]|].
  destruct (system_step_follows _ _ _ _ _ Hs Hf) as (r1 & Hr1 & Hf1). destruct (IH _ Hf1) as (r2 & Hr2 & Hf2).
  exists r2. split; [by eapply reader_run_app|done].
Qed.

Lemma new_follows config cl (d : D) J :
  config_typed config → NewClientProtocol config = Ok cl → represents d J →
  follows (mkSystem d [] cl []) (mkReader J "" 0).
Proof.
  intros Ht Hn HJ. pose proof (new_inv _ _ Ht Hn) as Hinv. unfold NewClientProtocol in Hn. inv_ok.
  constructor; cbn; try done; [lia|by intros f Hf%elem_of_nil].
Qed.

(** C4. Exactly-once, in-order delivery, end to end.  Take any event store that
    keeps the contract of [ReplayStore] and [EventAppender], a server over
    it, and a new client, and let them act in any order: publications,
    frames of any clients, other users of the store, retention dropping old
    EVENTs, collaborators failing or panicking, disconnections and resumes,
    and a network that loses, repeats and reorders what the server sends.
    Then the client behaves like a reader of the journal of appended EVENTs:
    what it delivers is, step by step, the next EVENTs of its Session; what
    it has delivered in its present Session is exactly the first [lastSeq]
    EVENTs appended to that Session, as they were appended. *)
Theorem exactly_once_in_order c config cl (d : D) J evs s :
  config_typed config → NewClientProtocol config = Ok cl → represents d J →
  system_run c (mkSystem d [] cl []) evs s →
  ∃ J' n, reader_run (mkReader J "" 0) evs (mkReader J' (c_sessionID (sys_client s)) n)
    ∧ represents (sys_store s) J' ∧ c_lastSeq (sys_client s) = Z.of_nat n
    ∧ (n ≤ length (J' (c_sessionID (sys_client s))))%nat
    ∧ sys_log s = take n (J' (c_sessionID (sys_client s))).
Proof.
  intros Ht Hn HJ Hrun.
  destruct (system_run_follows _ _ _ _ _ Hrun (new_follows _ _ _ _ Ht Hn HJ)) as ([J' sid n] & Hr & [Hst _ Hs Hp Hw Hl _ _]).
  cbn in *. subst sid. by exists J', n.
Qed.
End properties.

(** The scenario: three EVENTs are published; the client gets the first, then
    the third, asks for a resume, and gets the others, some of them twice. *)
Section demo.
#[local] Existing Instance demo_text.

(** The server part of a run: the memory and the wire, when every call
    returns. *)
Fixpoint serve (m : memory) (wire : list Envelope) (calls : list ServerCall) : option (memory * list Envelope) :=
  match calls with
  | [] => Some (m, wire)
  | call :: calls =>
      match run_memory (server_call demo_server call) m with
      | (m', Some _) => serve m' (wire ++ handed (memory_trace (server_call demo_server call) m)) calls
      | _ => None
      end
  end.

Lemma serve_run m wire calls cl log m' wire' :
  serve m wire calls = Some (m', wire') →
  system_run demo_server (mkSystem (mm_replay m) wire cl log) [] (mkSystem (mm_replay m') wire' cl log).
Proof.
  revert m wire. induction calls as [|call calls IH]; intros m wire; cbn [serve]; [intros [= <- <-]; constructor|].
  destruct (run_memory (server_call demo_server call) m) as [m1 [out|]] eqn:E; [|done]. intros Hs.
  change (@nil Envelope) with (@nil Envelope ++ []) at 1. eapply system_next; [by apply serve_memory with (out := out)|].
  by apply IH.
Qed.

Definition demo_calls : list ServerCall :=
  CallProcess demo_hello :: map (fun id => CallPublishEvent "s1" id "t" (js "{'n':1}")) ["e1"; "e2"; "e3"].
Definition demo_boot : memory := new_memory 5000000000 ["s1"; "snap1"] demo_objects.
Definition demo_served : memory * list Envelope := default (demo_boot, []) (serve demo_boot [] demo_calls).
Definition demo_nth (n : nat) : Envelope := default zeroEnvelope (demo_served.2 !! n).
Definition demo_uses : list ClientOp :=
  demo_connect ++
  [OpHandleIncoming 1 (demo_nth 1) 0; OpHandleIncoming 1 (demo_nth 3) 0;
   OpHandleIncoming 1 (demo_frame FrameWelcome "" "s1" 0
     "{'mode':'RESUMED','server_time':1000,'resume_from':2,'replay_to':3}") 0;
   OpHandleIncoming 1 (demo_nth 2) 0; OpHandleIncoming 1 (demo_nth 3) 0; OpHandleIncoming 1 (demo_nth 2) 0].

Definition demo_end : ClientProtocol * list Envelope := demo_run demo_uses.

Lemma demo_uses_typed : Forall op_typed demo_uses.
Proof. apply ops_typed_all. vm_compute. reflexivity. Qed.

Lemma demo_system : ∃ evs,
  system_run demo_server (mkSystem (mm_replay demo_boot) [] demo_client []) evs
    (mkSystem (mm_replay demo_served.1) demo_served.2 demo_end.1 demo_end.2).
Proof.
  destruct (use_all demo_server (mm_replay demo_served.1) demo_served.2 demo_client [] demo_uses demo_uses_typed)
    as [evs Huse]; [vm_compute; reflexivity|].
  exists evs. eapply (system_run_app _ _ _ _ []); [|exact Huse]. apply (serve_run _ _ demo_calls).
  vm_compute. reflexivity.
Qed.

Lemma demo_end_state :
  map e_ID demo_end.2 = ["e1"; "e2"; "e3"] ∧ c_lastSeq demo_end.1 = Z.of_nat 3 ∧ c_sessionID demo_end.1 = "s1".
Proof. vm_compute. auto. Qed.

Lemma demo_represented : represents (mm_replay demo_boot) (fun _ => []).
Proof. exact memory_represents_new. Qed.

Lemma exactly_once_in_order_witness :
  map e_ID demo_end.2 = ["e1"; "e2"; "e3"]
  ∧ ∃ J, represents (mm_replay demo_served.1) J ∧ demo_end.2 = take 3 (J "s1").
Proof.
  destruct demo_end_state as (Hids & H3 & Hs). split; [exact Hids|]. destruct demo_system as [evs Hrun].
  destruct (exactly_once_in_order demo_server DefaultClientConfig demo_client (mm_replay demo_boot) (fun _ => []) evs _
              demo_typed demo_new demo_represented Hrun) as (J & n & _ & HJ & Hn & _ & Hlog).
  exists J. revert HJ Hn Hlog. generalize demo_end, Hs, H3. generalize (mm_replay demo_served.1), demo_served.2. cbn [sys_store sys_client sys_log].
  intros d w p -> -> HJ Hn ->. split; [exact HJ|]. apply (inj Z.of_nat) in Hn. by subst n.
Defined.
End demo.
