(* ===== verification/EndToEnd.v ===== *)
(** * Client and server together

    The RESUME a client sends is answered by the server's handler, and the
    client receives the batch that was enqueued: the client ends READY at the
    server's high-water mark, having delivered exactly the EVENTs the replay
    store returned.  Over the memory stores and behind the admission gate the
    same holds without the assumption that the server answered. *)

From Stdlib Require Import Ascii String.
From S2P Require Import Prelude SortedLists Utf8 Json JsonText JsonPrint Types Codec Capability State StateProps Validate CodecProps Outbound Store StoreProps Client SortStrings Sha256 Program Server ServerStream MemoryServer Runs ServerRules StreamProps Admission ClientInv ClientSteps ClientProps.
Open Scope string_scope.
Open Scope list_scope.
Open Scope go_scope.
Open Scope Z_scope.

Section together.
Context {ST : StdText}.

(** The client handles frames as they arrive; an error of a call ends it. *)
Fixpoint receive (c : ClientProtocol) (frames : list Envelope) (now : time) : ClientProtocol * res (list Action) :=
  match frames with
  | [] => (c, Ok [])
  | frame :: frames =>
      let '(c, r) := HandleIncoming c (c_generation c) frame now in
      match r with
      | Err e => (c, Err e)
      | Ok actions =>
          let '(c, r) := receive c frames now in
          (c, match r with Err e => Err e | Ok actions' => Ok (actions ++ actions') end)
      end
  end.

(** ** Decoding what the two sides print *)

Lemma decode_printed_any `{WireLaws A} strict (a : A) :
  out_ok maxNestingDepth (layout a) = true →
  decodePayload (mustPayload a) strict
  = match dec_struct strict zero (out_value (layout a)) with
    | Ok b => Ok b
    | Err e => Err (bad_request ("invalid payload: " +++ err_Error (EJson e)))
    end.
Proof.
  intros Hok. destruct (layout_text maxNestingDepth a Hok ltac:(lia)) as (s & Hm & Hv).
  unfold mustPayload. rewrite Hm. cbn [default]. unfold id, decodePayload.
  rewrite bool_decide_false by apply TrimSpace_object.
  assert (slen (opening 123 s) =? 0 = false) as ->.
  { apply Z.eqb_neq. unfold slen. cbn. lia. }
  cbn [orb guard_err mbind result_mbind].
  pose proof (vreads_decode _ _ _ Hv ltac:(lia)) as Hdec. unfold rejectDuplicateJSONFields.
  rewrite Hdec, wire_strict. cbn [map_err ensureJSONEOF dec_Decode skip_ws].
  by destruct strict, (dec_struct _ zero _).
Qed.

(** The namespaces of a RESUME. *)
Definition sync_of (namespaces : list string) : option ResumeStateSync :=
  if 0 <? Z.of_nat (length namespaces) then Some (mkResumeStateSync namespaces) else None.
Definition namespaces_utf8 (namespaces : list string) : Prop := Forall (fun ns => utf8_ValidString ns = true) namespaces.

Lemma cloneResumeStateSync_id sync : cloneResumeStateSync sync = sync.
Proof. by destruct sync as [[ns]|]. Qed.

Lemma sync_of_cases namespaces :
  namespaces = [] ∧ sync_of namespaces = None ∨ namespaces ≠ [] ∧ sync_of namespaces = Some (mkResumeStateSync namespaces).
Proof. destruct namespaces; [by left|by right]. Qed.

Lemma sync_out_ok namespaces d : namespaces_utf8 namespaces → 1 < d →
  forallb (fun '(k, v) => utf8_ValidString k && out_ok d v) (pointer_out "state_sync" (sync_of namespaces)) = true.
Proof.
  intros Hns Hd. destruct (sync_of_cases namespaces) as [[_ ->]|[Hne ->]]; [done|].
  destruct namespaces as [|ns l]; [done|].
  assert (∀ d, 0 < d → out_ok d (OArr (map OStr (ns :: l))) = true) as Harr.
  { intros d' Hd'. cbn [out_ok]. rewrite (proj2 (Z.ltb_lt 0 d')) by lia. cbn [andb].
    apply forallb_forall. intros o (x & <- & Hx%list_elem_of_In)%in_map_iff. unfold namespaces_utf8 in Hns.
    rewrite Forall_forall in Hns. by apply Hns. }
  cbn [pointer_out layout ResumeStateSync_wire rss_Namespaces slice_out].
  generalize dependent (OArr (map OStr (ns :: l))). intros arr Harr. cbn [forallb out_ok].
  rewrite (proj2 (Z.ltb_lt 0 d)), Harr by lia. done.
Qed.

(** The server reads the position and the namespaces the client sent. *)
Lemma decode_resume strict n namespaces : is_u64 n → namespaces_utf8 namespaces →
  decodePayload (mustPayload (mkResume n (sync_of namespaces))) strict = Ok (mkResume n (sync_of namespaces)).
Proof.
  intros Hn Hns. apply decode_printed; [done|]. cbn [layout ResumePayload_wire rp_LastSeq rp_StateSync].
  pose proof (sync_out_ok namespaces (maxNestingDepth - 1) Hns ltac:(done)) as H.
  generalize dependent (pointer_out "state_sync" (sync_of namespaces)). intros l H.
  change (forallb (fun '(k, v) => utf8_ValidString k && out_ok (maxNestingDepth - 1) v) l = true). exact H.
Qed.

(** The client reads the bounds the server announced; that the WELCOME is
    valid means that its time is a 64-bit number. *)
Lemma decode_welcome strict limits sid last namespaces ts replayTo :
  namespaces_utf8 namespaces → is_u64 replayTo →
  let welcome := resumeWelcome sid (mkResume last (sync_of namespaces)) ts replayTo in
  ValidateFrame welcome limits strict = Ok tt →
  decodePayload (e_Payload welcome) strict
  = Ok (mkWelcome WelcomeModeResumed ts (u64 (last + 1)) replayTo (sync_of namespaces) []).
Proof.
  intros Hns Hto welcome Hv.
  set (p := mkWelcome WelcomeModeResumed ts (u64 (last + 1)) replayTo (sync_of namespaces) []).
  assert (welcome = mkEnvelope WireVersionV2 FrameWelcome "" sid 0 ts (mustPayload p)) as Hw.
  { unfold welcome, resumeWelcome. cbn [rp_StateSync rp_LastSeq]. by rewrite cloneResumeStateSync_id. }
  rewrite Hw in *. cbn [e_Payload]. clear welcome Hw.
  assert (out_ok maxNestingDepth (layout p) = true) as Hok.
  { unfold p. cbn [layout WelcomePayload_wire]. unfold WelcomePayload_MarshalJSON. cbn [wp_Mode]. rewrite bool_decide_true by done.
    cbn [wp_ServerTime wp_ResumeFrom wp_ReplayTo wp_StateSync]. rewrite !cloneResumeStateSync_id.
    pose proof (sync_out_ok namespaces (maxNestingDepth - 1) Hns ltac:(done)) as H.
    generalize dependent (pointer_out "state_sync" (sync_of namespaces)). intros l H.
    change (forallb (fun '(k, v) => utf8_ValidString k && out_ok (maxNestingDepth - 1) v) l = true). exact H. }
  destruct (decide (MinInt64 ≤ ts ≤ MaxInt64)) as [Hts|Hts].
  { apply decode_printed; [|done]. split_and!; [exact Hts|apply u64_range|exact Hto|constructor|].
    unfold p. cbn [wp_Mode]. by rewrite bool_decide_true. }
  exfalso. unfold ValidateFrame in Hv. apply result_bind_Ok in Hv as ([] & _ & Hv). cbn [e_Type] in Hv.
  rewrite bool_decide_false, bool_decide_true in Hv by done. unfold validateWelcome in Hv.
  do 3 (apply result_bind_Ok in Hv as ([] & _ & Hv)). apply result_bind_Ok in Hv as (q & Hq & _).
  cbn [e_Payload] in Hq. rewrite decode_printed_any in Hq by done. revert Hq.
  unfold p. cbn [layout WelcomePayload_wire]. unfold WelcomePayload_MarshalJSON. cbn [wp_Mode]. rewrite bool_decide_true by done.
  cbn [wp_ServerTime wp_ResumeFrom wp_ReplayTo wp_StateSync]. rewrite !cloneResumeStateSync_id.
  destruct (sync_of namespaces) as [sync|]; cbn [pointer_out];
    dec_fields WelcomePayload_wire; cbn [dec_int64]; rewrite parse_int_dec; change (wp_ServerTime p) with ts;
    destruct (Z.leb_spec MinInt64 ts), (Z.leb_spec ts MaxInt64); try lia; intros Hq; discriminate Hq.
Qed.

(** ** Staging and delivering the replay *)

(** The EVENTs still to come continue what is staged up to the mark. *)
Record staging (c : ClientProtocol) (rest : list Envelope) : Prop := {
  st_state : c_state c = StateResuming;
  st_ready : client_inv (readyLocked c);
  st_session : c_sessionID c ≠ "";
  st_mark : is_u64 (c_replayTo c);
  st_staged : map e_Seq (c_replayBuffer c) = seqZ (c_lastSeq c + 1) (Z.of_nat (length (c_replayBuffer c)));
  st_rest : map e_Seq rest = seqZ (c_lastSeq c + Z.of_nat (length (c_replayBuffer c)) + 1)
              (c_replayTo c - c_lastSeq c - Z.of_nat (length (c_replayBuffer c)));
  st_below : c_lastSeq c + Z.of_nat (length (c_replayBuffer c)) < c_replayTo c;
  st_count : c_replayTo c - c_lastSeq c ≤ cc_MaxReplayEvents (c_config c);
  st_bytes : c_replayBytes c + buffer_bytes rest ≤ cc_MaxReplayBytes (c_config c);
  st_valid : Forall (fun f => e_Type f = FrameEvent ∧ e_SessionID f = c_sessionID c
               ∧ ValidateFrame f (cc_Limits (c_config c)) (cc_StrictValidation (c_config c)) = Ok tt) rest
}.

Definition stage (c : ClientProtocol) (f : Envelope) : ClientProtocol :=
  c <| c_replayBuffer := c_replayBuffer c ++ [f] |> <| c_replayBytes := c_replayBytes c + replayEventBytes f |>.

Lemma buffer_bytes_nonneg l : 0 ≤ buffer_bytes l.
Proof.
  induction l as [|g l IH]; [done|]. change (buffer_bytes (g :: l)) with (replayEventBytes g + buffer_bytes l).
  unfold replayEventBytes.
  pose proof (slen_nonneg (e_ID g)). pose proof (slen_nonneg (e_SessionID g)). pose proof (slen_nonneg (e_Payload g)). lia.
Qed.

(** An EVENT of the range reaches the replay buffer. *)
Lemma staging_event c f rest now : staging c (f :: rest) →
  e_Seq f = c_lastSeq c + Z.of_nat (length (c_replayBuffer c)) + 1
  ∧ HandleIncoming c (c_generation c) f now
    = (if negb (e_Seq f =? c_replayTo c) then (stage c f, Ok [])
       else if 0 <? Z.of_nat (length (c_resumeStateNamespaces c))
       then ((stage c f) <| c_resumeEventsComplete := true |>, Ok [])
       else let '(c', actions) := deliverReplay (stage c f) in
            (readyLocked c', Ok (actions ++ [SessionReadyAction (c_sessionID c')]))).
Proof.
  intros [Hst Hinv Hsid Hmark Hstaged Hrest Hbelow Hcount Hbytes Hvalid].
  apply Forall_cons in Hvalid as [(Hty & Hs & Hv) _].
  rewrite seqZ_cons in Hrest by lia. cbn [map] in Hrest. injection Hrest as Hseq _.
  split; [done|]. pose proof (inv_seq _ Hinv) as [Hl _]. cbn in Hl. unfold is_u64 in *.
  pose proof (buffer_bytes_nonneg rest) as Hb.
  unfold HandleIncoming. rewrite Z.eqb_refl, Hv, Hty, Hs. cbn [negb].
  rewrite (bool_decide_true (c_sessionID c = c_sessionID c)) by done.
  rewrite !(bool_decide_false (FrameEvent = _)) by done. rewrite (bool_decide_true (FrameEvent = FrameEvent)) by done.
  cbn [negb andb]. unfold handleEventLocked. rewrite Hst. cbn -[Z.leb Z.eqb Z.add handleReplayEvent].
  destruct (Z.leb_spec (e_Seq f) (c_lastSeq c)); [lia|]. rewrite ?bool_decide_true by done.
  unfold handleReplayEvent. destruct (Z.eqb_spec (c_replayTo c) 0); [lia|].
  rewrite u64_small by (unfold is_u64; lia). rewrite (proj2 (Z.eqb_eq _ _) Hseq).
  cbn [negb orb]. destruct (Z.ltb_spec (c_replayTo c) (e_Seq f)); [lia|].
  destruct (Z.ltb_spec (cc_MaxReplayEvents (c_config c)) (Z.of_nat (length (c_replayBuffer c)) + 1)); [lia|].
  change (buffer_bytes (f :: rest)) with (replayEventBytes f + buffer_bytes rest) in Hbytes.
  destruct (Z.ltb_spec (cc_MaxReplayBytes (c_config c) - c_replayBytes c) (replayEventBytes f)); [lia|].
  cbn [orb]. rewrite copyEnvelope_id. fold (stage c f).
  rewrite !(bool_decide_true (StateResuming = StateResuming)) by done. cbn [negb]. rewrite andb_false_r.
  change (c_replayTo (stage c f)) with (c_replayTo c). destruct (negb (e_Seq f =? c_replayTo c)); [done|].
  change (c_resumeStateNamespaces (stage c f)) with (c_resumeStateNamespaces c). destruct (0 <? _); [done|].
  unfold deliverReplay.
  change (c_replayBuffer (stage c f)) with (c_replayBuffer c ++ [f]). by destruct (foldl _ _ _).
Qed.

Lemma staging_next c f rest : staging c (f :: rest) → e_Seq f ≠ c_replayTo c → staging (stage c f) rest.
Proof.
  intros [Hst Hinv Hsid Hmark Hstaged Hrest Hbelow Hcount Hbytes Hvalid] Hne.
  apply Forall_cons in Hvalid as [_ Hvalid]. rewrite seqZ_cons in Hrest by lia. cbn [map] in Hrest.
  injection Hrest as Hseq Hrest.
  change (buffer_bytes (f :: rest)) with (replayEventBytes f + buffer_bytes rest) in Hbytes.
  split; try done; cbn -[Z.add Z.sub buffer_bytes replayEventBytes]; rewrite ?length_app, ?map_app; cbn [length map].
  - rewrite Nat.add_1_r, Nat2Z.inj_succ, <- Z.add_1_r, seqZ_snoc, Hstaged, Hseq by lia. do 2 f_equal. lia.
  - rewrite Hrest. f_equal; lia.
  - lia.
  - lia.
Qed.

Lemma receive_replay rest c now : staging c rest → c_resumeStateNamespaces c = [] →
  ∃ c', receive c rest now
        = (c', Ok (map DeliverEventAction (c_replayBuffer c ++ rest) ++ [SessionReadyAction (c_sessionID c)]))
  ∧ client_inv c' ∧ c_state c' = StateReady ∧ c_lastSeq c' = c_replayTo c ∧ c_sessionID c' = c_sessionID c.
Proof.
  revert c. induction rest as [|f rest IH]; intros c Hs Hns.
  { exfalso. pose proof (st_rest _ _ Hs) as H. pose proof (st_below _ _ Hs). rewrite seqZ_cons in H by lia. done. }
  destruct (staging_event c f rest now Hs) as [Hseq Hin]. cbn [receive]. rewrite Hin, Hns.
  destruct (Z.eqb_spec (e_Seq f) (c_replayTo c)) as [Heq|Hne]; cbn [negb length Z.of_nat].
  - change (0 <? Z.of_nat 0) with false. lazy iota. pose proof Hs as [Hst Hinv Hsid Hmark Hstaged Hrest Hbelow Hcount Hbytes Hvalid].
    assert (rest = []) as ->.
    { apply (f_equal length) in Hrest. rewrite length_map, length_seqZ in Hrest. cbn [length] in Hrest.
      destruct rest; [done|]. cbn in Hrest. lia. }
    destruct (deliver_ready (stage c f)) as (Hi & Hsame & Hlast & Hacts & _); [done|done| | |].
    + cbn -[Z.add Z.sub]. rewrite length_app, map_app. cbn [length map].
      rewrite Nat.add_1_r, Nat2Z.inj_succ, <- Z.add_1_r, seqZ_snoc, Hstaged, Hseq by lia. do 2 f_equal. lia.
    + cbn -[Z.add Z.sub]. rewrite length_app. cbn [length]. unfold is_u64 in Hmark. lia.
    + destruct (deliverReplay (stage c f)) as [c' acts]. cbn [fst snd] in *. subst acts.
      unfold same_but_stream in Hsame.
      assert (c_sessionID c' = c_sessionID c) as Hsess by (rewrite Hsame; done).
      exists (readyLocked c'). cbn [receive]. rewrite Hsess, app_nil_r. split_and!; [done|done|done| |done].
      cbn -[Z.add]. rewrite Hlast. cbn -[Z.add]. rewrite length_app. cbn [length]. lia.
  - destruct (IH (stage c f)) as (c' & Hr & Hi & Hst & Hlast & Hsess); [by eapply staging_next|done|].
    rewrite Hr. exists c'. cbn [app] in *. split_and!; try done. do 2 f_equal. cbn -[map app]. by rewrite <- app_assoc.
Qed.

(** With State to come, the replay is only staged. *)
Definition staged (c : ClientProtocol) (events : list Envelope) : ClientProtocol :=
  c <| c_replayBuffer := c_replayBuffer c ++ events |> <| c_replayBytes := c_replayBytes c + buffer_bytes events |>
    <| c_resumeEventsComplete := true |>.

Lemma receive_staged rest c now : staging c rest → c_resumeStateNamespaces c ≠ [] →
  receive c rest now = (staged c rest, Ok []).
Proof.
  revert c. induction rest as [|f rest IH]; intros c Hs Hns.
  { exfalso. pose proof (st_rest _ _ Hs) as H. pose proof (st_below _ _ Hs). rewrite seqZ_cons in H by lia. done. }
  destruct (staging_event c f rest now Hs) as [Hseq Hin]. cbn [receive]. rewrite Hin.
  destruct (Z.eqb_spec (e_Seq f) (c_replayTo c)) as [Heq|Hne]; cbn [negb].
  - destruct (Z.ltb_spec 0 (Z.of_nat (length (c_resumeStateNamespaces c)))) as [|Hl];
      [|by destruct (c_resumeStateNamespaces c)].
    assert (rest = []) as ->.
    { pose proof (st_rest _ _ Hs) as Hrest. pose proof (st_below _ _ Hs). apply (f_equal length) in Hrest.
      rewrite length_map, length_seqZ in Hrest. cbn [length] in Hrest. destruct rest; [done|]. cbn in Hrest. lia. }
    cbn [receive]. unfold staged, stage. do 2 f_equal. unfold buffer_bytes. cbn. by rewrite Z.add_0_r.
  - rewrite (IH (stage c f)); [|by eapply staging_next|done]. f_equal. unfold staged, stage. cbn -[Z.add buffer_bytes].
    rewrite <- app_assoc, <- Z.add_assoc. done.
Qed.

(** ** The WELCOME *)

Lemma equalStrings_refl l : equalStrings l l = true.
Proof. induction l as [|x l IH]; [done|]. cbn. rewrite bool_decide_true by done. exact IH. Qed.

(** The resumed WELCOME fixes the mark, or ends the resume when nothing is
    missing. *)
Lemma receive_welcome c ts mark now :
  let namespaces := c_resumeStateNamespaces c in
  c_state c = StateResuming → namespaces_utf8 namespaces → is_u64 (c_lastSeq c) → is_u64 mark →
  c_lastSeq c ≤ mark → mark - c_lastSeq c ≤ cc_MaxReplayEvents (c_config c) →
  let welcome := resumeWelcome (c_sessionID c) (mkResume (c_lastSeq c) (sync_of namespaces)) ts mark in
  ValidateFrame welcome (cc_Limits (c_config c)) (cc_StrictValidation (c_config c)) = Ok tt →
  HandleIncoming c (c_generation c) welcome now
  = (if (mark =? c_lastSeq c) && is_nil namespaces
     then (readyLocked c, Ok [SessionReadyAction (c_sessionID c)]) else (fixReplayBounds c mark, Ok [])).
Proof.
  intros namespaces Hst Hns Hl Hmark Hle Hmax welcome Hv.
  pose proof (decode_welcome _ _ _ _ _ _ _ Hns Hmark Hv) as Hdec. fold welcome in Hdec.
  unfold HandleIncoming. rewrite Z.eqb_refl, Hv. cbn [negb]. change (e_Type welcome) with FrameWelcome.
  change (e_SessionID welcome) with (c_sessionID c).
  rewrite !(bool_decide_true (FrameWelcome = FrameWelcome)), !(bool_decide_false (FrameWelcome = FrameError)) by done.
  cbn [negb andb]. unfold handleWelcomeLocked. rewrite Hdec, Hst. fold namespaces.
  cbn [or_return wp_Mode wp_ResumeFrom wp_ReplayTo wp_StateSync].
  change (e_SessionID welcome) with (c_sessionID c).
  rewrite !(bool_decide_true (c_sessionID c = c_sessionID c)), (bool_decide_true (WelcomeModeResumed = WelcomeModeResumed)) by done.
  rewrite Z.eqb_refl. destruct (Z.ltb_spec mark (c_lastSeq c)); [lia|]. cbn [negb orb].
  change (c_replayTo (fixReplayBounds c mark)) with mark. change (c_lastSeq (fixReplayBounds c mark)) with (c_lastSeq c).
  change (c_resumeStateNamespaces (fixReplayBounds c mark)) with namespaces.
  unfold is_u64 in *. rewrite u64_small by (unfold is_u64; lia).
  destruct (Z.ltb_spec (cc_MaxReplayEvents (c_config c)) (mark - c_lastSeq c)); [lia|].
  destruct namespaces as [|ns l]; cbn [is_nil].
  - change (Z.of_nat (length []) =? 0) with true. rewrite (bool_decide_false (is_Some _)) by (by intros []). cbn [negb andb].
    rewrite andb_true_r. by destruct (mark =? c_lastSeq c).
  - change (Z.of_nat (length (ns :: l)) =? 0) with false. change (sync_of (ns :: l)) with (Some (mkResumeStateSync (ns :: l))).
    cbn [rss_Namespaces negb andb]. rewrite equalStrings_refl. cbn [negb]. rewrite andb_false_r.
    by destruct (mark =? c_lastSeq c).
Qed.

(** The client that sent a RESUME receives the WELCOME and the range. *)
Lemma receive_range c ts mark events now :
  client_inv c → c_sessionID c ≠ "" → is_u64 mark → c_lastSeq c ≤ mark →
  mark - c_lastSeq c ≤ cc_MaxReplayEvents (c_config c) → buffer_bytes events ≤ cc_MaxReplayBytes (c_config c) →
  map e_Seq events = seqZ (c_lastSeq c + 1) (mark - c_lastSeq c) →
  let welcome := resumeWelcome (c_sessionID c) (mkResume (c_lastSeq c) None) ts mark in
  ValidateFrame welcome (cc_Limits (c_config c)) (cc_StrictValidation (c_config c)) = Ok tt →
  Forall (fun f => e_Type f = FrameEvent ∧ e_SessionID f = c_sessionID c
            ∧ ValidateFrame f (cc_Limits (c_config c)) (cc_StrictValidation (c_config c)) = Ok tt) events →
  ∃ c2, receive (beginRecoveryLocked c [] false) (welcome :: events) now
        = (c2, Ok (map DeliverEventAction events ++ [SessionReadyAction (c_sessionID c)]))
    ∧ c_state c2 = StateReady ∧ c_lastSeq c2 = mark ∧ c_sessionID c2 = c_sessionID c.
Proof.
  intros Hinv Hsid Hmark Hle Hcount Hbytes Hseq welcome Hw Hvalid. pose proof (inv_seq _ Hinv) as [Hl _].
  set (c1 := beginRecoveryLocked c [] false).
  pose proof (receive_welcome c1 ts mark now eq_refl (List.Forall_nil _) Hl Hmark Hle Hcount Hw) as Hrw.
  cbn [receive]. change (c_sessionID c) with (c_sessionID c1). unfold welcome.
  change (resumeWelcome (c_sessionID c) (mkResume (c_lastSeq c) None) ts mark)
    with (resumeWelcome (c_sessionID c1) (mkResume (c_lastSeq c1) (sync_of (c_resumeStateNamespaces c1))) ts mark).
  rewrite Hrw. cbn [c1 beginRecoveryLocked resetTo c_resumeStateNamespaces is_nil]. rewrite andb_true_r.
  destruct (Z.eqb_spec mark (c_lastSeq c1)) as [Heq|Hne].
  - change (c_lastSeq c1) with (c_lastSeq c) in Heq. rewrite Heq, Z.sub_diag in Hseq. destruct events; [|done].
    exists (readyLocked c1). by rewrite Heq.
  - change (c_lastSeq c1) with (c_lastSeq c) in Hne.
    destruct (receive_replay events (fixReplayBounds c1 mark) now) as (c2 & Hr & _ & Hs2 & Hl2 & Hsid2).
    { split; try done; cbn -[Z.add Z.sub buffer_bytes].
      - exact (inv_ready c Hsid Hinv).
      - rewrite Hseq. f_equal; lia.
      - lia. }
    { done. }
    rewrite Hr. exists c2. by rewrite Hs2, Hl2, Hsid2.
Qed.

(** The RESUME a client sends. *)
Lemma startResume_frame c g namespaces now c1 frame :
  startResumeLocked c g namespaces now = (c1, Ok [SendFrameAction frame]) →
  c_sessionID c ≠ "" ∧ c1 = beginRecoveryLocked c namespaces false ∧ frame = resumeFrameLocked c namespaces now
  ∧ ValidateFrame frame (cc_Limits (c_config c)) (cc_StrictValidation (c_config c)) = Ok tt.
Proof.
  unfold startResumeLocked. destruct (negb (g =? c_generation c)); [done|].
  destruct (_ || _) eqn:Hst; [done|]. apply orb_false_iff in Hst as [_ Hsid]. bools.
  unfold validateOutboundFrame. rewrite ValidateFrame_normalized.
  destruct (ValidateFrame _ _ _) as [[]|] eqn:Hv; [|done]. intros [= <- <-]. done.
Qed.

Lemma decode_resume_frame c namespaces now strict : is_u64 (c_lastSeq c) → namespaces_utf8 namespaces →
  decodePayload (e_Payload (resumeFrameLocked c namespaces now)) strict = Ok (mkResume (c_lastSeq c) (sync_of namespaces)).
Proof. intros Hl Hns. exact (decode_resume strict _ _ Hl Hns). Qed.

(** ** The gate *)

(** A gate that waits for the handshake of its current connection. *)
Definition awaiting (a : ServerAdmission) (q : nat) : Prop :=
  sa_state a = ServerAdmissionAwaitingHandshake ∧ sa_handshake a = false ∧ sa_outbound a = Some q.

(** It lets a valid RESUME through, and a result with a Session makes it
    ready. *)
Lemma Handle_resume {S} s (w : world S) a q (m m' : S) frame r :
  awaiting a q → ValidateFrame frame (sv_Limits s) (sv_StrictValidation s) = Ok tt → e_Type frame = FrameResume →
  runs w (invokeServerProcess s frame) m m' (Normal (r, None)) →
  hr_close r = false → hr_abandonSession r = false → hr_readySessionID r ≠ "" →
  ∃ a', Handle s w true a m (sa_generation a) frame = Some (a', m', None)
    ∧ sa_state a' = ServerAdmissionReady ∧ sa_sessionID a' = hr_readySessionID r
    ∧ sa_capabilities a' = hr_capabilities r ∧ sa_generation a' = sa_generation a ∧ sa_outbound a' = Some q.
Proof.
  intros (Hst & Hhs & Hq) Hv Hty [t Ht] Hc Hab Hready. unfold Handle. cbn [negb]. unfold admission.
  rewrite Hq, Z.eqb_refl, Hst, Hv, Hhs. cbn [negb]. rewrite bool_decide_false by done. unfold allowed. rewrite Hty.
  rewrite !(bool_decide_true (ServerAdmissionAwaitingHandshake = ServerAdmissionAwaitingHandshake)),
    !(bool_decide_true (FrameResume = FrameResume)), !(bool_decide_false (FrameResume = FrameError)),
    !(bool_decide_false (ServerAdmissionAwaitingHandshake = ServerAdmissionReady)) by done.
  cbn [negb andb orb]. rewrite orb_true_r. cbn [negb andb orb admitted_program]. rewrite Ht. cbn.
  unfold applyResult. cbn. rewrite Z.eqb_refl, Hq, bool_decide_true by done. cbn [negb orb].
  rewrite Hst, bool_decide_false, Hc, Hab, bool_decide_false by done. cbn [negb]. eexists. split_and!; done.
Qed.
End together.

(** ** The property *)

(** C10. A resume brings the client up to date.  Let a client in any reachable
    state send a RESUME, let the server's handler process that very frame,
    whatever its stores answer, and let it make the connection ready.  Then
    the handler enqueued one batch, and the client that receives the batch
    delivers exactly the EVENTs the replay store returned, in order, reports
    the Session ready as its last action, and is READY at the server's
    high-water mark.  Both ends use the same limits and the same strictness,
    and the replay fits the client's replay limits. *)
Theorem resume_end_to_end {ST : StdText} s c0 g now c1 frame t r err now' :
  client_reachable c0 → Resume c0 g now = (c1, Ok [SendFrameAction frame]) →
  cc_Limits (c_config c0) = sv_Limits s → cc_StrictValidation (c_config c0) = sv_StrictValidation s →
  sv_MaxReplayEvents s ≤ cc_MaxReplayEvents (c_config c0) →
  traces (handleResume s frame) t (Normal (r, err)) → hr_readySessionID r ≠ "" →
  ∃ batch events mark,
    ob_batches (observed t) = [batch] ∧ ob_replayed (observed t) = Some events ∧ ob_current (observed t) = Some mark
    ∧ (buffer_bytes events ≤ cc_MaxReplayBytes (c_config c0) →
       ∃ c2, receive c1 batch now' = (c2, Ok (map DeliverEventAction events ++ [SessionReadyAction (c_sessionID c0)]))
         ∧ c_state c2 = StateReady ∧ c_lastSeq c2 = mark ∧ c_sessionID c2 = c_sessionID c0).
Proof.
  intros Hreach HR Hlim Hstrict Hmaxev Ht Hready. pose proof (reachable_inv c0 Hreach) as Hinv.
  pose proof (inv_seq _ Hinv) as [Hl _]. apply startResume_frame in HR as (Hsid & -> & -> & _).
  pose proof (observed_by _ _ _ _ (handleResume_holds s _) Ht) as Hpost. destruct Hpost as [[H _]|Hpost]; [done|].
  destruct Hpost as (resume & ts & mark & events & snap & Hdec & _ & _ & _ & _ & Hcur & Hrep & Hbatch & Hw & Hmark
    & Hle & Hcount & Hseq & Hvalid & Hsnap).
  rewrite decode_resume_frame in Hdec by (done || constructor). injection Hdec as <-. cbn [rp_LastSeq rp_StateSync] in *.
  destruct snap; [done|]. cbn [option_list] in Hbatch. rewrite app_nil_r in Hbatch.
  unfold validateOut, validateOutboundFrame in Hw, Hvalid. setoid_rewrite ValidateFrame_normalized in Hvalid.
  rewrite ValidateFrame_normalized in Hw. rewrite <- Hlim, <- Hstrict in Hw, Hvalid.
  eexists _, events, mark. split_and!; [exact Hbatch|done|done|]. intros Hbytes.
  apply receive_range; done || lia.
Qed.

(** A client that saw only the first EVENT reconnects to the server of the
    scenario, and resumes. *)
Definition demo_back : ClientProtocol :=
  (demo_run (demo_connect ++ [OpHandleIncoming 1 (demo_event 1 "e1") 0; OpDisconnect 1; OpBeginConnect;
     OpTransportConnected 2])).1.

Lemma demo_back_reachable : client_reachable (ST:=demo_text) demo_back.
Proof.
  apply client_run_reachable; [|repeat constructor; vm_compute; congruence].
  exact (reach_new _ _ demo_typed demo_new).
Qed.

Definition demo_resumption : Envelope :=
  match (Resume (ST:=demo_text) demo_back 2 7).2 with Ok [SendFrameAction f] => f | _ => zeroEnvelope end.
Definition demo_answer : list event :=
  memory_trace (handleResume (ST:=demo_text) demo_server demo_resumption) demo_memory.

Lemma resume_end_to_end_witness :
  let '(c, r) := receive (ST:=demo_text) (Resume (ST:=demo_text) demo_back 2 7).1
                   (default [] (head (ob_batches (observed demo_answer)))) 9 in
  c_lastSeq c = 3 ∧ c_state c = StateReady
  ∧ r = Ok [DeliverEventAction (mkEnvelope WireVersionV2 FrameEvent "e2" "s1" 2 5000 (js "{'event_type':'t','content':{'n':1}}"));
            DeliverEventAction (mkEnvelope WireVersionV2 FrameEvent "e3" "s1" 3 5000 (js "{'event_type':'t','content':{'n':1}}"));
            SessionReadyAction "s1"].
Proof.
  destruct (resume_end_to_end (ST:=demo_text) demo_server demo_back 2 7 (Resume (ST:=demo_text) demo_back 2 7).1
              demo_resumption demo_answer
              (mkHandleResult "s1" (mkSessionCapabilities [mkNegotiated "state-sync" 1] {["state-sync" := 1]}) false false)
              None 9) as (batch & events & mark & Hb & He & Hm & H).
  - exact demo_back_reachable.
  - vm_compute. reflexivity.
  - vm_compute. reflexivity.
  - vm_compute. reflexivity.
  - vm_compute. congruence.
  - apply memory_trace_traces. vm_compute. reflexivity.
  - discriminate.
  - rewrite Hb. cbn [head default]. unfold id. vm_compute in He, Hm. injection He as <-. injection Hm as <-.
    destruct H as (c2 & -> & Hst & Hl & _); [vm_compute; congruence|].
    split_and!; [exact Hl|exact Hst|vm_compute; reflexivity].
Defined.

(** C7. Reconnecting catches up.  A client in any reachable state sends a
    RESUME to a server over the memory stores, through a gate that waits for
    a handshake.  Both ends use the same limits and the same strictness.  If
    the Session is live, the stream retains what the client misses, the range
    is within the replay limits of both sides, the WELCOME and the EVENTs to
    be sent are valid frames, and the queue is open, then the call of [Handle] returns without error, the gate is READY
    for that Session, one batch is enqueued, and the client that receives it
    delivers exactly the missed EVENTs of the store in order, and is READY at
    the sequence of the last EVENT appended. *)
Theorem reconnect_catches_up {ST : StdText} s m a q c g now c1 frame state now' :
  let sid := c_sessionID c in
  let missed := window (c_lastSeq c) (CurrentSeq (mm_replay m) sid) (events_of (mm_replay m) sid) in
  client_reachable c → Resume c g now = (c1, Ok [SendFrameAction frame]) →
  cc_Limits (c_config c) = sv_Limits s → cc_StrictValidation (c_config c) = sv_StrictValidation s →
  sv_MaxReplayEvents s ≤ cc_MaxReplayEvents (c_config c) → buffer_bytes missed ≤ cc_MaxReplayBytes (c_config c) →
  can_resume s m sid (c_lastSeq c) state → awaiting a q →
  ∃ a' m' batch c2,
    Handle s memory_world true a m (sa_generation a) frame = Some (a', m', None)
    ∧ sa_state a' = ServerAdmissionReady ∧ sa_sessionID a' = sid
    ∧ oq_frames (mm_outbound m') = oq_frames (mm_outbound m) ++ batch
    ∧ receive c1 batch now' = (c2, Ok (map DeliverEventAction missed ++ [SessionReadyAction sid]))
    ∧ c_state c2 = StateReady ∧ c_lastSeq c2 = CurrentSeq (mm_replay m) sid.
Proof.
  intros sid missed Hreach HR Hlim Hstrict Hmaxev Hbytes Hcan Ha. pose proof (reachable_inv c Hreach) as Hinv.
  pose proof (inv_seq _ Hinv) as [Hl _]. apply startResume_frame in HR as (Hsid & -> & -> & Hframe).
  rewrite Hlim, Hstrict in Hframe.
  pose proof (resume_served s m (resumeFrameLocked c [] now) _ state (decode_resume_frame c [] now _ Hl (List.Forall_nil _)) Hcan) as Hruns.
  apply runs_resume_frame in Hruns; [|done|done].
  destruct (Handle_resume _ _ _ _ _ _ _ _ Ha Hframe eq_refl Hruns eq_refl eq_refl Hsid)
    as (a' & HH & Hst & Hses & _).
  pose proof (cr_store _ _ _ _ _ Hcan) as Hstore. pose proof (replay_reachable_inv _ Hstore sid) as (Hcur & _ & Hseqs & Hty & _).
  pose proof (cr_after _ _ _ _ _ Hcan) as Hafter. pose proof (cr_events _ _ _ _ _ Hcan) as Hev. fold sid in Hafter, Hev.
  unfold CurrentSeq, first_of in *.
  destruct (receive_range c (UnixMilli (mm_now m)) (current_of (mm_replay m) sid) missed now')
    as (c2 & Hrec & Hst2 & Hl2 & _); try done; try lia.
  - unfold missed. rewrite (window_seqs _ _ _ _ _ Hseqs) by lia. destruct (decide (c_lastSeq c = current_of (mm_replay m) sid)).
    + rewrite !seqZ_nil by lia. done.
    + f_equal; lia.
  - rewrite Hlim, Hstrict. pose proof (cr_welcome _ _ _ _ _ Hcan) as Hw.
    unfold validateOut, validateOutboundFrame in Hw. by rewrite ValidateFrame_normalized in Hw.
  - rewrite Hlim, Hstrict. pose proof (cr_valid _ _ _ _ _ Hcan) as Hv. apply Forall_forall. intros e He.
    rewrite Forall_forall in Hv, Hty. specialize (Hv e He). unfold validateOut, validateOutboundFrame in Hv.
    rewrite ValidateFrame_normalized in Hv. apply list_elem_of_In, filter_In in He as [He _].
    destruct (Hty e) as (? & ? & _); [by apply list_elem_of_In|done].
  - eexists a', _, _, c2. split_and!; [exact HH|done|done| |exact Hrec|done|done].
    unfold EnqueueBatch, enqueue_locked. rewrite (cr_queue _ _ _ _ _ Hcan), map_copyEnvelope. reflexivity.
Qed.

Definition demo_appends : list ReplayOp :=
  map (fun id => OpAppend "s1" id "t" (js "{'n':1}") 5000) ["e1"; "e2"; "e3"].

Lemma demo_log_reachable : replay_reachable (mm_replay demo_memory).
Proof.
  assert (mm_replay demo_memory = foldl replay_step NewMemoryReplayStore demo_appends) as -> by (vm_compute; reflexivity).
  cbn [foldl demo_appends map]. repeat apply replay_next; done || apply replay_new.
Qed.

Lemma valid_all {ST : StdText} c l :
  forallb (fun e => match validateOut c e with Ok _ => true | Err _ => false end) l = true →
  Forall (fun e => validateOut c e = Ok tt) l.
Proof.
  intros Hl. apply List.Forall_forall. intros e He. eapply forallb_forall in Hl; [|exact He]. cbn in Hl.
  by destruct (validateOut c e) as [[]|].
Qed.

Definition demo_gate : ServerAdmission := (Replace NewServerAdmission []).1.1.

Lemma reconnect_catches_up_witness :
  ∃ a' m' batch c2,
    Handle (ST:=demo_text) demo_server memory_world true demo_gate demo_memory 1 demo_resumption
    = Some (a', m', None)
    ∧ sa_state a' = ServerAdmissionReady ∧ oq_frames (mm_outbound m') = oq_frames (mm_outbound demo_memory) ++ batch
    ∧ (receive (ST:=demo_text) (Resume (ST:=demo_text) demo_back 2 7).1 batch 9).1 = c2
    ∧ c_state c2 = StateReady ∧ c_lastSeq c2 = 3.
Proof.
  destruct (reconnect_catches_up (ST:=demo_text) demo_server demo_memory demo_gate 0 demo_back 2 7
              (Resume (ST:=demo_text) demo_back 2 7).1 demo_resumption
              (default zeroSessionState (mm_sessions demo_memory !! "s1")) 9)
    as (a' & m' & batch & c2 & HH & Hst & _ & Hq & Hr & Hs & Hl).
  - exact demo_back_reachable.
  - vm_compute. reflexivity.
  - vm_compute. reflexivity.
  - vm_compute. reflexivity.
  - vm_compute. congruence.
  - vm_compute. congruence.
  - split.
    + vm_compute. reflexivity.
    + exact demo_log_reachable.
    + vm_compute. split; congruence.
    + vm_compute. reflexivity.
    + vm_compute. congruence.
    + vm_compute. split; reflexivity.
    + eexists. split; [vm_compute; reflexivity|vm_compute; congruence].
    + apply valid_all. vm_compute. reflexivity.
    + vm_compute. reflexivity.
    + vm_compute. reflexivity.
  - vm_compute. auto.
  - exists a', m', batch, c2. split; [exact HH|]. split; [exact Hst|]. split; [exact Hq|].
    split; [by rewrite Hr|]. split; [exact Hs|exact Hl].
Defined.
