(* ===== verification/Delivery.v ===== *)
(** * A SEND from the client to its ACK

    The frame of [EnqueueSend] is processed by the server over the memory
    stores: the application is called once, the ACK comes back and empties the
    outbox; when the ACK is lost, the retried frame gets the same ACK and the
    application is not called again. *)

From Stdlib Require Import Ascii String.
From S2P Require Import Prelude Utf8 Json JsonText JsonPrint Types Codec Capability State Validate CodecProps Outbound Store Client Sha256 Program StoreInterface Server ServerStream MemoryServer Runs ClientProps EndToEnd.
Open Scope string_scope.
Open Scope list_scope.
Open Scope go_scope.
Open Scope Z_scope.

Section delivery.
Context {ST : StdText}.
Variable s : ServerConfig.

(** ** Flights *)

(** The flight of [key] is registered and no callback of it is active. *)
Definition flying (m : memory) (key : string) (f : nat) : Prop :=
  fl_map (mm_flights m) !! key = Some f
  ∧ ∃ fl, fl_heap (mm_flights m) !! f = Some fl ∧ sf_callbackActive fl = false.

(** Setting the callback flag and clearing it again changes nothing. *)
Lemma callback_flag (F : Flights) f fl :
  fl_heap F !! f = Some fl → sf_callbackActive fl = false →
  endSendCallback f (flight_alter F f (fun f => f <| sf_callbackActive := true |>)) = F.
Proof.
  intros Hf Ha. destruct F as [mp heap n]. unfold endSendCallback, flight_alter. cbn in *. f_equal.
  apply map_eq. intros i. destruct (decide (i = f)) as [->|].
  - rewrite !lookup_alter_eq, Hf. cbn. destruct fl. cbn in *. by subst.
  - by rewrite !lookup_alter_ne.
Qed.

(** A callback of a flight: the world answers whatever the flights are. *)
Lemma runs_callback {A} key f (fn : go (res A)) m m' r :
  flying m key f → mm_flights m' = mm_flights m →
  (∀ F, runs memory_world fn (m <| mm_flights := F |>) (m' <| mm_flights := F |>) (Normal r)) →
  runs memory_world (invokeSendCallback key f fn) m m' (Normal r).
Proof.
  intros (Hm & fl & Hf & Ha) Hsame Hfn. unfold invokeSendCallback.
  eapply (runs_bind _ _ _ _ _ _ true).
  { apply runs_perform. cbn. unfold beginSendCallback. rewrite Hm, Hf, bool_decide_true by done.
    cbn. rewrite Ha. reflexivity. }
  cbn [negb]. eapply runs_bind; [apply runs_recover, Hfn|].
  eapply (runs_bind _ _ _ _ m' m' tt); [apply runs_perform; cbn|apply runs_mret].
  rewrite (callback_flag _ _ fl), <- Hsame by done. by destruct m'.
Qed.

Lemma runs_send_call {A} key f (e : eff (cb A)) m m' a :
  flying m key f → mm_flights m' = mm_flights m →
  (∀ F, memory_world _ e (m <| mm_flights := F |>) = Some (m' <| mm_flights := F |>, CRet a)) →
  runs memory_world (invokeSendCallback key f (call e)) m m' (Normal (Ok a)).
Proof. intros Hf Hs He. apply runs_callback; [done..|]. intros F. apply runs_call, He. Qed.

(** The failure points do nothing when no injector is configured. *)
Lemma runs_inject key f point m :
  flying m key f → sv_FailureInjector s = false →
  runs memory_world (invokeSendCallback key f (inject s point)) m m (Normal (Ok tt)).
Proof. intros Hf Hi. apply runs_callback; [done..|]. intros F. unfold inject. rewrite Hi. apply runs_mret. Qed.

(** ** The handler *)

Notation key frame := (dedupKey (e_SessionID frame) (e_ID frame)).

Definition ack_of (frame : Envelope) (timestamp : Z) : Envelope :=
  mkEnvelope WireVersionV2 FrameAck "" (e_SessionID frame) 0 timestamp (mustPayload (mkAck (e_ID frame))).

(** What a SEND finds that is not refused before its claim. *)
Record can_send (m : memory) (frame : Envelope) : Prop := {
  cs_session : is_Some (Session_Lookup (mm_sessions m) (e_SessionID frame) (mm_now m));
  cs_flight : fl_map (mm_flights m) !! key frame = None;
  cs_queue : oq_closed (mm_outbound m) = false;
  cs_injector : sv_FailureInjector s = false
}.

(** The leader's flight is made before, and removed after, its work. *)
Lemma runs_handleSend m frame content m1 r :
  decodePayload (e_Payload frame) (sv_StrictValidation s) = Ok (mkSend content) →
  fl_map (mm_flights m) !! key frame = None →
  let F := (acquireFlight (key frame) (Sum256 content) (mm_flights m)).1 in
  let flight := fl_next (mm_flights m) in
  runs memory_world (sendLeader s frame content (Sum256 content) (key frame) flight (mm_now m) (UnixMilli (mm_now m)))
    (m <| mm_flights := F |>) m1 (Normal r) →
  runs memory_world (handleSend s frame) m
    (m1 <| mm_flights := finishFlight (key frame) flight (mm_flights m1) |>) (Normal r).
Proof.
  intros Hdec Hfl F flight Hrun. unfold handleSend. eapply runs_bind; [by apply runs_perform|]. rewrite Hdec.
  eapply (runs_bind _ _ _ _ (m <| mm_flights := F |>) _ (flight, true, false, false)).
  { apply runs_perform. cbn. unfold F, flight, acquireFlight. by rewrite Hfl. }
  cbn match. cbn [negb]. eapply (runs_finally _ _ _ _ _ _ _ tt); [exact Hrun|]. by apply runs_perform.
Qed.

Lemma acquired_flying m frame fp :
  fl_map (mm_flights m) !! key frame = None →
  flying (m <| mm_flights := (acquireFlight (key frame) fp (mm_flights m)).1 |>) (key frame) (fl_next (mm_flights m)).
Proof.
  intros Hfl. unfold flying, acquireFlight. rewrite Hfl. cbn. rewrite !lookup_insert_eq. eauto.
Qed.

(** Its last step. *)
Lemma runs_enqueue m frame :
  oq_closed (mm_outbound m) = false → validateOut s frame = Ok tt →
  runs memory_world (enqueueFrame s frame) m (m <| mm_outbound := (Enqueue (mm_outbound m) frame).1 |>) (Normal None).
Proof.
  intros Hq Hv. unfold enqueueFrame. rewrite Hv. apply runs_perform. cbn.
  unfold Enqueue, EnqueueBatch, enqueue_locked. by rewrite Hq.
Qed.

(** The stores after an accepted SEND. *)
Definition delivered_store (m : memory) (frame : Envelope) (content : string) : MemoryDedupStore :=
  let d := (Dedup_Claim (mm_dedup m) (mm_now m) (e_SessionID frame) (e_ID frame) (Sum256 content)).1 in
  (Dedup_Complete d (mm_now m) (e_SessionID frame) (e_ID frame) (Some (ack_of frame (UnixMilli (mm_now m))))).1.

Lemma fresh_claim d now sid mid fp :
  claimable now (record_of d (dedupKey sid mid)) →
  Dedup_Claim d now sid mid fp
  = (mkDedupStore (md_ttl d) (<[dedupKey sid mid := mkDedupEntry (mkDedupRecord DedupProcessing fp None)
                                 (Time_Add now (md_ttl d))]> (md_records d)), (true, None)).
Proof.
  intros Hc. unfold Dedup_Claim. cbn in Hc. destruct (md_records d !! dedupKey sid mid) as [[rec until]|]; [|done].
  destruct (Hc rec until eq_refl) as [Hst Hu]. cbn [de_record de_expiresAt]. rewrite Hst.
  rewrite (proj2 (Z.ltb_ge now until)) by done. done.
Qed.

Lemma claimed_complete d now sid mid fp ack :
  claimable now (record_of d (dedupKey sid mid)) →
  let d1 := (Dedup_Claim d now sid mid fp).1 in
  Dedup_Complete d1 now sid mid (Some ack)
  = (mkDedupStore (md_ttl d) (<[dedupKey sid mid := mkDedupEntry (mkDedupRecord DedupCompleted fp (Some ack))
                                 (Time_Add now (md_ttl d))]> (md_records d)), None).
Proof.
  intros Hc. cbn zeta. rewrite fresh_claim by done. unfold Dedup_Complete. cbn. rewrite lookup_insert_eq. cbn.
  change (DedupProcessing != DedupProcessing) with false. cbn. by rewrite insert_insert_eq, copyEnvelope_id.
Qed.

Ltac inject_step := eapply runs_bind; [apply runs_inject; assumption|]; cbn match.

(** The first time: claim, application, completion, ACK. *)
Lemma runs_first m frame content f :
  let ack := ack_of frame (UnixMilli (mm_now m)) in
  flying m (key frame) f → sv_FailureInjector s = false → oq_closed (mm_outbound m) = false →
  is_Some (Session_Lookup (mm_sessions m) (e_SessionID frame) (mm_now m)) →
  claimable (mm_now m) (record_of (mm_dedup m) (key frame)) → validateOut s ack = Ok tt →
  runs memory_world (sendLeader s frame content (Sum256 content) (key frame) f (mm_now m) (UnixMilli (mm_now m))) m
    (m <| mm_dedup := delivered_store m frame content |>
       <| mm_handled := mm_handled m ++ [(e_ID frame, content)] |>
       <| mm_flights := setFlightACK f ack (mm_flights m) |>
       <| mm_outbound := (Enqueue (mm_outbound m) ack).1 |>)
    (Normal (zeroResult, None)).
Proof.
  intros ack Hf Hi Hq [st Hs] Hc Hv. unfold sendLeader.
  eapply runs_bind; [apply (runs_send_call _ _ _ m m (Some st)); [done|done|intros F; cbn; by rewrite Hs]|]. cbn match.
  set (m1 := m <| mm_dedup := (Dedup_Claim (mm_dedup m) (mm_now m) (e_SessionID frame) (e_ID frame) (Sum256 content)).1 |>).
  eapply (runs_bind _ _ _ _ m1 _ (Ok (true, None))).
  { apply runs_send_call; [done|done|]. intros F. cbn. unfold m1. rewrite fresh_claim by exact Hc. reflexivity. }
  cbn match. eapply runs_bind; [|apply runs_mret]. unfold sendClaimed.
  assert (flying m1 (key frame) f) as Hf1 by exact Hf. inject_step.
  set (m2 := m1 <| mm_handled := mm_handled m ++ [(e_ID frame, content)] |>).
  eapply (runs_bind _ _ _ _ m2 _ (Ok tt)); [by apply runs_send_call|]. cbn match.
  assert (flying m2 (key frame) f) as Hf2 by exact Hf. inject_step. fold (ack_of frame (UnixMilli (mm_now m))) ack.
  rewrite Hv. set (m3 := m2 <| mm_dedup := delivered_store m frame content |>).
  eapply (runs_bind _ _ _ _ m3 _ (Ok tt)).
  { apply runs_send_call; [done|done|]. intros F.
    pose proof (claimed_complete (mm_dedup m) (mm_now m) _ _ (Sum256 content) ack Hc) as Hdone. cbn zeta in Hdone.
    unfold m3, m2, m1, delivered_store. fold ack. cbn -[Dedup_Complete Dedup_Claim]. rewrite Hdone. reflexivity. }
  cbn match. set (m4 := m3 <| mm_flights := setFlightACK f ack (mm_flights m) |>).
  eapply (runs_bind _ _ _ _ m4 _ tt); [by apply runs_perform|].
  assert (flying m4 (key frame) f) as Hf4.
  { destruct Hf as (Hm & fl & Hfl & Ha). split; [exact Hm|]. cbn. rewrite lookup_alter_eq, Hfl. eauto. }
  inject_step. exact (runs_enqueue m4 ack Hq Hv).
Qed.

(** Again: the stored ACK. *)
Lemma runs_again m frame content f ack until :
  flying m (key frame) f → oq_closed (mm_outbound m) = false →
  is_Some (Session_Lookup (mm_sessions m) (e_SessionID frame) (mm_now m)) →
  record_of (mm_dedup m) (key frame) = Some (mkDedupRecord DedupCompleted (Sum256 content) (Some ack), until) →
  mm_now m < until → validateStoredACK s ack (e_SessionID frame) (e_ID frame) = Ok tt →
  runs memory_world (sendLeader s frame content (Sum256 content) (key frame) f (mm_now m) (UnixMilli (mm_now m))) m
    (m <| mm_flights := setFlightACK f ack (mm_flights m) |> <| mm_outbound := (Enqueue (mm_outbound m) ack).1 |>)
    (Normal (zeroResult, None)).
Proof.
  intros Hf Hq [st Hs] Hrec Hu Hv. unfold sendLeader.
  eapply runs_bind; [apply (runs_send_call _ _ _ m m (Some st)); [done|done|intros F; cbn; by rewrite Hs]|]. cbn match.
  cbn in Hrec. destruct (md_records (mm_dedup m) !! key frame) as [[rec exp]|] eqn:E; [|done].
  injection Hrec as -> ->.
  assert (Dedup_Claim (mm_dedup m) (mm_now m) (e_SessionID frame) (e_ID frame) (Sum256 content)
          = (mm_dedup m, (false, Some (mkDedupRecord DedupCompleted (Sum256 content) (Some ack))))) as Hclaim.
  { unfold Dedup_Claim. rewrite E. cbn [de_record de_expiresAt dr_State dr_Fingerprint dr_Ack].
    rewrite (proj2 (Z.ltb_lt _ _) Hu), orb_true_r. cbn. by rewrite copyEnvelope_id. }
  eapply (runs_bind _ _ _ _ m _ (Ok (false, Some (mkDedupRecord DedupCompleted (Sum256 content) (Some ack))))).
  { apply runs_send_call; [done|done|]. intros F. cbn. by rewrite Hclaim. }
  cbn match. cbn [dr_Fingerprint]. rewrite bool_decide_true by done. cbn [negb]. rewrite Hv.
  set (m1 := m <| mm_flights := setFlightACK f ack (mm_flights m) |>).
  eapply (runs_bind _ _ _ _ m1 _ tt); [by apply runs_perform|].
  eapply runs_bind; [|apply runs_mret].
  refine (runs_enqueue m1 ack Hq _).
  unfold validateStoredACK in Hv. apply result_bind_Ok in Hv as ([] & Hv & _).
  by destruct (validateOut s ack) as [[]|].
Qed.
End delivery.

(** ** The property *)

Section property.
Context {ST : StdText}.

Lemma EnqueueSend_frame c id content now c1 frame :
  EnqueueSend c id content now = (c1, Ok [SendFrameAction frame]) →
  c_state c = StateReady ∧ c_outbox c !! id = None
  ∧ frame = mkEnvelope WireVersionV2 FrameSend id (c_sessionID c) 0 (UnixMilli now) (mustPayload (mkSend content))
  ∧ c1 = c <| c_outbox := <[id := frame]> (c_outbox c) |>
  ∧ ValidateFrame frame (cc_Limits (c_config c)) (cc_StrictValidation (c_config c)) = Ok tt.
Proof.
  unfold EnqueueSend. destruct (_ || _) eqn:Hst; [done|]. apply orb_false_iff in Hst as [Hst _]. bools.
  destruct (_ || _); [done|]. destruct (_ <? _); [done|].
  destruct (c_outbox c !! id) eqn:Ho; [done|]. unfold validateOutboundFrame. rewrite ValidateFrame_normalized.
  destruct (ValidateFrame _ _ _) as [[]|] eqn:Hv; [|done]. intros [= <- <-]. rewrite copyEnvelope_id. done.
Qed.

(** The handler decodes what validation decoded. *)
Lemma valid_send f limits strict :
  ValidateFrame f limits strict = Ok tt → e_Type f = FrameSend →
  ∃ content, decodePayload (e_Payload f) strict = Ok (mkSend content).
Proof.
  unfold ValidateFrame. intros Hv Hty. apply result_bind_Ok in Hv as ([] & _ & Hv). rewrite Hty in Hv.
  rewrite !(bool_decide_false (FrameSend = _)), (bool_decide_true (FrameSend = FrameSend)) in Hv by done.
  unfold validateSend in Hv. do 3 (apply result_bind_Ok in Hv as ([] & _ & Hv)).
  apply result_bind_Ok in Hv as ([content] & Hd & _). eauto.
Qed.

Lemma decode_ack strict id : utf8_ValidString id = true →
  decodePayload (mustPayload (mkAck id)) strict = Ok (mkAck id).
Proof. intros Hid. apply decode_printed; [done|].
  cbn -[utf8_ValidString]. by rewrite Hid. Qed.

(** The client receives the ACK of its SEND: the entry leaves the outbox. *)
Lemma receive_ack c frame ts t :
  c_state c = StateReady → c_outbox c !! e_ID frame = None → e_SessionID frame = c_sessionID c →
  utf8_ValidString (e_ID frame) = true →
  ValidateFrame (ack_of frame ts) (cc_Limits (c_config c)) (cc_StrictValidation (c_config c)) = Ok tt →
  HandleIncoming (c <| c_outbox := <[e_ID frame := frame]> (c_outbox c) |>) (c_generation c) (ack_of frame ts) t
  = (c, Ok [AckedAction (e_ID frame)]).
Proof.
  intros Hst Ho Hsid Hid Hv. set (c1 := c <| c_outbox := _ |>). unfold HandleIncoming.
  change (c_generation c1) with (c_generation c). change (c_config c1) with (c_config c).
  change (c_sessionID c1) with (c_sessionID c). rewrite Z.eqb_refl, Hv.
  cbn [negb e_Type ack_of e_SessionID]. rewrite Hsid.
  rewrite !(bool_decide_true (c_sessionID c = c_sessionID c)), !(bool_decide_false (FrameAck = _)),
    (bool_decide_true (FrameAck = FrameAck)) by done.
  cbn [negb andb]. unfold handleAckLocked. cbn [e_Payload ack_of].
  change (c_state c1) with (c_state c). change (c_config c1) with (c_config c). rewrite Hst.
  rewrite (bool_decide_true (StateReady = StateReady)) by done. cbn [negb andb].
  rewrite decode_ack by done. cbn [or_return ap_RefID].
  change (c_outbox c1) with (<[e_ID frame := frame]> (c_outbox c)).
  rewrite lookup_insert_eq, delete_insert_id by done. by destruct c.
Qed.
End property.

(** The ACK of the frame passes the check of stored ACKs. *)
Lemma stored_ack_ok {ST : StdText} s frame ts :
  utf8_ValidString (e_ID frame) = true → validateOut s (ack_of frame ts) = Ok tt →
  validateStoredACK s (ack_of frame ts) (e_SessionID frame) (e_ID frame) = Ok tt.
Proof.
  intros Hid Hv. unfold validateStoredACK. rewrite Hv. cbn [map_err mbind result_mbind e_Type e_SessionID e_Payload ack_of].
  rewrite !bool_decide_true by done. cbn [negb orb guard_err mbind result_mbind]. rewrite decode_ack by done.
  cbn [map_err mbind result_mbind ap_RefID]. by rewrite bool_decide_true.
Qed.

Lemma delivered_record m frame content :
  let key := dedupKey (e_SessionID frame) (e_ID frame) in
  claimable (mm_now m) (record_of (mm_dedup m) key) →
  record_of (delivered_store m frame content) key
  = Some (mkDedupRecord DedupCompleted (Sum256 content) (Some (ack_of frame (UnixMilli (mm_now m)))),
          Time_Add (mm_now m) (md_ttl (mm_dedup m))).
Proof.
  intros key Hc. unfold delivered_store.
  pose proof (claimed_complete _ _ _ _ (Sum256 content) (ack_of frame (UnixMilli (mm_now m))) Hc) as Hd.
  cbn zeta in Hd. rewrite Hd. cbn. by rewrite lookup_insert_eq.
Qed.

(** C6. A SEND reaches the application once and its ACK empties the outbox.
    Let a client enqueue a SEND, and let a server over the memory stores,
    with the same limits and strictness and with fault injection off, process
    the frame: the Session is live, the identity is free and not in flight, the
    queue is open, the application accepts, and the ACK to be sent is a valid frame under these limits.  The
    handler returns without
    error; the application was called exactly once, with the identity and
    the decoded content; exactly the ACK was enqueued; and the client that
    receives it is back in the state before the call, with the
    acknowledgement as its action.  If the ACK is lost and the frame is sent
    again, over another connection and whatever happened in between, within
    the retention of the deduplication store, the same ACK is enqueued and
    the application is not called. *)
Theorem send_end_to_end {ST : StdText} s m c id content now c1 frame t :
  let ack := ack_of frame (UnixMilli (mm_now m)) in
  let key := dedupKey (e_SessionID frame) (e_ID frame) in
  EnqueueSend c id content now = (c1, Ok [SendFrameAction frame]) →
  cc_Limits (c_config c) = sv_Limits s → cc_StrictValidation (c_config c) = sv_StrictValidation s →
  can_send s m frame → claimable (mm_now m) (record_of (mm_dedup m) key) → validateOut s ack = Ok tt →
  ∃ m1 sent,
    decodePayload (e_Payload frame) (sv_StrictValidation s) = Ok (mkSend sent)
    ∧ runs memory_world (invokeServerProcess s frame) m m1 (Normal (zeroResult, None))
    ∧ mm_handled m1 = mm_handled m ++ [(id, sent)]
    ∧ oq_frames (mm_outbound m1) = oq_frames (mm_outbound m) ++ [ack]
    ∧ HandleIncoming c1 (c_generation c) ack t = (c, Ok [AckedAction id])
    ∧ ∀ m2, record_of (mm_dedup m2) key = record_of (mm_dedup m1) key → can_send s m2 frame →
        mm_now m2 < mm_now m + DedupRetentionTTL (mm_dedup m) →
        ∃ m3, runs memory_world (invokeServerProcess s frame) m2 m3 (Normal (zeroResult, None))
          ∧ mm_handled m3 = mm_handled m2 ∧ oq_frames (mm_outbound m3) = oq_frames (mm_outbound m2) ++ [ack].
Proof.
  intros ack key Hsend Hlim Hstrict [Hses Hfl Hq Hi] Hc Hack.
  apply EnqueueSend_frame in Hsend as (Hst & Ho & Hframe & -> & Hv).
  assert (e_Type frame = FrameSend ∧ e_ID frame = id ∧ e_SessionID frame = c_sessionID c) as (Hty & Hid & Hsid)
    by (by rewrite Hframe).
  clear Hframe. rewrite <- Hid in *. rewrite Hlim, Hstrict in Hv.
  destruct (valid_frame _ _ _ Hv) as (_ & Hutf & _). destruct (valid_send _ _ _ Hv Hty) as [sent Hdec].
  pose proof (acquired_flying m frame (Sum256 sent) Hfl) as Hfly.
  pose proof (runs_first s _ _ sent _ Hfly Hi Hq Hses Hc Hack) as Hrun.
  apply (runs_handleSend s m frame sent _ _ Hdec Hfl) in Hrun. apply runs_send_frame in Hrun; [|done|done].
  assert (∀ q, oq_closed q = false → oq_frames (Enqueue q ack).1 = oq_frames q ++ [ack]) as Henq.
  { intros q Hcl. unfold Enqueue, EnqueueBatch, enqueue_locked. by rewrite Hcl, map_copyEnvelope. }
  eexists _, sent. split_and!; [done|exact Hrun|done|by apply Henq| |].
  - apply receive_ack; try done. rewrite Hlim, Hstrict. unfold validateOut, validateOutboundFrame in Hack.
    by rewrite ValidateFrame_normalized in Hack.
  - intros m2 Hrec [Hses2 Hfl2 Hq2 _] Hnow.
    pose proof (acquired_flying m2 frame (Sum256 sent) Hfl2) as Hfly2.
    pose proof (eq_trans Hrec (delivered_record m frame sent Hc)) as Hrec2.
    pose proof (runs_again s _ _ sent _ ack _ Hfly2 Hq2 Hses2 Hrec2 Hnow (stored_ack_ok s frame _ Hutf Hack)) as Hrun2.
    apply (runs_handleSend s m2 frame sent _ _ Hdec Hfl2) in Hrun2. apply runs_send_frame in Hrun2; [|done|done].
    eexists. split_and!; [exact Hrun2|done|by apply Henq].
Qed.

Section witness.
#[local] Existing Instance demo_text.

Definition demo_sent : ClientProtocol * res (list Action) :=
  EnqueueSend demo_ready "m7" (js "{'x':1}") 5000000000.
Definition demo_sent_frame : Envelope :=
  match demo_sent.2 with Ok [SendFrameAction f] => f | _ => zeroEnvelope end.

Lemma send_end_to_end_witness :
  ∃ m1, runs memory_world (invokeServerProcess demo_server demo_sent_frame) demo_memory m1 (Normal (zeroResult, None))
    ∧ mm_handled m1 = mm_handled demo_memory ++ [("m7", js "{'x':1}")]
    ∧ HandleIncoming demo_sent.1 (c_generation demo_ready) (ack_of demo_sent_frame 5000) 6
      = (demo_ready, Ok [AckedAction "m7"]).
Proof.
  destruct (send_end_to_end demo_server demo_memory demo_ready "m7" (js "{'x':1}") 5000000000 demo_sent.1
              demo_sent_frame 6) as (m1 & sent & Hdec & Hrun & Hh & _ & Hack & _).
  - vm_compute. reflexivity.
  - vm_compute. reflexivity.
  - vm_compute. reflexivity.
  - split; [|vm_compute; reflexivity..]. eexists. vm_compute. reflexivity.
  - intros rec until H. vm_compute in H. discriminate H.
  - vm_compute. reflexivity.
  - exists m1. split; [exact Hrun|]. split; [|exact Hack]. rewrite Hh. vm_compute in Hdec. injection Hdec as <-.
    vm_compute. reflexivity.
Defined.
End witness.
