(* ===== verification/Handshake.v ===== *)
(** * The handshake

    The HELLO of [StartSession], the server's handler, and the client that
    receives the WELCOME: both ends agree on the Session and on the
    capabilities in use. *)

From Stdlib Require Import Ascii String.
From S2P Require Import Prelude SortedLists Utf8 Json JsonText JsonPrint Types Codec Capability CapabilityProps State Validate CodecProps Outbound Store Client Sha256 Program Server ServerStream MemoryServer ServerRules ServerWire StreamProps ClientProps EndToEnd.
Open Scope string_scope.
Open Scope list_scope.
Open Scope go_scope.
Open Scope Z_scope.

Section handshake.
Context {ST : StdText}.

(** ** What was negotiated can be printed *)

Lemma valid_capability_name name limits : validateCapabilityName name limits = Ok tt → utf8_ValidString name = true.
Proof.
  unfold validateCapabilityName. intros H. apply result_bind_Ok in H as ([] & H & _). inv_ok.
  apply orb_false_iff in H as [_ H]. by bools.
Qed.

Lemma accepted_wire r offers limits :
  registry_ok r → offers_ok limits offers → Forall wire_typed offers →
  Forall wire_typed (accepted r offers) ∧ Forall (fun n => utf8_ValidString (nc_Name n) = true) (accepted r offers).
Proof.
  intros Hr [_ Hok] Ht. rewrite !Forall_forall in *. split; intros n (o & Ho & Hs)%elem_of_accepted;
    apply selection_Some in Hs as [Hn (Hin & _)]; try done.
  - specialize (Ht o Ho). cbn in Ht. rewrite Forall_forall in Ht. by apply Ht.
  - rewrite Hn. destruct (Hok o Ho) as [Hname _]. by eapply valid_capability_name.
Qed.

Lemma welcome_ok ts l :
  Forall (fun n => utf8_ValidString (nc_Name n) = true) l →
  out_ok maxNestingDepth (layout (mkWelcome WelcomeModeNew ts 0 0 None l)) = true.
Proof.
  intros Hl. cbn [layout WelcomePayload_wire]. unfold WelcomePayload_MarshalJSON. cbn [wp_Mode wp_AcceptedCapabilities wp_ServerTime].
  rewrite bool_decide_false by done. destruct l as [|n l]; [done|]. cbn [is_nil omit app].
  assert (∀ d, 1 < d → out_ok d (OArr (map layout (n :: l))) = true) as Harr.
  { intros d Hd. cbn [out_ok]. rewrite (proj2 (Z.ltb_lt 0 d)) by lia. cbn [andb].
    apply forallb_forall. intros o (x & <- & Hx%list_elem_of_In)%in_map_iff. rewrite Forall_forall in Hl.
    cbn [layout NegotiatedCapability_wire out_ok forallb]. rewrite (proj2 (Z.ltb_lt 0 (d - 1))), (Hl x Hx) by lia. done. }
  generalize dependent (map layout (n :: l)). intros arr Harr.
  change (forallb (fun '(k, v) => utf8_ValidString k && out_ok (maxNestingDepth - 1) v)
            [("mode", OStr WelcomeModeNew); ("server_time", OInt ts); ("accepted_capabilities", OArr arr)] = true).
  cbn [forallb]. rewrite Harr by done. done.
Qed.

(** The client decodes what the server announced; that the WELCOME is valid
    means that its time is a 64-bit number. *)
Lemma decode_new_welcome strict limits sid t1 t2 l :
  Forall wire_typed l → Forall (fun n => utf8_ValidString (nc_Name n) = true) l →
  ValidateFrame (new_welcome sid t1 t2 l) limits strict = Ok tt →
  decodePayload (e_Payload (new_welcome sid t1 t2 l)) strict = Ok (mkWelcome WelcomeModeNew t2 0 0 None l).
Proof.
  intros Ht Hutf Hv. pose proof (welcome_ok t2 l Hutf) as Hok. unfold new_welcome in *. cbn [e_Payload].
  destruct (decide (MinInt64 ≤ t2 ≤ MaxInt64)) as [Ht2|Ht2].
  { apply decode_printed; [|done]. split_and!; [exact Ht2|done|done|exact Ht|]. by rewrite bool_decide_false. }
  exfalso. unfold ValidateFrame in Hv. apply result_bind_Ok in Hv as ([] & _ & Hv). cbn [e_Type] in Hv.
  rewrite bool_decide_false, bool_decide_true in Hv by done. unfold validateWelcome in Hv.
  do 3 (apply result_bind_Ok in Hv as ([] & _ & Hv)). apply result_bind_Ok in Hv as (q & Hq & _).
  cbn [e_Payload] in Hq. rewrite decode_printed_any in Hq by done. revert Hq.
  cbn [layout WelcomePayload_wire]. unfold WelcomePayload_MarshalJSON. cbn [wp_Mode]. rewrite bool_decide_false by done.
  cbn [wp_ServerTime wp_AcceptedCapabilities app].
  dec_fields WelcomePayload_wire. cbn [dec_int64]. rewrite parse_int_dec.
  destruct (Z.leb_spec MinInt64 t2), (Z.leb_spec t2 MaxInt64); try lia; intros Hq; discriminate Hq.
Qed.

Lemma cloneCapabilityOffers_id offers : cloneCapabilityOffers offers = offers.
Proof. unfold cloneCapabilityOffers. induction offers as [|[n v b] offers IH]; cbn; [done|]. by rewrite IH. Qed.

Lemma StartSession_frame c g name c1 frame :
  StartSession c g name = (c1, Ok [SendFrameAction frame]) →
  g = c_generation c ∧ c1 = c <| c_state := StateHandshaking |>
  ∧ frame = mkEnvelope WireVersionV2 FrameHello "" "" 0 0 (mustPayload (mkHello name (cc_Capabilities (c_config c))))
  ∧ ValidateFrame frame (cc_Limits (c_config c)) (cc_StrictValidation (c_config c)) = Ok tt.
Proof.
  unfold StartSession. destruct (Z.eqb_spec g (c_generation c)); [|done]. cbn [negb]. destruct (_ || _); [done|].
  unfold validateOutboundFrame. rewrite ValidateFrame_normalized, cloneCapabilityOffers_id.
  destruct (ValidateFrame _ _ _) as [[]|] eqn:Hv; [|done]. by intros [= <- <-].
Qed.

(** Validation of a HELLO validates its offers. *)
Lemma valid_hello f limits strict p :
  ValidateFrame f limits strict = Ok tt → e_Type f = FrameHello → decodePayload (e_Payload f) strict = Ok p →
  ∃ out, validateAndCopyCapabilityOffers (hp_Capabilities p) (normalizeLimits limits) = Ok out.
Proof.
  unfold ValidateFrame. intros Hv Hty Hdec. apply result_bind_Ok in Hv as ([] & _ & Hv). rewrite Hty in Hv.
  rewrite bool_decide_true in Hv by done. unfold validateHello in Hv. apply result_bind_Ok in Hv as ([] & _ & Hv).
  apply result_bind_Ok in Hv as (p' & Hp & Hv). rewrite Hdec in Hp. injection Hp as <-.
  apply result_bind_Ok in Hv as ([] & _ & Hv). apply result_bind_Ok in Hv as (out & Hout & _). eauto.
Qed.

(** The client's side of a WELCOME of mode NEW. *)
Lemma receive_new_welcome c sid t1 t2 l caps now :
  c_state c = StateHandshaking → sid ≠ "" →
  let welcome := new_welcome sid t1 t2 l in
  ValidateFrame welcome (cc_Limits (c_config c)) (cc_StrictValidation (c_config c)) = Ok tt →
  decodePayload (e_Payload welcome) (cc_StrictValidation (c_config c)) = Ok (mkWelcome WelcomeModeNew t2 0 0 None l) →
  validateNegotiatedAgainstOffers (cc_Capabilities (c_config c)) l (cc_Limits (c_config c)) = Ok tt →
  NewSessionCapabilities l (cc_Limits (c_config c)) = Ok caps →
  HandleIncoming c (c_generation c) welcome now = (establishSession c sid caps, Ok [SessionReadyAction sid]).
Proof.
  intros Hst Hsid welcome Hv Hdec Hagree Hcaps. unfold HandleIncoming. rewrite Z.eqb_refl, Hv. cbn [negb].
  change (e_Type welcome) with FrameWelcome. change (e_SessionID welcome) with sid.
  rewrite !(bool_decide_true (FrameWelcome = FrameWelcome)), !(bool_decide_false (FrameWelcome = FrameError)) by done.
  cbn [negb andb]. unfold handleWelcomeLocked. rewrite Hdec, Hst. cbn [or_return wp_Mode wp_AcceptedCapabilities].
  change (e_SessionID welcome) with sid. rewrite bool_decide_true, bool_decide_false by done. cbn [negb orb].
  rewrite Hagree. cbn [or_return]. rewrite Hcaps. cbn [or_return]. done.
Qed.
End handshake.

(** C8. The handshake establishes one Session.  Let a client start a Session,
    let the server's handler process that HELLO, whatever its collaborators
    answer, and let it make the connection ready.  Then the Session was
    created, one WELCOME was enqueued, and the client that receives it is
    READY in the Session the server made ready, with exactly the capabilities
    and versions the server keeps for it.  Both ends use the same limits; the
    HELLO holds valid UTF-8 and 16-bit versions. *)
Theorem handshake_end_to_end {ST : StdText} s specs limits reg c g name c1 frame t r err now :
  let hello := mkHello name (cc_Capabilities (c_config c)) in
  NewCapabilityRegistry specs limits = Ok reg → sv_Capabilities s = Some reg →
  StartSession c g name = (c1, Ok [SendFrameAction frame]) →
  cc_Limits (c_config c) = sv_Limits s → cc_StrictValidation (c_config c) = sv_StrictValidation s →
  wire_typed hello → out_ok maxNestingDepth (layout hello) = true →
  traces (handleHello s frame) t (Normal (r, err)) → hr_readySessionID r ≠ "" →
  let sid := hr_readySessionID r in
  ∃ welcome c2,
    ob_batches (observed t) = [[welcome]]
    ∧ (∃ expires, ob_created (observed t) = Some (mkSessionState sid expires (hr_capabilities r)))
    ∧ HandleIncoming c1 (c_generation c) welcome now = (c2, Ok [SessionReadyAction sid])
    ∧ c_state c2 = StateReady ∧ c_sessionID c2 = sid ∧ c_capabilities c2 = hr_capabilities r.
Proof.
  intros hello Hreg%NewCapabilityRegistry_ok Hsreg Hstart Hlim Hstrict Htyped Hok Ht Hready sid.
  apply StartSession_frame in Hstart as (-> & -> & -> & Hv). fold hello in Hv, Ht.
  pose proof (observed_by _ _ _ _ (handleHello_holds s _) Ht) as [[H _]|Hpost]; [done|].
  destruct Hpost as (h & caps & expires & t1 & t2 & welcome & Hdec & Hneg & Hr & -> & _ & Hcr & Hb & -> & Hvalid).
  fold sid in Hr, Hcr, Hb, Hvalid. cbn [e_Payload] in Hdec. rewrite decode_printed in Hdec by done. injection Hdec as <-.
  rewrite Hsreg in Hneg. cbn [hello hp_Capabilities] in Hneg.
  destruct (valid_hello _ _ _ hello Hv eq_refl) as [out Hout]; [by apply decode_printed|].
  unfold validateAndCopyCapabilityOffers in Hout. rewrite normalizeLimits_idem in Hout.
  fold (validateAndCopyCapabilityOffers (hp_Capabilities hello) (cc_Limits (c_config c))) in Hout.
  pose proof (validateAndCopy_ok _ _ _ Hout) as (_ & Hoffers & Hlen).
  pose proof (accepted_agreed _ _ _ _ _ _ Hreg Hneg Hout) as Hagree.
  destruct (accepted_wire _ _ _ Hreg Hoffers Htyped) as [Hwt Hutf].
  pose proof (accepted_valid _ _ _ Hreg Hoffers Hlen) as Hav.
  apply Negotiate_ok in Hneg as (-> & _ & _); [|done]. cbn [sc_List sc_selections hello hp_Capabilities] in *.
  set (l := accepted reg (cc_Capabilities (c_config c))) in *.
  change (sc_List (mkSessionCapabilities l (versions_map l))) with l in *. fold (new_welcome sid t1 t2 l) in *.
  unfold validateOut, validateOutboundFrame in Hvalid. rewrite ValidateFrame_normalized, <- Hlim, <- Hstrict in Hvalid.
  set (c' := c <| c_state := StateHandshaking |>).
  exists (new_welcome sid t1 t2 l), (establishSession c' sid (hr_capabilities r)).
  split_and!; [exact Hb|exists expires; by rewrite Hr| |done|done|done].
  apply (receive_new_welcome c' sid t1 t2 l); [done|done|exact Hvalid| |exact Hagree|].
  - by eapply decode_new_welcome.
  - change (c_config c') with (c_config c). unfold NewSessionCapabilities. rewrite Hav. cbn. by rewrite Hr.
Qed.

(** ** A handshake over the memory stores *)

Section witness.
#[local] Existing Instance demo_text.

Definition demo_fresh : ClientProtocol :=
  match NewClientProtocol (mkClientConfig DefaultLimits [mkOffer CapabilityStateSync [1] true]
          (cc_HeartbeatTimeout DefaultClientConfig) (cc_DisconnectGrace DefaultClientConfig) true 0 0 0 0 0) with
  | Ok c => (TransportConnected (BeginConnect c).1 1).1
  | Err _ => demo_client
  end.
Definition demo_start : ClientProtocol * res (list Action) := StartSession demo_fresh 1 "demo".
Definition demo_start_frame : Envelope :=
  match demo_start.2 with Ok [SendFrameAction f] => f | _ => zeroEnvelope end.
Definition demo_server_registry : CapabilityRegistry :=
  default emptyCapabilityRegistry (sv_Capabilities demo_server).
Definition demo_handshake : list event := memory_trace (handleHello demo_server demo_start_frame) demo_empty.

Lemma handshake_end_to_end_witness :
  ∃ welcome c2, ob_batches (observed demo_handshake) = [[welcome]]
    ∧ HandleIncoming demo_start.1 1 welcome 9 = (c2, Ok [SessionReadyAction "s9"])
    ∧ c_state c2 = StateReady ∧ c_sessionID c2 = "s9" ∧ c_capabilities c2 = demo_capabilities.
Proof.
  destruct (handshake_end_to_end demo_server [mkSpec CapabilityStateSync [CapabilityStateSyncVersion]] DefaultLimits
              demo_server_registry demo_fresh 1 "demo" demo_start.1 demo_start_frame demo_handshake
              (mkHandleResult "s9" demo_capabilities false false) None 9)
    as (welcome & c2 & Hb & _ & Hin & Hst & Hsid & Hcaps).
  - vm_compute. reflexivity.
  - vm_compute. reflexivity.
  - vm_compute. reflexivity.
  - vm_compute. reflexivity.
  - vm_compute. reflexivity.
  - repeat constructor; vm_compute; congruence.
  - vm_compute. reflexivity.
  - apply memory_trace_traces. vm_compute. reflexivity.
  - discriminate.
  - exists welcome, c2. split; [exact Hb|]. split; [exact Hin|]. split; [exact Hst|]. split; [exact Hsid|exact Hcaps].
Defined.
End witness.
