(* ===== verification/StateResume.v ===== *)
(** * Resuming with State

    The RESUME of [ResumeWithState], the server's handler with a snapshot
    provider, and the client that receives the batch: the missed EVENTs and
    the State of the requested namespaces reach the client together, or the
    client is told to synchronise from scratch and nothing is delivered. *)

From Stdlib Require Import Ascii String.
From S2P Require Import Prelude SortedLists Utf8 Json JsonText JsonPrint Types Codec Capability State StateProps StateNumbers StateData StateWire Validate CodecProps Outbound Store StoreProps Client SortStrings Sha256 Program Server ServerStream MemoryServer Runs ServerRules StreamProps ClientInv ClientSteps ClientProps EndToEnd.
Open Scope string_scope.
Open Scope list_scope.
Open Scope go_scope.
Open Scope Z_scope.

Section state_resume.
Context {ST : StdText}.

(** ** The RESUME *)

Lemma namespaces_loop_utf8 maxLength previous l : namespaces_loop maxLength previous l = Ok tt → namespaces_utf8 l.
Proof.
  revert previous. induction l as [|ns l IH]; intros previous H; [constructor|]. cbn in H.
  apply result_bind_Ok in H as ([] & Hns & H). apply result_bind_Ok in H as ([] & _ & H). constructor; [|by eapply IH].
  unfold validateStateNamespace in Hns. apply result_bind_Ok in Hns as ([] & Hns & _). inv_ok.
  apply orb_false_iff in Hns as [_ Hns]. by bools.
Qed.

Lemma ResumeWithState_frame c g namespaces now c1 frame :
  ResumeWithState c g namespaces now = (c1, Ok [SendFrameAction frame]) →
  let canonical := sortStrings namespaces in
  c_sessionID c ≠ "" ∧ stateSyncEnabled (c_capabilities c) = true ∧ canonical ≠ [] ∧ namespaces_utf8 canonical
  ∧ c1 = beginRecoveryLocked c canonical false ∧ frame = resumeFrameLocked c canonical now.
Proof.
  unfold ResumeWithState. destruct (negb (g =? c_generation c)); [done|].
  destruct (stateSyncEnabled (c_capabilities c)); [|done]. cbn [negb]. cbv zeta.
  destruct (validateResumeStateSync _ _) as [[]|] eqn:Hs; [|done]. cbn [or_return].
  intros (Hsid & -> & -> & _)%startResume_frame. unfold validateResumeStateSync in Hs. cbn [rss_Namespaces] in Hs.
  apply result_bind_Ok in Hs as ([] & Hne & Hs). inv_ok. bools. split_and!; try done.
  - intros E. rewrite E in *. done.
  - by eapply namespaces_loop_utf8.
Qed.

(** ** The snapshot on the wire *)

(** Objects that come back from the wire as they are: 64-bit versions, and
    data in compact form within the nesting bound. *)
Definition printable (o : StateObject) : Prop :=
  is_u64 (so_Version o) ∧ out_ok (maxNestingDepth - 2) (layout o) = true.

Lemma decode_snapshot strict objects payload :
  Marshal (mkStateSnapshot objects) = Some payload →
  Forall printable objects → Forall (fun o => so_Data o ≠ "") objects →
  decodePayload payload strict = Ok (mkStateSnapshot objects).
Proof.
  intros Hm Hp Hd. assert (payload = mustPayload (mkStateSnapshot objects)) as -> by (unfold mustPayload; by rewrite Hm).
  apply decode_printed.
  - cbn. apply Forall_forall. intros o Ho. rewrite Forall_forall in Hp, Hd. destruct (Hp o Ho). auto.
  - cbn [layout StateSnapshotPayload_wire ss_States].
    assert (forallb (out_ok (maxNestingDepth - 2)) (map layout objects) = true) as Hl.
    { apply forallb_forall. intros x (o & <- & Ho%list_elem_of_In)%in_map_iff. rewrite Forall_forall in Hp.
      by destruct (Hp o Ho). }
    generalize dependent (map layout objects). intros l Hl.
    change (forallb (out_ok (maxNestingDepth - 2)) l && true = true). by rewrite Hl.
Qed.

Lemma valid_object_data o limits : ValidateStateObject o limits = Ok tt → so_Data o ≠ "".
Proof.
  unfold ValidateStateObject. intros H. apply result_bind_Ok in H as ([] & _ & H).
  apply result_bind_Ok in H as ([] & _ & H). apply result_bind_Ok in H as ([] & H & _). inv_ok. bools.
  intros E. by rewrite E in *.
Qed.

(** Objects whose data the scanner reads inside a snapshot: 64-bit versions,
    and data nested no deeper than its bound allows three levels down. *)
Definition shallow (o : StateObject) : Prop :=
  is_u64 (so_Version o) ∧ data_within (maxNestingDepth - 3) (so_Data o) = true.

Lemma printable_shallow o : printable o → so_Data o ≠ "" → shallow o ∧ wire_form o = o.
Proof.
  intros [Hv Ho] Hd. destruct o as [ns id v data]. cbn [so_Version so_Data] in *.
  assert (raw_ok (maxNestingDepth - 3) data = true) as Hr.
  { revert Ho. cbn [layout StateObject_wire so_Namespace so_ObjectID so_Version so_Data].
    change (maxNestingDepth - 3) with (maxNestingDepth - 2 - 1). generalize (maxNestingDepth - 2). intros d Ho. cbn [out_ok forallb] in Ho.
    apply andb_true_iff in Ho as [_ Ho]. do 3 apply andb_true_iff in Ho as [_ Ho]. apply andb_true_iff in Ho as [Ho _].
    apply andb_true_iff in Ho as [_ Ho]. by rewrite bool_decide_false in Ho. }
  split; [split; [done|by apply raw_ok_within]|]. unfold wire_form. cbn. f_equal.
  unfold raw_ok in Hr. apply andb_true_iff in Hr as [Hr _]. by bools.
Qed.

Lemma valid_object_utf8 o limits :
  ValidateStateObject o limits = Ok tt → utf8_ValidString (so_Namespace o) = true ∧ utf8_ValidString (so_ObjectID o) = true.
Proof.
  unfold ValidateStateObject, ValidateStateIdentity, validateStateNamespace. intros H.
  apply result_bind_Ok in H as ([] & H & _). apply result_bind_Ok in H as ([] & Hn & H).
  apply result_bind_Ok in H as ([] & Ho & _). apply result_bind_Ok in Hn as ([] & Hn & _). inv_ok.
  apply orb_false_iff in Hn as [_ Hn]. apply orb_false_iff in Ho as [_ Ho]. by bools.
Qed.

(** A valid object is printed like its wire form, which reads back as it is. *)
Lemma wire_object_ok o limits :
  ValidateStateObject o limits = Ok tt → shallow o →
  printable (wire_form o) ∧ so_Data (wire_form o) ≠ "" ∧ json_Marshal (layout (wire_form o)) = json_Marshal (layout o).
Proof.
  intros Hval [Hv Hd]. destruct (valid_object_utf8 _ _ Hval) as [Hn Hi]. pose proof (valid_object_data _ _ Hval) as Hne.
  pose proof (valid_object_json _ _ Hval) as Hj. pose proof (data_within_compact _ _ Hd) as Hr.
  assert (compact false false (so_Data o) ≠ "") as Hne'.
  { intros E. rewrite E in Hr. done. }
  assert (json_Valid (compact false false (so_Data o)) = true) as Hj'.
  { unfold json_Valid in *. destruct (json_value (so_Data o)) as [v|] eqn:E; [|done].
    destruct (compact_denotes _ _ E) as (v' & -> & _). done. }
  split_and!; [split; [done|]|done|].
  - cbn [layout StateObject_wire wire_form so_Namespace so_ObjectID so_Version so_Data].
    change (maxNestingDepth - 3) with (maxNestingDepth - 2 - 1) in Hr. assert (0 <? maxNestingDepth - 2 = true) as H0 by done.
    revert Hr H0. generalize (maxNestingDepth - 2). intros d Hr H0. cbn [out_ok forallb]. rewrite H0, Hn, Hi, Hr, orb_true_r. done.
  - cbn [layout StateObject_wire wire_form so_Namespace so_ObjectID so_Version so_Data]. rewrite !json_Marshal_obj. cbn [mapM].
    assert (json_Marshal (ORaw (compact false false (so_Data o))) = json_Marshal (ORaw (so_Data o))) as ->; [|done].
    assert (∀ raw, raw ≠ "" → json_Valid raw = true → json_Marshal (ORaw raw) = Some (compact false false raw)) as Hraw.
    { intros [|a raw] H1 H2; [done|]. cbn [json_Marshal]. by rewrite H2. }
    rewrite !Hraw by done. by rewrite compact_idem by by right.
Qed.

Lemma marshal_objects_wire limits objects :
  Forall (fun o => ValidateStateObject o limits = Ok tt ∧ shallow o) objects →
  mapM json_Marshal (map layout (map wire_form objects)) = mapM json_Marshal (map layout objects).
Proof.
  induction 1 as [|o objects [Hv Hs] _ IH]; [done|]. cbn [map mapM]. destruct (wire_object_ok o limits Hv Hs) as (_ & _ & ->).
  by rewrite IH.
Qed.

(** A client reads the wire forms of the objects printed. *)
Lemma decode_snapshot_wire limits strict objects payload :
  Marshal (mkStateSnapshot objects) = Some payload →
  Forall (fun o => ValidateStateObject o limits = Ok tt ∧ shallow o) objects →
  decodePayload payload strict = Ok (mkStateSnapshot (map wire_form objects)).
Proof.
  intros Hm Hall. apply decode_snapshot.
  - rewrite <- Hm. unfold Marshal. cbn [layout StateSnapshotPayload_wire ss_States].
    rewrite !json_Marshal_obj. cbn [mapM]. rewrite !json_Marshal_arr. by rewrite (marshal_objects_wire limits).
  - apply Forall_map. eapply Forall_impl; [exact Hall|]. intros o [Hv Hs]. by apply (wire_object_ok o limits).
  - apply Forall_map. eapply Forall_impl; [exact Hall|]. intros o [Hv Hs]. by apply (wire_object_ok o limits).
Qed.

(** A valid STATE_SNAPSHOT has valid objects. *)
Lemma snapshot_frame_valid f limits strict objects :
  ValidateFrame f limits strict = Ok tt → e_Type f = FrameStateSnapshot →
  decodePayload (e_Payload f) strict = Ok (mkStateSnapshot objects) →
  Forall (fun o => ValidateStateObject o limits = Ok tt) objects.
Proof.
  unfold ValidateFrame. cbv zeta. intros H Ht Hdec. apply result_bind_Ok in H as (_ & _ & H).
  rewrite Ht, !(bool_decide_false (FrameStateSnapshot = _)), (bool_decide_true (FrameStateSnapshot = FrameStateSnapshot)) in H by done.
  unfold validateStateSnapshot in H. rewrite Hdec in H. do 6 apply result_bind_Ok in H as (? & _ & H).
  apply result_bind_Ok in H as (p & [= <-] & H). apply result_bind_Ok in H as (_ & _ & H). cbn [ss_States] in H.
  revert H. generalize (∅ : gset (string * string)). clear. induction objects as [|o objects IH]; intros seen H; [constructor|].
  cbn [snapshot_loop] in H. apply result_bind_Ok in H as ([] & Ho & H). apply result_bind_Ok in H as (_ & _ & H).
  constructor; [|by eapply IH]. unfold ValidateStateObject in *. by rewrite normalizeLimits_idem in Ho.
Qed.

(** ** The client *)

Lemma receive_app c l1 l2 now c1 acts1 :
  receive c l1 now = (c1, Ok acts1) →
  receive c (l1 ++ l2) now
  = (let '(c2, r) := receive c1 l2 now in (c2, match r with Err e => Err e | Ok acts2 => Ok (acts1 ++ acts2) end)).
Proof.
  revert c acts1. induction l1 as [|f l1 IH]; intros c acts1; cbn [app receive].
  { intros [= <- <-]. destruct (receive c l2 now) as [c2 [acts|e]]; done. }
  destruct (HandleIncoming c (c_generation c) f now) as [c' [acts|e]]; [|done].
  destruct (receive c' l1 now) as [c'' [acts'|e]] eqn:E; [|done]. intros [= <- <-]. rewrite (IH _ _ E).
  destruct (receive c'' l2 now) as [c2 [acts2|e]]; [|done]. by rewrite app_assoc.
Qed.

(** The WELCOME and the EVENTs are staged. *)
Lemma receive_staging c namespaces ts mark events now :
  client_inv c → c_sessionID c ≠ "" → namespaces ≠ [] → namespaces_utf8 namespaces → is_u64 mark → c_lastSeq c ≤ mark →
  mark - c_lastSeq c ≤ cc_MaxReplayEvents (c_config c) → buffer_bytes events ≤ cc_MaxReplayBytes (c_config c) →
  map e_Seq events = seqZ (c_lastSeq c + 1) (mark - c_lastSeq c) →
  let c1 := beginRecoveryLocked c namespaces false in
  let welcome := resumeWelcome (c_sessionID c) (mkResume (c_lastSeq c) (sync_of namespaces)) ts mark in
  ValidateFrame welcome (cc_Limits (c_config c)) (cc_StrictValidation (c_config c)) = Ok tt →
  Forall (fun f => e_Type f = FrameEvent ∧ e_SessionID f = c_sessionID c
            ∧ ValidateFrame f (cc_Limits (c_config c)) (cc_StrictValidation (c_config c)) = Ok tt) events →
  receive c1 (welcome :: events) now = (staged (fixReplayBounds c1 mark) events, Ok []).
Proof.
  intros Hinv Hsid Hne Hns Hmark Hle Hcount Hbytes Hseq c1 welcome Hw Hvalid. pose proof (inv_seq _ Hinv) as [Hl _].
  pose proof (receive_welcome c1 ts mark now eq_refl Hns Hl Hmark Hle Hcount Hw) as Hrw.
  cbn [receive]. unfold welcome.
  change (resumeWelcome (c_sessionID c) (mkResume (c_lastSeq c) (sync_of namespaces)) ts mark)
    with (resumeWelcome (c_sessionID c1) (mkResume (c_lastSeq c1) (sync_of (c_resumeStateNamespaces c1))) ts mark).
  rewrite Hrw. cbn [c1 beginRecoveryLocked resetTo c_resumeStateNamespaces].
  assert (is_nil namespaces = false) as -> by by destruct namespaces. rewrite andb_false_r.
  fold (resetTo c StateResuming namespaces false). fold (beginRecoveryLocked c namespaces false). fold c1.
  destruct (decide (mark = c_lastSeq c)) as [Heq|Hlt].
  - rewrite Heq, Z.sub_diag in Hseq. destruct events; [|done]. cbn [receive]. unfold staged, fixReplayBounds. cbn.
    change (c_lastSeq c1) with (c_lastSeq c). by rewrite Heq, Z.eqb_refl.
  - rewrite (receive_staged events (fixReplayBounds c1 mark) now); [done| |done].
    split; try done; cbn -[Z.add Z.sub buffer_bytes].
    + exact (inv_ready c Hsid Hinv).
    + rewrite Hseq. f_equal; lia.
    + lia.
Qed.

(** The snapshot completes the resume: everything is delivered, or the client
    gives up. *)
Lemma receive_state_snapshot c f objects now :
  c_state c = StateResuming → stateSyncEnabled (c_capabilities c) = true → c_resumeStateNamespaces c ≠ [] →
  c_resumeEventsComplete c = true →
  e_Type f = FrameStateSnapshot → e_SessionID f = c_sessionID c →
  ValidateFrame f (cc_Limits (c_config c)) (cc_StrictValidation (c_config c)) = Ok tt →
  decodePayload (e_Payload f) (cc_StrictValidation (c_config c)) = Ok (mkStateSnapshot objects) →
  Forall (fun o => so_Namespace o ∈ c_resumeStateNamespaces c) objects →
  HandleIncoming c (c_generation c) f now
  = match apply_loop (c_config c) (c_stateObjects c) (c_stateBytes c) objects with
    | Ok (next, bytes, acts) =>
        let '(c', delivered) := deliverReplay (c <| c_stateObjects := next |> <| c_stateBytes := bytes |>) in
        (readyLocked c', Ok (delivered ++ acts ++ [SessionReadyAction (c_sessionID c')]))
    | Err _ =>
        let '(c', actions) := stopStateResumeLocked c "State snapshot conflicts with retained State" in (c', Ok actions)
    end.
Proof.
  intros Hst Hcap Hns Hcomp Hty Hs Hv Hdec Hin. unfold HandleIncoming. rewrite Z.eqb_refl, Hv, Hty, Hs. cbn [negb].
  rewrite (bool_decide_true (c_sessionID c = c_sessionID c)) by done.
  rewrite !(bool_decide_false (FrameStateSnapshot = _)), (bool_decide_true (FrameStateSnapshot = FrameStateSnapshot)) by done.
  cbn [negb andb]. unfold handleStateSnapshotLocked. rewrite Hst, bool_decide_true by done.
  unfold handleResumeStateSnapshotLocked. rewrite Hcap, Hcomp, Hdec. cbn [negb or_return ss_States].
  destruct (Z.eqb_spec (Z.of_nat (length (c_resumeStateNamespaces c))) 0) as [E|_];
    [by destruct (c_resumeStateNamespaces c)|]. cbn [orb].
  assert (existsb (fun object => negb (str_in (so_Namespace object) (c_resumeStateNamespaces c))) objects = false) as ->.
  { apply not_true_is_false. intros (o & Ho%list_elem_of_In & Hn)%existsb_exists. rewrite Forall_forall in Hin.
    apply negb_true_iff in Hn. specialize (Hin o Ho). apply str_in_elem in Hin. congruence. }
  unfold applyStateObjectsLocked. destruct (apply_loop _ _ _ _) as [[[next bytes] acts]|e]; cbn [or_return]; [|done].
  by destruct (deliverReplay _).
Qed.

(** What the client ends with, given what its cache makes of the objects. *)
Definition resumed_with_state (c c2 : ClientProtocol) (events : list Envelope) (mark : Z) (objects : list StateObject)
    (r : res (list Action)) : Prop :=
  match apply_loop (c_config c) (c_stateObjects c) (c_stateBytes c) objects with
  | Ok (next, _, acts) =>
      r = Ok (map DeliverEventAction events ++ acts ++ [SessionReadyAction (c_sessionID c)])
      ∧ c_state c2 = StateReady ∧ c_lastSeq c2 = mark ∧ c_stateObjects c2 = next
  | Err _ =>
      r = Ok [ProtocolErrorAction (mkError ErrorStateSyncRequired "State snapshot conflicts with retained State" "" false);
              FullSyncRequiredAction (c_sessionID c);
              CloseConnectionAction "State snapshot conflicts with retained State"]
      ∧ c_state c2 = StateDisconnected ∧ c_lastSeq c2 = c_lastSeq c ∧ c_stateObjects c2 = c_stateObjects c
  end.

Lemma complete_with_state c namespaces mark events f objects now :
  client_inv c → c_sessionID c ≠ "" → stateSyncEnabled (c_capabilities c) = true → namespaces ≠ [] → is_u64 mark →
  c_lastSeq c ≤ mark → map e_Seq events = seqZ (c_lastSeq c + 1) (mark - c_lastSeq c) →
  e_Type f = FrameStateSnapshot → e_SessionID f = c_sessionID c →
  ValidateFrame f (cc_Limits (c_config c)) (cc_StrictValidation (c_config c)) = Ok tt →
  decodePayload (e_Payload f) (cc_StrictValidation (c_config c)) = Ok (mkStateSnapshot objects) →
  Forall (fun o => so_Namespace o ∈ namespaces) objects →
  let cs := staged (fixReplayBounds (beginRecoveryLocked c namespaces false) mark) events in
  let '(c2, r) := HandleIncoming cs (c_generation cs) f now in resumed_with_state c c2 events mark objects r.
Proof.
  intros Hinv Hsid Hcap Hne Hmark Hle Hseq Hty Hs Hv Hdec Hin cs.
  rewrite (receive_state_snapshot cs f objects now) by done. unfold resumed_with_state.
  change (c_config cs) with (c_config c). change (c_stateObjects cs) with (c_stateObjects c).
  change (c_stateBytes cs) with (c_stateBytes c).
  destruct (apply_loop _ _ _ _) as [[[next bytes] acts]|e] eqn:Hap; [|by split_and!].
  set (ca := cs <| c_stateObjects := next |> <| c_stateBytes := bytes |>).
  destruct (apply_loop_ok _ _ _ _ _ _ _ (inv_cache _ Hinv) Hap) as (Hcache & _ & _).
  assert (length events = Z.to_nat (mark - c_lastSeq c)) as Hlen.
  { apply (f_equal length) in Hseq. by rewrite length_map, length_seqZ in Hseq. }
  destruct (deliver_ready ca) as (_ & Hsame & Hlast & Hacts & _).
  - set (c' := c <| c_stateObjects := next |> <| c_stateBytes := bytes |>). change (client_inv (readyLocked c')).
    apply inv_ready; [done|]. destruct Hinv. by constructor.
  - done.
  - change (c_replayBuffer ca) with events. change (c_lastSeq ca) with (c_lastSeq c). rewrite Hseq. f_equal. lia.
  - change (c_replayBuffer ca) with events. change (c_lastSeq ca) with (c_lastSeq c). unfold is_u64 in *. lia.
  - destruct (deliverReplay ca) as [c' dels]. cbn [fst snd] in *. subst dels. unfold same_but_stream in Hsame.
    change (c_replayBuffer ca) with events in *. change (c_lastSeq ca) with (c_lastSeq c) in *.
    split_and!; [by rewrite Hsame|done|cbn; rewrite Hlast; lia|by rewrite Hsame].
Qed.
End state_resume.

(** ** The whole exchange *)

Lemma resume_with_state_ok {ST : StdText} s c g namespaces now c1 frame t r err now' :
  client_inv c → ResumeWithState c g namespaces now = (c1, Ok [SendFrameAction frame]) →
  cc_Limits (c_config c) = sv_Limits s → cc_StrictValidation (c_config c) = sv_StrictValidation s →
  sv_MaxReplayEvents s ≤ cc_MaxReplayEvents (c_config c) →
  traces (handleResume s frame) t (Normal (r, err)) → hr_readySessionID r ≠ "" →
  ∃ batch events mark provided objects,
    ob_batches (observed t) = [batch] ∧ ob_replayed (observed t) = Some events ∧ ob_current (observed t) = Some mark
    ∧ ob_provided (observed t) = Some (sortStrings namespaces, provided) ∧ objects ≡ₚ provided
    ∧ StronglySorted object_lt objects ∧ Forall (fun o => ValidateStateObject o (sv_Limits s) = Ok tt) objects
    ∧ (Forall shallow provided →
       Forall (fun o => ValidateStateObject o (cc_Limits (c_config c)) = Ok tt) (map wire_form objects)
       ∧ (buffer_bytes events ≤ cc_MaxReplayBytes (c_config c) →
          let '(c2, actions) := receive c1 batch now' in resumed_with_state c c2 events mark (map wire_form objects) actions)).
Proof.
  intros Hinv HR Hlim Hstrict Hmaxev Ht Hready.
  pose proof (inv_seq _ Hinv) as [Hl _]. apply ResumeWithState_frame in HR as (Hsid & Hcap & Hne & Hns & -> & ->).
  set (ns := sortStrings namespaces) in *.
  pose proof (observed_by _ _ _ _ (handleResume_holds s _) Ht) as Hpost. destruct Hpost as [[H _]|Hpost]; [done|].
  destruct Hpost as (resume & ts & mark & events & snap & Hdec & _ & _ & _ & _ & Hcur & Hrep & Hbatch & Hw & Hmark
    & Hle & Hcount & Hseq & Hvalid & Hsnap).
  rewrite decode_resume_frame in Hdec by done. injection Hdec as <-. cbn [rp_LastSeq rp_StateSync] in *.
  destruct (sync_of_cases ns) as [[? _]|[_ Hsync]]; [done|]. rewrite Hsync in Hsnap. destruct snap as [f|]; [|done].
  destruct Hsnap as (id & limits & states & Hprov & Hasm). cbn [rss_Namespaces] in Hasm.
  destruct (assembleSnapshot_canonical _ _ _ _ _ _ Hasm) as (objects & Hm & Hperm & Hsort & Hobj & _ & _ & Hf).
  assert (validateOut s f = Ok tt) as Hvf.
  { by eapply assembleSnapshot_valid. }
  unfold validateOut, validateOutboundFrame in Hw, Hvalid, Hvf. setoid_rewrite ValidateFrame_normalized in Hvalid.
  rewrite ValidateFrame_normalized in Hw, Hvf. rewrite <- Hlim, <- Hstrict in Hw, Hvalid, Hvf.
  eexists _, events, mark, states, objects. split_and!;
    [exact Hbatch|done|done|done|done|done|by eapply Forall_impl; [exact Hobj|intros o [? _]]|]. intros Hsh.
  assert (decodePayload (e_Payload f) (cc_StrictValidation (c_config c)) = Ok (mkStateSnapshot (map wire_form objects))) as Hds.
  { apply (decode_snapshot_wire (sv_Limits s)); [done|]. apply Forall_forall. intros o Ho. rewrite Forall_forall in Hobj, Hsh.
    split; [by apply Hobj|]. apply Hsh. by rewrite <- Hperm. }
  assert (e_Type f = FrameStateSnapshot ∧ e_SessionID f = c_sessionID c) as [Hty Hs] by (by rewrite Hf).
  split; [by eapply snapshot_frame_valid|]. intros Hbytes.
  pose proof (receive_staging c ns ts mark events now' Hinv Hsid Hne Hns Hmark Hle ltac:(lia) Hbytes Hseq Hw Hvalid) as Hrec.
  cbn [option_list]. rewrite app_comm_cons. erewrite receive_app; [|exact Hrec]. change (option_list (Some f)) with [f]. cbn [receive].
  pose proof (complete_with_state c ns mark events f (map wire_form objects) now' Hinv Hsid Hcap Hne Hmark Hle Hseq Hty Hs Hvf Hds) as Hc.
  assert (Forall (fun o => so_Namespace o ∈ ns) (map wire_form objects)) as Hin
    by (apply Forall_map; eapply Forall_impl; [exact Hobj|]; by intros o [_ Ho]).
  specialize (Hc Hin). cbv zeta in Hc. set (cs := staged _ events) in *.
  destruct (HandleIncoming cs (c_generation cs) f now') as [c2 [acts|e]]; [|done].
  cbn [app]. by rewrite app_nil_r.
Qed.

(** ** The property *)

(** C11. A resume with State is all or nothing.  Let a client in any reachable
    state send the RESUME of [ResumeWithState], let the server's handler
    process that very frame, whatever its stores and its provider answer, and
    let it make the connection ready.  Then the handler enqueued one batch,
    and what happens to the client that receives it depends only on its State
    cache.  If the cache takes the provider's objects, the client delivers
    exactly the EVENTs the replay store returned, in order, then reports the
    State changes, then the Session as ready, and is READY at the server's
    high-water mark with the State applied.  If they conflict with what it
    retains or exceed its limits, it delivers nothing, keeps its position and
    its State, disconnects, and asks for a full synchronisation.  Both ends
    use the same limits, the replay fits the client's limits, and the objects
    have 64-bit versions and compact data. *)
Theorem resume_with_state_end_to_end {ST : StdText} s c g namespaces now c1 frame t r err now' :
  client_reachable c → ResumeWithState c g namespaces now = (c1, Ok [SendFrameAction frame]) →
  cc_Limits (c_config c) = sv_Limits s → cc_StrictValidation (c_config c) = sv_StrictValidation s →
  sv_MaxReplayEvents s ≤ cc_MaxReplayEvents (c_config c) →
  traces (handleResume s frame) t (Normal (r, err)) → hr_readySessionID r ≠ "" →
  ∃ batch events mark provided objects,
    ob_batches (observed t) = [batch] ∧ ob_replayed (observed t) = Some events ∧ ob_current (observed t) = Some mark
    ∧ ob_provided (observed t) = Some (sortStrings namespaces, provided) ∧ objects ≡ₚ provided
    ∧ (buffer_bytes events ≤ cc_MaxReplayBytes (c_config c) → Forall printable provided →
       let '(c2, actions) := receive c1 batch now' in resumed_with_state c c2 events mark objects actions).
Proof.
  intros Hreach HR Hlim Hstrict Hmaxev Ht Hready.
  destruct (resume_with_state_ok s c g namespaces now c1 frame t r err now' (reachable_inv c Hreach) HR Hlim Hstrict Hmaxev Ht Hready)
    as (batch & events & mark & provided & objects & ? & ? & ? & ? & Hperm & _ & Hval & H).
  exists batch, events, mark, provided, objects. split_and!; [done..|]. intros Hbytes Hp.
  assert (∀ o, o ∈ provided → shallow o ∧ wire_form o = o) as Hsame.
  { intros o Ho. rewrite Forall_forall in Hp, Hval. apply printable_shallow; [by apply Hp|].
    rewrite <- Hperm in Ho. by eapply valid_object_data, Hval. }
  destruct H as [_ H]; [apply Forall_forall; intros o Ho; by apply Hsame|]. specialize (H Hbytes).
  assert (map wire_form objects = objects) as E; [|by rewrite E in H].
  rewrite <- (map_id objects) at 2. apply map_ext_in. intros o Ho%list_elem_of_In. rewrite Hperm in Ho. by apply Hsame.
Qed.

(** A client with state-sync that saw only the first EVENT reconnects to the
    server of the scenario, and asks for the State of one namespace. *)
Section witness.
#[local] Existing Instance demo_text.

Definition demo_sync_config : ClientConfig :=
  mkClientConfig DefaultLimits [mkOffer CapabilityStateSync [1] true] (cc_HeartbeatTimeout DefaultClientConfig)
    (cc_DisconnectGrace DefaultClientConfig) true 0 0 0 0 0.
Definition demo_sync_client : ClientProtocol :=
  match NewClientProtocol demo_sync_config with Ok c => c | Err _ => demo_client end.
Definition demo_sync_ops : list ClientOp :=
  [OpBeginConnect; OpTransportConnected 1; OpStartSession 1 "demo";
   OpHandleIncoming 1 (demo_frame FrameWelcome "" "s1" 0
     "{'mode':'NEW','server_time':1000,'accepted_capabilities':[{'name':'state-sync','version':1}]}") 0;
   OpHandleIncoming 1 (demo_event 1 "e1") 0; OpDisconnect 1; OpBeginConnect; OpTransportConnected 2].
Definition demo_sync_back : ClientProtocol := (client_run demo_sync_client [] demo_sync_ops).1.

Lemma demo_sync_reachable : client_reachable demo_sync_back.
Proof.
  apply client_run_reachable; [|repeat constructor; vm_compute; congruence].
  refine (reach_new demo_sync_config _ _ _); [vm_compute; repeat split; congruence|vm_compute; reflexivity].
Qed.

Definition demo_sync_sent : ClientProtocol * res (list Action) := ResumeWithState demo_sync_back 2 ["room"] 7.
Definition demo_sync_frame : Envelope :=
  match demo_sync_sent.2 with Ok [SendFrameAction f] => f | _ => zeroEnvelope end.
Definition demo_sync_trace : list event := memory_trace (handleResume demo_server demo_sync_frame) demo_memory.
Definition demo_sync_end : ClientProtocol * res (list Action) :=
  receive demo_sync_sent.1 (default [] (head (ob_batches (observed demo_sync_trace)))) 9.

Lemma demo_sync_runs :
  traces (handleResume demo_server demo_sync_frame) demo_sync_trace
    (Normal (mkHandleResult "s1" demo_capabilities false false, None)).
Proof. apply memory_trace_traces. vm_compute. reflexivity. Qed.

Lemma demo_sync_sends : ResumeWithState demo_sync_back 2 ["room"] 7 = (demo_sync_sent.1, Ok [SendFrameAction demo_sync_frame]).
Proof. vm_compute. reflexivity. Qed.

Lemma printable_all l :
  forallb (fun o => bool_decide (is_u64 (so_Version o)) && out_ok (maxNestingDepth - 2) (layout o)) l = true →
  Forall printable l.
Proof.
  intros Hl. apply List.Forall_forall. intros o Ho. eapply forallb_forall in Hl; [|exact Ho].
  apply andb_true_iff in Hl as [Hv Ho']. by apply bool_decide_eq_true in Hv.
Qed.

Example demo_sync_result :
  c_state demo_sync_end.1 = StateReady ∧ c_lastSeq demo_sync_end.1 = 3 ∧ size (c_stateObjects demo_sync_end.1) = 2%nat.
Proof. vm_compute. auto. Qed.

Lemma resume_with_state_end_to_end_witness :
  ∃ events mark objects,
    map e_ID events = ["e2"; "e3"] ∧ objects ≡ₚ take 2 demo_objects
    ∧ resumed_with_state demo_sync_back demo_sync_end.1 events mark objects demo_sync_end.2.
Proof.
  destruct (resume_with_state_end_to_end demo_server demo_sync_back 2 ["room"] 7 demo_sync_sent.1 demo_sync_frame
              demo_sync_trace (mkHandleResult "s1" demo_capabilities false false) None 9 demo_sync_reachable demo_sync_sends)
    as (batch & events & mark & provided & objects & Hb & He & Hm & Hp & Hperm & H).
  - vm_compute. reflexivity.
  - vm_compute. reflexivity.
  - vm_compute. congruence.
  - exact demo_sync_runs.
  - discriminate.
  - exists events, mark, objects. unfold demo_sync_end. rewrite Hb. cbn [head default]. unfold id.
    assert (map e_ID <$> ob_replayed (observed demo_sync_trace) = Some ["e2"; "e3"]) as He' by (vm_compute; reflexivity).
    assert (ob_provided (observed demo_sync_trace) = Some (["room"], take 2 demo_objects)) as Hp' by (vm_compute; reflexivity).
    rewrite He in He'. injection He' as He'. rewrite Hp in Hp'. injection Hp' as ->.
    split; [exact He'|]. split; [exact Hperm|].
    assert (buffer_bytes events ≤ 1000) as Hbytes.
    { assert (match ob_replayed (observed demo_sync_trace) with Some l => buffer_bytes l <=? 1000 | None => false end = true)
        as E by (vm_compute; reflexivity).
      rewrite He in E. apply Z.leb_le, E. }
    destruct (receive demo_sync_sent.1 batch 9) as [c2 r]. apply H; [|apply printable_all; vm_compute; reflexivity].
    etrans; [exact Hbytes|]. vm_compute. congruence.
Defined.
End witness.
