(* ===== verification/Agreement.v ===== *)
(** * Both ends agree on the capabilities

    The capabilities a client has negotiated for its Session are those the
    session repository keeps for it, for as long as the client has the
    Session: whatever the server does for the Session later, after any number
    of reconnections, it does under the capabilities the client knows. *)

From Stdlib Require Import Ascii String.
From S2P Require Import Prelude SortedLists Utf8 Json JsonText JsonPrint Types Codec Capability CapabilityProps State Validate CodecProps Outbound Store Client Sha256 Program SessionStore Server ServerStream MemoryServer ServerRules ServerWire StreamProps ClientInv ClientSteps ClientProps WellFormed EndToEnd StateResume Handshake.
Open Scope string_scope.
Open Scope list_scope.
Open Scope go_scope.
Open Scope Z_scope.

(** ** Decoded frames *)

Section decoded.
Context {ST : StdText}.

Lemma offer_typed strict old v o :
  dec_struct (A:=CapabilityOffer) strict old v = Ok o → wire_typed old → wire_typed o.
Proof.
  apply (dec_struct_inv (wire_typed (A:=CapabilityOffer))). intros strict' a key raw w a' Hm Ha. cbn in Hm, Ha |- *.
  repeat match type of Hm with (if ?b then _ else _) = _ => destruct b end; try done;
    injection Hm as Hm; inv_ok; cbn; try done.
  eapply (dec_slice_inv 0); [| | |eassumption]; [|done|done]. intros n w' n' Hn. by eapply dec_uint_range.
Qed.

(** Decoded versions are 16-bit numbers. *)
Lemma hello_typed raw strict p : decodePayload (A:=HelloPayload) raw strict = Ok p → wire_typed p.
Proof.
  apply (decodePayload_inv (wire_typed (A:=HelloPayload))); [constructor|]. intros strict' a key raw' w a' Hm Ha.
  cbn in Hm, Ha |- *. repeat match type of Hm with (if ?b then _ else _) = _ => destruct b end; try done;
    injection Hm as Hm; inv_ok; cbn; try done.
  eapply (dec_slice_inv zero); [| |exact Ha|eassumption]; [|constructor]. intros o w' o' Ho. by eapply offer_typed.
Qed.

(** A validated RESUME asks for namespaces in UTF-8, or for none. *)
Lemma valid_resume f limits strict p :
  ValidateFrame f limits strict = Ok tt → e_Type f = FrameResume → decodePayload (e_Payload f) strict = Ok p →
  ∃ namespaces, rp_StateSync p = sync_of namespaces ∧ namespaces_utf8 namespaces.
Proof.
  unfold ValidateFrame. intros Hv Hty Hdec. apply result_bind_Ok in Hv as ([] & _ & Hv). rewrite Hty in Hv.
  rewrite !(bool_decide_false (FrameResume = _)), (bool_decide_true (FrameResume = FrameResume)) in Hv by done.
  unfold validateResume in Hv. do 3 (apply result_bind_Ok in Hv as ([] & _ & Hv)).
  apply result_bind_Ok in Hv as (p' & Hp & Hv). rewrite Hdec in Hp. injection Hp as <-.
  do 4 (apply result_bind_Ok in Hv as (? & _ & Hv)).
  destruct (rp_StateSync p) as [[ns]|]; [|by exists []; split; [|constructor]].
  exists ns. unfold validateResumeStateSync in Hv. cbn [rss_Namespaces] in Hv.
  apply result_bind_Ok in Hv as ([] & Hne & Hv). inv_ok. bools. split; [|by eapply namespaces_loop_utf8].
  destruct (sync_of_cases ns) as [[-> _]|[_ ->]]; done.
Qed.
End decoded.

(** ** The policy: a WELCOME of a new Session announces a created one *)

Section policy.
Context {ST : StdText} (c : ServerConfig) (reg : CapabilityRegistry).
Hypothesis Hreg : registry_ok reg.
Hypothesis Hcfg : sv_Capabilities c = Some reg.

Definition learn_sessions (X : Type) (e : eff X) : X → list SessionState → list SessionState :=
  match e in eff X return X → list SessionState → list SessionState with
  | ESessionCreate state => fun x known => match x with CRet _ => known ++ [state] | _ => known end
  | _ => fun _ known => known
  end.

Definition announces (f : Envelope) (p : WelcomePayload) (state : SessionState) : Prop :=
  ss_SessionID state = e_SessionID f
  ∧ NewSessionCapabilities (wp_AcceptedCapabilities p) (sv_Limits c) = Ok (ss_Capabilities state).

(** The WELCOME resumes a Session, or announces one of these. *)
Definition backed (known : list SessionState) (f : Envelope) : Prop :=
  e_Type f = FrameWelcome → ∀ p, decodePayload (A:=WelcomePayload) (e_Payload f) (sv_StrictValidation c) = Ok p →
  wp_Mode p = WelcomeModeNew → Exists (announces f p) known.
#[local] Instance announces_dec f p state : Decision (announces f p state).
Proof.
  unfold announces. destruct (NewSessionCapabilities _ _) as [caps|e]; [|right; by intros [_ ?]].
  destruct (decide (ss_SessionID state = e_SessionID f ∧ caps = ss_Capabilities state)) as [[Hs ->]|Hn]; [by left|].
  right. intros [Hs [= ->]]. by apply Hn.
Defined.
#[local] Instance backed_dec known f : Decision (backed known f).
Proof.
  unfold backed. destruct (decide (e_Type f = FrameWelcome)) as [Ht|Ht]; [|by left].
  destruct (decodePayload (A:=WelcomePayload) (e_Payload f) (sv_StrictValidation c)) as [p|e]; [|by left].
  destruct (decide (wp_Mode p = WelcomeModeNew)) as [Hm|Hm]; [|left; by intros _ p' [= <-]].
  destruct (decide (Exists (announces f p) known)) as [He|He]; [left; by intros _ p' [= <-]|].
  right. intros H. by apply He, H.
Defined.

Definition sessions_may_go (known : list SessionState) (f : Envelope) : bool := bool_decide (backed known f).

Lemma validate_out f : valid_out c f = true → ValidateFrame f (sv_Limits c) (sv_StrictValidation c) = Ok tt.
Proof.
  unfold valid_out, validateOut, validateOutboundFrame. rewrite ValidateFrame_normalized.
  by destruct (ValidateFrame _ _ _) as [[]|].
Qed.

(** The WELCOME of a new Session announces its capabilities. *)
Lemma new_welcome_announces frame hello accepted sid expires t1 t2 :
  received c FrameHello frame hello → Negotiate (sv_Capabilities c) (hp_Capabilities hello) (sv_Limits c) = Ok accepted →
  valid_out c (new_welcome sid t1 t2 (sc_List accepted)) = true →
  ∀ p, decodePayload (e_Payload (new_welcome sid t1 t2 (sc_List accepted))) (sv_StrictValidation c) = Ok p →
  announces (new_welcome sid t1 t2 (sc_List accepted)) p (mkSessionState sid expires accepted).
Proof.
  intros (Hv & Hty & Hdec) Hneg Hw p Hp. split; [done|]. rewrite Hcfg in Hneg.
  destruct (valid_hello _ _ _ _ Hv Hty Hdec) as [out Hout]. unfold validateAndCopyCapabilityOffers in Hout.
  rewrite normalizeLimits_idem in Hout. fold (validateAndCopyCapabilityOffers (hp_Capabilities hello) (sv_Limits c)) in Hout.
  pose proof (validateAndCopy_ok _ _ _ Hout) as (_ & Hoffers & Hlen).
  destruct (accepted_wire _ _ _ Hreg Hoffers (hello_typed _ _ _ Hdec)) as [Hwt Hutf].
  pose proof (accepted_valid _ _ _ Hreg Hoffers Hlen) as Hav.
  apply Negotiate_ok in Hneg as (-> & _ & _); [|done]. cbn [sc_List sc_selections ss_Capabilities] in *.
  rewrite (decode_new_welcome _ (sv_Limits c)) in Hp; [|done|done|by apply validate_out]. injection Hp as <-.
  cbn [wp_AcceptedCapabilities]. unfold NewSessionCapabilities. rewrite Hav. done.
Qed.

Lemma resumed_welcome_mode frame resume ts mark p :
  received c FrameResume frame resume → is_u64 mark → valid_out c (resumeWelcome (e_SessionID frame) resume ts mark) = true →
  decodePayload (e_Payload (resumeWelcome (e_SessionID frame) resume ts mark)) (sv_StrictValidation c) = Ok p →
  wp_Mode p = WelcomeModeResumed.
Proof.
  intros (Hv & Hty & Hdec) Hm Hw Hp. destruct (valid_resume _ _ _ _ Hv Hty Hdec) as (ns & Hns & Hutf).
  destruct resume as [last sync]. cbn in Hns. subst sync.
  rewrite (decode_welcome _ (sv_Limits c)) in Hp; [|done|done|by apply validate_out]. by injection Hp as <-.
Qed.

Definition sessions_policy : WirePolicy c (list SessionState).
Proof.
  refine {| below := subseteq; learn := learn_sessions; may_go := sessions_may_go; committed _ _ := True |};
    unfold sessions_may_go; try setoid_rewrite bool_decide_eq_true.
  - intros X e x k. destruct e; cbn; try done; destruct x; set_solver.
  - done.
  - intros k k' f Hk Hb Hty p Hp Hm. specialize (Hb Hty p Hp Hm). rewrite Exists_exists in *. set_solver.
  - intros k f [_ Hp] Hty. by rewrite Hty in Hp.
  - intros k sid after through limits events f Hf Hv Ht Hty. by rewrite Ht in Hty.
  - intros k sid eid ety content ts f Hv Ht Hty. by rewrite Ht in Hty.
  - intros k frame hello accepted sid expires t1 t2 Hr Hneg Hw _ p Hp _. apply Exists_exists.
    exists (mkSessionState sid expires accepted). split; [cbn; set_solver|by eapply new_welcome_announces].
  - intros k frame resume ts mark Hr Hm Hw _ p Hp Hmode. eapply resumed_welcome_mode in Hp; [|done..].
    by rewrite Hp in Hmode.
  - done.
  - done.
  - done.
  - intros k objects f (_ & Ht & _) _ Hty. by rewrite Ht in Hty.
  - intros k object f (_ & Ht & _) _ Hty. by rewrite Ht in Hty.
Defined.

(** The Sessions created in a run. *)
Definition opened (t : list event) : list SessionState :=
  concat (map (fun ev => match ev with Ev (ESessionCreate state) (CRet _) => [state] | _ => [] end) t).

Lemma learn_all_sessions t k : learn_all (WirePolicy0:=sessions_policy) c t k = k ++ opened t.
Proof.
  revert k. induction t as [|[X e x] t IH]; intros k; cbn [learn_all]; [by rewrite app_nil_r|].
  rewrite IH. unfold opened. cbn [map concat]. destruct e; cbn; try done; destruct x; cbn; by rewrite <- ?app_assoc.
Qed.

Lemma server_call_backed call t out :
  traces (server_call c call) t out → Forall (backed (opened t)) (handed t).
Proof.
  intros Ht. pose proof (server_call_respects (WirePolicy0:=sessions_policy) c call t out [] Ht ltac:(by destruct call)) as Hw.
  rewrite learn_all_sessions in Hw. eapply Forall_impl; [exact Hw|]. intros f Hf.
  change (bool_decide (backed ([] ++ opened t) f) = true) in Hf. by apply bool_decide_eq_true in Hf.
Qed.
End policy.

(** ** How a client gets its Session *)

Section client.
Context {ST : StdText}.

(** The call takes the Session from a WELCOME. *)
Definition established (c : ClientProtocol) (op : ClientOp) (c' : ClientProtocol) : Prop :=
  ∃ g f now p, op = OpHandleIncoming g f now ∧ e_Type f = FrameWelcome
    ∧ decodePayload (A:=WelcomePayload) (e_Payload f) (cc_StrictValidation (c_config c)) = Ok p
    ∧ wp_Mode p = WelcomeModeNew ∧ c_sessionID c' = e_SessionID f
    ∧ NewSessionCapabilities (wp_AcceptedCapabilities p) (cc_Limits (c_config c)) = Ok (c_capabilities c').

(** A transition that leaves the Session alone or gives it up. *)
Definition no_new (c c' : ClientProtocol) : Prop := c_sessionID c' = c_sessionID c ∨ c_sessionID c' = "".

Ltac no_new_tac := exits; try by left.

Lemma no_new_failure c err : no_new c (handleIncomingFailureLocked c err).1.
Proof. unfold handleIncomingFailureLocked, stopStateResumeLocked, stopReplayLocked. no_new_tac. Qed.

Lemma deliver_session c : c_sessionID (deliverReplay c).1 = c_sessionID c.
Proof. by rewrite (deliverReplay_same c). Qed.

Lemma no_new_apply c objs : no_new c (applyStateObjectsLocked c objs).1.
Proof. unfold applyStateObjectsLocked. no_new_tac. Qed.

Lemma no_new_event c frame now : no_new c (handleEventLocked c frame now).1.
Proof.
  unfold handleEventLocked, handleReplayEvent, stopReplayLocked. no_new_tac.
  match goal with H : deliverReplay ?c1 = _ |- _ => pose proof (deliver_session c1) as Hd; rewrite H in Hd end. by left.
Qed.

Lemma no_new_snapshot c frame : no_new c (handleStateSnapshotLocked c frame).1.
Proof.
  unfold handleStateSnapshotLocked, handleResumeStateSnapshotLocked, stopStateResumeLocked. no_new_tac;
    match goal with H : applyStateObjectsLocked ?c0 ?o = _ |- _ => pose proof (no_new_apply c0 o) as Ha; rewrite H in Ha end;
    try exact Ha.
  match goal with H : deliverReplay ?c1 = _ |- _ => pose proof (deliver_session c1) as Hd; rewrite H in Hd end.
  cbn in Hd |- *. unfold no_new in *. cbn in *. by rewrite Hd.
Qed.

Lemma no_new_error c frame : no_new c (handleErrorLocked c frame).1.
Proof. unfold handleErrorLocked. no_new_tac. all: unfold no_new; repeat case_match; cbn; auto. Qed.

Lemma welcome_session c frame :
  no_new c (handleWelcomeLocked c frame).1
  ∨ ∃ p, decodePayload (A:=WelcomePayload) (e_Payload frame) (cc_StrictValidation (c_config c)) = Ok p
      ∧ wp_Mode p = WelcomeModeNew ∧ c_sessionID (handleWelcomeLocked c frame).1 = e_SessionID frame
      ∧ NewSessionCapabilities (wp_AcceptedCapabilities p) (cc_Limits (c_config c))
        = Ok (c_capabilities (handleWelcomeLocked c frame).1).
Proof.
  unfold handleWelcomeLocked, stopReplayLocked. destruct (decodePayload _ _) as [p|e] eqn:Hdec; cbn [or_return]; [|by left; left].
  destruct (c_state c); try (left; left; done).
  - destruct (_ || _) eqn:Hm; [by left; left|]. bools.
    destruct (validateNegotiatedAgainstOffers _ _ _); cbn [or_return]; [|by left; left].
    destruct (NewSessionCapabilities _ _) eqn:Hn; cbn [or_return]; [|by left; left]. right. by exists p.
  - left. no_new_tac.
Qed.

Lemma failure_keeps c err :
  c_sessionID (handleIncomingFailureLocked c err).1 = c_sessionID c
  ∧ c_capabilities (handleIncomingFailureLocked c err).1 = c_capabilities c.
Proof.
  unfold handleIncomingFailureLocked, stopStateResumeLocked, stopReplayLocked. destruct (_ != _); [done|].
  by destruct (0 <? _).
Qed.

Lemma incoming_session c g frame now :
  no_new c (HandleIncoming c g frame now).1
  ∨ established c (OpHandleIncoming g frame now) (HandleIncoming c g frame now).1.
Proof.
  unfold HandleIncoming. destruct (negb _); [by left; left|].
  destruct (ValidateFrame _ _ _); [|left; case_match; [by left|apply no_new_failure]]. cbv zeta.
  destruct (_ && _ && _); [left; apply no_new_failure|]. destruct (_ && _ && _); [left; apply no_new_failure|].
  assert (∀ out, no_new c out.1 → no_new c (let '(c', r) := out in
    match r with Err err => handleIncomingFailureLocked c' err | Ok actions => (c', Ok actions) end).1) as Hthen.
  { intros [c' [acts|err]] Hn; [done|]. cbn in Hn |- *. unfold no_new. by rewrite (proj1 (failure_keeps c' err)). }
  case_bool_decide as Hw.
  - destruct (welcome_session c frame) as [Hn|(p & Hdec & Hm & Hs & Hn)]; [left; by apply Hthen|]. right.
    exists g, frame, now, p. destruct (handleWelcomeLocked c frame) as [c' [acts|err]]; cbn in *; [done|].
    destruct (failure_keeps c' err) as [-> ->]. done.
  - left. apply Hthen. repeat case_match; first
      [ apply no_new_event | apply no_new_snapshot | apply no_new_error
      | unfold handlePongLocked, handleAckLocked, handleStateUpdateLocked; no_new_tac ]; try (repeat case_match; by left).
    apply no_new_apply.
Qed.

Lemma step_session c op : no_new c (client_step c op).1 ∨ established c op (client_step c op).1.
Proof.
  destruct op; cbn [client_step]; try (left; unfold BeginConnect, TransportConnected, StartSession, Resume, ResumeWithState,
    startResumeLocked, Disconnect, QueryState, EnqueueSend, SendPing, CheckHeartbeat; cbn [fst]; no_new_tac; by repeat case_match).
  apply incoming_session.
Qed.
End client.

(** ** The session repository behind the server *)

Section repository.
Context {ST : StdText} {D : Type} `{!SessionRepository D, !Registered D, !SessionRepositoryLaws D}.

Definition session_effect {X} (e : eff X) : bool :=
  match e with ESessionCreate _ | ESessionLookup _ _ => true | _ => false end.

(** In this run the calls to the repository got answers it may give; its
    other users act at any time, other collaborators answer as they like. *)
Inductive kept : D → list event → D → Prop :=
| kept_done d : kept d [] d
| kept_other d1 d2 t d3 : repo_other d1 d2 → kept d2 t d3 → kept d1 t d3
| kept_create d state x d1 t d' :
    repo_Create d state d1 x → kept d1 t d' → kept d (Ev (ESessionCreate state) x :: t) d'
| kept_lookup d sid now x t d' :
    repo_Lookup d sid now x → kept d t d' → kept d (Ev (ESessionLookup sid now) x :: t) d'
| kept_skip {X} (e : eff X) x d t d' : session_effect e = false → kept d t d' → kept d (Ev e x :: t) d'.

(** The Sessions the server looked up in a run. *)
Definition looked_up (t : list event) : list (string * SessionState) :=
  concat (map (fun ev => match ev with Ev (ESessionLookup sid _) (CRet (Some state)) => [(sid, state)] | _ => [] end) t).

Lemma kept_registry d t d' R :
  kept d t d' → records d R →
  ∃ R', records d' R' ∧ keeps R R' ∧ Forall (fun state => R' (ss_SessionID state) = Some state) (opened t)
    ∧ Forall (fun '(sid, state) => R' sid = Some state) (looked_up t).
Proof.
  intros Hk. revert R. induction Hk as [d|d1 d2 t d3 Ho _ IH|d state x d1 t d' Hc _ IH|d sid now x t d' Hl _ IH
    |X e x d t d' He _ IH]; intros R HR.
  - exists R. split_and!; [done|reflexivity|constructor..].
  - destruct (repo_other_keeps _ _ _ HR Ho) as (R1 & HR1 & Hk1). destruct (IH _ HR1) as (R' & ? & ? & ? & ?).
    exists R'. split_and!; [done|by etrans|done..].
  - destruct (create_once _ _ _ _ _ HR Hc) as (R1 & HR1 & Hx). destruct (IH _ HR1) as (R' & HR' & Hk' & Hop & Hlu).
    exists R'. unfold opened, looked_up in *. cbn. destruct x as [[]|e|msg].
    + destruct Hx as [Hn Hreg]. split_and!; [done|etrans; [by eapply registered_keeps|done]| |done].
      constructor; [|done]. apply Hk'. rewrite Hreg. by rewrite decide_True.
    + split_and!; [done| |done..]. destruct Hx as [->|[? ?]]; [done|etrans; [by eapply registered_keeps|done]].
    + split_and!; [done| |done..]. destruct Hx as [->|[? ?]]; [done|etrans; [by eapply registered_keeps|done]].
  - destruct (IH _ HR) as (R' & HR' & Hk' & Hop & Hlu). exists R'. unfold opened, looked_up in *. cbn.
    split_and!; [done..|]. destruct x as [[state|]|e|msg]; [|exact Hlu..]. constructor; [|exact Hlu].
    apply Hk'. by eapply lookup_known.
  - destruct (IH _ HR) as (R' & HR' & Hk' & Hop & Hlu). exists R'. by destruct e.
Qed.
End repository.

(** ** The system *)

Section system.
Context {ST : StdText} {D : Type} `{!SessionRepository D, !Registered D, !SessionRepositoryLaws D}.
Variable c : ServerConfig.

(** The repository, the frames ever handed to the network, and the client. *)
Record sessions := mkSessions {
  ses_repo : D;
  ses_wire : list Envelope;
  ses_client : ClientProtocol
}.

(** A call of the server, another user of the repository, or a call of the
    client, which receives a WELCOME only if the server has sent it. *)
Inductive sessions_step : sessions → sessions → Prop :=
| ses_serve d d' wire cl call t out :
    traces (server_call c call) t out → kept d t d' →
    sessions_step (mkSessions d wire cl) (mkSessions d' (wire ++ handed t) cl)
| ses_other d d' wire cl : repo_other d d' → sessions_step (mkSessions d wire cl) (mkSessions d' wire cl)
| ses_use d wire cl op cl' r :
    client_step cl op = (cl', r) → op_typed op →
    (∀ g f now, op = OpHandleIncoming g f now → e_Type f = FrameWelcome → f ∈ wire) →
    sessions_step (mkSessions d wire cl) (mkSessions d wire cl').

Inductive sessions_run : sessions → sessions → Prop :=
| sessions_done s : sessions_run s s
| sessions_next s s1 s2 : sessions_step s s1 → sessions_run s1 s2 → sessions_run s s2.

(** A WELCOME of a new Session announces one of the registry. *)
Definition backed_by (R : registry) (f : Envelope) : Prop :=
  ∃ known, backed c known f ∧ Forall (fun state => R (ss_SessionID state) = Some state) known.

Record agrees (s : sessions) (R : registry) : Prop := {
  ag_records : records (ses_repo s) R;
  ag_inv : client_inv (ses_client s);
  ag_strict : cc_StrictValidation (c_config (ses_client s)) = sv_StrictValidation c;
  ag_wire : Forall (backed_by R) (ses_wire s);
  ag_session : c_sessionID (ses_client s) ≠ "" →
    ∃ state, R (c_sessionID (ses_client s)) = Some state ∧ ss_Capabilities state = c_capabilities (ses_client s)
}.

Lemma backed_by_keeps R R' f : keeps R R' → backed_by R f → backed_by R' f.
Proof.
  intros Hk (known & Hb & Hall). exists known. split; [done|]. eapply Forall_impl; [exact Hall|]. intros state. apply Hk.
Qed.

Lemma agrees_keeps d wire wire' cl d' R R' :
  agrees (mkSessions d wire cl) R → records d' R' → keeps R R' → Forall (backed_by R') wire' →
  agrees (mkSessions d' (wire ++ wire') cl) R'.
Proof.
  intros [Hr Hi Hst Hw Hs] HR' Hk Hw'. constructor; cbn in *; try done.
  - apply Forall_app. split; [|done]. eapply Forall_impl; [exact Hw|]. intros f. by apply backed_by_keeps.
  - intros Hne. destruct (Hs Hne) as (state & HR & Hc). exists state. split; [by apply Hk|done].
Qed.

Lemma NewSessionCapabilities_any caps l1 l2 a b :
  NewSessionCapabilities caps l1 = Ok a → NewSessionCapabilities caps l2 = Ok b → a = b.
Proof. unfold NewSessionCapabilities. intros H1 H2. inv_ok. congruence. Qed.

Context (reg : CapabilityRegistry).
Hypothesis Hreg : registry_ok reg.
Hypothesis Hcfg : sv_Capabilities c = Some reg.

Lemma sessions_step_agrees s s' R : sessions_step s s' → agrees s R → ∃ R', agrees s' R'.
Proof.
  intros Hstep Ha. destruct Hstep as [d d' wire cl call t out Ht Hk|d d' wire cl Ho|d wire cl op cl' r Hop Hty Hin].
  - destruct (kept_registry _ _ _ _ Hk (ag_records _ _ Ha)) as (R' & HR' & Hx & Hop & _). exists R'.
    eapply agrees_keeps; [exact Ha|done|done|]. eapply Forall_impl; [by eapply server_call_backed|]. intros f Hf. by eexists.
  - destruct (repo_other_keeps _ _ _ (ag_records _ _ Ha) Ho) as (R' & HR' & Hx). exists R'.
    rewrite <- (app_nil_r wire). eapply agrees_keeps; [exact Ha|done|done|constructor].
  - exists R. destruct Ha as [Hr Hi Hst Hw Hs]. cbn in *. destruct (client_step_ok cl op Hi Hty) as [Hi' Hrel].
    pose proof (step_session cl op) as Hses. rewrite Hop in *. cbn in Hi', Hrel, Hses.
    constructor; cbn; try done; [by rewrite (rel_config _ _ _ Hrel)|]. intros Hne.
    destruct Hses as [[Heq|?]|(g & f & now & p & -> & Hft & Hdec & Hm & Hsid & Hcaps)]; [|done|].
    + destruct (rel_session _ _ _ Hrel) as [He|[?|[_ Hc]]]; [|done|by rewrite Heq, Hc in *; auto].
      unfold abandoned in He. congruence.
    + rewrite Forall_forall in Hw. destruct (Hw f (Hin _ _ _ eq_refl Hft)) as (known & Hb & Hall).
      rewrite Hst in Hdec. specialize (Hb Hft p Hdec Hm). apply Exists_exists in Hb as (state & Hin' & Hid & Hcap).
      rewrite Forall_forall in Hall. exists state. rewrite Hsid, <- Hid. split; [by apply Hall|].
      by eapply NewSessionCapabilities_any.
Qed.

Lemma sessions_run_agrees s s' R : sessions_run s s' → agrees s R → ∃ R', agrees s' R'.
Proof.
  intros Hrun. revert R. induction Hrun as [s|s s1 s2 Hs _ IH]; intros R Ha; [by exists R|].
  destruct (sessions_step_agrees _ _ _ Hs Ha) as [R1 H1]. by eapply IH.
Qed.

Lemma new_agrees config cl (d : D) R :
  config_typed config → NewClientProtocol config = Ok cl →
  cc_StrictValidation config = sv_StrictValidation c → records d R → agrees (mkSessions d [] cl) R.
Proof.
  intros Ht Hn Hst HR. pose proof (new_inv _ _ Ht Hn) as Hinv. unfold NewClientProtocol in Hn. inv_ok.
  constructor; cbn; done.
Qed.
End system.

(** ** The property *)

(** C9. Both ends agree on the capabilities, for as long as the client has a
    Session.  Take any session repository that keeps its contract, a server
    over it with a registry built by [NewCapabilityRegistry], and a new
    client, and let them act in any order: handshakes of any clients,
    disconnections, resumes and abandoned Sessions, other users of the
    repository, collaborators failing or panicking, and a network that loses,
    repeats and reorders what the server sends.  Then in any later server
    call, what the server looks up for the Session of the client has exactly
    the capabilities the client holds, so every capability check of the server
    for this Session has the outcome the client predicts. *)
Theorem capabilities_agree {ST : StdText} {D : Type} `{!SessionRepository D, !Registered D, !SessionRepositoryLaws D}
    c specs limits reg config cl (d : D) R s call t out d' sid state :
  NewCapabilityRegistry specs limits = Ok reg → sv_Capabilities c = Some reg →
  config_typed config → NewClientProtocol config = Ok cl → cc_StrictValidation config = sv_StrictValidation c →
  records d R → sessions_run c (mkSessions d [] cl) s →
  traces (server_call c call) t out → kept (ses_repo s) t d' →
  sid ≠ "" → c_sessionID (ses_client s) = sid → (sid, state) ∈ looked_up t →
  ss_Capabilities state = c_capabilities (ses_client s).
Proof.
  intros Hreg Hcfg Hty Hnew Hst HR Hrun Ht Hk Hne Hsid Hl. pose proof (NewCapabilityRegistry_ok _ _ _ Hreg) as Hok.
  destruct (sessions_run_agrees c reg Hok Hcfg _ _ _ Hrun (new_agrees _ _ _ _ _ Hty Hnew Hst HR)) as [R1 [Hr _ _ _ Hs]].
  destruct (kept_registry _ _ _ _ Hk Hr) as (R2 & _ & Hkeep & _ & Hlu). subst sid.
  destruct (Hs Hne) as (st & Hst1 & <-). rewrite Forall_forall in Hlu. pose proof (Hlu _ Hl) as Hlu'. cbn in Hlu'.
  apply Hkeep in Hst1. congruence.
Qed.

(** ** The server over the memory repository *)

Section memory.
Context {ST : StdText}.

Lemma memory_kept {A} (p : prog A) m m' t a :
  exec memory_world p m = Some (m', t, a) → kept (mm_sessions m) t (mm_sessions m').
Proof.
  revert m t. induction p as [b|X e k IH]; intros m t; cbn; [intros [= <- <- _]; constructor|].
  destruct (memory_world X e m) as [[m1 x]|] eqn:Hw; [|done]. cbn.
  destruct (exec memory_world (k x) m1) as [[[m2 t'] a']|] eqn:Hx; [|done]. cbn. intros [= <- <- <-].
  specialize (IH x m1 t' Hx).
  assert (session_effect e = false → mm_sessions m1 = mm_sessions m → kept (mm_sessions m) (Ev e x :: t') (mm_sessions m2)) as Hskip.
  { intros Hs <-. by apply kept_skip. }
  destruct e; cbn in Hw; unfold next_id in Hw; repeat case_match; simplify_eq; try (by apply Hskip).
  - match goal with H : Session_Create _ _ = _ |- _ => rename H into Ha end.
    eapply kept_create; [|exact IH]. cbn. by rewrite Ha.
  - by constructor.
Qed.

Lemma memory_call_kept c call m m' out :
  run_memory (server_call c call) m = (m', Some out) →
  traces (server_call c call) (memory_trace (server_call c call) m) out
  ∧ kept (mm_sessions m) (memory_trace (server_call c call) m) (mm_sessions m').
Proof.
  intros Hr. split; [apply memory_trace_traces; by rewrite Hr|]. unfold run_memory, memory_trace in *.
  destruct (exec memory_world (server_call c call) m) as [[[m1 t] o]|] eqn:E; [|done]. injection Hr as <- _.
  by eapply memory_kept.
Qed.

Lemma sessions_use_all {D : Type} `{!SessionRepository D, !Registered D} c (d : D) wire cl ops :
  Forall op_typed ops →
  forallb (fun op => match op with OpHandleIncoming _ f _ => (e_Type f != FrameWelcome) || bool_decide (f ∈ wire) | _ => true end)
    ops = true →
  sessions_run c (mkSessions d wire cl) (mkSessions d wire (foldl (fun cl op => (client_step cl op).1) cl ops)).
Proof.
  revert cl. induction ops as [|op ops IH]; intros cl Hty Hok; [constructor|].
  apply Forall_cons in Hty as [Ht Hty]. cbn [forallb] in Hok. apply andb_true_iff in Hok as [Ho Hok]. cbn [foldl].
  eapply sessions_next; [|by apply IH]. destruct (client_step cl op) as [cl' r] eqn:Hs. cbn [fst].
  eapply ses_use; [exact Hs|exact Ht|]. intros g f now -> Hev.
  rewrite Hev, bool_decide_true in Ho by done. cbn in Ho. by bools.
Qed.
End memory.

(** The handshake of a client, and its PING under the new Session later. *)
Section demo.
#[local] Existing Instance demo_text.

Definition demo_agree_config : ClientConfig :=
  mkClientConfig DefaultLimits [mkOffer CapabilityStateSync [1] true]
    (cc_HeartbeatTimeout DefaultClientConfig) (cc_DisconnectGrace DefaultClientConfig) true 0 0 0 0 0.
Definition demo_agree_new : ClientProtocol :=
  match NewClientProtocol demo_agree_config with Ok c => c | Err _ => demo_client end.
Definition demo_agree_hello : ServerCall := CallProcess demo_start_frame.
Definition demo_agree_wire : list Envelope := handed (memory_trace (server_call demo_server demo_agree_hello) demo_empty).
Definition demo_agree_uses : list ClientOp :=
  [OpBeginConnect; OpTransportConnected 1; OpStartSession 1 "demo";
   OpHandleIncoming 1 (default zeroEnvelope (head demo_agree_wire)) 9].
Definition demo_agree_memory : memory := (run_memory (server_call demo_server demo_agree_hello) demo_empty).1.
Definition demo_agree_client : ClientProtocol := foldl (fun cl op => (client_step cl op).1) demo_agree_new demo_agree_uses.
Definition demo_agree_publish : ServerCall := CallPublishEvent "s9" "e1" "t" (js "{'n':1}").
Definition demo_agree_trace : list event := memory_trace (server_call demo_server demo_agree_publish) demo_agree_memory.

Lemma demo_agree_run :
  sessions_run demo_server (mkSessions (mm_sessions demo_empty) [] demo_agree_new)
    (mkSessions (mm_sessions demo_agree_memory) demo_agree_wire demo_agree_client).
Proof.
  eapply sessions_next with (s1 := mkSessions (mm_sessions demo_agree_memory) demo_agree_wire demo_agree_new).
  - unfold demo_agree_memory. destruct (run_memory (server_call demo_server demo_agree_hello) demo_empty) as [m [out|]] eqn:E.
    + destruct (memory_call_kept _ _ _ _ _ E) as [Ht Hk]. exact (ses_serve _ _ _ [] _ _ _ _ Ht Hk).
    + exfalso. revert E. vm_compute. discriminate.
  - apply sessions_use_all; [|vm_compute; reflexivity]. repeat (constructor; [exact I|]). constructor; [|constructor].
    vm_compute. split; discriminate.
Qed.

Lemma demo_agree_session : c_sessionID demo_agree_client = "s9".
Proof. vm_compute. reflexivity. Qed.

Lemma demo_agree_lookup : map fst (looked_up demo_agree_trace) = ["s9"].
Proof. vm_compute. reflexivity. Qed.

Lemma capabilities_agree_witness :
  ∃ state, looked_up demo_agree_trace = [("s9", state)] ∧ ss_Capabilities state = c_capabilities demo_agree_client.
Proof.
  pose proof demo_agree_lookup as Hl.
  destruct (looked_up demo_agree_trace) as [|[sid state] [|? ?]] eqn:E; [discriminate Hl| |discriminate Hl].
  injection Hl as ->. exists state. split; [reflexivity|].
  destruct (run_memory (server_call demo_server demo_agree_publish) demo_agree_memory) as [m [out|]] eqn:Em;
    [|exfalso; revert Em; vm_compute; discriminate].
  destruct (memory_call_kept _ _ _ _ _ Em) as [Ht Hk].
  refine (capabilities_agree demo_server [mkSpec CapabilityStateSync [CapabilityStateSyncVersion]] DefaultLimits
           demo_server_registry demo_agree_config demo_agree_new (mm_sessions demo_empty) (fun sid => mm_sessions demo_empty !! sid)
           (mkSessions (mm_sessions demo_agree_memory) demo_agree_wire demo_agree_client)
           demo_agree_publish demo_agree_trace out (mm_sessions m) "s9" state _ _ _ _ _ _ demo_agree_run Ht Hk _ demo_agree_session _).
  - vm_compute. reflexivity.
  - vm_compute. reflexivity.
  - vm_compute. repeat split; discriminate.
  - vm_compute. reflexivity.
  - vm_compute. reflexivity.
  - apply memory_records.
  - discriminate.
  - rewrite E. constructor.
Defined.
End demo.
