(* ===== verification/Replicas.v ===== *)
(** * The State caches are replicas of the store

    The composition of the parts that carry State: the application that
    writes a State store, the server that reads it and publishes updates, a
    network that loses, repeats and reorders frames, and any number of
    clients.  What a client caches was committed to the store for that very
    identity, up to the form of its data (the encoder compacts it, StateWire);
    two caches never differ at one version; and a resume with State brings a
    cache up to date. *)

From Stdlib Require Import Ascii String.
From S2P Require Import Prelude SortedLists Utf8 Json JsonText JsonPrint Types Codec Capability State StateProps StateNumbers StateData StateWire Validate CodecProps Outbound Store Client SortStrings Sha256 Program StateStore Server ServerStream MemoryServer ServerRules StreamProps ServerWire ClientInv ClientSteps ClientProps EndToEnd StateResume.
Open Scope string_scope.
Open Scope list_scope.
Open Scope go_scope.
Open Scope Z_scope.

(** ** The State objects of a frame *)

Section carried.
Context {ST : StdText}.

(** What a client reads from the frame. *)
Definition carried (strict : bool) (f : Envelope) : list StateObject :=
  if e_Type f == FrameStateSnapshot then
    match decodePayload (A:=StateSnapshotPayload) (e_Payload f) strict with Ok p => ss_States p | Err _ => [] end
  else if e_Type f == FrameStateUpdate then
    match decodePayload (A:=StateUpdatePayload) (e_Payload f) strict with Ok p => [su_State p] | Err _ => [] end
  else [].

Lemma decode_update limits strict object :
  ValidateStateObject object limits = Ok tt → shallow object →
  decodePayload (mustPayload (mkStateUpdate object)) strict = Ok (mkStateUpdate (wire_form object)).
Proof.
  intros Hv Hs. destruct (wire_object_ok object limits Hv Hs) as ([Hu Ho] & Hd & Hm).
  replace (mustPayload (mkStateUpdate object)) with (mustPayload (mkStateUpdate (wire_form object))).
  2:{ unfold mustPayload, Marshal. cbn [layout StateUpdatePayload_wire su_State]. rewrite !json_Marshal_obj. cbn [mapM].
      by rewrite Hm. }
  apply decode_printed; [done|]. cbn [layout StateUpdatePayload_wire su_State].
  assert (out_ok (maxNestingDepth - 1) (layout (wire_form object)) = true) as H by (by eapply out_ok_mono).
  generalize dependent (layout (wire_form object)). intros l _ _ H.
  change (out_ok (maxNestingDepth - 1) l && true = true). by rewrite H.
Qed.

Lemma carried_plain strict f : plain_type (e_Type f) = true → carried strict f = [].
Proof.
  intros Hp. unfold carried. by rewrite !bool_decide_false by (by eapply plain_type_ne).
Qed.

Variable c : ServerConfig.

Lemma carried_snapshot strict objects f :
  snapshot_of c objects f → Forall shallow objects → carried strict f = map wire_form objects.
Proof.
  intros (_ & Ht & Hm & Hv) Hp. unfold carried. rewrite Ht, bool_decide_true by done.
  rewrite (decode_snapshot_wire (sv_Limits c) strict objects); [done|done|].
  apply Forall_forall. intros o Ho. rewrite Forall_forall in Hv, Hp. auto.
Qed.

Lemma carried_update strict object f : update_of c object f → shallow object → carried strict f = [wire_form object].
Proof.
  intros (_ & Ht & Hm & Hv) Hp. unfold carried.
  by rewrite Ht, bool_decide_false, bool_decide_true, Hm, (decode_update (sv_Limits c) strict object) by done.
Qed.
End carried.

(** ** The policy: a STATE frame carries objects the server got *)

Section policy.
Context {ST : StdText} (c : ServerConfig).

Definition learn_states (X : Type) (e : eff X) : X → list StateObject → list StateObject :=
  match e in eff X return X → list StateObject → list StateObject with
  | EStateGet _ _ => fun x known => match x with CRet (Some o) => known ++ [o] | _ => known end
  | ESnapshot _ _ => fun x known => match x with CRet states => known ++ states | _ => known end
  | _ => fun _ known => known
  end.

(** The frame carries them in the form the encoder gives them. *)
Definition truthful (known : list StateObject) (f : Envelope) : Prop :=
  Forall shallow known → ∀ strict, Forall (fun o => o ∈ map wire_form known) (carried strict f).

#[local] Instance shallow_dec o : Decision (shallow o).
Proof. unfold shallow, is_u64. apply _. Defined.
#[local] Instance truthful_dec known f : Decision (truthful known f).
Proof.
  unfold truthful. destruct (decide (Forall shallow known)) as [Hp|Hp]; [|left; by intros ?].
  destruct (decide (Forall (fun o => o ∈ map wire_form known) (carried true f)
                    ∧ Forall (fun o => o ∈ map wire_form known) (carried false f))) as [[H1 H2]|Hn].
  - left. by intros _ [].
  - right. intros H. apply Hn. by split; apply H.
Defined.

Lemma wire_forms_in (known objects : list StateObject) : Forall (fun o => o ∈ known) objects → Forall (fun o => o ∈ map wire_form known) (map wire_form objects).
Proof. intros H. apply Forall_map. eapply Forall_impl; [exact H|]. intros o Ho. cbn. by apply list_elem_of_fmap_2. Qed.

Definition states_policy : WirePolicy c (list StateObject).
Proof.
  refine {| below := subseteq; learn := learn_states; may_go k f := bool_decide (truthful k f); committed k o := o ∈ k |};
    try setoid_rewrite bool_decide_eq_true.
  - intros X e x k. destruct e; cbn; try done; destruct x as [[]| |]; set_solver.
  - done.
  - intros k k' f Hk Ht Hp strict. assert (Forall shallow k) as Hpk.
    { rewrite Forall_forall in *. intros o Ho. by apply Hp, Hk. }
    specialize (Ht Hpk strict). eapply Forall_impl; [exact Ht|]. intros o (x & -> & Hx)%list_elem_of_fmap.
    apply list_elem_of_fmap_2. by apply Hk.
  - intros k f [_ Hp] _ strict. rewrite carried_plain by done. constructor.
  - intros k sid after through limits events f _ _ Ht _ strict. unfold carried. rewrite Ht. constructor.
  - intros k sid eid ety content ts f _ Ht _ strict. unfold carried. rewrite Ht. constructor.
  - intros k frame hello accepted sid expires t1 t2 _ _ _ _ strict. constructor.
  - intros k frame resume ts mark _ _ _ _ strict. constructor.
  - intros k k' o Hk. apply Hk.
  - intros k ns id o. cbn. set_solver.
  - intros k ns limits states o Ho. cbn. set_solver.
  - intros k objects f Hf Hk Hp strict. rewrite (carried_snapshot c strict objects); [by apply wire_forms_in|done|].
    rewrite Forall_forall in *. intros o Ho. by apply Hp, Hk.
  - intros k object f Hf Hk Hp strict. rewrite Forall_forall in Hp.
    rewrite (carried_update c strict object); [|done|by apply Hp]. apply (wire_forms_in k [object]). by constructor.
Defined.

(** The objects the State stores answered in a run, and the one a call
    publishes. *)
Definition answers (t : list event) : list StateObject :=
  concat (map (fun ev => match ev with
                         | Ev (EStateGet _ _) (CRet (Some o)) => [o]
                         | Ev (ESnapshot _ _) (CRet states) => states
                         | _ => []
                         end) t).
Definition published (call : ServerCall) : list StateObject :=
  match call with CallPublishStateUpdate _ _ object => [object] | _ => [] end.

Lemma learn_all_states t k : learn_all (WirePolicy0:=states_policy) c t k = k ++ answers t.
Proof.
  revert k. induction t as [|[X e x] t IH]; intros k; cbn [learn_all]; [by rewrite app_nil_r|].
  rewrite IH. unfold answers. cbn [map concat]. destruct e; cbn; try done; destruct x as [[]| |]; cbn; by rewrite <- ?app_assoc.
Qed.

Lemma server_call_truthful call t out :
  traces (server_call c call) t out → Forall (truthful (published call ++ answers t)) (handed t).
Proof.
  intros Ht. assert (call_committed (WirePolicy0:=states_policy) c (published call) call) as Hc.
  { destruct call; cbn; [done..|]. by apply list_elem_of_singleton. }
  pose proof (server_call_respects (WirePolicy0:=states_policy) c call t out _ Ht Hc) as Hw.
  rewrite learn_all_states in Hw. eapply Forall_impl; [exact Hw|]. intros f Hf.
  change (bool_decide (truthful (published call ++ answers t) f) = true) in Hf. by apply bool_decide_eq_true in Hf.
Qed.
End policy.

(** ** Where a client's cached objects come from *)

Section cache.
Context {ST : StdText}.

(** The cache of [c'] has objects of [c], and valid ones of [l]. *)
Definition cached_from (l : list StateObject) (c c' : ClientProtocol) : Prop :=
  ∀ id o, c_stateObjects c' !! id = Some o →
  c_stateObjects c !! id = Some o ∨ o ∈ l ∧ ValidateStateObject o (cc_Limits (c_config c)) = Ok tt.

Lemma cached_same l c c' : c_stateObjects c' = c_stateObjects c → cached_from l c c'.
Proof. intros E id o. rewrite E. by left. Qed.

Lemma cached_dropped l c c' : c_stateObjects c' = ∅ → cached_from l c c'.
Proof. intros E id o. by rewrite E, lookup_empty. Qed.

Ltac cached := exits; try first [by apply cached_same | by apply cached_dropped].

Lemma apply_loop_from cfg m b objs m' b' acts :
  apply_loop cfg m b objs = Ok (m', b', acts) →
  ∀ id o, m' !! id = Some o → m !! id = Some o ∨ o ∈ objs ∧ ValidateStateObject o (cc_Limits cfg) = Ok tt.
Proof.
  revert m b m' b' acts. induction objs as [|x objs IH]; intros m b m' b' acts; cbn; [intros [= <- <- <-]; by left|].
  destruct (ApplyStateObject _ _ _) as [[committed result] [err|]] eqn:Ha; [by destruct (_ || _)|].
  apply ApplyStateObject_ok in Ha as [Hv [(-> & -> & _)|(-> & _)]].
  - rewrite bool_decide_false by done. intros Hok. inv_ok. destruct x2 as [[m1 b1] acts1]. injection Hok as <- <- <-.
    intros id o Ho. match goal with H : apply_loop _ _ _ objs = _ |- _ => destruct (IH _ _ _ _ _ H id o Ho) as [Hi|[Hi ?]] end;
      [|right; set_solver].
    rewrite lookup_insert in Hi. case_decide; [injection Hi as <-; right; set_solver|by left].
  - rewrite bool_decide_true by done. intros Hok id o Ho. destruct (IH _ _ _ _ _ Hok id o Ho) as [?|[? ?]]; [by left|right; set_solver].
Qed.

Lemma cached_apply c objs : cached_from objs c (applyStateObjectsLocked c objs).1.
Proof.
  unfold applyStateObjectsLocked. exits; [|by apply cached_same]. intros id o Ho. by eapply apply_loop_from in Ho.
Qed.

Lemma cached_failure l c c' err : cached_from l c c' → cached_from l c (handleIncomingFailureLocked c' err).1.
Proof.
  intros Hc. unfold handleIncomingFailureLocked, stopStateResumeLocked, stopReplayLocked. exits; exact Hc.
Qed.

Lemma cached_event l c frame now : cached_from l c (handleEventLocked c frame now).1.
Proof.
  unfold handleEventLocked, handleReplayEvent, stopReplayLocked. cached.
  match goal with H : deliverReplay ?c1 = (?c2, _) |- _ => pose proof (deliverReplay_same c1) as Hd; rewrite H in Hd; cbn [fst] in Hd end.
  apply cached_same. by rewrite Hd.
Qed.

Lemma cached_snapshot c frame :
  e_Type frame = FrameStateSnapshot →
  cached_from (carried (cc_StrictValidation (c_config c)) frame) c (handleStateSnapshotLocked c frame).1.
Proof.
  intros Ht. unfold carried. rewrite Ht, bool_decide_true by done.
  unfold handleStateSnapshotLocked, handleResumeStateSnapshotLocked, stopStateResumeLocked. cached;
    match goal with H : applyStateObjectsLocked ?c0 ?o = _ |- _ =>
      pose proof (cached_apply c0 o) as Ha; rewrite H in Ha end; try exact Ha.
  match goal with H : deliverReplay ?c1 = (?c2, _) |- _ => pose proof (deliverReplay_same c1) as Hs; rewrite H in Hs; cbn [fst] in Hs end.
  rewrite Hs. exact Ha.
Qed.

Lemma cached_update c frame :
  e_Type frame = FrameStateUpdate →
  cached_from (carried (cc_StrictValidation (c_config c)) frame) c (handleStateUpdateLocked c frame).1.
Proof.
  intros Ht. unfold carried. rewrite Ht, bool_decide_false, bool_decide_true by done.
  unfold handleStateUpdateLocked. cached. apply cached_apply.
Qed.

Lemma cached_error l c frame : cached_from l c (handleErrorLocked c frame).1.
Proof.
  unfold handleErrorLocked. cached. all: repeat case_match; first [by apply cached_same | by apply cached_dropped].
Qed.

Lemma cached_incoming c g frame now :
  cached_from (carried (cc_StrictValidation (c_config c)) frame) c (HandleIncoming c g frame now).1.
Proof.
  unfold HandleIncoming. destruct (negb _); [by apply cached_same|].
  destruct (ValidateFrame _ _ _); [|case_match; [by apply cached_same|by apply cached_failure, cached_same]]. cbv zeta.
  destruct (_ && _ && _); [by apply cached_failure, cached_same|]. destruct (_ && _ && _); [by apply cached_failure, cached_same|].
  assert (∀ l out, cached_from l c out.1 → cached_from l c (let '(c', r) := out in
    match r with Err err => handleIncomingFailureLocked c' err | Ok actions => (c', Ok actions) end).1) as Hthen.
  { intros l [c' [acts|err]] Hn; [done|]. by apply cached_failure. }
  apply Hthen. repeat case_bool_decide; first
    [ apply cached_event | by apply cached_snapshot | by apply cached_update | apply cached_error
    | unfold handleWelcomeLocked, handlePongLocked, handleAckLocked, stopReplayLocked; cached ]; try (repeat case_match; by apply cached_same).
Qed.

(** The objects the call brings. *)
Definition incoming_states (c : ClientProtocol) (op : ClientOp) : list StateObject :=
  match op with OpHandleIncoming _ f _ => carried (cc_StrictValidation (c_config c)) f | _ => [] end.

Lemma step_cached c op : cached_from (incoming_states c op) c (client_step c op).1.
Proof.
  destruct op; cbn [client_step incoming_states]; try (
    unfold BeginConnect, TransportConnected, StartSession, Resume, ResumeWithState, startResumeLocked, Disconnect, QueryState,
      EnqueueSend, SendPing, CheckHeartbeat; cbn [fst]; cached; repeat case_match; first [by apply cached_same | by apply cached_dropped]).
  apply cached_incoming.
Qed.
End cache.

(** ** The State store behind the server *)

Section consulted.
Context {ST : StdText} {D : Type} `{!StateStore D, !StateSnapshotProvider D, !Archived D, !StateStoreLaws D}.

Definition state_effect {X} (e : eff X) : bool :=
  match e with EStateGet _ _ | ESnapshot _ _ => true | _ => false end.

(** In this run the reads of State got answers the store may give; the
    application writes at any time, objects of any form whose data is not
    nested beyond what the scanner reads inside a frame ([shallow]), and gets
    the last list of objects back. *)
Inductive consulted : D → list event → D → list StateObject → Prop :=
| con_done d : consulted d [] d []
| con_apply d incoming d1 r t d' got :
    states_Apply d incoming d1 r → shallow incoming → consulted d1 t d' got →
    consulted d t d' ((match r with (committed, _, None) => [committed] | _ => [] end) ++ got)
| con_get d ns id x t d' got :
    states_Get d ns id x → consulted d t d' got → consulted d (Ev (EStateGet ns id) x :: t) d' got
| con_snapshot d nss limits x t d' got :
    states_Snapshot d nss limits x → consulted d t d' got → consulted d (Ev (ESnapshot nss limits) x :: t) d' got
| con_skip {X} (e : eff X) x d t d' got :
    state_effect e = false → consulted d t d' got → consulted d (Ev e x :: t) d' got.

Definition all_shallow (A : archive) : Prop := ∀ o, archived A o → shallow o.

Lemma consulted_archive d t d' got A :
  consulted d t d' got → stands d A → all_shallow A →
  ∃ A', stands d' A' ∧ grown A A' ∧ all_shallow A' ∧ Forall (archived A') got ∧ Forall (archived A') (answers t).
Proof.
  intros Hc. revert A. induction Hc as [d|d incoming d1 [[committed result] err] t d' got Ha Hin _ IH|d ns id x t d' got Hg _ IH
    |d nss limits x t d' got Hs _ IH|X e x d t d' got He _ IH]; intros A HA Hp.
  - exists A. split_and!; [done|reflexivity|done|constructor..].
  - destruct (apply_archive _ _ _ _ _ _ _ HA Ha) as (A1 & HA1 & Hg1 & Honly & Hcom).
    destruct (IH A1 HA1) as (A' & HA' & Hg' & Hp' & Hgot & Hans).
    { intros o [Ho| ->]%Honly; [by apply Hp|done]. }
    exists A'. split_and!; [done|by etrans|done| |done]. apply Forall_app. split; [|done].
    destruct err; constructor; [|constructor]. eapply grown_archived; [exact Hg'|by apply Hcom].
  - destruct (IH A HA Hp) as (A' & HA' & Hg' & Hp' & Hgot & Hans). exists A'. split_and!; [done..|].
    unfold answers. cbn. destruct x as [[o|]|e|msg]; [|exact Hans..]. constructor; [|exact Hans].
    apply (get_current _ _ _ _ _ HA) in Hg. symmetry in Hg. apply current_archived in Hg as [Ho _]; [|by eapply stands_ok].
    by eapply grown_archived.
  - destruct (IH A HA Hp) as (A' & HA' & Hg' & Hp' & Hgot & Hans). exists A'. split_and!; [done..|].
    unfold answers. cbn. destruct x as [states|e|msg]; [|exact Hans..]. apply Forall_app. split; [|exact Hans].
    apply Forall_forall. intros o Ho. apply (snapshot_current _ _ _ _ _ HA Hs) in Ho as [_ Ho].
    apply current_archived in Ho as [Ho _]; [|by eapply stands_ok]. by eapply grown_archived.
  - destruct (IH A HA Hp) as (A' & HA' & Hg' & Hp' & Hgot & Hans). exists A'. split_and!; [done..|].
    unfold answers. cbn. destruct e; try done; exact Hans.
Qed.
End consulted.

(** ** The archive on the wire *)

Definition wired (A : archive) : archive := fun id => map wire_form (A id).

Lemma wired_archived A o : archived A o → archived (wired A) (wire_form o).
Proof. intros Ho. unfold archived, wired. rewrite wire_form_Identity. by apply list_elem_of_fmap_2. Qed.

Lemma archived_wired A o : archived (wired A) o → ∃ x, x ∈ A (Identity o) ∧ o = wire_form x.
Proof. intros (x & -> & Hx)%list_elem_of_fmap. by exists x. Qed.

Lemma wired_grown A A' : grown A A' → grown (wired A) (wired A').
Proof. intros Hg id. destruct (Hg id) as [l E]. exists (map wire_form l). unfold wired. by rewrite E, map_app. Qed.

Lemma wired_current A id : current (wired A) id = wire_form <$> current A id.
Proof. unfold current, wired. apply fmap_last. Qed.

Lemma wired_ok A : archive_ok A → archive_ok (wired A).
Proof.
  intros HA id. destruct (HA id) as [Hall Hs]. unfold wired. split; [by apply Forall_map|].
  clear Hall. induction Hs as [|o l _ IH Hall]; constructor; [done|]. apply Forall_map. exact Hall.
Qed.

(** The cached form of an object denotes what was committed. *)
Lemma wire_form_denotes o : shallow o →
  ∃ v v', json_value (so_Data o) = Some v ∧ json_value (so_Data (wire_form o)) = Some v' ∧ denote v' = denote v.
Proof.
  intros [_ Hd]. apply (data_within_mono _ maxNestingDepth) in Hd; [|lia].
  assert (∃ v, json_value (so_Data o) = Some v) as [v Hv].
  { unfold data_within in Hd. unfold json_value, json_parse. destruct (parse_value _ _ _) as [[v r]|]; [|done]. bools. cbn.
    rewrite Hd. eauto. }
  destruct (compact_denotes _ _ Hv) as (v' & Hv' & E). by exists v, v'.
Qed.

(** ** The system *)

Section system.
Context {ST : StdText} {D : Type} `{!StateStore D, !StateSnapshotProvider D, !Archived D, !StateStoreLaws D}.
Variable c : ServerConfig.

(** The store, the objects the application got from it, the frames ever
    handed to the network, and the clients. *)
Record replicas := mkReplicas {
  rs_store : D;
  rs_known : list StateObject;
  rs_wire : list Envelope;
  rs_clients : list ClientProtocol
}.

(** A call of the server, which publishes only objects the application has
    committed or read; the application alone; or a call of a client, which
    receives a STATE frame only if the server has sent it. *)
Inductive replicas_step : replicas → replicas → Prop :=
| rs_serve d d' known got wire cls call t out :
    traces (server_call c call) t out → consulted d t d' got → published call ⊆ known →
    replicas_step (mkReplicas d known wire cls) (mkReplicas d' (known ++ got) (wire ++ handed t) cls)
| rs_apply d d' known got wire cls :
    consulted d [] d' got → replicas_step (mkReplicas d known wire cls) (mkReplicas d' (known ++ got) wire cls)
| rs_read d known wire cls ns id o :
    states_Get d ns id (CRet (Some o)) →
    replicas_step (mkReplicas d known wire cls) (mkReplicas d (known ++ [o]) wire cls)
| rs_use d known wire cls i cl op cl' r :
    cls !! i = Some cl → client_step cl op = (cl', r) → op_typed op →
    (∀ g f now, op = OpHandleIncoming g f now →
       e_Type f = FrameStateSnapshot ∨ e_Type f = FrameStateUpdate → f ∈ wire) →
    replicas_step (mkReplicas d known wire cls) (mkReplicas d known wire (<[i := cl']> cls)).

Inductive replicas_run : replicas → replicas → Prop :=
| replicas_done s : replicas_run s s
| replicas_next s s1 s2 : replicas_step s s1 → replicas_run s1 s2 → replicas_run s s2.

(** A client whose cache is part of an archive. *)
Definition mirrors (A : archive) (cl : ClientProtocol) : Prop :=
  client_inv cl
  ∧ map_Forall (fun _ o => archived A o ∧ ValidateStateObject o (cc_Limits (c_config cl)) = Ok tt) (c_stateObjects cl).

Record mirrored (s : replicas) (A : archive) : Prop := {
  mi_stands : stands (rs_store s) A;
  mi_shallow : all_shallow A;
  mi_known : Forall (archived A) (rs_known s);
  mi_wire : Forall (fun f => ∀ strict, Forall (archived (wired A)) (carried strict f)) (rs_wire s);
  mi_clients : Forall (mirrors (wired A)) (rs_clients s)
}.

Lemma mirrors_grown A A' cl : grown A A' → mirrors A cl → mirrors A' cl.
Proof.
  intros Hg [Hi Hm]. split; [done|]. eapply map_Forall_impl; [exact Hm|]. intros id o [Ho Hv].
  split; [by eapply grown_archived|done].
Qed.

Lemma mirrored_grown d known wire cls A d' A' got wire' :
  mirrored (mkReplicas d known wire cls) A → stands d' A' → grown A A' → all_shallow A' →
  Forall (archived A') got → Forall (fun f => ∀ strict, Forall (archived (wired A')) (carried strict f)) wire' →
  mirrored (mkReplicas d' (known ++ got) (wire ++ wire') cls) A'.
Proof.
  intros [_ _ Hk Hw Hc] HA' Hg Hp Hgot Hw'. constructor; cbn in *; try done.
  - apply Forall_app. split; [|done]. eapply Forall_impl; [exact Hk|]. intros o. by apply grown_archived.
  - apply Forall_app. split; [|done]. eapply Forall_impl; [exact Hw|]. intros f Hf strict.
    eapply Forall_impl; [apply Hf|]. intros o. by apply grown_archived, wired_grown.
  - eapply Forall_impl; [exact Hc|]. intros cl. by apply mirrors_grown, wired_grown.
Qed.

Lemma use_mirrors A wire cl op cl' r :
  mirrors A cl → Forall (fun f => ∀ strict, Forall (archived A) (carried strict f)) wire →
  client_step cl op = (cl', r) → op_typed op →
  (∀ g f now, op = OpHandleIncoming g f now →
     e_Type f = FrameStateSnapshot ∨ e_Type f = FrameStateUpdate → f ∈ wire) →
  mirrors A cl'.
Proof.
  intros [Hi Hm] Hw Hop Hty Hin. destruct (client_step_ok cl op Hi Hty) as [Hi' Hrel].
  pose proof (step_cached cl op) as Hc. rewrite Hop in *. cbn in Hi', Hrel, Hc. split; [done|].
  rewrite (rel_config _ _ _ Hrel). intros id o [Ho|[Ho Hv]]%Hc; [by eapply Hm|]. split; [|done].
  destruct op; cbn in Ho; try by apply elem_of_nil in Ho.
  assert (e_Type frame = FrameStateSnapshot ∨ e_Type frame = FrameStateUpdate) as Hf.
  { unfold carried in Ho. repeat case_bool_decide; auto. by apply elem_of_nil in Ho. }
  rewrite Forall_forall in Hw. specialize (Hw frame (Hin _ _ _ eq_refl Hf) (cc_StrictValidation (c_config cl))).
  rewrite Forall_forall in Hw. by apply Hw.
Qed.

Lemma replicas_step_mirrored s s' A : replicas_step s s' → mirrored s A → ∃ A', mirrored s' A' ∧ grown A A'.
Proof.
  intros Hstep Hm. destruct Hstep as [d d' known got wire cls call t out Ht Hc Hpub|d d' known got wire cls Hc
    |d known wire cls ns id o Hg|d known wire cls i cl op cl' r Hi Hop Hty Hin].
  - destruct (consulted_archive _ _ _ _ _ Hc (mi_stands _ _ Hm) (mi_shallow _ _ Hm)) as (A' & HA' & Hg & Hp & Hgot & Hans).
    exists A'. split; [|done]. eapply mirrored_grown; [exact Hm|done..|].
    eapply Forall_impl; [by eapply server_call_truthful|]. intros f Hf strict.
    assert (Forall (archived A') (published call ++ answers t)) as Hall.
    { apply Forall_app. split; [|done]. apply Forall_forall. intros o Ho. apply Hpub in Ho.
      pose proof (mi_known _ _ Hm) as Hk. rewrite Forall_forall in Hk. eapply grown_archived; [exact Hg|]. by apply Hk. }
    rewrite Forall_forall in Hall. specialize (Hf ltac:(apply Forall_forall; intros o Ho; by apply Hp, Hall) strict).
    eapply Forall_impl; [exact Hf|]. intros o (x & -> & Hx)%list_elem_of_fmap. by apply wired_archived, Hall.
  - destruct (consulted_archive _ _ _ _ _ Hc (mi_stands _ _ Hm) (mi_shallow _ _ Hm)) as (A' & HA' & Hg & Hp & Hgot & _).
    exists A'. split; [|done]. rewrite <- (app_nil_r wire). eapply mirrored_grown; [exact Hm|done..|constructor].
  - exists A. split; [|reflexivity]. rewrite <- (app_nil_r wire).
    eapply mirrored_grown; [exact Hm|apply Hm|reflexivity|apply Hm| |constructor]. constructor; [|constructor].
    pose proof (get_current _ _ _ _ _ (mi_stands _ _ Hm) Hg) as Hcur. symmetry in Hcur.
    by apply current_archived in Hcur as [? _]; [|eapply stands_ok, mi_stands].
  - exists A. split; [|reflexivity]. destruct Hm as [HA Hp Hk Hw Hc]. constructor; cbn in *; try done.
    apply Forall_insert; [done|]. eapply use_mirrors; [|exact Hw|exact Hop|exact Hty|exact Hin].
    rewrite Forall_forall in Hc. apply Hc. by eapply list_elem_of_lookup_2.
Qed.

Lemma replicas_run_mirrored s s' A : replicas_run s s' → mirrored s A → ∃ A', mirrored s' A' ∧ grown A A'.
Proof.
  intros Hrun. revert A. induction Hrun as [s|s s1 s2 Hs _ IH]; intros A Hm; [by exists A|].
  destruct (replicas_step_mirrored _ _ _ Hs Hm) as (A1 & Hm1 & Hg1). destruct (IH _ Hm1) as (A2 & Hm2 & Hg2).
  exists A2. split; [done|by etrans].
Qed.

(** New clients, nothing sent yet. *)
Definition new_client (cl : ClientProtocol) : Prop := ∃ config, config_typed config ∧ NewClientProtocol config = Ok cl.

Lemma new_mirrored (d : D) A cls :
  stands d A → all_shallow A → Forall new_client cls → mirrored (mkReplicas d [] [] cls) A.
Proof.
  intros HA Hp Hn. constructor; cbn; try done. eapply Forall_impl; [exact Hn|]. intros cl (config & Ht & Hnew).
  split; [by eapply new_inv|]. unfold NewClientProtocol in Hnew. inv_ok. apply map_Forall_empty.
Qed.
End system.

(** ** Catching up *)

Section catch_up.
Context {ST : StdText} {D : Type} `{!StateStore D, !StateSnapshotProvider D, !Archived D, !StateStoreLaws D}.

(** The objects are all the current ones of the namespaces. *)
Definition current_of (A : archive) (nss : list string) (states : list StateObject) : Prop :=
  ∀ o, o ∈ states ↔ so_Namespace o ∈ nss ∧ current A (Identity o) = Some o.

Lemma wired_current_of A nss (states objects : list StateObject) :
  archive_ok A → current_of A nss states → objects ≡ₚ states → current_of (wired A) nss (map wire_form objects).
Proof.
  intros HA Hc Hperm o. rewrite wired_current. split.
  - intros (x & -> & Hx)%list_elem_of_fmap. rewrite Hperm in Hx. apply Hc in Hx as [Hns Hx]. rewrite wire_form_Identity, Hx. done.
  - intros [Hns (x & Hx & ->)%fmap_Some]. apply list_elem_of_fmap_2. rewrite Hperm. apply Hc.
    rewrite wire_form_Identity in Hx. done.
Qed.

(** The snapshot was taken at a moment of the call: the trace up to it led
    from [d] to [d1], where the store stood for [A1], and it is what was
    current then. *)
Definition taken_at (d : D) (t : list event) (d' : D) (nss : list string) (states : list StateObject) (A1 : archive) : Prop :=
  ∃ t1 t2 limits d1 got1 got2,
    t = t1 ++ Ev (ESnapshot nss limits) (CRet states) :: t2
    ∧ consulted d t1 d1 got1 ∧ stands d1 A1 ∧ states_Snapshot d1 nss limits (CRet states) ∧ consulted d1 t2 d' got2
    ∧ current_of A1 nss states.

Lemma taken_later (d d1 d' : D) t nss states A1 (ev : list event) got :
  (∀ t1 d2 g, consulted d1 t1 d2 g → consulted d (ev ++ t1) d2 (got ++ g)) →
  taken_at d1 t d' nss states A1 → taken_at d (ev ++ t) d' nss states A1.
Proof.
  intros Hstep (t1 & t2 & limits & d2 & got1 & got2 & -> & Hc1 & H). exists (ev ++ t1), t2, limits, d2, (got ++ got1), got2.
  split; [by rewrite app_assoc|]. split; [by apply Hstep|done].
Qed.

Lemma consulted_snapshot d t d' got A o o' nss states :
  consulted d t d' got → stands d A → all_shallow A →
  watch_all observer t o = Some o' → ob_provided o' = Some (nss, states) → ob_provided o ≠ Some (nss, states) →
  ∃ A1 A', grown A A1 ∧ grown A1 A' ∧ archive_ok A1 ∧ all_shallow A1 ∧ stands d' A' ∧ taken_at d t d' nss states A1.
Proof.
  intros Hc. revert A o. induction Hc as [d|d incoming d1 [[committed result] err] t d' got Ha Hin Hc IH|d ns id x t d' got Hg Hc IH
    |d nss' limits x t d' got Hs Hc IH|X e x d t d' got He Hc IH]; intros A o HA Hp Hw Hprov Hnot.
  - cbn in Hw. congruence.
  - destruct (apply_archive _ _ _ _ _ _ _ HA Ha) as (A1 & HA1 & Hg1 & Honly & _).
    destruct (IH A1 o HA1) as (A2 & A' & Hg2 & H); [intros x [Hx| ->]%Honly; [by apply Hp|done]|done..|].
    exists A2, A'. split; [by etrans|]. split_and!; try apply H.
    apply (taken_later d d1 d' t nss states A2 [] (match err with None => [committed] | _ => [] end)); [|apply H].
    intros t1 d2 g Hc1. exact (con_apply _ _ _ _ _ _ _ Ha Hin Hc1).
  - assert (∃ o1, watch_all observer t o1 = Some o' ∧ ob_provided o1 ≠ Some (nss, states)) as (o1 & Hw1 & Hn1)
      by (cbn in Hw; by destruct x as [[x|]|e|msg]; eexists).
    destruct (IH A o1 HA Hp Hw1 Hprov Hn1) as (A2 & A' & H). exists A2, A'. split_and!; try apply H.
    apply (taken_later d d d' t nss states A2 [Ev (EStateGet ns id) x] []); [|apply H]. intros t1 d2 g Hc1. by constructor.
  - assert (∀ o1, watch_all observer t o1 = Some o' → ob_provided o1 ≠ Some (nss, states) →
      ∃ A1 A', grown A A1 ∧ grown A1 A' ∧ archive_ok A1 ∧ all_shallow A1 ∧ stands d' A'
        ∧ taken_at d (Ev (ESnapshot nss' limits) x :: t) d' nss states A1) as Hlater.
    { intros o1 Hw1 Hn1. destruct (IH A o1 HA Hp Hw1 Hprov Hn1) as (A2 & A' & H). exists A2, A'. split_and!; try apply H.
      apply (taken_later d d d' t nss states A2 [Ev (ESnapshot nss' limits) x] []); [|apply H]. intros t1 d2 g Hc1. by constructor. }
    cbn in Hw. destruct x as [l|e|msg]; [|by apply (Hlater _ Hw)..].
    destruct (decide ((nss', l) = (nss, states))) as [[= -> ->]|Hother]; [|apply (Hlater _ Hw); cbn; congruence].
    destruct (consulted_archive _ _ _ _ _ Hc HA Hp) as (A' & HA' & Hg' & _). exists A, A'.
    split_and!; [reflexivity|done|by eapply stands_ok|done|done|]. exists [], t, limits, d, [], got.
    split_and!; [done|constructor|done|done|done|]. intros x. by eapply snapshot_current.
  - assert (∃ o1, watch_all observer t o1 = Some o' ∧ ob_provided o1 ≠ Some (nss, states)) as (o1 & Hw1 & Hn1).
    { cbn in Hw. destruct e; try done; cbn in Hw; repeat case_match; by eexists. }
    destruct (IH A o1 HA Hp Hw1 Hprov Hn1) as (A2 & A' & H). exists A2, A'. split_and!; try apply H.
    apply (taken_later d d d' t nss states A2 [Ev e x] []); [|apply H]. intros t1 d2 g Hc1. by constructor.
Qed.

(** What the merge makes of a current object. *)
Lemma ApplyStateObject_current cached inc limits :
  ValidateStateObject inc limits = Ok tt →
  (∀ cur, cached = Some cur →
     ValidateStateObject cur limits = Ok tt ∧ Identity cur = Identity inc ∧ (cur = inc ∨ newer cur inc)) →
  ApplyStateObject cached inc limits = (inc, Some StateApplyApplied, None)
  ∨ cached = Some inc ∧ ApplyStateObject cached inc limits = (inc, Some StateApplyDuplicate, None).
Proof.
  intros Hv Hc. unfold ApplyStateObject. rewrite Hv, cloneStateObject_id. destruct cached as [cur|]; [|by left].
  destruct (Hc cur eq_refl) as (Hvc & Hid & Hcur). rewrite Hvc, Hid, cloneStateObject_id, bool_decide_true by done. cbn [negb].
  destruct Hcur as [->|Hnew].
  - right. split; [done|]. rewrite Z.ltb_irrefl, equalStateData_refl; [done|by eapply valid_object_json].
  - left. unfold newer in Hnew. by rewrite (proj2 (Z.ltb_lt _ _) Hnew).
Qed.

(** The reasons for which a cache refuses objects. *)
Definition cache_full (e : goerror) : Prop :=
  e = NewProtocolError ErrorSyncRequired "State cache exceeds configured object limit"
  ∨ e = NewProtocolError ErrorSyncRequired "State cache exceeds configured byte limit".

(** Room for all the objects beside what is cached. *)
Definition objects_bytes (objs : list StateObject) : Z := foldr (fun o n => stateObjectBytes o + n) 0 objs.
Definition has_room (cfg : ClientConfig) (m : gmap (string * string) StateObject) (b : Z) (objs : list StateObject) : Prop :=
  Z.of_nat (size m) + Z.of_nat (length objs) ≤ cc_MaxStateObjects cfg ∧ b + objects_bytes objs ≤ cc_MaxStateBytes cfg.

Lemma stateObjectBytes_nonneg o : 0 ≤ stateObjectBytes o.
Proof. unfold stateObjectBytes, slen. lia. Qed.

Lemma objects_bytes_nonneg objs : 0 ≤ objects_bytes objs.
Proof.
  induction objs as [|o objs IH]; [done|]. change (0 ≤ stateObjectBytes o + objects_bytes objs).
  pose proof (stateObjectBytes_nonneg o). lia.
Qed.

Lemma has_room_next cfg m b o objs :
  has_room cfg m b (o :: objs) →
  let b' := b - (match m !! Identity o with Some x => stateObjectBytes x | None => 0 end) + stateObjectBytes o in
  has_room cfg m b objs ∧ has_room cfg (<[Identity o := o]> m) b' objs ∧ b' ≤ cc_MaxStateBytes cfg
  ∧ Z.of_nat (size m) + 1 ≤ cc_MaxStateObjects cfg.
Proof.
  unfold has_room. change (objects_bytes (o :: objs)) with (stateObjectBytes o + objects_bytes objs). cbn [length]. intros [Hn Hb].
  pose proof (stateObjectBytes_nonneg o). pose proof (objects_bytes_nonneg objs).
  assert (0 ≤ match m !! Identity o with Some x => stateObjectBytes x | None => 0 end)
    by (destruct (m !! Identity o); [apply stateObjectBytes_nonneg|done]).
  assert (size (<[Identity o := o]> m) ≤ S (size m))%nat by (rewrite map_size_insert; destruct (m !! Identity o); cbn; lia).
  cbv zeta. split_and!; lia.
Qed.

(** A cache of archived objects takes the current ones, unless it has no room
    for them. *)
Lemma apply_loop_current cfg A m b objs :
  archive_ok A → map_Forall (fun id o => Identity o = id ∧ archived A o ∧ ValidateStateObject o (cc_Limits cfg) = Ok tt) m →
  Forall (fun o => ValidateStateObject o (cc_Limits cfg) = Ok tt ∧ current A (Identity o) = Some o) objs →
  match apply_loop cfg m b objs with
  | Ok (m', _, _) => (∀ o, o ∈ objs → m' !! Identity o = Some o) ∧ (∀ id, id ∉ map Identity objs → m' !! id = m !! id)
  | Err e => cache_full e ∧ ¬ has_room cfg m b objs
  end.
Proof.
  intros HA. revert m b. induction objs as [|o objs IH]; intros m b Hm Hall.
  { cbn. split; [by intros o ?%elem_of_nil|done]. }
  apply Forall_cons in Hall as [[Hv Hcur] Hall]. cbn [apply_loop].
  assert (archived A o) as Ho by by eapply current_archived.
  assert (∀ m1 b1, map_Forall (fun id o => Identity o = id ∧ archived A o ∧ ValidateStateObject o (cc_Limits cfg) = Ok tt) m1 →
    m1 !! Identity o = Some o → (∀ id, id ≠ Identity o → m1 !! id = m !! id) →
    (has_room cfg m b (o :: objs) → has_room cfg m1 b1 objs) →
    match apply_loop cfg m1 b1 objs with
    | Ok (m', _, _) => (∀ x, x ∈ o :: objs → m' !! Identity x = Some x)
        ∧ (∀ id, id ∉ map Identity (o :: objs) → m' !! id = m !! id)
    | Err e => cache_full e ∧ ¬ has_room cfg m b (o :: objs)
    end) as Hrest.
  { intros m1 b1 Hm1 Hin Hsame Hroom. specialize (IH m1 b1 Hm1 Hall). destruct (apply_loop cfg m1 b1 objs) as [[[m' b'] acts]|e].
    2:{ split; [by apply IH|]. intros Hr. by apply IH, Hroom. }
    destruct IH as [IH1 IH2]. split.
    - intros x [->|Hx]%elem_of_cons; [|by apply IH1]. destruct (decide (Identity o ∈ map Identity objs)) as [Hd|Hd].
      + apply list_elem_of_fmap in Hd as (y & Hy & Hyin). rewrite Hy, (IH1 y Hyin). rewrite Forall_forall in Hall.
        destruct (Hall y Hyin) as [_ Hcy]. rewrite <- Hy in Hcy. congruence.
      + by rewrite IH2.
    - cbn [map]. intros id [Hne Hn]%not_elem_of_cons. by rewrite IH2, Hsame. }
  destruct (ApplyStateObject_current (m !! Identity o) o (cc_Limits cfg) Hv) as [->|[Hin ->]].
  - intros cur Hc. destruct (Hm _ _ Hc) as (Hid & Har & Hvc). split_and!; [done|done|].
    destruct (archived_current A cur HA Har) as (x & Hx & Hcmp). rewrite Hid in Hx. rewrite Hcur in Hx. by injection Hx as <-.
  - rewrite bool_decide_false by done. pose proof (has_room_next cfg m b o objs) as Hnext. cbv zeta in Hnext.
    destruct (_ && _) eqn:E1.
    { split; [by left|]. intros (_ & _ & _ & Hn)%Hnext. apply andb_true_iff in E1 as [_ E1]. lia. }
    cbn [guard_err mbind result_mbind]. cbv zeta. destruct (cc_MaxStateBytes cfg <? _) eqn:E2; cbn [guard_err mbind result_mbind].
    { split; [by right|]. intros (_ & _ & Hb & _)%Hnext. lia. }
    cbn [guard_err mbind result_mbind].
    match goal with |- context [apply_loop cfg ?m1 ?b1 objs] => specialize (Hrest m1 b1) end.
    destruct (apply_loop cfg _ _ objs) as [[[m' b'] acts]|e]; cbn [mbind result_mbind];
      (apply Hrest; [by apply map_Forall_insert_2|by rewrite lookup_insert_eq|intros id Hid; by rewrite lookup_insert_ne|by intros (_ & ? & _)%Hnext]).
  - rewrite bool_decide_true by done. apply Hrest; [done..|]. by intros (? & _)%has_room_next.
Qed.

(** A cache of archived objects that took the current ones. *)
Lemma current_cache (A : archive) (m next : gmap (string * string) StateObject) nss objects ns id :
  archive_ok A → map_Forall (fun id o => Identity o = id ∧ archived A o) m → current_of A nss objects →
  (∀ o, o ∈ objects → next !! Identity o = Some o) → (∀ id, id ∉ map Identity objects → next !! id = m !! id) →
  ns ∈ nss → next !! (ns, id) = current A (ns, id).
Proof.
  intros HA Hm Hobj Hin Hout Hns. destruct (current A (ns, id)) as [o|] eqn:Ec.
  - destruct (current_archived _ _ _ HA Ec) as [_ Hid]. rewrite <- Hid. apply Hin, Hobj. rewrite Hid.
    split; [|done]. by injection Hid as -> _.
  - destruct (next !! (ns, id)) as [o|] eqn:En; [|done]. exfalso.
    destruct (decide ((ns, id) ∈ map Identity objects)) as [Hd|Hd].
    + apply list_elem_of_fmap in Hd as (x & Hx & Hxin). apply Hobj in Hxin as [_ Hxin]. rewrite <- Hx in Hxin. congruence.
    + rewrite Hout in En by done. destruct (Hm _ _ En) as [Hid Har].
      destruct (archived_current _ _ HA Har) as (x & Hx & _). rewrite Hid in Hx. congruence.
Qed.
End catch_up.

(** ** The properties *)

Section properties.
Context {ST : StdText} {D : Type} `{!StateStore D, !StateSnapshotProvider D, !Archived D, !StateStoreLaws D}.

(** C13. The State caches are replicas of the store, behind it but never wrong.
    Take any State store that keeps its contract, an application that writes
    and publishes committed objects, a server over the store, and any number
    of new clients, and let them act in any order, over a network that loses,
    repeats and reorders what the server sends.  Then every object in a
    client's cache was committed to the store for that very identity, at a
    version the store still has or has passed.  The client has it as the
    encoder printed it: the same identity and version, and the data in compact
    form with [<], [>], [&], U+2028 and U+2029 escaped, which denotes the very
    value that was committed (for data already in that form it is the same
    object).  And when two clients cache an object at one version, they cache
    the same object.  One condition is put on what the application writes:
    versions are 64-bit, as their Go type says, and data is nested at most
    9,997 deep, since a frame adds three levels to it and the scanner reads
    10,000. *)
Theorem replicas_truthful c (d : D) A cls s :
  stands d A → all_shallow A → Forall new_client cls → replicas_run c (mkReplicas d [] [] cls) s →
  ∃ A', stands (rs_store s) A' ∧ grown A A'
    ∧ (∀ cl ns id o, cl ∈ rs_clients s → StateObject_of cl ns id = Some o →
         ∃ x cur, x ∈ A' (ns, id) ∧ o = wire_form x
           ∧ (∃ v v', json_value (so_Data x) = Some v ∧ json_value (so_Data o) = Some v' ∧ denote v' = denote v)
           ∧ current A' (ns, id) = Some cur ∧ so_Version o ≤ so_Version cur)
    ∧ (∀ cl1 cl2 ns id o1 o2, cl1 ∈ rs_clients s → cl2 ∈ rs_clients s →
         StateObject_of cl1 ns id = Some o1 → StateObject_of cl2 ns id = Some o2 →
         so_Version o1 = so_Version o2 → o1 = o2).
Proof.
  intros HA Hp Hn Hrun. destruct (replicas_run_mirrored c _ _ _ Hrun (new_mirrored d A cls HA Hp Hn)) as (A' & Hm & Hg).
  pose proof (stands_ok _ _ (mi_stands _ _ Hm)) as HA'.
  assert (∀ cl ns id o, cl ∈ rs_clients s → StateObject_of cl ns id = Some o →
            archived (wired A') o ∧ Identity o = (ns, id)) as Hin.
  { intros cl ns id o Hcl Ho. pose proof (mi_clients _ _ Hm) as Hcls. rewrite Forall_forall in Hcls.
    destruct (Hcls cl Hcl) as [Hi Hc]. apply fmap_Some in Ho as (o' & Ho & ->). rewrite cloneStateObject_id.
    split; [by apply (Hc _ _ Ho)|]. by apply (inv_cache _ Hi). }
  exists A'. split_and!; [apply Hm|done|..].
  - intros cl ns id o Hcl Ho. destruct (Hin _ _ _ _ Hcl Ho) as [(x & Hx & ->)%archived_wired Hid].
    rewrite wire_form_Identity in Hid. assert (archived A' x) as Har by done. rewrite wire_form_Identity, Hid in Hx.
    destruct (archived_current _ _ HA' Har) as (cur & Hcur & Hcmp). rewrite Hid in Hcur.
    exists x, cur. split_and!; [done|done|by apply wire_form_denotes, (mi_shallow _ _ Hm)|done|].
    unfold newer in Hcmp. cbn. destruct Hcmp as [->|]; lia.
  - intros cl1 cl2 ns id o1 o2 H1 H2 Ho1 Ho2 Hv. destruct (Hin _ _ _ _ H1 Ho1), (Hin _ _ _ _ H2 Ho2).
    eapply archived_version; [by apply wired_ok, HA'|done|done|congruence|done].
Qed.

(** C12. A resume with State brings a client up to date.  In the same system,
    let a client in any state send the RESUME of [ResumeWithState] and receive
    the batch the server answers with.  The batch carries the objects
    [provided] that were current, in the requested namespaces, in the archive
    [A1] the store stood for at a moment of the server's call ([taken_at]:
    the trace is cut at the snapshot), even while the application goes on
    writing.  If the client's cache takes them, it ends READY, has delivered
    the missed EVENTs, and for every requested namespace its cache holds
    exactly the objects current in [A1], in the form the encoder printed them.
    The cache refuses them only for its limits on objects and bytes, never as
    a conflict, and never when it has room for all of them beside what it
    holds; then the client delivers nothing, disconnects and keeps what it
    had.  Both ends use the same limits and strictness, the replay fits the
    client's limits, and the data the application writes is nested at most
    9,997 deep. *)
Theorem state_catches_up c (d : D) A cls s cl g namespaces now c1 frame t r err d' got now' :
  stands d A → all_shallow A → Forall new_client cls → replicas_run c (mkReplicas d [] [] cls) s →
  cl ∈ rs_clients s → ResumeWithState cl g namespaces now = (c1, Ok [SendFrameAction frame]) →
  cc_Limits (c_config cl) = sv_Limits c → cc_StrictValidation (c_config cl) = sv_StrictValidation c →
  sv_MaxReplayEvents c ≤ cc_MaxReplayEvents (c_config cl) →
  traces (handleResume c frame) t (Normal (r, err)) → hr_readySessionID r ≠ "" → consulted (rs_store s) t d' got →
  ∃ A0 A1 A2 batch events provided objects,
    stands (rs_store s) A0 ∧ grown A0 A1 ∧ grown A1 A2 ∧ stands d' A2
    ∧ taken_at (rs_store s) t d' (sortStrings namespaces) provided A1 ∧ objects ≡ₚ map wire_form provided
    ∧ ob_batches (observed t) = [batch] ∧ ob_replayed (observed t) = Some events
    ∧ (buffer_bytes events ≤ cc_MaxReplayBytes (c_config cl) →
       let '(c2, actions) := receive c1 batch now' in
       match apply_loop (c_config cl) (c_stateObjects cl) (c_stateBytes cl) objects with
       | Ok _ =>
           c_state c2 = StateReady ∧ delivered (actions_of actions) = events
           ∧ ∀ ns id, ns ∈ namespaces → StateObject_of c2 ns id = wire_form <$> current A1 (ns, id)
       | Err e =>
           cache_full e ∧ ¬ has_room (c_config cl) (c_stateObjects cl) (c_stateBytes cl) objects
           ∧ c_state c2 = StateDisconnected ∧ delivered (actions_of actions) = [] ∧ c_stateObjects c2 = c_stateObjects cl
       end).
Proof.
  intros HA Hp Hn Hrun Hcl HR Hlim Hstrict Hmax Ht Hready Hcon.
  destruct (replicas_run_mirrored c _ _ _ Hrun (new_mirrored d A cls HA Hp Hn)) as (A0 & Hm & _).
  pose proof (mi_clients _ _ Hm) as Hcls. rewrite Forall_forall in Hcls. destruct (Hcls cl Hcl) as [Hi Hcache].
  destruct (resume_with_state_ok c cl g namespaces now c1 frame t r err now' Hi HR Hlim Hstrict Hmax Ht Hready)
    as (batch & events & mark & provided & objects & Hb & He & _ & Hprov & Hperm & _ & _ & Hrec).
  destruct (holds_traces _ _ _ _ _ _ (handleResume_holds c frame) Ht) as (o' & Hw & _).
  unfold observed in Hprov. rewrite Hw in Hprov. cbn [default] in Hprov.
  destruct (consulted_snapshot _ _ _ _ _ _ _ _ _ Hcon (mi_stands _ _ Hm) (mi_shallow _ _ Hm) Hw Hprov ltac:(done))
    as (A1 & A2 & Hg1 & Hg2 & HA1 & Hp1 & HA2 & Htaken).
  assert (current_of A1 (sortStrings namespaces) provided) as Hcur by (by destruct Htaken as (? & ? & ? & ? & ? & ? & H); apply H).
  assert (Forall shallow provided) as Hshallow.
  { apply Forall_forall. intros o Ho. apply Hp1. apply Hcur in Ho as [_ Ho]. by eapply current_archived. }
  destruct (Hrec Hshallow) as [Hval Hend]. exists A0, A1, A2, batch, events, provided, (map wire_form objects).
  split_and!; [apply Hm|done..|by rewrite Hperm|done|done|]. intros Hbytes. specialize (Hend Hbytes).
  destruct (receive c1 batch now') as [c2 actions]. unfold resumed_with_state in Hend.
  assert (map_Forall (fun id o => Identity o = id ∧ archived (wired A1) o ∧ ValidateStateObject o (cc_Limits (c_config cl)) = Ok tt)
            (c_stateObjects cl)) as Hold.
  { intros id o Ho. destruct (Hcache _ _ Ho).
    split_and!; [by apply (inv_cache _ Hi)|by eapply grown_archived; [apply wired_grown|]|done]. }
  assert (current_of (wired A1) (sortStrings namespaces) (map wire_form objects)) as Hobj by (by eapply wired_current_of).
  pose proof (apply_loop_current (c_config cl) (wired A1) (c_stateObjects cl) (c_stateBytes cl) (map wire_form objects)
                (wired_ok _ HA1) Hold) as Hap.
  specialize (Hap ltac:(apply Forall_forall; intros o Ho; split; [|by apply Hobj]; rewrite Forall_forall in Hval; by apply Hval)).
  destruct (apply_loop _ _ _ _) as [[[next bytes] acts]|e] eqn:Hloop.
  - destruct Hend as (-> & Hst & _ & Hnext). destruct Hap as [Hap1 Hap2]. split_and!; [done|..].
    + destruct (apply_loop_ok _ _ _ _ _ _ _ (inv_cache _ Hi) Hloop) as (_ & _ & Hsa). cbn [actions_of].
      rewrite !delivered_app, delivered_map, delivered_state by done. cbn. by rewrite app_nil_r.
    + intros ns id Hns. unfold StateObject_of.
      rewrite Hnext, (current_cache (wired A1) (c_stateObjects cl) next (sortStrings namespaces) (map wire_form objects));
        [|by apply wired_ok| |done|done|done|by rewrite (proj2 (sortStrings_spec namespaces))].
      * rewrite wired_current. destruct (current A1 (ns, id)) as [o|]; [cbn; by rewrite cloneStateObject_id|done].
      * intros id' o Ho. by destruct (Hold id' o Ho) as (? & ? & _).
  - destruct Hend as (-> & Hst & _ & Hsame), Hap as [Hfull Hroom]. by split_and!.
Qed.
End properties.

(** ** The server over a list of objects *)

Section memory.
Context {ST : StdText}.

Lemma memory_consulted {A} (p : prog A) m m' t a :
  exec memory_world p m = Some (m', t, a) → consulted (mm_states m) t (mm_states m') [] ∧ mm_states m' = mm_states m.
Proof.
  revert m t. induction p as [b|X e k IH]; intros m t; cbn; [intros [= <- <- _]; split; [constructor|done]|].
  destruct (memory_world X e m) as [[m1 x]|] eqn:Hw; [|done]. cbn.
  destruct (exec memory_world (k x) m1) as [[[m2 t'] a']|] eqn:Hx; [|done]. cbn. intros [= <- <- <-].
  destruct (IH x m1 t' Hx) as [IHc IHm].
  assert (mm_states m1 = mm_states m) as Hm1.
  { destruct e; cbn in Hw; unfold next_id in Hw; repeat case_match; by simplify_eq. }
  rewrite Hm1 in *. split; [|done].
  destruct e; cbn in Hw; try (by apply con_skip); injection Hw as <- <-; by constructor.
Qed.

Lemma replicas_serve_memory c call m out known wire cls :
  (run_memory (server_call c call) m).2 = Some out → published call ⊆ known →
  replicas_step c (mkReplicas (mm_states m) known wire cls)
    (mkReplicas (mm_states m) known (wire ++ handed (memory_trace (server_call c call) m)) cls).
Proof.
  intros Hr Hpub. pose proof (memory_trace_traces _ _ _ Hr) as Ht. unfold run_memory, memory_trace in *.
  destruct (exec memory_world (server_call c call) m) as [[[m1 t] o]|] eqn:E; [|done].
  destruct (memory_consulted _ _ _ _ _ E) as [Hc Hm]. rewrite Hm in Hc. rewrite <- (app_nil_r known) at 2.
  by eapply rs_serve.
Qed.

(** Client calls that take their STATE frames from the wire. *)
Definition state_taken (wire : list Envelope) (op : ClientOp) : bool :=
  match op with
  | OpHandleIncoming _ f _ =>
      (e_Type f != FrameStateSnapshot) && (e_Type f != FrameStateUpdate) || bool_decide (f ∈ wire)
  | _ => true
  end.

Lemma replicas_use_all {D : Type} `{!StateStore D, !StateSnapshotProvider D} c (d : D) known wire cl ops :
  Forall op_typed ops → forallb (state_taken wire) ops = true →
  replicas_run c (mkReplicas d known wire [cl])
    (mkReplicas d known wire [foldl (fun cl op => (client_step cl op).1) cl ops]).
Proof.
  revert cl. induction ops as [|op ops IH]; intros cl Hty Hok; [constructor|].
  apply Forall_cons in Hty as [Ht Hty]. cbn [forallb] in Hok. apply andb_true_iff in Hok as [Ho Hok]. cbn [foldl].
  eapply replicas_next; [|by apply IH]. destruct (client_step cl op) as [cl' r] eqn:Hs. cbn [fst].
  eapply (rs_use c d known wire [cl] 0 cl op cl' r); [done|exact Hs|exact Ht|]. intros g f now -> Hf. cbn in Ho.
  apply orb_true_iff in Ho as [Ho|Ho]; [|by bools]. bools. by destruct Hf.
Qed.
End memory.

(** The application commits a new version of an object, with white space and a
    [<] in its data, and publishes it; a client of the Session receives the
    update, and caches the printed form. *)
Section demo.
#[local] Existing Instance demo_text.

Definition demo_rep_object : StateObject := mkStateObject "room" "a" 5 (js "{ 't': 'a<b' }").
Definition demo_rep_store : list StateObject := (list_Apply demo_objects demo_rep_object).1.
Definition demo_rep_memory : memory := demo_memory <| mm_states := demo_rep_store |>.
Definition demo_rep_call : ServerCall := CallPublishStateUpdate "s1" "u1" demo_rep_object.
Definition demo_rep_wire : list Envelope := handed (memory_trace (server_call demo_server demo_rep_call) demo_rep_memory).
Definition demo_rep_ops : list ClientOp :=
  take 5 demo_sync_ops ++ [OpHandleIncoming 1 (default zeroEnvelope (head demo_rep_wire)) 0].
Definition demo_rep_client : ClientProtocol := foldl (fun cl op => (client_step cl op).1) demo_sync_client demo_rep_ops.

Lemma shallow_all l :
  forallb (fun o => bool_decide (is_u64 (so_Version o)) && data_within (maxNestingDepth - 3) (so_Data o)) l = true →
  Forall shallow l.
Proof.
  intros Hl. apply List.Forall_forall. intros o Ho. eapply forallb_forall in Hl; [|exact Ho].
  apply andb_true_iff in Hl as [Hv Ho']. by apply bool_decide_eq_true in Hv.
Qed.

Lemma demo_objects_shallow : all_shallow (fun id => option_list (list_Get demo_objects id)).
Proof.
  intros o Ho. unfold archived in Ho. destruct (list_Get demo_objects (Identity o)) as [x|] eqn:E; [|by apply elem_of_nil in Ho].
  cbn in Ho. apply list_elem_of_singleton in Ho as ->. apply find_some in E as [Hin _].
  enough (Forall shallow demo_objects) as H by (rewrite List.Forall_forall in H; by apply H).
  apply shallow_all. vm_compute. reflexivity.
Qed.

Lemma demo_objects_stand : stands demo_objects (fun id => option_list (list_Get demo_objects id)).
Proof. apply list_stands. vm_compute. repeat constructor; set_solver. Qed.

Lemma demo_sync_new : new_client demo_sync_client.
Proof. exists demo_sync_config. split; vm_compute; [repeat split; congruence|reflexivity]. Qed.

Lemma demo_rep_sent : ∃ out, (run_memory (server_call demo_server demo_rep_call) demo_rep_memory).2 = Some out.
Proof. eexists. vm_compute. reflexivity. Qed.

Lemma demo_rep_run :
  replicas_run demo_server (mkReplicas demo_objects [] [] [demo_sync_client])
    (mkReplicas demo_rep_store [demo_rep_object] demo_rep_wire [demo_rep_client]).
Proof.
  eapply replicas_next with (s1 := mkReplicas demo_rep_store [demo_rep_object] [] [demo_sync_client]).
  { eapply (rs_apply demo_server demo_objects demo_rep_store [] [demo_rep_object]).
    eapply (con_apply _ demo_rep_object demo_rep_store (demo_rep_object, Some StateApplyApplied, None) [] _ []).
    - vm_compute. reflexivity.
    - split; [vm_compute; split; congruence|vm_compute; reflexivity].
    - constructor. }
  eapply replicas_next with (s1 := mkReplicas demo_rep_store [demo_rep_object] demo_rep_wire [demo_sync_client]).
  { destruct demo_rep_sent as [out Hout].
    exact (replicas_serve_memory demo_server demo_rep_call demo_rep_memory out [demo_rep_object] [] [demo_sync_client] Hout
             ltac:(done)). }
  apply replicas_use_all; [apply ops_typed_all; vm_compute; reflexivity|vm_compute; reflexivity].
Qed.

Definition demo_rep_printed : StateObject := mkStateObject "room" "a" 5 (js "{'t':'a\u003cb'}").

Lemma demo_rep_cached : StateObject_of demo_rep_client "room" "a" = Some demo_rep_printed.
Proof. vm_compute. reflexivity. Qed.

Lemma replicas_truthful_witness :
  StateObject_of demo_rep_client "room" "a" = Some demo_rep_printed
  ∧ ∃ A x, stands demo_rep_store A ∧ x ∈ A ("room", "a") ∧ demo_rep_printed = wire_form x.
Proof.
  split; [exact demo_rep_cached|].
  destruct (replicas_truthful demo_server demo_objects (fun id => option_list (list_Get demo_objects id)) [demo_sync_client] _
              demo_objects_stand demo_objects_shallow (Forall_cons_2 _ _ _ demo_sync_new (Forall_nil_2 _)) demo_rep_run)
    as (A & HA & _ & Hin & _).
  destruct (Hin demo_rep_client "room" "a" demo_rep_printed ltac:(constructor) demo_rep_cached) as (x & cur & Hx & E & _).
  exists A, x. split; [exact HA|]. split; [exact Hx|exact E].
Defined.

Lemma client_run_fold c log ops : (client_run c log ops).1 = foldl (fun cl op => (client_step cl op).1) c ops.
Proof.
  revert c log. induction ops as [|op ops IH]; intros c log; [done|]. cbn. by destruct (client_step c op) as [c' r].
Qed.

Lemma demo_sync_run :
  replicas_run demo_server (mkReplicas demo_objects [] [] [demo_sync_client]) (mkReplicas demo_objects [] [] [demo_sync_back]).
Proof.
  unfold demo_sync_back. rewrite client_run_fold.
  apply replicas_use_all; [apply ops_typed_all; vm_compute; reflexivity|vm_compute; reflexivity].
Qed.

Lemma demo_sync_consulted : consulted demo_objects demo_sync_trace demo_objects [].
Proof.
  assert (mm_states demo_memory = demo_objects) as <- by (vm_compute; reflexivity). unfold demo_sync_trace, memory_trace.
  destruct (exec memory_world (handleResume demo_server demo_sync_frame) demo_memory) as [[[m t] o]|] eqn:E; [|constructor].
  destruct (memory_consulted _ _ _ _ _ E) as [Hc Hm]. by rewrite Hm in Hc.
Qed.

Lemma demo_sync_bytes events :
  ob_replayed (observed demo_sync_trace) = Some events → buffer_bytes events ≤ cc_MaxReplayBytes (c_config demo_sync_back).
Proof.
  intros He. assert (match ob_replayed (observed demo_sync_trace) with
    | Some l => buffer_bytes l <=? cc_MaxReplayBytes (c_config demo_sync_back) | None => false end = true) as E
    by (vm_compute; reflexivity).
  rewrite He in E. by apply Z.leb_le.
Qed.

Lemma state_catches_up_witness :
  c_state demo_sync_end.1 = StateReady
  ∧ ∃ A, ∀ id, StateObject_of demo_sync_end.1 "room" id = wire_form <$> current A ("room", id).
Proof.
  pose proof demo_sync_result as (Hready & _). split; [exact Hready|].
  destruct (state_catches_up demo_server demo_objects (fun id => option_list (list_Get demo_objects id)) [demo_sync_client]
              (mkReplicas demo_objects [] [] [demo_sync_back]) demo_sync_back 2 ["room"] 7 demo_sync_sent.1 demo_sync_frame
              demo_sync_trace (mkHandleResult "s1" demo_capabilities false false) None demo_objects [] 9
              demo_objects_stand demo_objects_shallow (Forall_cons_2 _ _ _ demo_sync_new (Forall_nil_2 _)) demo_sync_run
              ltac:(constructor) demo_sync_sends)
    as (A0 & A1 & A2 & batch & events & provided & objects & _ & _ & _ & _ & _ & _ & Hb & He & H).
  - vm_compute. reflexivity.
  - vm_compute. reflexivity.
  - vm_compute. congruence.
  - exact demo_sync_runs.
  - discriminate.
  - exact demo_sync_consulted.
  - exists A1. revert Hready. unfold demo_sync_end. rewrite Hb. cbn [head default]. unfold id.
    specialize (H (demo_sync_bytes _ He)). destruct (receive demo_sync_sent.1 batch 9) as [c2 r]. intros Hready.
    destruct (apply_loop _ _ _ _); [|destruct H as (_ & _ & Hst & _); cbn [fst] in Hready; rewrite Hst in Hready; discriminate Hready].
    destruct H as (_ & _ & H). intros oid. apply H. constructor.
Defined.
End demo.
