(* ===== verification/Basic.v ===== *)
(** * The example program (examples/basic/main.go)

    One client, one server over the memory stores and one admission gate in a
    single goroutine: a Session, a SEND, an EVENT, a lost transport, an EVENT
    while offline, and a resume.  [main] is a program over the state of all
    parts and the lines printed so far; it stops ([None]) where the source
    panics or would wait for ever. *)

From Stdlib Require Import Ascii String.
From S2P Require Import Prelude Utf8 Json Types Ids Codec Capability State Validate Outbound Store Client Sha256 Program Server ServerStream MemoryServer Admission.
Open Scope string_scope.
Open Scope list_scope.
Open Scope go_scope.
Open Scope Z_scope.

Module Basic.

(** The parts; [b_memory] holds the stores and the clock. *)
Record state := mkState {
  b_client : ClientProtocol;
  b_memory : memory;
  b_gate : ServerAdmission;
  b_queues : list OutboundQueue;
  b_printed : list string
}.
#[export] Instance state_eta : Eta state := fun s =>
  mkState (b_client s) (b_memory s) (b_gate s) (b_queues s) (b_printed s).

Definition io (A : Type) : Type := state → option (A * state).
#[export] Instance io_ret : MRet io := fun A a s => Some (a, s).
#[export] Instance io_bind : MBind io := fun A B f p s =>
  match p s with Some (a, s') => f a s' | None => None end.

Definition panic {A} : io A := fun _ => None.
Definition gets {A} (f : state → A) : io A := fun s => Some (f s, s).
Definition Println (line : string) : io unit := fun s =>
  Some (tt, s <| b_printed := b_printed s ++ [line] |>).

Definition must (err : option goerror) : io unit :=
  match err with Some _ => panic | None => mret tt end.
Definition must_res {A} (r : res A) : io A := match r with Ok a => mret a | Err _ => panic end.

(** A method of the client; the clock stands still. *)
Definition client {A} (f : time → ClientProtocol → ClientProtocol * A) : io A := fun s =>
  let '(c, a) := f (mm_now (b_memory s)) (b_client s) in Some (a, s <| b_client := c |>).

Fixpoint sendFrame (actions : list Action) : io Envelope :=
  match actions with
  | SendFrameAction frame :: _ => mret frame
  | _ :: actions => sendFrame actions
  | [] => panic
  end.

Definition next (queue : nat) : io Envelope := fun s =>
  match b_queues s !! queue with
  | Some q =>
      match Next q with
      | (NextFrame frame, q) => Some (frame, s <| b_queues := <[queue := q]> (b_queues s) |>)
      | _ => None
      end
  | None => None
  end.

Definition assistantApp_HandleSend (idempotencyKey payload : string) : io unit :=
  Println ("application accepted SEND id=" +++ idempotencyKey +++ " content=" +++ payload).

Section run.
Context {ST : StdText}.

(** What the server's calls do: the application prints, the generator of
    Session identifiers is constant, the rest are the memory stores and the
    queue of the call. *)
Definition collaborators : world state := fun X e =>
  match e in eff X return state → option (state * X) with
  | ENewSessionID => fun s => Some (s, CRet "s_demo")
  | EHandleSend id payload => fun s =>
      match assistantApp_HandleSend id payload s with Some (_, s) => Some (s, CRet tt) | None => None end
  | e => fun s =>
      match memory_world _ e (b_memory s) with
      | Some (m, x) => Some (s <| b_memory := m |>, x)
      | None => None
      end
  end.

(** Give the call the queue it names, and keep what became of it. *)
Definition with_queue {A} (queue : nat) (call : state → option (A * state)) : io A := fun s =>
  match b_queues s !! queue with
  | Some q =>
      let connected := (b_memory s) <| mm_outbound := q |> in
      match call (s <| b_memory := connected |>) with
      | Some (a, s) => Some (a, s <| b_queues := <[queue := mm_outbound (b_memory s)]> (b_queues s) |>)
      | None => None
      end
  | None => None
  end.

Definition admission_Replace : io (ConnectionGeneration * nat) := fun s =>
  let '(a, queues, r) := Replace (b_gate s) (b_queues s) in
  Some (r, s <| b_gate := a |> <| b_queues := queues |>).

Definition admission_Handle (server : ServerConfig) (generation : ConnectionGeneration) (queue : nat)
    (frame : Envelope) : io (option goerror) :=
  with_queue queue (fun s =>
    match Handle server collaborators true (b_gate s) s generation frame with
    | Some (a, s, err) => Some (err, s <| b_gate := a |>)
    | None => None
    end).

Definition server_PublishEvent (server : ServerConfig) (sessionID eventID eventType content : string)
    (queue : nat) : io (option goerror) :=
  with_queue queue (fun s =>
    match exec collaborators (PublishEvent server sessionID eventID eventType content true) s with
    | Some (s, _, Normal err) => Some (err, s)
    | _ => None
    end).

Definition main_server : res ServerConfig :=
  NewServerProtocol DefaultServerConfig
    (mkServerDependencies true true (Some (DedupRetentionTTL (NewMemoryDedupStore (24 * Hour)))) true true true).

Definition main_client : res ClientProtocol := NewClientProtocol DefaultClientConfig.

Definition session_of : io string := gets (fun s => Client_SessionID (b_client s)).
Definition last_seq : io Z := gets (fun s => Client_LastSeq (b_client s)).

Definition main : io unit :=
  server ← must_res main_server;
  '(serverGeneration, serverOutbound) ← admission_Replace;
  clientGeneration ← client (fun _ => BeginConnect);
  r ← client (fun _ c => TransportConnected c clientGeneration); _ ← must_res r;
  r ← client (fun _ c => StartSession c clientGeneration "example-client"); helloActions ← must_res r;
  frame ← sendFrame helloActions;
  err ← admission_Handle server serverGeneration serverOutbound frame; _ ← must err;
  welcome ← next serverOutbound;
  r ← client (fun now c => HandleIncoming c clientGeneration welcome now); readyActions ← must_res r;
  sid ← session_of;
  _ ← Println ("session ready: " +++ sid +++ " (" +++ Z_dec (Z.of_nat (length readyActions)) +++ " action)");
  r ← client (fun now c => EnqueueSend c "msg_01" (js "{'text':'hello protocol'}") now); sendActions ← must_res r;
  frame ← sendFrame sendActions;
  err ← admission_Handle server serverGeneration serverOutbound frame; _ ← must err;
  ack ← next serverOutbound;
  r ← client (fun now c => HandleIncoming c clientGeneration ack now); acked ← must_res r;
  _ ← Println ("SEND acknowledged (" +++ Z_dec (Z.of_nat (length acked)) +++ " action)");
  sid ← session_of;
  err ← server_PublishEvent server sid "evt_01" "message.new" (js "{'text':'hello client'}") serverOutbound;
  _ ← must err;
  event ← next serverOutbound;
  r ← client (fun now c => HandleIncoming c clientGeneration event now); delivered ← must_res r;
  seq ← last_seq;
  _ ← Println ("delivered EVENT seq=" +++ Z_dec seq +++ " (" +++ Z_dec (Z.of_nat (length delivered)) +++ " action)");
  r ← client (fun _ c => Disconnect c clientGeneration); _ ← must_res r;
  sid ← session_of;
  err ← server_PublishEvent server sid "evt_02" "message.new" (js "{'text':'while offline'}") serverOutbound;
  _ ← must err;
  '(serverGeneration, serverOutbound) ← admission_Replace;
  clientGeneration ← client (fun _ => BeginConnect);
  r ← client (fun _ c => TransportConnected c clientGeneration); _ ← must_res r;
  r ← client (fun now c => Resume c clientGeneration now); resumeActions ← must_res r;
  frame ← sendFrame resumeActions;
  err ← admission_Handle server serverGeneration serverOutbound frame; _ ← must err;
  resumeWelcome ← next serverOutbound;
  r ← client (fun now c => HandleIncoming c clientGeneration resumeWelcome now); _ ← must_res r;
  replayed ← next serverOutbound;
  r ← client (fun now c => HandleIncoming c clientGeneration replayed now); recovered ← must_res r;
  state ← gets (fun s => Client_State (b_client s));
  seq ← last_seq;
  Println ("resume complete: state=" +++ ConnectionState_String state +++ " last_seq=" +++ Z_dec seq
             +++ " (" +++ Z_dec (Z.of_nat (length recovered)) +++ " actions)").

(** The state in which [main] makes its first call; [None] when the client
    cannot be made. *)
Definition start : option state :=
  match main_client with
  | Ok c => Some (mkState c (new_memory (NewFakeClock (1786821000 * Second)) [] []) NewServerAdmission [] [])
  | Err _ => None
  end.

(** The example runs to its end without a panic and without waiting, and this
    is its output, whatever the texts of library errors. *)
Theorem main_runs :
  (match start with Some s => main s | None => None end) ≫= (fun r => Some (b_printed r.2)) =
  Some ["session ready: s_demo (1 action)";
        "application accepted SEND id=msg_01 content=" +++ js "{'text':'hello protocol'}";
        "SEND acknowledged (1 action)";
        "delivered EVENT seq=1 (1 action)";
        "resume complete: state=READY last_seq=2 (2 actions)"].
Proof. vm_compute. reflexivity. Qed.
End run.
End Basic.
